(** * LyriXStudio: the lyric conversion engine of [src/utils/lyrics.ts]

    A shallow embedding of the timestamp codec, the LRC/ELRC and TTML
    parsers, the TTML generator's timing-mode label and the shift utility,
    with the properties the specification states about them: the order of
    the parsed lines, the inferred end times, the frame of the shift, and
    how close to a time the text made of it reads back.  The LRC
    generators, the handlers of the editor, the active line of the preview
    and the undo history of the application are embedded too, with the
    properties their code shows.

    JavaScript numbers are IEEE 754 binary64 values.  They are modelled by
    the Standard Library's [spec_float] with [prec = 53] and [emax = 1024],
    so that every arithmetic step of the source rounds exactly as it does
    in an ECMAScript engine.  Strings are sequences of code units in the
    range U+0000..U+00FF ([string]). *)

From Stdlib Require Import ZArith List String Ascii Bool Lia SpecFloat.
From Stdlib Require Import QArith Qabs Sorted Permutation.
Import ListNotations.
Local Open Scope Z_scope.

(** ** ECMAScript Number values *)

Module JsNumber.

Definition prec : Z := 53.
Definition emax : Z := 1024.

Definition number : Type := spec_float.

Definition NaN : number := S754_nan.
Definition Infinity : number := S754_infinity false.
Definition zero : number := S754_zero false.

(** The arithmetic operators [+ - * /] of the language. *)
Definition add : number -> number -> number := SFadd prec emax.
Definition sub : number -> number -> number := SFsub prec emax.
Definition mul : number -> number -> number := SFmul prec emax.
Definition div : number -> number -> number := SFdiv prec emax.

(** The relational operators; any comparison with [NaN] is false. *)
Definition lt (x y : number) : bool := SFltb x y.
Definition gt (x y : number) : bool := SFltb y x.
Definition le (x y : number) : bool := SFleb x y.
Definition ge (x y : number) : bool := SFleb y x.
(** [===] on numbers: [NaN] differs from itself, the two zeros are equal. *)
Definition strictEq (x y : number) : bool := SFeqb x y.

Definition isNaN (x : number) : bool :=
  match x with S754_nan => true | _ => false end.

(** [ToBoolean]: the falsy numbers are [+0], [-0] and [NaN]. *)
Definition truthy (x : number) : bool :=
  match x with
  | S754_zero _ | S754_nan => false
  | _ => true
  end.

(** The Number value of a mathematical integer (round to nearest, ties to
    even). *)
Definition ofZ (z : Z) : number := binary_normalize prec emax z 0 false.

(** The Number value of the decimal [d * 10^x] with [d >= 0], negated when
    [neg]; the quotient by a power of ten is rounded once, from the exact
    ratio. *)
Definition ofDecimal (neg : bool) (d : Z) (x : Z) : number :=
  match d with
  | Z0 => S754_zero neg
  | Zpos p =>
      if 0 <=? x
      then binary_normalize prec emax (cond_Zopp neg (Zpos p * 10 ^ x)) 0 neg
      else SFdiv prec emax (S754_finite neg p 0)
                           (S754_finite false (Z.to_pos (10 ^ (- x))) 0)
  | Zneg _ => NaN
  end.

(** [Math.floor]. *)
Definition floor (x : number) : number :=
  match x with
  | S754_finite s m e =>
      if 0 <=? e then x
      else
        let q := Z.shiftr (Zpos m) (- e) in
        let exact := Zpos m =? Z.shiftl q (- e) in
        if s
        then binary_normalize prec emax (- (if exact then q else q + 1)) 0 true
        else binary_normalize prec emax q 0 false
  | _ => x
  end.

(** The remainder operator [%]: the result has the sign of the dividend
    and is computed exactly. *)
Definition rem (x y : number) : number :=
  match x, y with
  | S754_nan, _ | _, S754_nan => NaN
  | S754_infinity _, _ => NaN
  | _, S754_zero _ => NaN
  | _, S754_infinity _ => x
  | S754_zero _, _ => x
  | S754_finite sx mx ex, S754_finite _ my ey =>
      let e := Z.min ex ey in
      let r := (Zpos mx * 2 ^ (ex - e)) mod (Zpos my * 2 ^ (ey - e)) in
      binary_normalize prec emax (cond_Zopp sx r) e sx
  end.

(** [Math.max] of two arguments. *)
Definition max (x y : number) : number :=
  match x, y with
  | S754_nan, _ | _, S754_nan => NaN
  | S754_zero sx, S754_zero sy => S754_zero (sx && sy)
  | _, _ => if SFltb x y then y else x
  end.

(** The exact value of a finite number, as a rational. *)
Definition toQ (x : number) : Q :=
  match x with
  | S754_finite s m e =>
      let v := if 0 <=? e then inject_Z (Zpos m * 2 ^ e)
               else Qmake (Zpos m) (Z.to_pos (2 ^ (- e))) in
      if s then Qopp v else v
  | _ => 0%Q
  end.

Definition isFinite (x : number) : bool :=
  match x with
  | S754_zero _ | S754_finite _ _ _ => true
  | _ => false
  end.

End JsNumber.

(** ** ECMAScript String operations *)

Module JsString.

Definition chars (s : string) : list ascii := list_ascii_of_string s.
Definition str (l : list ascii) : string := string_of_list_ascii l.

Definition code (c : ascii) : N := N_of_ascii c.

(** [\d] and [0-9]. *)
Definition isDigit (c : ascii) : bool :=
  ((48 <=? code c) && (code c <=? 57))%N.

(** [WhiteSpace] and [LineTerminator] code units below U+0100: TAB, LF, VT,
    FF, CR, SP and NBSP.  This is what [trim] strips and what [\s] matches. *)
Definition isSpace (c : ascii) : bool :=
  let n := code c in
  ((9 <=? n) && (n <=? 13) || (n =? 32) || (n =? 160))%N.

Definition isUpper (c : ascii) : bool := ((65 <=? code c) && (code c <=? 90))%N.
Definition isLower (c : ascii) : bool := ((97 <=? code c) && (code c <=? 122))%N.
Definition isAlnum (c : ascii) : bool := isUpper c || isLower c || isDigit c.

(** [.] in a pattern without the [s] flag: anything but LF and CR. *)
Definition isNotLineTerminator (c : ascii) : bool :=
  negb ((code c =? 10) || (code c =? 13))%N.

Fixpoint dropWhile (p : ascii -> bool) (l : list ascii) : list ascii :=
  match l with
  | c :: l' => if p c then dropWhile p l' else l
  | [] => []
  end.

Fixpoint takeWhile (p : ascii -> bool) (l : list ascii) : list ascii :=
  match l with
  | c :: l' => if p c then c :: takeWhile p l' else []
  | [] => []
  end.

Definition trimStartL (l : list ascii) : list ascii := dropWhile isSpace l.
Definition trimEndL (l : list ascii) : list ascii :=
  rev (dropWhile isSpace (rev l)).
Definition trimL (l : list ascii) : list ascii := trimEndL (trimStartL l).

(** [String.prototype.trim]. *)
Definition trim (s : string) : string := str (trimL (chars s)).

Definition toLowerChar (c : ascii) : ascii :=
  if isUpper c then ascii_of_N (code c + 32) else c.

(** [String.prototype.toLowerCase] on the letters [A-Z]. *)
Definition toLowerCase (s : string) : string :=
  str (map toLowerChar (chars s)).

Fixpoint isPrefixL (p l : list ascii) : bool :=
  match p, l with
  | [], _ => true
  | a :: p', b :: l' => Ascii.eqb a b && isPrefixL p' l'
  | _ :: _, [] => false
  end.

(** [String.prototype.startsWith], [endsWith] and [includes]. *)
Definition startsWith (s p : string) : bool := isPrefixL (chars p) (chars s).
Definition endsWith (s p : string) : bool :=
  isPrefixL (rev (chars p)) (rev (chars s)).

Fixpoint includesL (l p : list ascii) : bool :=
  isPrefixL p l || match l with [] => false | _ :: l' => includesL l' p end.
Definition includes (s p : string) : bool := includesL (chars s) (chars p).

(** [String.prototype.padStart (n, '0')]. *)
Definition padStart0 (n : nat) (s : string) : string :=
  (str (repeat "0"%char (n - String.length s)) ++ s)%string.

(** [String.prototype.split] on a single-character separator. *)
Fixpoint splitOnL (sep : ascii) (cur : list ascii) (l : list ascii)
  : list string :=
  match l with
  | [] => [str (rev cur)]
  | c :: l' =>
      if Ascii.eqb c sep then str (rev cur) :: splitOnL sep [] l'
      else splitOnL sep (c :: cur) l'
  end.
Definition splitOn (sep : ascii) (s : string) : list string :=
  splitOnL sep [] (chars s).

(** [Array.prototype.join]. *)
Definition join (sep : string) (l : list string) : string :=
  match l with
  | [] => ""%string
  | x :: l' => fold_left (fun acc y => (acc ++ sep ++ y)%string) l' x
  end.

(** Decimal digits. *)
Definition digitVal (c : ascii) : Z := Z.of_N (code c) - 48.
Definition digitChar (d : Z) : ascii := ascii_of_N (Z.to_N (d + 48)).

Definition digitsValue (l : list ascii) : Z :=
  fold_left (fun acc c => 10 * acc + digitVal c) l 0.

Fixpoint showDigits (fuel : nat) (n : Z) (acc : list ascii) : list ascii :=
  match fuel with
  | O => acc
  | S f =>
      let acc' := digitChar (n mod 10) :: acc in
      if n <? 10 then acc' else showDigits f (n / 10) acc'
  end.

(** The decimal numeral of a non-negative integer. *)
Definition showZ (n : Z) : string :=
  str (showDigits (S (Z.to_nat (Z.log2 n))) n []).

End JsString.

(** ** Conversions between Number and String *)

Module JsConv.
Import JsNumber JsString.

(** Structural identity of two Number values (both zeros are told apart). *)
Definition sameValue (x y : number) : bool :=
  match x, y with
  | S754_nan, S754_nan => true
  | S754_zero a, S754_zero b => Bool.eqb a b
  | S754_infinity a, S754_infinity b => Bool.eqb a b
  | S754_finite a m e, S754_finite b m' e' =>
      Bool.eqb a b && Pos.eqb m m' && (e =? e')
  | _, _ => false
  end.

(** The integer a finite number denotes, when it denotes one. *)
Definition integerValue (x : number) : option Z :=
  match x with
  | S754_zero _ => Some 0
  | S754_finite s m e =>
      if 0 <=? e then Some (cond_Zopp s (Zpos m * 2 ^ e))
      else
        let q := Z.shiftr (Zpos m) (- e) in
        if Zpos m =? Z.shiftl q (- e) then Some (cond_Zopp s q) else None
  | _ => None
  end.

(** A positive finite number as a ratio of positive integers. *)
Definition ratio (x : number) : Z * Z :=
  match x with
  | S754_finite _ m e =>
      if 0 <=? e then (Zpos m * 2 ^ e, 1) else (Zpos m, 2 ^ (- e))
  | _ => (0, 1)
  end.

Fixpoint leadingZeros (fuel : nat) (N D j : Z) : Z :=
  match fuel with
  | O => j
  | S f => if D <=? N * 10 ^ j then j else leadingZeros f N D (j + 1)
  end.

(** The integer [n] with [10^(n-1) <= N/D < 10^n]. *)
Definition magnitude (N D : Z) : Z :=
  if D <=? N then Z.of_nat (String.length (showZ (N / D)))
  else 1 - leadingZeros 400 N D 1.

(** For [k] digits: the integer [c] nearest to [N/D / 10^(n0-k)] among those
    for which [c * 10^(n0-k)] rounds to [x], if there is one. *)
Definition candidate (x : number) (N D n0 k : Z) : option Z :=
  let p := n0 - k in
  let tn := if 0 <=? p then N else N * 10 ^ (- p) in
  let td := if 0 <=? p then D * 10 ^ p else D in
  let lo := tn / td in
  let r := tn mod td in
  let ok c := (0 <? c) && sameValue (ofDecimal false c p) x in
  if r =? 0 then (if ok lo then Some lo else None)
  else
    match ok lo, ok (lo + 1) with
    | true, true =>
        match 2 * r ?= td with
        | Lt => Some lo
        | Gt => Some (lo + 1)
        | Eq => Some (if Z.even lo then lo else lo + 1)
        end
    | true, false => Some lo
    | false, true => Some (lo + 1)
    | false, false => None
    end.

Fixpoint shortest (fuel : nat) (x : number) (N D n0 k : Z) : Z * Z :=
  match candidate x N D n0 k with
  | Some c => (c, k)
  | None =>
      match fuel with
      | O => (0, k)
      | S f => shortest f x N D n0 (k + 1)
      end
  end.

Definition zeros (n : Z) : string := str (repeat "0"%char (Z.to_nat n)).

(** [Number::toString] for a positive finite number, by the digits [s], their
    count [k] and the decimal exponent [n] of ECMA-262. *)
Definition render (s k n : Z) : string :=
  let ds := showZ s in
  if (k <=? n) && (n <=? 21) then (ds ++ zeros (n - k))%string
  else if (0 <? n) && (n <=? 21) then
    (substring 0 (Z.to_nat n) ds ++ "." ++
     substring (Z.to_nat n) (Z.to_nat (k - n)) ds)%string
  else if (-6 <? n) && (n <=? 0) then ("0." ++ zeros (- n) ++ ds)%string
  else
    let e := n - 1 in
    let sg := if e <? 0 then "-"%string else "+"%string in
    let ex := (sg ++ showZ (Z.abs e))%string in
    if k =? 1 then (ds ++ "e" ++ ex)%string
    else (substring 0 1 ds ++ "." ++ substring 1 (Z.to_nat (k - 1)) ds
          ++ "e" ++ ex)%string.

Definition toStringPositive (x : number) : string :=
  let '(N, D) := ratio x in
  let n0 := magnitude N D in
  let '(c, k) := shortest 16 x N D n0 1 in
  if c =? 10 ^ k then render (c / 10) k (n0 + 1) else render c k n0.

(** [Number.prototype.toString ()], also the string a template literal
    makes of a number.  An integer below [2^53] is printed by its decimal
    numeral: all integers there are Number values, so the shortest digits
    that denote it are its own. *)
Definition toString (x : number) : string :=
  match x with
  | S754_nan => "NaN"
  | S754_zero _ => "0"
  | S754_infinity s => if s then "-Infinity" else "Infinity"
  | S754_finite s m e =>
      let body :=
        match integerValue (S754_finite false m e) with
        | Some z => if z <? 2 ^ 53 then showZ z
                    else toStringPositive (S754_finite false m e)
        | None => toStringPositive (S754_finite false m e)
        end in
      if s then ("-" ++ body)%string else body
  end.

Definition splitSign (l : list ascii) : bool * list ascii :=
  match l with
  | "-"%char :: r => (true, r)
  | "+"%char :: r => (false, r)
  | _ => (false, l)
  end.

(** [parseInt (s, 10)]. *)
Definition parseInt (s : string) : number :=
  let '(neg, l) := splitSign (trimStartL (chars s)) in
  match takeWhile isDigit l with
  | [] => NaN
  | ds =>
      let v := digitsValue ds in
      if v =? 0 then S754_zero neg else ofZ (cond_Zopp neg v)
  end.

Definition isExponentMark (c : ascii) : bool :=
  Ascii.eqb c "e" || Ascii.eqb c "E".

(** [parseFloat]: the longest prefix that is a [StrDecimalLiteral]. *)
Definition parseFloat (s : string) : number :=
  let '(neg, l) := splitSign (trimStartL (chars s)) in
  if isPrefixL (chars "Infinity") l then S754_infinity neg
  else
    let ip := takeWhile isDigit l in
    let r1 := dropWhile isDigit l in
    let '(fp, r2) :=
      match r1 with
      | "."%char :: r => (takeWhile isDigit r, dropWhile isDigit r)
      | _ => ([], r1)
      end in
    match ip ++ fp with
    | [] => NaN
    | ds =>
        let ex :=
          match r2 with
          | c :: r3 =>
              if isExponentMark c then
                let '(eneg, r4) := splitSign r3 in
                match takeWhile isDigit r4 with
                | [] => 0
                | ed => cond_Zopp eneg (digitsValue ed)
                end
              else 0
          | [] => 0
          end in
        ofDecimal neg (digitsValue ds) (ex - Z.of_nat (List.length fp))
    end.

End JsConv.

(** ** The data model ([types.ts]) *)

Inductive LyricsFormat : Type := PLAIN | LRC | ELRC | TTML.

Module TimedWord.
Record t : Type := mk {
  id : string;
  text : string;
  startTime : JsNumber.number;
  endTime : option JsNumber.number;
  isBackground : option bool
}.
End TimedWord.

Module TimedLine.
Record t : Type := mk {
  id : string;
  startTime : JsNumber.number;
  endTime : option JsNumber.number;
  words : list TimedWord.t;
  rawText : string;
  voice : option string;
  isBackground : option bool;
  attributes : option (list (string * string))
}.
End TimedLine.

Module Metadata.
(** The metadata object: the named keys the code reads or writes, and the
    [custom] bag; an absent key is [None]. *)
Record t : Type := mk {
  title : option string;
  artist : option string;
  album : option string;
  songwriters : option (list string);
  offset : option JsNumber.number;
  language : option string;
  author : option string;
  createdBy : option string;
  creator : option string;
  version : option string;
  custom : option (list (string * string))
}.
End Metadata.

Module LyricsDocument.
Record t : Type := mk {
  format : LyricsFormat;
  lines : list TimedLine.t;
  metadata : Metadata.t
}.
End LyricsDocument.

(** ** The timestamp codec *)

Module Codec.
Import JsNumber JsString JsConv.

(** The [precision] parameter, of type [2 | 3]. *)
Inductive precision : Type := P2 | P3.

Definition zeroString (p : precision) : string :=
  match p with P3 => "00:00.000" | P2 => "00:00.00" end.

Definition formatTimestamp (seconds : number) (p : precision) : string :=
  if isNaN seconds || lt seconds (ofZ 0) then zeroString p
  else
    let hours := floor (div seconds (ofZ 3600)) in
    let minutes := floor (div (rem seconds (ofZ 3600)) (ofZ 60)) in
    let secs := floor (rem seconds (ofZ 60)) in
    let ms := rem seconds (ofZ 1) in
    let mStr := padStart0 2 (toString minutes) in
    let sStr := padStart0 2 (toString secs) in
    let msStr :=
      match p with
      | P3 => padStart0 3 (toString (floor (mul ms (ofZ 1000))))
      | P2 => padStart0 2 (toString (floor (mul ms (ofZ 100))))
      end in
    let timeBase :=
      if gt hours (ofZ 0)
      then (toString hours ++ ":" ++ mStr ++ ":" ++ sStr)%string
      else (mStr ++ ":" ++ sStr)%string in
    (timeBase ++ "." ++ msStr)%string.

(** The class [[\[\]<>]] of the decoration that is removed. *)
Definition isBracket (c : ascii) : bool :=
  Ascii.eqb c "[" || Ascii.eqb c "]" || Ascii.eqb c "<" || Ascii.eqb c ">".

Definition stripBrackets (s : string) : string :=
  str (filter (fun c => negb (isBracket c)) (chars s)).

(** Nothing in the [try] block can throw, so the [catch] clause is dead and
    the function is the sequence of its three tests. *)
Definition parseTimestamp (timeStr : string) : number :=
  match timeStr with
  | EmptyString => ofZ 0
  | _ =>
      let cleanStr := stripBrackets (trim timeStr) in
      match splitOn ":" cleanStr with
      | [p0; p1; p2] =>
          let h := parseInt p0 in
          let m := parseInt p1 in
          let s := parseFloat p2 in
          add (add (mul h (ofZ 3600)) (mul m (ofZ 60))) s
      | [p0; p1] =>
          let m := parseInt p0 in
          let s := parseFloat p1 in
          add (mul m (ofZ 60)) s
      | _ =>
          if negb (isNaN (parseFloat cleanStr)) then parseFloat cleanStr
          else ofZ 0
      end
  end.

End Codec.

(** ** The shift utility *)

Module Shift.
Import JsNumber.

Definition shiftTime (offsetSeconds t : number) : number :=
  max (ofZ 0) (add t offsetSeconds).

(** [e ? Math.max(0, e + offsetSeconds) : undefined] *)
Definition shiftEnd (offsetSeconds : number) (e : option number)
  : option number :=
  match e with
  | Some t => if truthy t then Some (shiftTime offsetSeconds t) else None
  | None => None
  end.

Definition shiftWord (offsetSeconds : number) (w : TimedWord.t)
  : TimedWord.t :=
  {| TimedWord.id := TimedWord.id w;
     TimedWord.text := TimedWord.text w;
     TimedWord.startTime := shiftTime offsetSeconds (TimedWord.startTime w);
     TimedWord.endTime := shiftEnd offsetSeconds (TimedWord.endTime w);
     TimedWord.isBackground := TimedWord.isBackground w |}.

Definition shiftLine (offsetSeconds : number) (line : TimedLine.t)
  : TimedLine.t :=
  {| TimedLine.id := TimedLine.id line;
     TimedLine.startTime := shiftTime offsetSeconds (TimedLine.startTime line);
     TimedLine.endTime := shiftEnd offsetSeconds (TimedLine.endTime line);
     TimedLine.words := map (shiftWord offsetSeconds) (TimedLine.words line);
     TimedLine.rawText := TimedLine.rawText line;
     TimedLine.voice := TimedLine.voice line;
     TimedLine.isBackground := TimedLine.isBackground line;
     TimedLine.attributes := TimedLine.attributes line |}.

Definition shiftTimestamps (doc : LyricsDocument.t) (offsetSeconds : number)
  : LyricsDocument.t :=
  {| LyricsDocument.format := LyricsDocument.format doc;
     LyricsDocument.lines :=
       map (shiftLine offsetSeconds) (LyricsDocument.lines doc);
     LyricsDocument.metadata := LyricsDocument.metadata doc |}.

End Shift.

(** ** The TTML generator *)

Module Generate.
Import JsNumber JsString JsConv Codec.

(** The double quote and the line feed, which the template literals of the
    source contain. *)
Definition dq : string := String (ascii_of_nat 34) EmptyString.
Definition nl : string := String (ascii_of_nat 10) EmptyString.

(** [s || d] on a string that may be absent: the empty string is falsy. *)
Definition orDefault (s : option string) (d : string) : string :=
  match s with
  | Some EmptyString | None => d
  | Some v => v
  end.

Definition truthyString (s : option string) : bool :=
  match s with
  | Some EmptyString | None => false
  | Some _ => true
  end.

(** [Array.from (new Set (l))]: the distinct values, in encounter order. *)
Fixpoint distinct (seen : list string) (l : list string) : list string :=
  match l with
  | [] => []
  | x :: l' =>
      if existsb (String.eqb x) seen then distinct seen l'
      else x :: distinct (x :: seen) l'
  end.

Fixpoint lookup (k : string) (m : list (string * string)) : option string :=
  match m with
  | [] => None
  | (k', v) :: m' => if String.eqb k k' then Some v else lookup k m'
  end.

(** [voices.forEach ((v, i) => agentMap.set (v, `v${i+1}`))] *)
Fixpoint numberVoices (i : Z) (voices : list string)
  : list (string * string) :=
  match voices with
  | [] => []
  | v :: vs => (v, ("v" ++ showZ (i + 1))%string) :: numberVoices (i + 1) vs
  end.

(** The literal [0.05] of the source. *)
Definition wordSyncThreshold : number := ofDecimal false 5 (-2).

Definition lineHasWordSync (l : TimedLine.t) : bool :=
  (1 <? List.length (TimedLine.words l))%nat &&
  existsb (fun w => gt (TimedWord.startTime w)
                       (add (TimedLine.startTime l) wordSyncThreshold))
          (TimedLine.words l).

Definition hasWordSync (doc : LyricsDocument.t) : bool :=
  existsb lineHasWordSync (LyricsDocument.lines doc).

Definition timingMode (doc : LyricsDocument.t) : string :=
  if hasWordSync doc then "Word" else "Line".

Definition songwritersOf (m : Metadata.t) : list string :=
  match Metadata.songwriters m with
  | Some l => l
  | None =>
      match Metadata.author m with
      | Some (String _ _ as a) => map trim (splitOn "," a)
      | _ => []
      end
  end.

Definition truthyNumber (n : option number) : bool :=
  match n with Some v => truthy v | None => false end.

Definition wordSpan (w : TimedWord.t) : string :=
  let wStart := formatTimestamp (TimedWord.startTime w) P3 in
  let wEnd :=
    match TimedWord.endTime w with
    | Some e =>
        if truthy e then formatTimestamp e P3
        else formatTimestamp (add (TimedWord.startTime w) (ofDecimal false 5 (-1))) P3
    | None =>
        formatTimestamp (add (TimedWord.startTime w) (ofDecimal false 5 (-1))) P3
    end in
  let bgRole :=
    match TimedWord.isBackground w with
    | Some true => (" ttm:role=" ++ dq ++ "x-bg" ++ dq)%string
    | _ => ""%string
    end in
  ("        <span begin=" ++ dq ++ wStart ++ dq ++ " end=" ++ dq ++ wEnd ++ dq
     ++ bgRole ++ ">" ++ TimedWord.text w ++ "</span>" ++ nl)%string.

Definition lineParagraph (agentMap : list (string * string))
    (next : option TimedLine.t) (i : Z) (line : TimedLine.t) : string :=
  let begin := formatTimestamp (TimedLine.startTime line) P3 in
  let fallback :=
    match next with
    | Some l' =>
        if truthy (TimedLine.startTime l') then TimedLine.startTime l'
        else add (TimedLine.startTime line) (ofZ 5)
    | None => add (TimedLine.startTime line) (ofZ 5)
    end in
  let end_ :=
    if truthyNumber (TimedLine.endTime line)
    then match TimedLine.endTime line with
         | Some e => formatTimestamp e P3
         | None => formatTimestamp fallback P3
         end
    else formatTimestamp fallback P3 in
  let agentId :=
    orDefault (lookup (orDefault (TimedLine.voice line) "v1") agentMap) "v1" in
  let attrStr :=
    match TimedLine.attributes line with
    | Some kvs =>
        String.concat "" (map (fun kv => (" " ++ fst kv ++ "=" ++ dq ++ snd kv ++ dq)%string) kvs)
    | None => (" itunes:key=" ++ dq ++ "L" ++ showZ (i + 1) ++ dq)%string
    end in
  ("      <p begin=" ++ dq ++ begin ++ dq ++ " end=" ++ dq ++ end_ ++ dq
     ++ " ttm:agent=" ++ dq ++ agentId ++ dq ++ attrStr ++ ">" ++ nl
     ++ String.concat "" (map wordSpan (TimedLine.words line))
     ++ "      </p>" ++ nl)%string.

Fixpoint paragraphs (agentMap : list (string * string)) (i : Z)
    (ls : list TimedLine.t) : string :=
  match ls with
  | [] => ""%string
  | line :: rest =>
      (lineParagraph agentMap (hd_error rest) i line
         ++ paragraphs agentMap (i + 1) rest)%string
  end.

(** The head of the document, up to the value of [itunes:timing]. *)
Definition prologue : string :=
  ("<?xml version=" ++ dq ++ "1.0" ++ dq ++ " encoding=" ++ dq ++ "UTF-8" ++ dq ++ "?>" ++ nl
   ++ "<tt xmlns=" ++ dq ++ "http://www.w3.org/ns/ttml" ++ dq ++ " " ++ nl
   ++ "    xmlns:itunes=" ++ dq ++ "http://music.apple.com/lyric-ttml-internal" ++ dq ++ " " ++ nl
   ++ "    xmlns:ttm=" ++ dq ++ "http://www.w3.org/ns/ttml#metadata" ++ dq ++ " " ++ nl
   ++ "    xmlns:tts=" ++ dq ++ "http://www.w3.org/ns/ttml#styling" ++ dq ++ nl
   ++ "    itunes:timing=" ++ dq)%string.

Definition agentDeclaration (agentMap : list (string * string)) (v : string)
  : string :=
  (nl ++ "      <ttm:agent type=" ++ dq ++ "person" ++ dq ++ " xml:id=" ++ dq
     ++ orDefault (lookup v agentMap) "undefined" ++ dq ++ ">" ++ nl
     ++ "        <ttm:name type=" ++ dq ++ "full" ++ dq ++ ">" ++ v ++ "</ttm:name>" ++ nl
     ++ "      </ttm:agent>")%string.

(** What follows the value of [itunes:timing], down to the opening [div]. *)
Definition headAndBodyOpen (doc : LyricsDocument.t) (voices : list string)
    (agentMap : list (string * string)) : string :=
  let m := LyricsDocument.metadata doc in
  (dq ++ nl
   ++ "    xml:lang=" ++ dq ++ orDefault (Metadata.language m) "en" ++ dq ++ ">" ++ nl
   ++ "  <head>" ++ nl
   ++ "    <metadata>" ++ nl
   ++ "      " ++ (if truthyString (Metadata.title m)
                   then "<title>" ++ orDefault (Metadata.title m) "" ++ "</title>"
                   else "") ++ nl
   ++ "      " ++ (if truthyString (Metadata.artist m)
                   then "<ttm:agent type=" ++ dq ++ "person" ++ dq ++ " xml:id=" ++ dq
                        ++ "artist" ++ dq ++ "><ttm:name type=" ++ dq ++ "full" ++ dq ++ ">"
                        ++ orDefault (Metadata.artist m) "" ++ "</ttm:name></ttm:agent>"
                   else "") ++ nl
   ++ "      " ++ String.concat "" (map (agentDeclaration agentMap) voices) ++ nl
   ++ "      <iTunesMetadata>" ++ nl
   ++ "         <songwriters>" ++ nl
   ++ "            "
   ++ join (nl ++ "            ")
           (map (fun s => "<songwriter>" ++ s ++ "</songwriter>") (songwritersOf m)) ++ nl
   ++ "         </songwriters>" ++ nl
   ++ "      </iTunesMetadata>" ++ nl
   ++ "    </metadata>" ++ nl
   ++ "    <styling>" ++ nl
   ++ "      <style xml:id=" ++ dq ++ "default" ++ dq ++ " tts:color=" ++ dq ++ "#FFFFFF" ++ dq
   ++ " tts:fontSize=" ++ dq ++ "32px" ++ dq ++ " tts:fontFamily=" ++ dq ++ "sans-serif" ++ dq ++ " />" ++ nl
   ++ "    </styling>" ++ nl
   ++ "    <layout>" ++ nl
   ++ "      <region xml:id=" ++ dq ++ "bottom" ++ dq ++ " tts:textAlign=" ++ dq ++ "center" ++ dq
   ++ " tts:displayAlign=" ++ dq ++ "after" ++ dq ++ " />" ++ nl
   ++ "    </layout>" ++ nl
   ++ "  </head>" ++ nl
   ++ "  <body region=" ++ dq ++ "bottom" ++ dq ++ ">" ++ nl
   ++ "    <div itunes:songPart=" ++ dq ++ "Verse" ++ dq ++ ">" ++ nl)%string.

Definition epilogue : string :=
  ("    </div>" ++ nl ++ "  </body>" ++ nl ++ "</tt>")%string.

Definition generateTTML (doc : LyricsDocument.t) : string :=
  let voices :=
    distinct [] (map (fun l => orDefault (TimedLine.voice l) "v1")
                     (LyricsDocument.lines doc)) in
  let agentMap := numberVoices 0 voices in
  (prologue ++ timingMode doc ++ headAndBodyOpen doc voices agentMap
     ++ paragraphs agentMap 0 (LyricsDocument.lines doc)
     ++ epilogue)%string.

End Generate.

(** ** Regular expressions

    A backtracking matcher for the fragment of ECMAScript patterns the
    source uses: characters, classes, sequence, ordered choice, greedy
    repetition, capture groups and the anchors [^] and [$] (no [m] flag). *)

Module Regex.
Import JsString.

Inductive regex : Type :=
| Eps
| Chr (c : ascii)
| Cls (p : ascii -> bool)
| Seq (a b : regex)
| Alt (a b : regex)
| Star (a : regex)
| Group (n : nat) (a : regex)
| Bol
| Eol.

(** The position in the input, what is left of it, and the groups captured
    so far (the latest capture of a group first). *)
Record mstate : Type := mkState {
  pos : nat;
  rest : list ascii;
  caps : list (nat * string)
}.

Fixpoint run (r : regex) (st : mstate) (k : mstate -> option mstate)
  {struct r} : option mstate :=
  match r with
  | Eps => k st
  | Chr c =>
      match rest st with
      | x :: l => if Ascii.eqb x c then k (mkState (S (pos st)) l (caps st))
                  else None
      | [] => None
      end
  | Cls p =>
      match rest st with
      | x :: l => if p x then k (mkState (S (pos st)) l (caps st)) else None
      | [] => None
      end
  | Seq a b => run a st (fun st' => run b st' k)
  | Alt a b =>
      match run a st k with
      | Some res => Some res
      | None => run b st k
      end
  | Star a =>
      (fix loop (fuel : nat) (st : mstate) {struct fuel} : option mstate :=
         match fuel with
         | O => k st
         | S fuel' =>
             match run a st (fun st' =>
                      if (pos st <? pos st')%nat then loop fuel' st'
                      else None) with
             | Some res => Some res
             | None => k st
             end
         end) (List.length (rest st)) st
  | Group n a =>
      run a st (fun st' =>
        k (mkState (pos st') (rest st')
             ((n, str (firstn (pos st' - pos st) (rest st))) :: caps st')))
  | Bol => if (pos st =? 0)%nat then k st else None
  | Eol => match rest st with [] => k st | _ :: _ => None end
  end.

(** The result of a successful match: where it starts and ends, and its
    groups. *)
Record result : Type := mkResult {
  index : nat;
  stop : nat;
  groups : list (nat * string)
}.

Definition matchAt (r : regex) (s : list ascii) (i : nat) : option result :=
  match run r (mkState i (skipn i s) []) Some with
  | Some st => Some (mkResult i (pos st) (caps st))
  | None => None
  end.

(** The first match at or after index [i] (at most [fuel] positions are
    tried). *)
Fixpoint search (r : regex) (s : list ascii) (fuel : nat) (i : nat)
  : option result :=
  match matchAt r s i with
  | Some res => Some res
  | None =>
      match fuel with
      | O => None
      | S fuel' => search r s fuel' (S i)
      end
  end.

(** [RegExpBuiltinExec] from [lastIndex]: a start beyond the end fails. *)
Definition execFrom (r : regex) (s : string) (lastIndex : nat)
  : option result :=
  let l := chars s in
  if (List.length l <? lastIndex)%nat then None
  else search r l (List.length l - lastIndex) lastIndex.

(** [r.test (s)] and [s.match (r)] for a pattern without the [g] flag. *)
Definition exec (r : regex) (s : string) : option result := execFrom r s 0.
Definition test (r : regex) (s : string) : bool :=
  match exec r s with Some _ => true | None => false end.

(** [result[n]]: the text of group [n], if it took part in the match. *)
Fixpoint group (n : nat) (g : list (nat * string)) : option string :=
  match g with
  | [] => None
  | (m, v) :: g' => if (n =? m)%nat then Some v else group n g'
  end.

(** The text of the whole match, [result[0]]. *)
Definition matched (s : string) (res : result) : string :=
  substring (index res) (stop res - index res) s.

(** [String.prototype.split] with a pattern that cannot match the empty
    string; [ngroups] is the number of capture groups, whose texts are
    spliced between the pieces. *)
Fixpoint splitLoop (r : regex) (ngroups : nat) (s : list ascii)
    (fuel p q : nat) : list string :=
  match fuel with
  | O => [str (skipn p s)]
  | S fuel' =>
      if (List.length s <=? q)%nat then [str (skipn p s)]
      else
        match matchAt r s q with
        | Some res =>
            if (stop res =? p)%nat then splitLoop r ngroups s fuel' p (S q)
            else
              str (firstn (q - p) (skipn p s))
                :: map (fun n => match group n (groups res) with
                                 | Some v => v
                                 | None => "undefined"%string
                                 end) (seq 1 ngroups)
                ++ splitLoop r ngroups s fuel' (stop res) (stop res)
        | None => splitLoop r ngroups s fuel' p (S q)
        end
  end.

Definition split (r : regex) (ngroups : nat) (s : string) : list string :=
  match chars s with
  | [] => [s]
  | l => splitLoop r ngroups l (List.length l) 0 0
  end.

(** Derived forms. *)
Definition Opt (a : regex) : regex := Alt a Eps.
Definition Plus (a : regex) : regex := Seq a (Star a).
Definition Rep12 (a : regex) : regex := Seq a (Opt a).
Definition Rep13 (a : regex) : regex := Seq a (Opt (Seq a (Opt a))).
Definition Rep22 (a : regex) : regex := Seq a a.
Fixpoint Cat (l : list regex) : regex :=
  match l with
  | [] => Eps
  | [a] => a
  | a :: l' => Seq a (Cat l')
  end.
Definition Lit (s : string) : regex := Cat (map Chr (chars s)).

End Regex.

(** ** Array.prototype.sort

    ECMA-262 requires [sort] to be stable and, when the comparator is a
    consistent one, to return the sorted permutation of the array whatever
    calls the engine makes.  The model is the stable insertion sort, which
    computes that permutation.  A comparator result of [NaN] counts as
    [+0] (SortCompare), so [x] is moved before [y] only when the result of
    [comparefn (x, y)] is below zero. *)

Module JsArray.
Import JsNumber.

Section Sort.
Context {A : Type}.
Variable comparefn : A -> A -> number.

Definition before (x y : A) : bool := lt (comparefn x y) (ofZ 0).

Fixpoint insert (x : A) (l : list A) : list A :=
  match l with
  | [] => [x]
  | y :: l' => if before y x then y :: insert x l' else x :: y :: l'
  end.

Fixpoint sort (l : list A) : list A :=
  match l with
  | [] => []
  | x :: l' => insert x (sort l')
  end.
End Sort.

End JsArray.

(** ** Identifiers

    [generateId] draws from [Math.random]; the draws are given by an oracle
    [randomId], the n-th call returning [randomId n], and every function
    that generates identifiers threads the number of calls made so far. *)

Module Ids.
Definition supply : Type := nat -> string.
Definition generateId (randomId : supply) (n : nat) : string * nat :=
  (randomId n, S n).
End Ids.

(** ** The LRC / ELRC parser *)

Module Lrc.
Import JsNumber JsString JsConv Regex.

Definition digit : regex := Cls isDigit.
Definition CR : ascii := ascii_of_nat 13.
Definition LF : ascii := ascii_of_nat 10.

(** "/\[(\d{1,2}):(\d{1,2})(?::(\d{1,2}))?(?:\.(\d{1,3}))?\]/g" *)
Definition lineTimeRegex : regex :=
  Cat [Chr "["; Group 1 (Rep12 digit); Chr ":"; Group 2 (Rep12 digit);
       Opt (Seq (Chr ":") (Group 3 (Rep12 digit)));
       Opt (Seq (Chr ".") (Group 4 (Rep13 digit)));
       Chr "]"].

Definition isMetaKeyChar (c : ascii) : bool := isAlnum c || Ascii.eqb c "-".

(** [metaRegex]: at the start, an opening bracket, group 1 of one or more
    of [a-zA-Z0-9-], a colon, group 2 of any characters but line
    terminators (greedy), a closing bracket, and the end of the input. *)
Definition metaRegex : regex :=
  Cat [Bol; Chr "["; Group 1 (Plus (Cls isMetaKeyChar)); Chr ":";
       Group 2 (Star (Cls isNotLineTerminator)); Chr "]"; Eol].

(** "/^\d/" *)
Definition leadingDigit : regex := Seq Bol digit.

Definition isVoiceChar (c : ascii) : bool := isAlnum c || isSpace c.

(** The voice pattern: at the start, group 1 of one or more of
    [A-Za-z0-9\s], a colon, one or more [\s], and group 2 of any characters
    but line terminators (greedy). *)
Definition voiceRegex : regex :=
  Cat [Bol; Group 1 (Plus (Cls isVoiceChar)); Chr ":"; Plus (Cls isSpace);
       Group 2 (Star (Cls isNotLineTerminator))].

(** "/<(\d{1,2}):(\d{1,2})/" *)
Definition wordTimingRegex : regex :=
  Cat [Chr "<"; Group 1 (Rep12 digit); Chr ":"; Group 2 (Rep12 digit)].

Definition isTagChar (c : ascii) : bool :=
  isDigit c || Ascii.eqb c ":" || Ascii.eqb c ".".

(** "/(<[\d:.]+>)/" *)
Definition tagSplitRegex : regex :=
  Group 1 (Cat [Chr "<"; Plus (Cls isTagChar); Chr ">"]).

(** "/<(\d{1,2}):(\d{1,2})(?::(\d{1,2}))?(?:\.(\d{1,3}))?>/" *)
Definition tagRegex : regex :=
  Cat [Chr "<"; Group 1 (Rep12 digit); Chr ":"; Group 2 (Rep12 digit);
       Opt (Seq (Chr ":") (Group 3 (Rep12 digit)));
       Opt (Seq (Chr ".") (Group 4 (Rep13 digit)));
       Chr ">"].

(** "/\s+/" and "/\r?\n/" *)
Definition spacesRegex : regex := Plus (Cls isSpace).
Definition lineBreakRegex : regex := Seq (Opt (Chr CR)) (Chr LF).

Definition nonEmpty (s : string) : bool :=
  match s with EmptyString => false | _ => true end.

(** A group's text, the empty string standing for [undefined]: both are
    falsy, and a group of these patterns that takes part is never empty. *)
Definition groupText (n : nat) (res : result) : string :=
  match group n (groups res) with Some v => v | None => EmptyString end.

(** The time of a leading bracket: [result[4] || '0'] gives the fraction. *)
Definition lineStampTime (res : result) : number :=
  let msVal := if nonEmpty (groupText 4 res) then groupText 4 res else "0"%string in
  let ms := parseFloat ("0." ++ msVal) in
  if nonEmpty (groupText 3 res) then
    let h := parseInt (groupText 1 res) in
    let m := parseInt (groupText 2 res) in
    let s := parseInt (groupText 3 res) in
    add (add (add (mul h (ofZ 3600)) (mul m (ofZ 60))) s) ms
  else
    let m := parseInt (groupText 1 res) in
    let s := parseInt (groupText 2 res) in
    add (add (mul m (ofZ 60)) s) ms.

(** The time of an inline tag: [tagMatch[4] ? parseFloat (...) : 0]. *)
Definition tagStampTime (res : result) : number :=
  let ms := if nonEmpty (groupText 4 res)
            then parseFloat ("0." ++ groupText 4 res) else ofZ 0 in
  if nonEmpty (groupText 3 res) then
    let h := parseInt (groupText 1 res) in
    let m := parseInt (groupText 2 res) in
    let s := parseInt (groupText 3 res) in
    add (add (add (mul h (ofZ 3600)) (mul m (ofZ 60))) s) ms
  else
    let m := parseInt (groupText 1 res) in
    let s := parseInt (groupText 2 res) in
    add (add (mul m (ofZ 60)) s) ms.

(** The [while (true)] loop that strips the leading brackets.  The pattern
    has the [g] flag and is shared by all lines, so the search starts at
    its [lastIndex]; the loop resets it after a match at index 0, a failed
    search resets it, and a match elsewhere leaves it at the end of that
    match.  Returns the rest of the line, the times and the [lastIndex]
    the pattern is left with. *)
Fixpoint stripStamps (fuel : nat) (content : string)
    (timestamps : list number) (lastIndex : nat)
  : string * list number * nat :=
  match execFrom lineTimeRegex content lastIndex with
  | Some res =>
      if (index res =? 0)%nat then
        match fuel with
        | O => (content, timestamps, lastIndex)
        | S fuel' =>
            stripStamps fuel'
              (trim (substring (stop res) (String.length content) content))
              (timestamps ++ [lineStampTime res]) 0
        end
      else (content, timestamps, stop res)
  | None => (content, timestamps, 0%nat)
  end.

Section WithIds.
Variable randomId : Ids.supply.

(** The words of a line with inline tags: [parts.forEach]. *)
Fixpoint taggedWords (parts : list string) (currentWordTime : number)
    (n : nat) : list TimedWord.t * nat :=
  match parts with
  | [] => ([], n)
  | part :: parts' =>
      match exec tagRegex part with
      | Some res => taggedWords parts' (tagStampTime res) n
      | None =>
          let wText := trim part in
          if nonEmpty wText then
            let '(i, n1) := Ids.generateId randomId n in
            let '(ws, n2) := taggedWords parts' currentWordTime n1 in
            (TimedWord.mk i wText currentWordTime None None :: ws, n2)
          else taggedWords parts' currentWordTime n
      end
  end.

(** The words of a line without tags: [plainWords.forEach]. *)
Fixpoint plainWords (ws : list string) (startTime : number) (n : nat)
  : list TimedWord.t * nat :=
  match ws with
  | [] => ([], n)
  | w :: ws' =>
      let '(i, n1) := Ids.generateId randomId n in
      let '(rest, n2) := plainWords ws' startTime n1 in
      (TimedWord.mk i w startTime None None :: rest, n2)
  end.

(** The body of [timestamps.forEach]: one line for one time. *)
Definition buildLine (content voice : string) (isBackground : bool)
    (hasWordTimings : bool) (startTime : number) (n : nat)
  : TimedLine.t * nat :=
  let '(words, n1) :=
    if hasWordTimings then
      taggedWords
        (filter (fun p => nonEmpty (trim p)) (split tagSplitRegex 1 content))
        startTime n
    else
      plainWords (filter nonEmpty (split spacesRegex 0 content)) startTime n in
  let rawTextClean := join " " (map TimedWord.text words) in
  let '(i, n2) := Ids.generateId randomId n1 in
  (TimedLine.mk i startTime None words
     (if nonEmpty rawTextClean then rawTextClean else content)
     (Some voice) (Some isBackground) None, n2).

Fixpoint buildLines (content voice : string) (isBackground : bool)
    (hasWordTimings : bool) (timestamps : list number) (n : nat)
  : list TimedLine.t * nat :=
  match timestamps with
  | [] => ([], n)
  | t :: ts =>
      let '(l, n1) := buildLine content voice isBackground hasWordTimings t n in
      let '(ls, n2) := buildLines content voice isBackground hasWordTimings ts n1 in
      (l :: ls, n2)
  end.

(** What [rawLines.forEach] carries from one line to the next. *)
Record state : Type := mkSt {
  lines : list TimedLine.t;
  metadata : Metadata.t;
  lastIndex : nat;
  nextId : nat
}.

Fixpoint setKey (k v : string) (m : list (string * string))
  : list (string * string) :=
  match m with
  | [] => [(k, v)]
  | (k', v') :: m' =>
      if String.eqb k k' then (k, v) :: m' else (k', v') :: setKey k v m'
  end.

Definition setMeta (key val : string) (m : Metadata.t) : Metadata.t :=
  let 'Metadata.mk ti ar al sw off la au cb cr ve cu := m in
  if String.eqb key "ti" then Metadata.mk (Some val) ar al sw off la au cb cr ve cu
  else if String.eqb key "ar" then Metadata.mk ti (Some val) al sw off la au cb cr ve cu
  else if String.eqb key "al" then Metadata.mk ti ar (Some val) sw off la au cb cr ve cu
  else if String.eqb key "au" then Metadata.mk ti ar al sw off la (Some val) cb cr ve cu
  else if String.eqb key "by" then Metadata.mk ti ar al sw off la au (Some val) cr ve cu
  else if String.eqb key "re" then Metadata.mk ti ar al sw off la au cb (Some val) ve cu
  else if String.eqb key "ve" then Metadata.mk ti ar al sw off la au cb cr (Some val) cu
  else if String.eqb key "offset" then
    Metadata.mk ti ar al sw (Some (parseInt val)) la au cb cr ve cu
  else if String.eqb key "la" then Metadata.mk ti ar al sw off (Some val) au cb cr ve cu
  else Metadata.mk ti ar al sw off la au cb cr ve
         (Some (setKey key val (match cu with Some c => c | None => [] end))).

(** The metadata a line carries, if it is a metadata line. *)
Definition metaOf (content : string) : option (string * string) :=
  match exec metaRegex content with
  | Some res =>
      let key := trim (toLowerCase (groupText 1 res)) in
      let val := trim (groupText 2 res) in
      if negb (test leadingDigit key) then Some (key, val) else None
  | None => None
  end.

(** The body of [rawLines.forEach]. *)
Definition processLine (st : state) (rawLine : string) : state :=
  let content := trim rawLine in
  if negb (nonEmpty content) then st
  else
    match metaOf content with
    | Some (key, val) =>
        mkSt (lines st) (setMeta key val (metadata st)) (lastIndex st) (nextId st)
    | None =>
        let '(content1, timestamps, lastIndex') :=
          stripStamps (String.length content) content [] (lastIndex st) in
        match timestamps with
        | [] => mkSt (lines st) (metadata st) lastIndex' (nextId st)
        | _ :: _ =>
            let isBackground :=
              startsWith content1 "(" && endsWith content1 ")" in
            let '(voice, content2) :=
              match exec voiceRegex content1 with
              | Some res => (trim (groupText 1 res), trim (groupText 2 res))
              | None => ("v1"%string, content1)
              end in
            let hasWordTimings := test wordTimingRegex content2 in
            let '(ls, n) :=
              buildLines content2 voice isBackground hasWordTimings
                timestamps (nextId st) in
            mkSt (lines st ++ ls) (metadata st) lastIndex' n
        end
    end.

End WithIds.
End Lrc.

Module LrcParser.
Import JsNumber JsString JsConv Regex Lrc.

(** [(a, b) => a.startTime - b.startTime] *)
Definition byStartTime (a b : TimedLine.t) : number :=
  sub (TimedLine.startTime a) (TimedLine.startTime b).

Definition setWordEnd (e : number) (w : TimedWord.t) : TimedWord.t :=
  TimedWord.mk (TimedWord.id w) (TimedWord.text w) (TimedWord.startTime w)
               (Some e) (TimedWord.isBackground w).

(** The inner loop over [lineWords]: a word ends where the next one
    starts, the last one where the line ends. *)
Fixpoint inferWordEnds (lineEnd : number) (ws : list TimedWord.t)
  : list TimedWord.t :=
  match ws with
  | [] => []
  | w :: rest =>
      match rest with
      | [] => [setWordEnd lineEnd w]
      | w' :: _ => setWordEnd (TimedWord.startTime w') w :: inferWordEnds lineEnd rest
      end
  end.

Definition setLineEnd (e : number) (l : TimedLine.t) : TimedLine.t :=
  TimedLine.mk (TimedLine.id l) (TimedLine.startTime l) (Some e)
               (inferWordEnds e (TimedLine.words l)) (TimedLine.rawText l)
               (TimedLine.voice l) (TimedLine.isBackground l)
               (TimedLine.attributes l).

(** The loop [for (let i = 0; i < lines.length; i++)] that infers the end
    times.  Every line and every word is an object of its own, so the
    updates in place are updates of the list. *)
Fixpoint inferEndTimes (ls : list TimedLine.t) : list TimedLine.t :=
  match ls with
  | [] => []
  | l :: rest =>
      match rest with
      | [] => [setLineEnd (add (TimedLine.startTime l) (ofZ 5)) l]
      | l' :: _ => setLineEnd (TimedLine.startTime l') l :: inferEndTimes rest
      end
  end.

Definition initialMetadata : Metadata.t :=
  Metadata.mk (Some EmptyString) (Some EmptyString) (Some EmptyString) None
              (Some (ofZ 0)) None None None None None (Some []).

(** [if (metadata.author && !metadata.songwriters)] *)
Definition deriveSongwriters (m : Metadata.t) : Metadata.t :=
  match Metadata.author m, Metadata.songwriters m with
  | Some (String _ _ as a), None =>
      Metadata.mk (Metadata.title m) (Metadata.artist m) (Metadata.album m)
        (Some (map trim (splitOn "," a)))
        (Metadata.offset m) (Metadata.language m) (Metadata.author m)
        (Metadata.createdBy m) (Metadata.creator m) (Metadata.version m)
        (Metadata.custom m)
  | _, _ => m
  end.

Section WithIds.
Variable randomId : Ids.supply.

(** The lines as pushed by [rawLines.forEach], before they are sorted. *)
Definition scan (text : string) : state :=
  fold_left (processLine randomId) (split lineBreakRegex 0 text)
            (mkSt [] initialMetadata 0 0).

Definition parseLRC (text : string) : LyricsDocument.t :=
  let st := scan text in
  LyricsDocument.mk LRC
    (inferEndTimes (JsArray.sort byStartTime (lines st)))
    (deriveSongwriters (metadata st)).

Definition parseELRC (text : string) : LyricsDocument.t :=
  let base := parseLRC text in
  LyricsDocument.mk ELRC (LyricsDocument.lines base)
                    (LyricsDocument.metadata base).
End WithIds.

End LrcParser.

(** ** The XML document object model

    [DOMParser] belongs to the browser.  Its result is a tree of nodes; for
    the MIME type [text/xml] it never throws, a text that is not well
    formed giving a document that reports the error. *)

Module Dom.

Local Set Warnings "-register-all".

Record Attr : Type := mkAttr {
  name : string;
  localName : string;
  namespaceURI : option string;
  value : string
}.

Inductive Node : Type :=
| Element (tagName : string) (elemLocalName : string)
          (elemNamespaceURI : option string)
          (attributes : list Attr) (childNodes : list Node)
| Text (data : string)
| CDATASection (data : string)
| Comment (data : string)
| ProcessingInstruction (target data : string).

(** A document: the children of the document node. *)
Record Document : Type := mkDocument { children : list Node }.

Definition isElement (n : Node) : bool :=
  match n with Element _ _ _ _ _ => true | _ => false end.

Definition documentElement (d : Document) : option Node :=
  find isElement (children d).

Definition attributesOf (n : Node) : list Attr :=
  match n with Element _ _ _ a _ => a | _ => [] end.

Definition childNodesOf (n : Node) : list Node :=
  match n with Element _ _ _ _ c => c | _ => [] end.

(** A node, if it is an element, and the elements below it, in tree
    order. *)
Fixpoint elementsOf (n : Node) : list Node :=
  match n with
  | Element _ _ _ _ cs =>
      n :: (fix go (l : list Node) : list Node :=
              match l with
              | [] => []
              | c :: l' => elementsOf c ++ go l'
              end) cs
  | _ => []
  end.

Definition descendants (n : Node) : list Node :=
  flat_map elementsOf (childNodesOf n).

Definition hasTagName (q : string) (n : Node) : bool :=
  match n with
  | Element t _ _ _ _ => String.eqb q "*" || String.eqb t q
  | _ => false
  end.

Definition hasExpandedName (ns l : string) (n : Node) : bool :=
  match n with
  | Element _ l' (Some ns') _ _ => String.eqb ns ns' && String.eqb l l'
  | _ => false
  end.

(** [Element.getElementsByTagName] and [getElementsByTagNameNS]. *)
Definition getElementsByTagName (q : string) (n : Node) : list Node :=
  filter (hasTagName q) (descendants n).
Definition getElementsByTagNameNS (ns l : string) (n : Node) : list Node :=
  filter (hasExpandedName ns l) (descendants n).

(** [Document.getElementsByTagName]. *)
Definition documentElementsByTagName (q : string) (d : Document)
  : list Node :=
  filter (hasTagName q) (flat_map elementsOf (children d)).

(** [Node.textContent]. *)
Fixpoint textContent (n : Node) : string :=
  match n with
  | Element _ _ _ _ cs =>
      (fix go (l : list Node) : string :=
         match l with
         | [] => EmptyString
         | Comment _ :: l' => go l'
         | ProcessingInstruction _ _ :: l' => go l'
         | c :: l' => (textContent c ++ go l')%string
         end) cs
  | Text d => d
  | CDATASection d => d
  | Comment d => d
  | ProcessingInstruction _ d => d
  end.

Definition getAttribute (q : string) (n : Node) : option string :=
  option_map value (find (fun a => String.eqb (name a) q) (attributesOf n)).

Definition getAttributeNS (ns l : string) (n : Node) : option string :=
  option_map value
    (find (fun a => match namespaceURI a with
                    | Some ns' => String.eqb ns ns' && String.eqb (localName a) l
                    | None => false
                    end) (attributesOf n)).

End Dom.

(** ** The TTML parser *)

Module Ttml.
Import JsNumber JsString JsConv Codec Dom.

Definition ns_ttm : string := "http://www.w3.org/ns/ttml#metadata".
Definition ns_itunes : string := "http://music.apple.com/lyric-ttml-internal".
Definition ns_tt : string := "http://www.w3.org/ns/ttml".

Definition truthyString (s : option string) : bool :=
  match s with
  | Some EmptyString | None => false
  | Some _ => true
  end.

(** [a || b] on values that are a string or [null]. *)
Definition orElse (a b : option string) : option string :=
  if truthyString a then a else b.

(** The helper [getAttr (el, name, nsUrl?)]. *)
Definition getAttr (el : Node) (name : string) (nsUrl : option string)
  : option string :=
  let byNs :=
    match nsUrl with
    | Some (String _ _ as ns) => getAttributeNS ns name el
    | _ => None
    end in
  match byNs with
  | Some v => Some v
  | None =>
      match getAttribute name el with
      | Some v => Some v
      | None =>
          match splitOn ":" name with
          | _ :: part1 :: _ =>
              option_map Dom.value
                (find (fun a => String.eqb (Dom.name a) name
                                || String.eqb (Dom.localName a) part1)
                      (attributesOf el))
          | _ => None
          end
      end
  end.

(** The local function [parseTime]. *)
Definition parseTime (t : option string) : option number :=
  match t with
  | None | Some EmptyString => None
  | Some t =>
      if includes t ":" then Some (parseTimestamp t)
      else if endsWith t "ms" then Some (div (parseFloat t) (ofZ 1000))
      else if endsWith t "s" then Some (parseFloat t)
      else
        let parsed := parseFloat t in
        if isNaN parsed then None else Some parsed
  end.

(** [x || 0] on a number that may be [undefined]. *)
Definition orZero (x : option number) : number :=
  match x with
  | Some v => if truthy v then v else ofZ 0
  | None => ofZ 0
  end.

Definition isXBg (role : option string) : bool :=
  match role with Some r => String.eqb r "x-bg" | None => false end.

Definition roleOf (el : Node) : option string :=
  orElse (getAttr el "role" (Some ns_ttm)) (getAttr el "ttm:role" None).

Definition setWordEnd (e : number) (w : TimedWord.t) : TimedWord.t :=
  TimedWord.mk (TimedWord.id w) (TimedWord.text w) (TimedWord.startTime w)
               (Some e) (TimedWord.isBackground w).

(** The loop that applies an explicit end to the words last added, from
    the last word backwards. *)
Fixpoint backfillFromLast (endTime effectiveStart : number)
    (reversed : list TimedWord.t) : list TimedWord.t :=
  match reversed with
  | [] => []
  | w :: r =>
      if ge (TimedWord.startTime w) effectiveStart
         && match TimedWord.endTime w with None => true | Some _ => false end
      then setWordEnd endTime w :: backfillFromLast endTime effectiveStart r
      else reversed
  end.

Definition backfill (endTime effectiveStart : number)
    (words : list TimedWord.t) : list TimedWord.t :=
  rev (backfillFromLast endTime effectiveStart (rev words)).

Section WithIds.
Variable randomId : Ids.supply.

(** The recursive [traverse]; the array [words] it pushes to and the
    number of identifiers drawn are threaded through. *)
Fixpoint traverse (node : Node) (currentBg : bool)
    (currentStartTime : number) (acc : list TimedWord.t * nat)
  {struct node} : list TimedWord.t * nat :=
  match node with
  | Text d =>
      let text := trim d in
      match text with
      | EmptyString => acc
      | _ =>
          let '(i, n) := Ids.generateId randomId (snd acc) in
          (fst acc ++ [TimedWord.mk i text currentStartTime None (Some currentBg)], n)
      end
  | Element tagName _ _ _ cs =>
      if String.eqb (toLowerCase tagName) "br" then acc
      else
        let begin := getAttr node "begin" None in
        let end_ := getAttr node "end" None in
        let role := roleOf node in
        let startTime := parseTime begin in
        let endTime := parseTime end_ in
        let isBg := currentBg || isXBg role in
        let effectiveStart :=
          match startTime with Some t => t | None => currentStartTime end in
        let acc' :=
          (fix each (l : list Node) (a : list TimedWord.t * nat)
             : list TimedWord.t * nat :=
             match l with
             | [] => a
             | child :: l' => each l' (traverse child isBg effectiveStart a)
             end) cs acc in
        match endTime with
        | Some e => (backfill e effectiveStart (fst acc'), snd acc')
        | None => acc'
        end
  | _ => acc
  end.

Fixpoint setKey (k v : string) (m : list (string * string))
  : list (string * string) :=
  match m with
  | [] => [(k, v)]
  | (k', v') :: m' =>
      if String.eqb k k' then (k, v) :: m' else (k', v') :: setKey k v m'
  end.

Fixpoint lookup (k : string) (m : list (string * string)) : option string :=
  match m with
  | [] => None
  | (k', v) :: m' => if String.eqb k k' then Some v else lookup k m'
  end.

(** The attributes kept for regeneration. *)
Definition capturedAttributes (p : Node) : list (string * string) :=
  fold_left
    (fun m a =>
       if startsWith (Dom.name a) "itunes:" || String.eqb (Dom.name a) "key"
       then setKey (Dom.name a) (Dom.value a) m else m)
    (attributesOf p) [].

(** The body of [Array.from (ps).forEach]: the line of one [p], if it
    has words. *)
Definition lineOfP (agentMap : list (string * string)) (p : Node) (n : nat)
  : option TimedLine.t * nat :=
  let pBegin := getAttr p "begin" None in
  let pEnd := getAttr p "end" None in
  let pStart := orZero (parseTime pBegin) in
  let pEndTime := parseTime pEnd in
  let voiceId :=
    orElse (getAttr p "agent" (Some ns_ttm))
      (orElse (getAttr p "ttm:agent" None)
         (orElse (getAttr p "role" (Some ns_ttm)) (getAttr p "ttm:role" None))) in
  let voice :=
    match voiceId with
    | Some (String _ _ as v) =>
        Some (match orElse (lookup v agentMap) (Some v) with
              | Some x => x
              | None => v
              end)
    | _ => None
    end in
  let attributes := capturedAttributes p in
  let pRole := roleOf p in
  let isLineBg :=
    isXBg pRole
    || match getAttribute "style" p with
       | Some st => includes st "bg"
       | None => false
       end
    || startsWith (trim (textContent p)) "(" in
  let '(words, n1) :=
    fold_left (fun a child => traverse child isLineBg pStart a)
              (childNodesOf p) ([], n) in
  let rawText := join " " (map TimedWord.text words) in
  match words with
  | [] => (None, n1)
  | _ :: _ =>
      let '(i, n2) := Ids.generateId randomId n1 in
      (Some (TimedLine.mk i pStart pEndTime words rawText voice
               (Some isLineBg) (Some attributes)), n2)
  end.

Definition linesOfContainer (agentMap : list (string * string))
    (acc : list TimedLine.t * nat) (container : Node)
  : list TimedLine.t * nat :=
  fold_left
    (fun a p =>
       match lineOfP agentMap p (snd a) with
       | (Some l, n) => (fst a ++ [l], n)
       | (None, n) => (fst a, n)
       end)
    (getElementsByTagName "p" container) acc.

Definition firstOf (l : list Node) : option Node := hd_error l.

Definition orNode (a b : option Node) : option Node :=
  match a with Some _ => a | None => b end.

(** The agents declared in the head: [xml:id] to name. *)
Definition agentsOf (head : Node) : list (string * string) :=
  let agents := getElementsByTagNameNS ns_ttm "agent" head in
  let allAgents :=
    match agents with
    | [] => getElementsByTagName "ttm:agent" head
    | _ :: _ => agents
    end in
  fold_left
    (fun m agent =>
       let nameTag :=
         orNode (firstOf (getElementsByTagNameNS ns_ttm "name" agent))
                (firstOf (getElementsByTagName "ttm:name" agent)) in
       match getAttribute "xml:id" agent with
       | Some (String _ _ as id) =>
           match nameTag with
           | Some t =>
               match textContent t with
               | EmptyString => setKey id id m
               | nm => setKey id nm m
               end
           | None => setKey id id m
           end
       | _ => m
       end)
    allAgents [].

(** The local function [getMeta]. *)
Definition getMeta (head : Node) (tagName : string) : option string :=
  match firstOf (getElementsByTagNameNS ns_ttm tagName head) with
  | Some t1 => Some (textContent t1)
  | None =>
      match firstOf (getElementsByTagName ("ttm:" ++ tagName) head) with
      | Some t2 => Some (textContent t2)
      | None =>
          match firstOf (getElementsByTagName tagName head) with
          | Some t3 => Some (textContent t3)
          | None => None
          end
      end
  end.

Definition songwritersOf (head : Node) : option (list string) :=
  let itunesMeta :=
    orNode (firstOf (getElementsByTagName "iTunesMetadata" head))
      (orNode (firstOf (getElementsByTagNameNS ns_itunes "iTunesMetadata" head))
              (firstOf (getElementsByTagName "itunes:iTunesMetadata" head))) in
  match itunesMeta with
  | Some im =>
      let swContainer :=
        orNode (firstOf (getElementsByTagName "songwriters" im))
               (firstOf (getElementsByTagNameNS ns_itunes "songwriters" im)) in
      match swContainer with
      | Some c =>
          Some (filter Lrc.nonEmpty
                  (map textContent (getElementsByTagName "songwriter" c)))
      | None => None
      end
  | None => None
  end.

Definition initialMetadata : Metadata.t :=
  Metadata.mk (Some EmptyString) (Some EmptyString) (Some EmptyString)
              (Some []) None None None None None None (Some []).

(** The metadata read from the head, and the agent map. *)
Definition readHead (xmlDoc : Document)
  : Metadata.t * list (string * string) :=
  match firstOf (documentElementsByTagName "head" xmlDoc) with
  | None => (initialMetadata, [])
  | Some head =>
      let lang :=
        match documentElement xmlDoc with
        | Some root => getAttribute "xml:lang" root
        | None => None
        end in
      let title := getMeta head "title" in
      let artist := getMeta head "artist" in
      (Metadata.mk
         (if truthyString title then title else Some EmptyString)
         (if truthyString artist then artist else Some EmptyString)
         (Some EmptyString)
         (match songwritersOf head with Some l => Some l | None => Some [] end)
         None
         (if truthyString lang then lang else None)
         None None None None (Some []),
       agentsOf head)
  end.

(** The lines in the order [lines.push] meets them: every [p] of every
    [div] of the body, or of the body itself when it has no [div]. *)
Definition collectLines (agentMap : list (string * string)) (body : Node)
  : list TimedLine.t :=
  let divs := getElementsByTagName "div" body in
  let containers :=
    match divs with
    | [] => [body]
    | _ :: _ => divs
    end in
  fst (fold_left (linesOfContainer agentMap) containers ([], 0%nat)).

(** [parseTTML] on the document the browser made of the text. *)
Definition parseDocument (xmlDoc : Document) : LyricsDocument.t :=
  let '(metadata, agentMap) := readHead xmlDoc in
  match firstOf (documentElementsByTagName "body" xmlDoc) with
  | None => LyricsDocument.mk TTML [] metadata
  | Some body =>
      LyricsDocument.mk TTML
        (JsArray.sort LrcParser.byStartTime (collectLines agentMap body))
        metadata
  end.

Variable parseFromString : string -> Document.

Definition parseTTML (text : string) : LyricsDocument.t :=
  parseDocument (parseFromString text).

End WithIds.
End Ttml.

(** ** Format detection and the entry point [parseLyrics] *)

Module Parser.
Import JsNumber JsString JsConv Regex Lrc LrcParser.

(** "/<[0-9]{1,2}:[0-9]{2}(?:\.[0-9]{1,3})?>/" *)
Definition elrcRegex : regex :=
  Cat [Chr "<"; Rep12 digit; Chr ":"; Rep22 digit;
       Opt (Seq (Chr ".") (Rep13 digit)); Chr ">"].

(** "/\[[0-9]{1,3}:[0-9]{2}/" *)
Definition lrcRegex : regex :=
  Cat [Chr "["; Rep13 digit; Chr ":"; Rep22 digit].

Definition ttmlNamespaceAttribute : string :=
  ("xmlns=" ++ Generate.dq ++ "http://www.w3.org/ns/ttml" ++ Generate.dq)%string.

Definition detectFormat (text : string) : LyricsFormat :=
  if includes text "<tt" || includes text ttmlNamespaceAttribute then TTML
  else if test elrcRegex text then ELRC
  else if test lrcRegex text then LRC
  else PLAIN.

Definition plainMetadata : Metadata.t :=
  Metadata.mk (Some EmptyString) (Some EmptyString) (Some EmptyString) None
              None None None None None None (Some []).

Section WithEnvironment.
Variable randomId : Ids.supply.
Variable parseFromString : string -> Dom.Document.

Fixpoint plainWordsOf (ws : list string) (n : nat)
  : list TimedWord.t * nat :=
  match ws with
  | [] => ([], n)
  | w :: ws' =>
      let '(i, n1) := Ids.generateId randomId n in
      let '(rest, n2) := plainWordsOf ws' n1 in
      (TimedWord.mk i w (ofZ 0) None None :: rest, n2)
  end.

(** The [map] callback of the default branch. *)
Fixpoint plainLines (ls : list string) (n : nat) : list TimedLine.t * nat :=
  match ls with
  | [] => ([], n)
  | l :: ls' =>
      let '(i, n1) := Ids.generateId randomId n in
      let '(words, n2) := plainWordsOf (split spacesRegex 0 (trim l)) n1 in
      let '(rest, n3) := plainLines ls' n2 in
      (TimedLine.mk i (ofZ 0) None words (trim l) (Some "v1"%string) None None
         :: rest, n3)
  end.

Definition parsePlain (text : string) : LyricsDocument.t :=
  LyricsDocument.mk PLAIN
    (fst (plainLines (filter (fun l => nonEmpty (trim l))
                             (split lineBreakRegex 0 text)) 0))
    plainMetadata.

(** [format || detectFormat (text)]: every member of the enumeration is
    a non-empty string, hence truthy. *)
Definition parseLyrics (text : string) (format : option LyricsFormat)
  : LyricsDocument.t :=
  let detected :=
    match format with Some f => f | None => detectFormat text end in
  match detected with
  | LRC => parseLRC randomId text
  | ELRC => parseELRC randomId text
  | TTML => Ttml.parseTTML randomId parseFromString text
  | PLAIN => parsePlain text
  end.

End WithEnvironment.
End Parser.

(** ** Notions used to state the properties *)

Module Props.
Import JsNumber JsString JsConv.

(** An oracle for the examples: the n-th identifier is [id] followed by
    [n]. *)
Definition sampleIds : Ids.supply :=
  fun n => ("id" ++ showZ (Z.of_nat n))%string.

Definition LF : string := Generate.nl.

(** The text after the first occurrence of [marker]. *)
Fixpoint afterMarker (marker l : list ascii) : option (list ascii) :=
  if isPrefixL marker l then Some (skipn (List.length marker) l)
  else match l with
       | [] => None
       | _ :: l' => afterMarker marker l'
       end.

Definition isQuote (c : ascii) : bool := Ascii.eqb c (ascii_of_nat 34).

(** The value of the first attribute [name] in a generated text. *)
Definition attributeValue (name xml : string) : option string :=
  match afterMarker (chars (name ++ "=" ++ Generate.dq)) (chars xml) with
  | Some r => Some (str (takeWhile (fun c => negb (isQuote c)) r))
  | None => None
  end.

(** A word starts more than 0.05 s after the line does. *)
Definition startsLate (l : TimedLine.t) (w : TimedWord.t) : Prop :=
  gt (TimedWord.startTime w)
     (add (TimedLine.startTime l) Generate.wordSyncThreshold) = true.

(** Word synchronisation as the generator decides it: a line with more
    than one word, one of which, the first included, starts late. *)
Definition someWordLate (doc : LyricsDocument.t) : Prop :=
  exists l, In l (LyricsDocument.lines doc) /\
    (1 < List.length (TimedLine.words l))%nat /\
    exists w, In w (TimedLine.words l) /\ startsLate l w.

(** Word synchronisation as the specification words it: a line with more
    than one word, one of which, after the first, starts late. *)
Definition someLaterWordLate (doc : LyricsDocument.t) : Prop :=
  exists l, In l (LyricsDocument.lines doc) /\
    (1 < List.length (TimedLine.words l))%nat /\
    exists w, In w (tl (TimedLine.words l)) /\ startsLate l w.

(** A line at 0 s whose first word starts at 1 s and whose second word
    starts with the line. *)
Definition lateFirstWord : LyricsDocument.t :=
  LyricsDocument.mk ELRC
    [TimedLine.mk "l1" (ofZ 0) None
       [TimedWord.mk "w1" "a" (ofZ 1) None None;
        TimedWord.mk "w2" "b" (ofZ 0) None None]
       "a b" (Some "v1"%string) (Some false) None]
    Parser.plainMetadata.

(** Two lines that start at 0 s. *)
Definition twoLinesAtZero : string :=
  ("[00:00.00]A" ++ LF ++ "[00:00.00]B")%string.

(** A line whose text holds a bracketed time, and the line after it. *)
Definition lineAfterInnerStamp : string :=
  ("[00:01.00]abc [00:05.00]" ++ LF ++ "[00:02.00]Chorus")%string.

(** The document a browser makes of a text that is not XML. *)
Definition errorDocument : Dom.Document :=
  Dom.mkDocument
    [Dom.Element "parsererror" "parsererror"
       (Some "http://www.mozilla.org/newlayout/xml/parsererror.xml"%string) []
       [Dom.Text "XML Parsing Error: syntax error"]].

(** Times the shift by zero leaves as they are: [t >= 0] for a start and
    [t > 0] for an end that is present. *)
Definition startKept (t : number) : Prop := ge t (ofZ 0) = true.
Definition endKept (e : option number) : Prop :=
  match e with Some t => gt t (ofZ 0) = true | None => True end.

Definition wordTimesKept (w : TimedWord.t) : Prop :=
  startKept (TimedWord.startTime w) /\ endKept (TimedWord.endTime w).
Definition lineTimesKept (l : TimedLine.t) : Prop :=
  startKept (TimedLine.startTime l) /\ endKept (TimedLine.endTime l) /\
  Forall wordTimesKept (TimedLine.words l).

(** Two words, two lines agree in all but their times. *)
Definition sameWordButTimes (w w' : TimedWord.t) : Prop :=
  TimedWord.id w' = TimedWord.id w /\
  TimedWord.text w' = TimedWord.text w /\
  TimedWord.isBackground w' = TimedWord.isBackground w.
Definition sameLineButTimes (l l' : TimedLine.t) : Prop :=
  TimedLine.id l' = TimedLine.id l /\
  TimedLine.rawText l' = TimedLine.rawText l /\
  TimedLine.voice l' = TimedLine.voice l /\
  TimedLine.isBackground l' = TimedLine.isBackground l /\
  TimedLine.attributes l' = TimedLine.attributes l /\
  Forall2 sameWordButTimes (TimedLine.words l) (TimedLine.words l').

(** Equality of times as [===] has it ([+0] and [-0] are one time). *)
Definition sameTime (a b : number) : Prop := strictEq a b = true.
Definition sameEnd (a b : option number) : Prop :=
  match a, b with
  | Some x, Some y => sameTime x y
  | None, None => True
  | _, _ => False
  end.
Definition sameWordTimes (w w' : TimedWord.t) : Prop :=
  sameTime (TimedWord.startTime w) (TimedWord.startTime w') /\
  sameEnd (TimedWord.endTime w) (TimedWord.endTime w').
Definition sameLineTimes (l l' : TimedLine.t) : Prop :=
  sameTime (TimedLine.startTime l) (TimedLine.startTime l') /\
  sameEnd (TimedLine.endTime l) (TimedLine.endTime l') /\
  Forall2 sameWordTimes (TimedLine.words l) (TimedLine.words l').

(** The lines of a document ascend by start time, as [<=] orders them. *)
Definition ascending (ls : list TimedLine.t) : Prop :=
  StronglySorted (fun a b => le a b = true) (map TimedLine.startTime ls).

Definition sameStart (l0 l : TimedLine.t) : bool :=
  strictEq (TimedLine.startTime l) (TimedLine.startTime l0).

Definition identity (l : TimedLine.t) : string * string :=
  (TimedLine.id l, TimedLine.rawText l).

(** The lines that start when a given line does come in the result in the
    order the parser met them. *)
Definition tiesInOrder (met result : list TimedLine.t) : Prop :=
  Forall (fun l0 => map identity (filter (sameStart l0) result)
                    = map identity (filter (sameStart l0) met)) met.

(** The lines of a text in the order the parser of its format meets them,
    before any sorting. *)
Definition encountered (randomId : Ids.supply)
    (parseFromString : string -> Dom.Document) (text : string)
    (format : option LyricsFormat) : list TimedLine.t :=
  match match format with Some f => f | None => Parser.detectFormat text end with
  | LRC | ELRC => Lrc.lines (LrcParser.scan randomId text)
  | TTML =>
      let xmlDoc := parseFromString text in
      match hd_error (Dom.documentElementsByTagName "body" xmlDoc) with
      | Some body =>
          Ttml.collectLines randomId (snd (Ttml.readHead xmlDoc)) body
      | None => []
      end
  | PLAIN => LyricsDocument.lines (Parser.parsePlain randomId text)
  end.

(** The end of the line at index [i]: the start of the next line, or its
    own start plus 5 s. *)
Definition inferredLineEnd (ls : list TimedLine.t) (i : nat) (l : TimedLine.t)
  : number :=
  match nth_error ls (S i) with
  | Some l' => TimedLine.startTime l'
  | None => add (TimedLine.startTime l) (ofZ 5)
  end.

(** The end of the word at index [j] of a line that ends at [lineEnd]. *)
Definition inferredWordEnd (lineEnd : number) (ws : list TimedWord.t) (j : nat)
  : number :=
  match nth_error ws (S j) with
  | Some w' => TimedWord.startTime w'
  | None => lineEnd
  end.

(** The end times of the lines [ls] and of their words are the inferred
    ones. *)
Definition endTimesInferred (ls : list TimedLine.t) : Prop :=
  forall i l, nth_error ls i = Some l ->
    TimedLine.endTime l = Some (inferredLineEnd ls i l) /\
    forall j w, nth_error (TimedLine.words l) j = Some w ->
      TimedWord.endTime w
        = Some (inferredWordEnd (inferredLineEnd ls i l) (TimedLine.words l) j).

(** The word [w] is the word [w0] with its end time set to [e]. *)
Definition wordEndSet (e : number) (w0 w : TimedWord.t) : Prop :=
  TimedWord.id w = TimedWord.id w0 /\
  TimedWord.text w = TimedWord.text w0 /\
  TimedWord.startTime w = TimedWord.startTime w0 /\
  TimedWord.isBackground w = TimedWord.isBackground w0 /\
  TimedWord.endTime w = Some e.

(** The line [l] is the line [l0] with its end time set to [e]: it has
    the words of [l0], as many and in their order, each with its end time
    set to the inferred one. *)
Definition lineEndSet (e : number) (l0 l : TimedLine.t) : Prop :=
  TimedLine.id l = TimedLine.id l0 /\
  TimedLine.startTime l = TimedLine.startTime l0 /\
  TimedLine.rawText l = TimedLine.rawText l0 /\
  TimedLine.voice l = TimedLine.voice l0 /\
  TimedLine.isBackground l = TimedLine.isBackground l0 /\
  TimedLine.attributes l = TimedLine.attributes l0 /\
  TimedLine.endTime l = Some e /\
  List.length (TimedLine.words l) = List.length (TimedLine.words l0) /\
  forall j w0, nth_error (TimedLine.words l0) j = Some w0 ->
    exists w, nth_error (TimedLine.words l) j = Some w /\
              wordEndSet (inferredWordEnd e (TimedLine.words l0) j) w0 w.

(** The lines [result] are the sorted lines [sorted], as many and in
    their order, each with its end time and those of its words set to the
    inferred ones. *)
Definition endTimesSet (sorted result : list TimedLine.t) : Prop :=
  List.length result = List.length sorted /\
  forall i l0, nth_error sorted i = Some l0 ->
    exists l, nth_error result i = Some l /\
              lineEndSet (inferredLineEnd sorted i l0) l0 l.

(** The text and the start of a line. *)
Definition summary (l : TimedLine.t) : string * number :=
  (TimedLine.rawText l, TimedLine.startTime l).

(** The texts of the words of a line made of [content]: they do not
    depend on the time of the line nor on the identifiers drawn. *)
Definition wordTexts (randomId : Ids.supply) (content : string)
    (hasWordTimings : bool) : list string :=
  map TimedWord.text
    (TimedLine.words
       (fst (Lrc.buildLine randomId content "v1" false hasWordTimings (ofZ 0) 0))).

End Props.

(** ** Number values and their order *)

Module Binary64.
Import JsNumber.

(** The exponent of the unit in the last place of a number of magnitude
    [2^k]: 53 significant bits, and no exponent below -1074. *)
Definition fexp64 (k : Z) : Z := Z.max (k - 53) (-1074).

(** The mantissa [m] and the exponent [e] are those binary64 stores for
    [m * 2^e]. *)
Definition canonical64 (m e : Z) : Prop := fexp64 (Zdigits2 m + e) = e.

(** The shape of what [binary_round_aux] returns. *)
Inductive rounded (s : bool) : spec_float -> Prop :=
| rounded_zero : rounded s (S754_zero s)
| rounded_infinity : rounded s (S754_infinity s)
| rounded_finite (m : positive) (e : Z) :
    canonical64 (Zpos m) e -> e <= 971 -> rounded s (S754_finite s m e).

(** A Number value: a finite one has a canonical mantissa and an exponent
    in range. *)
Definition wf (x : number) : Prop := valid_binary prec emax x = true.

(** The value of a number counted in units of [2^-1074], the infinities
    beyond all finite values: an integer that orders the numbers as the
    relational operators do. *)
Definition key (x : number) : Z :=
  match x with
  | S754_zero _ => 0
  | S754_infinity s => cond_Zopp s (2 ^ 2100)
  | S754_nan => 0
  | S754_finite s m e => cond_Zopp s (Zpos m * 2 ^ (e + 1074))
  end.

(** A Number value other than [NaN]. *)
Definition isTime (x : number) : Prop := wf x /\ isNaN x = false.

(** The numbers at least zero, plus infinity among them. *)
Definition nonNegative (x : number) : Prop := rounded false x.

(** Where the ratio [N / D] lies in the interval from [m] to [m + 1]. *)
Definition locates (m : Z) (l : location) (N D : Z) : Prop :=
  match l with
  | loc_Exact => N = m * D
  | loc_Inexact Lt => m * D < N /\ 2 * N < (2 * m + 1) * D
  | loc_Inexact Eq => 2 * N = (2 * m + 1) * D
  | loc_Inexact Gt => (2 * m + 1) * D < 2 * N /\ N < (m + 1) * D
  end.

(** [r] is the ratio [N / D], counted in units of [2^-1074], rounded to a
    Number value: a finite number at least zero, a multiple of a unit
    [2^g] that is no coarser than the ratio allows, within half a unit. *)
Definition rounds (r : number) (N D : Z) : Prop :=
  nonNegative r /\ isFinite r = true /\
  exists g k, 0 <= g /\ 0 <= k /\ key r = k * 2 ^ g /\
    2 * Z.abs (k * 2 ^ g * D - N) <= D * 2 ^ g /\
    (g = 0 \/ 2 ^ (g + 52) * D <= N).

(** The integers, in units of [2^-1074], that lie on the grid of the
    Number values: a multiple of every unit their size allows. *)
Definition onGrid (N : Z) : Prop :=
  forall g, 0 <= g -> 2 ^ (g + 52) <= N -> (2 ^ g | N).

(** [x] is a finite number at least zero of value [v * 2^-1074]. *)
Definition denotes (x : number) (v : Z) : Prop :=
  nonNegative x /\ isFinite x = true /\ key x = v.
End Binary64.

(** ** What a pattern matches *)

Module Semantics.
Import JsString Regex.

(** The states a pattern can lead to, whatever the backtracking. *)
Inductive Matches : regex -> mstate -> mstate -> Prop :=
| M_Eps st : Matches Eps st st
| M_Chr c st l :
    rest st = c :: l -> Matches (Chr c) st (mkState (S (pos st)) l (caps st))
| M_Cls p x st l :
    rest st = x :: l -> p x = true ->
    Matches (Cls p) st (mkState (S (pos st)) l (caps st))
| M_Seq a b st st1 st2 :
    Matches a st st1 -> Matches b st1 st2 -> Matches (Seq a b) st st2
| M_AltL a b st st' : Matches a st st' -> Matches (Alt a b) st st'
| M_AltR a b st st' : Matches b st st' -> Matches (Alt a b) st st'
| M_Star0 a st : Matches (Star a) st st
| M_StarS a st st1 st2 :
    Matches a st st1 -> Matches (Star a) st1 st2 -> Matches (Star a) st st2
| M_Group n a st st' :
    Matches a st st' ->
    Matches (Group n a) st
      (mkState (pos st') (rest st')
         ((n, str (firstn (pos st' - pos st) (rest st))) :: caps st'))
| M_Bol st : pos st = 0%nat -> Matches Bol st st
| M_Eol st : rest st = [] -> Matches Eol st st.

End Semantics.

(** ** The shapes the parser relies on *)

Module Shapes.
Import JsNumber JsString JsConv Codec Regex Lrc Binary64 Semantics.

(** Decimal digits only. *)
Definition allDigits (l : list ascii) : Prop := Forall (fun c => isDigit c = true) l.

(** What a run of one to three digits consumes. *)
Definition digitRun (st st1 : mstate) (ds : list ascii) : Prop :=
  allDigits ds /\ ds <> [] /\
  rest st = (ds ++ rest st1)%list /\
  pos st1 = (pos st + List.length ds)%nat /\ caps st1 = caps st.

(** A text of one digit or more. *)
Definition digitText (v : string) : Prop :=
  exists ds, allDigits ds /\ ds <> [] /\ v = str ds.

(** The groups a match of a time pattern leaves: minutes and seconds
    always, a third field and a fraction when they are there. *)
Definition stampGroups (g : list (nat * string)) : Prop :=
  exists g1 g2, digitText g1 /\ digitText g2 /\
    (g = [(2%nat, g2); (1%nat, g1)] \/
     (exists g3, digitText g3 /\ g = [(3%nat, g3); (2%nat, g2); (1%nat, g1)]) \/
     (exists g4, digitText g4 /\ g = [(4%nat, g4); (2%nat, g2); (1%nat, g1)]) \/
     (exists g3 g4, digitText g3 /\ digitText g4 /\
        g = [(4%nat, g4); (3%nat, g3); (2%nat, g2); (1%nat, g1)])).

(** A line whose start is a time. *)
Definition timed (l : TimedLine.t) : Prop := isTime (TimedLine.startTime l).

(** The order of two elements by an integer key. *)
Definition keyLe {A : Type} (k : A -> Z) (x y : A) : Prop := k x <= k y.

(** The numerals padded to two and to three digits, by enumeration. *)
Definition padded (k : nat) (n : Z) : bool :=
  let l := chars (padStart0 k (showZ n)) in
  (List.length l =? k)%nat && forallb isDigit l && (digitsValue l =? n).

(** A character that [trim] and the removal of brackets leave alone. *)
Definition plainChar (c : ascii) : bool :=
  negb (isSpace c) && negb (isBracket c).

(** The factor of the fraction, 100 or 1000, and the digits it is written
    with. *)
Definition scale (p : precision) : Z := match p with P2 => 100 | P3 => 1000 end.
Definition width (p : precision) : nat := match p with P2 => 2%nat | P3 => 3%nat end.

(** The text [formatTimestamp] makes of hours, minutes, seconds and the
    digits of the fraction. *)
Definition timeText (H M S K : Z) (p : precision) : string :=
  ((if (0 <? H)%Z
    then showZ H ++ ":" ++ padStart0 2 (showZ M) ++ ":" ++ padStart0 2 (showZ S)
    else padStart0 2 (showZ M) ++ ":" ++ padStart0 2 (showZ S))
   ++ "." ++ padStart0 (width p) (showZ K))%string.

(** The precision in seconds: one unit of the last digit written. *)
Definition unitOf (p : precision) : Q :=
  match p with P2 => 1 # 100 | P3 => 1 # 1000 end.
End Shapes.

(** ** The editor: the batch shift ([handleBatchShift]) *)

Module Editor.
Import JsNumber JsString JsConv Codec Shift.

(** The [direction] parameter, of type [1 | -1]. *)
Inductive direction : Type := Forward | Backward.

Definition directionValue (d : direction) : number :=
  match d with Forward => ofZ 1 | Backward => ofZ (-1) end.

(** What one call does: the document handed to [onUpdate] and the text
    handed to [setShiftFeedback].  The safety check of the source has an
    empty body. *)
Definition handleBatchShift (doc : LyricsDocument.t) (shiftOffset : string)
    (d : direction) : LyricsDocument.t * string :=
  let val := parseTimestamp shiftOffset in
  let seconds := mul val (directionValue d) in
  let newDoc := shiftTimestamps doc seconds in
  let sign := match d with Forward => "+"%string | Backward => "-"%string end in
  (newDoc, ("Shifted all by " ++ sign ++ formatTimestamp val P3)%string).


(** *** Moving a word to the neighbouring line ([moveWord]) *)

Inductive wordDirection : Type := Up | Down.

(** How a call ends: it returns before any update, it hands new lines to
    [onUpdate], or it throws a [TypeError] on a line that is not there. *)
Inductive outcome : Type :=
| Returned
| Updated (newLines : list TimedLine.t)
| Thrown.

(** [newLines[i] = x] for an index of the array. *)
Fixpoint replaceAt {A : Type} (i : nat) (x : A) (l : list A) : list A :=
  match l, i with
  | [], _ => []
  | _ :: r, O => x :: r
  | y :: r, S j => y :: replaceAt j x r
  end.

Definition rawTextOf (ws : list TimedWord.t) : string :=
  join " " (map TimedWord.text ws).

(** [{ ...line, words, rawText: words.map(w => w.text).join(' '),
    startTime }] *)
Definition withWords (line : TimedLine.t) (ws : list TimedWord.t)
    (start : number) : TimedLine.t :=
  {| TimedLine.id := TimedLine.id line;
     TimedLine.startTime := start;
     TimedLine.endTime := TimedLine.endTime line;
     TimedLine.words := ws;
     TimedLine.rawText := rawTextOf ws;
     TimedLine.voice := TimedLine.voice line;
     TimedLine.isBackground := TimedLine.isBackground line;
     TimedLine.attributes := TimedLine.attributes line |}.

(** [doc.lines[i]] for an integer [i]: [undefined] outside the array. *)
Definition lineAt (lines : list TimedLine.t) (i : Z) : option TimedLine.t :=
  if i <? 0 then None else nth_error lines (Z.to_nat i).

Definition moveWord (lines : list TimedLine.t) (lineIndex : Z)
    (d : wordDirection) : outcome :=
  match d with
  | Up =>
      if lineIndex <=? 0 then Returned
      else
        match lineAt lines lineIndex, lineAt lines (lineIndex - 1) with
        | None, _ => Thrown
        | Some currentLine, targetLine =>
            match TimedLine.words currentLine, targetLine with
            | [], _ => Returned
            | _ :: _, None => Thrown
            | wordToMove :: newCurrentWords, Some targetLine =>
                let newTargetWords :=
                  (TimedLine.words targetLine ++ [wordToMove])%list in
                let start :=
                  match newCurrentWords with
                  | w :: _ => TimedWord.startTime w
                  | [] => TimedLine.startTime currentLine
                  end in
                Updated
                  (replaceAt (Z.to_nat (lineIndex - 1))
                     (withWords targetLine newTargetWords
                        (TimedLine.startTime targetLine))
                     (replaceAt (Z.to_nat lineIndex)
                        (withWords currentLine newCurrentWords start) lines))
            end
        end
  | Down =>
      if lineIndex >=? Z.of_nat (List.length lines) - 1 then Returned
      else
        match lineAt lines lineIndex, lineAt lines (lineIndex + 1) with
        | None, _ => Thrown
        | Some currentLine, targetLine =>
            match rev (TimedLine.words currentLine), targetLine with
            | [], _ => Returned
            | _ :: _, None => Thrown
            | wordToMove :: before, Some targetLine =>
                let newCurrentWords := rev before in
                let newTargetWords := wordToMove :: TimedLine.words targetLine in
                Updated
                  (replaceAt (Z.to_nat (lineIndex + 1))
                     (withWords targetLine newTargetWords
                        (TimedWord.startTime wordToMove))
                     (replaceAt (Z.to_nat lineIndex)
                        (withWords currentLine newCurrentWords
                           (TimedLine.startTime currentLine)) lines))
            end
        end
  end.

End Editor.

(** ** The preview: the line that is playing ([activeLineIndex]) *)

Module Preview.
Import JsNumber.

(** [Array.prototype.findIndex]: the first index whose element satisfies
    the callback, or -1. *)
Fixpoint findIndexFrom {A : Type} (p : A -> nat -> bool) (l : list A)
    (i : nat) : Z :=
  match l with
  | [] => -1
  | x :: r => if p x i then Z.of_nat i else findIndexFrom p r (S i)
  end.

Definition findIndex {A : Type} (p : A -> nat -> bool) (l : list A) : Z :=
  findIndexFrom p l 0.

(** The callback: [currentTime >= line.startTime && (!nextLine ||
    currentTime < nextLine.startTime)]. *)
Definition isActive (currentTime : number) (lines : list TimedLine.t)
    (line : TimedLine.t) (i : nat) : bool :=
  ge currentTime (TimedLine.startTime line) &&
  match nth_error lines (S i) with
  | None => true
  | Some nextLine => lt currentTime (TimedLine.startTime nextLine)
  end.

Definition activeLineIndex (currentTime : number) (lines : list TimedLine.t)
  : Z :=
  findIndex (isActive currentTime lines) lines.

End Preview.

Module MoreProps.
Import JsNumber JsString JsConv Codec Shift.

(** A time that is [NaN] or at least zero. *)
Definition notBelowZero (t : number) : Prop :=
  isNaN t = true \/ ge t (ofZ 0) = true.

Definition endNotBelowZero (e : option number) : Prop :=
  match e with Some t => notBelowZero t | None => True end.

Definition wordNotBelowZero (w : TimedWord.t) : Prop :=
  notBelowZero (TimedWord.startTime w) /\ endNotBelowZero (TimedWord.endTime w).

Definition lineNotBelowZero (l : TimedLine.t) : Prop :=
  notBelowZero (TimedLine.startTime l) /\ endNotBelowZero (TimedLine.endTime l) /\
  Forall wordNotBelowZero (TimedLine.words l).

(** Every start time of the line and of its words is [NaN]. *)
Definition lineStartsNaN (l : TimedLine.t) : Prop :=
  isNaN (TimedLine.startTime l) = true /\
  Forall (fun w => isNaN (TimedWord.startTime w) = true) (TimedLine.words l).

(** Two lines of lyrics, as the LRC parser reads them. *)
Definition twoLines : list TimedLine.t :=
  LyricsDocument.lines
    (LrcParser.parseLRC Props.sampleIds
       ("[00:01.00]One two" ++ Props.LF ++ "[00:03.00]Three four")%string).

End MoreProps.

(** ** The application: the undo history ([updateLyricsDoc], [undo], [redo]) *)

Module App.

(** The state the three handlers read and write: the [lyricsDoc],
    [history] and [historyIndex] state variables and the
    [isUndoRedoAction] ref.  A handler runs on the state of the latest
    render, so a run of the application is a sequence of handler calls,
    each on the state the one before left.  A document is [None] when the
    state variable holds [undefined]. *)
Record state : Type := mk {
  lyricsDoc : option LyricsDocument.t;
  history : list LyricsDocument.t;
  historyIndex : Z;
  isUndoRedoAction : bool
}.

(** [{ format: LyricsFormat.PLAIN, lines: [], metadata: {} }] *)
Definition emptyDoc : LyricsDocument.t :=
  LyricsDocument.mk PLAIN []
    (Metadata.mk None None None None None None None None None None None).

(** The state once the mount effect has run. *)
Definition mounted : state := mk (Some emptyDoc) [emptyDoc] 0 false.

(** [l.slice(0, e)]: a negative end counts from the end of the array. *)
Definition sliceTo {A : Type} (l : list A) (e : Z) : list A :=
  if e <? 0 then firstn (Z.to_nat (Z.of_nat (List.length l) + e)) l
  else firstn (Z.to_nat e) l.

(** [l[i]]: [undefined] outside the array. *)
Definition item {A : Type} (l : list A) (i : Z) : option A :=
  if i <? 0 then None else nth_error l (Z.to_nat i).

Definition updateLyricsDoc (st : state) (newDoc : LyricsDocument.t)
    (addToHistory : bool) : state :=
  if addToHistory && negb (isUndoRedoAction st) then
    let pushed :=
      (sliceTo (history st) (historyIndex st + 1) ++ [newDoc])%list in
    let newHistory :=
      if 50 <? Z.of_nat (List.length pushed) then tl pushed else pushed in
    mk (Some newDoc) newHistory (Z.of_nat (List.length newHistory) - 1) false
  else mk (Some newDoc) (history st) (historyIndex st) false.

Definition undo (st : state) : state :=
  if 0 <? historyIndex st then
    mk (item (history st) (historyIndex st - 1)) (history st)
       (historyIndex st - 1) true
  else st.

Definition redo (st : state) : state :=
  if historyIndex st <? Z.of_nat (List.length (history st)) - 1 then
    mk (item (history st) (historyIndex st + 1)) (history st)
       (historyIndex st + 1) true
  else st.

(** The calls a user can cause, and a run of them from the mounted
    state. *)
Inductive action : Type :=
| Update (newDoc : LyricsDocument.t) (addToHistory : bool)
| Undo
| Redo.

Definition step (st : state) (a : action) : state :=
  match a with
  | Update newDoc addToHistory => updateLyricsDoc st newDoc addToHistory
  | Undo => undo st
  | Redo => redo st
  end.

Definition run (actions : list action) : state := fold_left step actions mounted.

End App.

(** ** The editor: the voices ([setVoiceCount], [cycleVoice]) *)

Module Voices.
Import JsString Lrc.

(** The template literal [`v${nextNum}`]. *)
Definition voiceName (nextNum : Z) : string := ("v" ++ showZ nextNum)%string.

(** [current.includes (name)] on an array of strings. *)
Definition includesName (current : list string) (name : string) : bool :=
  existsb (String.eqb name) current.

(** [while (current.includes (`v${nextNum}`)) nextNum++]: the number the
    loop stops at, if it does within [fuel] tests. *)
Fixpoint nextFree (fuel : nat) (current : list string) (nextNum : Z)
  : option Z :=
  match fuel with
  | O => None
  | S fuel' =>
      if includesName current (voiceName nextNum)
      then nextFree fuel' current (nextNum + 1)
      else Some nextNum
  end.

(** The [for] loop, [n] rounds from index [i]: each round pushes the first
    free name from [i + 1] on.  An array of [k] names cannot hold all of
    [k + 1] names, so [k + 1] tests are enough for the [while] loop. *)
Fixpoint addVoices (n : nat) (i : Z) (current : list string)
  : option (list string) :=
  match n with
  | O => Some current
  | S n' =>
      match nextFree (S (List.length current)) current (i + 1) with
      | Some nextNum =>
          addVoices n' (i + 1) (current ++ [voiceName nextNum])
      | None => None
      end
  end.

(** The voices [setVoiceCount (count)] leaves in the state, for an integer
    [count]; [None] if a loop ran out of fuel. *)
Definition setVoiceCount (definedVoices : list string) (count : Z)
  : option (list string) :=
  if count <? 1 then Some definedVoices
  else if Z.of_nat (List.length definedVoices) <? count then
    addVoices (Z.to_nat (count - Z.of_nat (List.length definedVoices)))
              (Z.of_nat (List.length definedVoices)) definedVoices
  else Some (firstn (Z.to_nat count) definedVoices).

(** [Array.prototype.indexOf] on strings. *)
Fixpoint indexOfFrom (l : list string) (x : string) (i : Z) : Z :=
  match l with
  | [] => -1
  | y :: r => if String.eqb y x then i else indexOfFrom r x (i + 1)
  end.

Definition indexOf (l : list string) (x : string) : Z := indexOfFrom l x 0.

(** [updateLine (lineId, { voice })]: the lines with that id get the
    voice, which is absent when [voice] is [undefined]. *)
Definition updateLineVoice (lines : list TimedLine.t) (lineId : string)
    (voice : option string) : list TimedLine.t :=
  map (fun l =>
         if String.eqb (TimedLine.id l) lineId then
           TimedLine.mk (TimedLine.id l) (TimedLine.startTime l)
             (TimedLine.endTime l) (TimedLine.words l) (TimedLine.rawText l)
             voice (TimedLine.isBackground l) (TimedLine.attributes l)
         else l) lines.

(** The voices and the lines after [cycleVoice (lineId, currentVoice)]. *)
Definition cycleVoice (definedVoices : list string)
    (lines : list TimedLine.t) (lineId : string)
    (currentVoice : option string) : list string * list TimedLine.t :=
  match definedVoices with
  | [] => (["v1"; "v2"]%string, updateLineVoice lines lineId (Some "v1"%string))
  | first :: _ =>
      let currentIndex :=
        match currentVoice with
        | Some v => if nonEmpty v then indexOf definedVoices v else -1
        | None => -1
        end in
      let nextVoice :=
        if currentIndex =? -1 then Some first
        else nth_error definedVoices
               (Z.to_nat ((currentIndex + 1)
                          mod Z.of_nat (List.length definedVoices))) in
      (definedVoices, updateLineVoice lines lineId nextVoice)
  end.

End Voices.

(** ** The LRC and ELRC generators ([generateLRC], [generateELRC]) *)

Module GenerateLrc.
Import JsNumber JsString JsConv Codec Generate.

(** The template literal of a tag line: an opening bracket, the key, a
    colon, the value, a closing bracket and a line feed. *)
Definition tagLine (k v : string) : string :=
  ("[" ++ k ++ ":" ++ v ++ "]" ++ nl)%string.

(** [if (v) output += ...] on a string that may be absent. *)
Definition tagIf (k : string) (v : option string) : string :=
  if truthyString v then tagLine k (orDefault v "") else ""%string.

(** [m.author || (m.songwriters ? m.songwriters.join (', ') : '')] *)
Definition authorOf (m : Metadata.t) : string :=
  match Metadata.author m with
  | Some (String _ _ as a) => a
  | _ =>
      match Metadata.songwriters m with
      | Some l => join ", " l
      | None => ""%string
      end
  end.

(** The tag lines of the metadata.  The list of [custom] holds the entries
    in the order [Object.entries] gives them. *)
Definition lrcHeader (m : Metadata.t) : string :=
  (tagIf "ti" (Metadata.title m)
   ++ tagIf "ar" (Metadata.artist m)
   ++ tagIf "al" (Metadata.album m)
   ++ match authorOf m with
      | EmptyString => ""
      | String _ _ as a => tagLine "au" a
      end
   ++ tagIf "by" (Metadata.createdBy m)
   ++ match Metadata.offset m with
      | Some o => if truthy o then tagLine "offset" (toString o) else ""
      | None => ""
      end
   ++ tagIf "la" (Metadata.language m)
   ++ match Metadata.custom m with
      | Some entries =>
          String.concat "" (map (fun kv => tagLine (fst kv) (snd kv)) entries)
      | None => ""
      end)%string.

(** What [generateLRC] writes for a line, before the line feed. *)
Definition lrcLineText (line : TimedLine.t) : string :=
  ("[" ++ formatTimestamp (TimedLine.startTime line) P2 ++ "]"
   ++ TimedLine.rawText line)%string.

Definition generateLRC (doc : LyricsDocument.t) : string :=
  (lrcHeader (LyricsDocument.metadata doc)
   ++ String.concat ""
        (map (fun line => lrcLineText line ++ nl) (LyricsDocument.lines doc)))%string.

Definition elrcWord (w : TimedWord.t) : string :=
  (" <" ++ formatTimestamp (TimedWord.startTime w) P2 ++ ">"
   ++ TimedWord.text w)%string.

Definition elrcLineText (line : TimedLine.t) : string :=
  ("[" ++ formatTimestamp (TimedLine.startTime line) P2 ++ "]"
   ++ String.concat "" (map elrcWord (TimedLine.words line)))%string.

Definition generateELRC (doc : LyricsDocument.t) : string :=
  let m := LyricsDocument.metadata doc in
  (tagIf "ti" (Metadata.title m)
   ++ tagIf "ar" (Metadata.artist m)
   ++ tagIf "al" (Metadata.album m)
   ++ String.concat ""
        (map (fun line => elrcLineText line ++ nl) (LyricsDocument.lines doc)))%string.

End GenerateLrc.

(** ** Texts that go through the LRC format *)

Module ExportProps.
Import JsString Regex Lrc.

(** A character that means nothing to the LRC parser: no bracket of a
    stamp or of a tag, no colon, no line terminator. *)
Definition lyricChar (c : ascii) : bool :=
  negb (Ascii.eqb c "[" || Ascii.eqb c "<" || Ascii.eqb c ":"
        || Ascii.eqb c CR || Ascii.eqb c LF).

(** No white space at either end: [s.trim () === s]. *)
Definition trimmedL (l : list ascii) : bool :=
  match l with [] => true | c :: _ => negb (isSpace c) end
  && match rev l with [] => true | c :: _ => negb (isSpace c) end.

Definition exportable (rawText : string) : bool :=
  forallb lyricChar (chars rawText) && trimmedL (chars rawText).

(** The text of a line as the parser rebuilds it: the words of the text
    joined by single spaces, or the text itself when it has no word. *)
Definition collapsed (rawText : string) : string :=
  let words := filter nonEmpty (split spacesRegex 0 rawText) in
  if nonEmpty (join " " words) then join " " words else rawText.

(** The match of a stamp of two digits of minutes, two of seconds and two
    of the fraction at the head of a line. *)
Definition stampResult (d1 d2 d3 d4 d5 d6 : ascii) : result :=
  mkResult 0 10 [(4%nat, str [d5; d6]); (2%nat, str [d3; d4]);
                 (1%nat, str [d1; d2])].

(** No line terminator of the pattern that splits the text into lines. *)
Definition notBreak (c : ascii) : Prop := c <> CR /\ c <> LF.

(** The texts of some lines, each followed by a line feed. *)
Definition joined (texts : list (list ascii)) : list ascii :=
  List.concat (map (fun t => t ++ [LF])%list texts).

(** A line that [generateLRC] writes so that the parser can read it: it
    starts at a time from zero to below one hour, and its text is
    exportable. *)
Definition exportableLine (line : TimedLine.t) : Prop :=
  Binary64.isTime (TimedLine.startTime line) /\
  JsNumber.ge (TimedLine.startTime line) (JsNumber.ofZ 0) = true /\
  JsNumber.lt (TimedLine.startTime line) (JsNumber.ofZ 3600) = true /\
  exportable (TimedLine.rawText line) = true.

(** What the parser makes of a line that was written: the text with its
    white space collapsed, the default voice, and a start less than a
    hundredth of a second and a millionth away. *)
Definition readBack (line l : TimedLine.t) : Prop :=
  TimedLine.rawText l = collapsed (TimedLine.rawText line) /\
  TimedLine.voice l = Some "v1"%string /\
  (Qabs (JsNumber.toQ (TimedLine.startTime l)
         - JsNumber.toQ (TimedLine.startTime line))
   < (1 # 100) + (1 # 1000000))%Q.

(** A line at 61 seconds and a document of two lines without metadata. *)
Definition sampleLine : TimedLine.t :=
  TimedLine.mk "a" (JsNumber.ofZ 61) None [] "One two" None None None.

Definition sampleDoc : LyricsDocument.t :=
  LyricsDocument.mk LRC
    [sampleLine;
     TimedLine.mk "b" (JsNumber.ofZ 7) None [] "Three  four" None None None]
    (Metadata.mk None None None None None None None None None None None).

End ExportProps.

(** ** Times within the range of a song *)

Module ShiftProps.
Import JsNumber.

(** A time at or after zero and below [2^32] seconds. *)
Definition withinRange (t : number) : Prop :=
  Binary64.isTime t /\ ge t (ofZ 0) = true /\ lt t (ofZ 4294967296) = true.

(** An offset of either sign: a finite number below [2^32]. *)
Definition offsetInRange (o : number) : Prop :=
  Binary64.isTime o /\ isFinite o = true /\ lt o (ofZ 4294967296) = true.

(** The range of a time as a test. *)
Definition inRange (t : number) : bool :=
  valid_binary prec emax t && negb (isNaN t) && ge t (ofZ 0)
  && lt t (ofZ 4294967296).

(** A document of two lines, at 1 and at 3 seconds. *)
Definition twoLineDoc : LyricsDocument.t :=
  LyricsDocument.mk LRC MoreProps.twoLines
    (LyricsDocument.metadata App.emptyDoc).

End ShiftProps.

(** * Properties *)

(** ** Binary64 arithmetic: the results are Number values *)

Module FloatFacts.
Import Binary64 Semantics Shapes.
Import JsNumber.

Lemma fexp_eq k : fexp prec emax k = fexp64 k.
Proof. reflexivity. Qed.

Lemma digits2_pos_log2 (m : positive) :
  Zpos (digits2_pos m) = Z.log2 (Zpos m) + 1.
Proof.
  assert (H : forall p, digits2_pos p = Pos.size p)
    by (induction p; simpl; congruence).
  rewrite H. destruct m; simpl; lia.
Qed.

Lemma Zdigits2_pos (m : Z) : 0 < m -> Zdigits2 m = Z.log2 m + 1.
Proof. destruct m; try lia. intros _. apply digits2_pos_log2. Qed.

Lemma Zdigits2_bounds (m : Z) :
  0 < m -> 2 ^ (Zdigits2 m - 1) <= m < 2 ^ Zdigits2 m.
Proof.
  intros H. rewrite Zdigits2_pos by assumption.
  replace (Z.log2 m + 1 - 1) with (Z.log2 m) by lia.
  apply Z.log2_spec. assumption.
Qed.

Lemma Zdigits2_unique (m k : Z) :
  2 ^ (k - 1) <= m < 2 ^ k -> 0 < k -> Zdigits2 m = k.
Proof.
  intros H Hk.
  assert (0 < m) by (assert (0 < 2 ^ (k - 1)) by (apply Z.pow_pos_nonneg; lia); lia).
  rewrite Zdigits2_pos by assumption.
  assert (Z.log2 m = k - 1); [|lia].
  apply Z.log2_unique; [lia|]. replace (Z.succ (k - 1)) with k by lia. assumption.
Qed.

Lemma Zdigits2_nonneg (m : Z) : 0 <= m -> 0 <= Zdigits2 m.
Proof. destruct m; simpl; lia. Qed.

Lemma Zdigits2_pos_pos (m : Z) : 0 < m -> 0 < Zdigits2 m.
Proof. destruct m; simpl; lia. Qed.

(** Shifting a mantissa to the right. *)
Lemma Zdigits2_shiftr (m n : Z) :
  0 < m -> 0 <= n -> n < Zdigits2 m ->
  Zdigits2 (m / 2 ^ n) = Zdigits2 m - n.
Proof.
  intros Hm Hn Hd.
  pose proof (Zdigits2_bounds m Hm) as [Hlo Hhi].
  apply Zdigits2_unique; [|lia].
  assert (0 < 2 ^ n) by (apply Z.pow_pos_nonneg; lia).
  split.
  - apply Z.div_le_lower_bound; [lia|].
    rewrite <- Z.pow_add_r by lia.
    replace (n + (Zdigits2 m - n - 1)) with (Zdigits2 m - 1) by lia. assumption.
  - apply Z.div_lt_upper_bound; [lia|].
    rewrite <- Z.pow_add_r by lia.
    replace (n + (Zdigits2 m - n)) with (Zdigits2 m) by lia. assumption.
Qed.

Lemma shiftr_small (m n : Z) :
  0 <= m -> Zdigits2 m <= n -> m / 2 ^ n = 0.
Proof.
  intros Hm Hd.
  destruct (Z.eq_dec m 0) as [->|Hne]; [apply Z.div_0_l; apply Z.pow_nonzero; [lia|]; pose proof (Zdigits2_nonneg 0); simpl in *; lia|].
  pose proof (Zdigits2_bounds m ltac:(lia)) as [_ Hhi].
  pose proof (Zdigits2_pos_pos m ltac:(lia)).
  apply Z.div_small. split; [lia|].
  eapply Z.lt_le_trans; [exact Hhi|].
  apply Z.pow_le_mono_r; lia.
Qed.

Lemma iter_pos_nat {A} (f : A -> A) (n : positive) (x : A) :
  SpecFloat.iter_pos f n x = Nat.iter (Pos.to_nat n) f x.
Proof.
  revert x. induction n as [n IH|n IH|]; intros x.
  - rewrite Pos2Nat.inj_xI.
    change (SpecFloat.iter_pos f n~1 x)
      with (SpecFloat.iter_pos f n (SpecFloat.iter_pos f n (f x))).
    rewrite !IH, Nat.iter_succ_r.
    replace (2 * Pos.to_nat n)%nat with (Pos.to_nat n + Pos.to_nat n)%nat by lia.
    now rewrite Nat.iter_add.
  - rewrite Pos2Nat.inj_xO.
    change (SpecFloat.iter_pos f n~0 x)
      with (SpecFloat.iter_pos f n (SpecFloat.iter_pos f n x)).
    rewrite !IH.
    replace (2 * Pos.to_nat n)%nat with (Pos.to_nat n + Pos.to_nat n)%nat by lia.
    now rewrite Nat.iter_add.
  - reflexivity.
Qed.

Lemma shr_1_m (r : shr_record) :
  0 <= shr_m r -> shr_m (shr_1 r) = shr_m r / 2.
Proof.
  destruct r as [m rb sb]; simpl. intros H.
  destruct m as [|p|p]; try lia; [reflexivity|].
  destruct p; simpl.
  - rewrite Pos2Z.inj_xI. apply Z.div_unique with 1; lia.
  - rewrite Pos2Z.inj_xO. apply Z.div_unique with 0; lia.
  - reflexivity.
Qed.

Lemma shr_iter_m (k : nat) (r : shr_record) :
  0 <= shr_m r ->
  shr_m (Nat.iter k shr_1 r) = shr_m r / 2 ^ Z.of_nat k.
Proof.
  intros H. induction k as [|k IH].
  - simpl. now rewrite Z.div_1_r.
  - rewrite Nat.iter_succ.
    assert (0 <= shr_m (Nat.iter k shr_1 r)).
    { rewrite IH. apply Z.div_pos; [lia|]. apply Z.pow_pos_nonneg; lia. }
    rewrite shr_1_m by assumption. rewrite IH.
    rewrite Z.div_div by (try apply Z.pow_pos_nonneg; lia).
    f_equal. rewrite Nat2Z.inj_succ, Z.pow_succ_r by lia. lia.
Qed.

(** What [shr] does to the mantissa and to the exponent. *)
Lemma shr_spec (r : shr_record) (e n : Z) :
  0 <= shr_m r ->
  shr_m (fst (shr r e n)) = shr_m r / 2 ^ Z.max n 0 /\
  snd (shr r e n) = e + Z.max n 0.
Proof.
  intros H. unfold shr. destruct n as [|p|p]; simpl.
  - rewrite Z.div_1_r. split; [reflexivity|lia].
  - rewrite iter_pos_nat, shr_iter_m by assumption.
    rewrite positive_nat_Z. split; [reflexivity|lia].
  - rewrite Z.div_1_r. split; [reflexivity|lia].
Qed.

Lemma shr_m_of_loc (m : Z) (l : location) : shr_m (shr_record_of_loc m l) = m.
Proof. destruct l as [|[]]; reflexivity. Qed.

Lemma round_nearest_even_cases (m : Z) (l : location) :
  round_nearest_even m l = m \/ round_nearest_even m l = m + 1.
Proof.
  destruct l as [|[]]; simpl; auto. destruct (Z.even m); auto.
Qed.

Lemma Zdigits2_upper (a k : Z) : 0 < a -> 0 <= k -> a < 2 ^ k -> Zdigits2 a <= k.
Proof.
  intros Ha Hk Hlt.
  pose proof (Zdigits2_bounds a Ha) as [Hlo _].
  destruct (Z_le_gt_dec (Zdigits2 a) k) as [|Hgt]; [assumption|exfalso].
  assert (2 ^ k <= 2 ^ (Zdigits2 a - 1)) by (apply Z.pow_le_mono_r; lia).
  lia.
Qed.

Lemma Zdigits2_lower (a k : Z) : 0 <= k -> 2 ^ k <= a -> k < Zdigits2 a.
Proof.
  intros Hk Hle.
  assert (0 < 2 ^ k) by (apply Z.pow_pos_nonneg; lia).
  pose proof (Zdigits2_bounds a ltac:(lia)) as [_ Hhi].
  destruct (Z_lt_le_dec k (Zdigits2 a)) as [|Hge]; [assumption|exfalso].
  pose proof (Zdigits2_pos_pos a ltac:(lia)).
  assert (2 ^ Zdigits2 a <= 2 ^ k) by (apply Z.pow_le_mono_r; lia).
  lia.
Qed.

Lemma Zdigits2_succ (a : Z) : 0 < a -> Zdigits2 a <= Zdigits2 (a + 1) <= Zdigits2 a + 1.
Proof.
  intros Ha.
  pose proof (Zdigits2_bounds a Ha) as [Hlo Hhi].
  pose proof (Zdigits2_pos_pos a Ha).
  split.
  - assert (Zdigits2 a - 1 < Zdigits2 (a + 1)) by (apply Zdigits2_lower; lia). lia.
  - apply Zdigits2_upper; try lia.
    rewrite Z.pow_add_r by lia. lia.
Qed.

Lemma shr_fexp_spec (m e : Z) (l : location) :
  0 <= m ->
  shr_m (fst (shr_fexp prec emax m e l))
    = m / 2 ^ Z.max (fexp64 (Zdigits2 m + e) - e) 0 /\
  snd (shr_fexp prec emax m e l) = e + Z.max (fexp64 (Zdigits2 m + e) - e) 0.
Proof.
  intros Hm. unfold shr_fexp. rewrite fexp_eq.
  pose proof (shr_spec (shr_record_of_loc m l) e (fexp64 (Zdigits2 m + e) - e)) as H.
  rewrite shr_m_of_loc in H. apply H. assumption.
Qed.

(** A mantissa shifted to the exponent [fexp] asks for is canonical. *)
Lemma canonical_shifted (m e : Z) :
  0 < m -> e <= fexp64 (Zdigits2 m + e) ->
  0 < m / 2 ^ (fexp64 (Zdigits2 m + e) - e) ->
  canonical64 (m / 2 ^ (fexp64 (Zdigits2 m + e) - e)) (fexp64 (Zdigits2 m + e)).
Proof.
  intros Hm Hle Hpos. unfold canonical64.
  set (n := fexp64 (Zdigits2 m + e) - e) in *.
  assert (Hn : n < Zdigits2 m).
  { destruct (Z_lt_le_dec n (Zdigits2 m)) as [|Hge]; [assumption|exfalso].
    rewrite shiftr_small in Hpos; lia. }
  rewrite Zdigits2_shiftr by (subst n; lia).
  f_equal. subst n. lia.
Qed.

Lemma binary_round_aux_rounded (s : bool) (m e : Z) (l : location) :
  0 <= m -> e <= fexp64 (Zdigits2 m + e) ->
  rounded s (binary_round_aux prec emax s m e l) /\
  (0 < m / 2 ^ (fexp64 (Zdigits2 m + e) - e) ->
   binary_round_aux prec emax s m e l <> S754_zero s).
Proof.
  intros Hm Hle. unfold binary_round_aux.
  pose proof (shr_fexp_spec m e l Hm) as [H1m H1e].
  destruct (shr_fexp prec emax m e l) as [r1 e1]. simpl in H1m, H1e.
  rewrite Z.max_l in H1m, H1e by lia.
  set (n := fexp64 (Zdigits2 m + e) - e) in *.
  replace (e + n) with (fexp64 (Zdigits2 m + e)) in H1e by (subst n; lia).
  set (m2 := round_nearest_even (shr_m r1) (loc_of_shr_record r1)).
  assert (H1nn : 0 <= shr_m r1).
  { rewrite H1m. apply Z.div_pos; [lia|]. apply Z.pow_pos_nonneg; subst n; lia. }
  assert (Hm2 : m2 = shr_m r1 \/ m2 = shr_m r1 + 1)
    by apply round_nearest_even_cases.
  clearbody m2.
  assert (Hm2nn : 0 <= m2) by lia.
  pose proof (shr_fexp_spec m2 e1 loc_Exact Hm2nn) as [H2m H2e].
  destruct (shr_fexp prec emax m2 e1 loc_Exact) as [r2 e2]. simpl in H2m, H2e.
  (* the first shift leaves a canonical pair, or nothing *)
  assert (Hc1 : shr_m r1 = 0 /\ e1 = -1074 \/ 0 < shr_m r1 /\ canonical64 (shr_m r1) e1).
  { destruct (Z.eq_dec (shr_m r1) 0) as [H0|Hn0].
    - left. split; [assumption|].
      destruct (Z.eq_dec m 0) as [->|Hmn].
      + simpl in *. subst e1. unfold fexp64 in *. lia.
      + assert (Hd : Zdigits2 m <= n).
        { destruct (Z_le_gt_dec (Zdigits2 m) n) as [|Hgt]; [assumption|exfalso].
          pose proof (Zdigits2_shiftr m n ltac:(lia) ltac:(subst n; lia) ltac:(lia)) as Hs.
          rewrite <- H1m, H0 in Hs. simpl in Hs. lia. }
        subst e1 n. unfold fexp64 in *. lia.
    - right. split; [lia|].
      assert (0 < m).
      { destruct (Z.eq_dec m 0) as [->|]; [|lia].
        rewrite Z.div_0_l in H1m by (apply Z.pow_nonzero; subst n; lia). lia. }
      rewrite H1m, H1e.
      apply canonical_shifted; [lia | lia | ].
      change (0 < m / 2 ^ n). rewrite <- H1m. lia. }
  assert (Hfin : shr_m r2 = 0 \/ 0 < shr_m r2 /\ canonical64 (shr_m r2) e2).
  { destruct (Z.eq_dec m2 0) as [Hz|Hnz].
    - left. rewrite H2m, Hz. apply Z.div_0_l. apply Z.pow_nonzero; lia.
    - right.
      assert (Hd2 : Zdigits2 m2 + e1 - 53 <= fexp64 (Zdigits2 m2 + e1) /\
                    e1 <= fexp64 (Zdigits2 m2 + e1) /\
                    fexp64 (Zdigits2 m2 + e1) - e1 < Zdigits2 m2).
      { pose proof (Zdigits2_pos_pos m2 ltac:(lia)).
        destruct Hc1 as [[H0 He1]|[Hp Hc]].
        - assert (m2 = 1) by lia. subst m2.
          change (Zdigits2 1) with 1 in *. unfold fexp64 in *. lia.
        - unfold canonical64 in Hc.
          assert (Zdigits2 (shr_m r1) <= Zdigits2 m2 <= Zdigits2 (shr_m r1) + 1).
          { destruct Hm2 as [->| ->]; [lia|]. apply Zdigits2_succ. assumption. }
          unfold fexp64 in *. lia. }
      destruct Hd2 as [_ [Hge Hlt]].
      rewrite Z.max_l in H2m, H2e by lia.
      replace (e1 + (fexp64 (Zdigits2 m2 + e1) - e1)) with (fexp64 (Zdigits2 m2 + e1)) in H2e by lia.
      assert (0 < shr_m r2).
      { rewrite H2m.
        pose proof (Zdigits2_shiftr m2 (fexp64 (Zdigits2 m2 + e1) - e1) ltac:(lia) ltac:(lia) Hlt) as Hs.
        destruct (Z_lt_le_dec 0 (m2 / 2 ^ (fexp64 (Zdigits2 m2 + e1) - e1))) as [|Hz]; [assumption|exfalso].
        assert (Hq : 0 <= m2 / 2 ^ (fexp64 (Zdigits2 m2 + e1) - e1))
          by (apply Z.div_pos; [lia|apply Z.pow_pos_nonneg; lia]).
        assert (Hq0 : m2 / 2 ^ (fexp64 (Zdigits2 m2 + e1) - e1) = 0) by lia.
        rewrite Hq0 in Hs. simpl in Hs. lia. }
      split; [assumption|].
      rewrite H2m, H2e. apply canonical_shifted; lia. }
  split.
  - destruct Hfin as [-> | [Hp Hc]]; [constructor|].
    destruct (shr_m r2) as [|p|p]; try lia.
    destruct (Z.leb_spec e2 (emax - prec)); [|constructor].
    constructor; [assumption|]. unfold emax, prec in *. lia.
  - intros Hpos.
    assert (0 < shr_m r1) by (rewrite H1m; assumption).
    assert (Hm2p : 0 < m2) by lia.
    destruct Hfin as [Hz | [Hp Hc]].
    + exfalso. destruct Hc1 as [[H0 _]|[_ Hc]]; [lia|].
      assert (Hd2 : e1 <= fexp64 (Zdigits2 m2 + e1) /\
                    fexp64 (Zdigits2 m2 + e1) - e1 < Zdigits2 m2).
      { pose proof (Zdigits2_pos_pos m2 ltac:(lia)).
        unfold canonical64 in Hc.
        assert (Zdigits2 (shr_m r1) <= Zdigits2 m2 <= Zdigits2 (shr_m r1) + 1).
        { destruct Hm2 as [->| ->]; [lia|]. apply Zdigits2_succ. assumption. }
        unfold fexp64 in *. lia. }
      destruct Hd2 as [Hge Hlt].
      rewrite Z.max_l in H2m by lia.
      pose proof (Zdigits2_shiftr m2 (fexp64 (Zdigits2 m2 + e1) - e1) ltac:(lia) ltac:(lia) Hlt) as Hs.
      rewrite <- H2m, Hz in Hs. simpl in Hs. lia.
    + destruct (shr_m r2) as [|p|p]; try lia.
      destruct (e2 <=? emax - prec); discriminate.
Qed.

Lemma wf_finite (s : bool) (m : positive) (e : Z) :
  wf (S754_finite s m e) <-> canonical64 (Zpos m) e /\ e <= 971.
Proof.
  unfold wf, valid_binary, bounded, canonical_mantissa, canonical64.
  rewrite andb_true_iff, Z.eqb_eq, Z.leb_le. reflexivity.
Qed.

Lemma rounded_wf (s : bool) (x : number) : rounded s x -> wf x.
Proof. intros []; try reflexivity. now apply wf_finite. Qed.

Lemma Zdigits2_mul_pow2 (m k : Z) :
  0 < m -> 0 <= k -> Zdigits2 (m * 2 ^ k) = Zdigits2 m + k.
Proof.
  intros Hm Hk.
  pose proof (Zdigits2_bounds m Hm) as [Hlo Hhi].
  pose proof (Zdigits2_pos_pos m Hm).
  assert (0 < 2 ^ k) by (apply Z.pow_pos_nonneg; lia).
  apply Zdigits2_unique; [|lia]. split.
  - replace (Zdigits2 m + k - 1) with (Zdigits2 m - 1 + k) by lia.
    rewrite Z.pow_add_r by lia. apply Z.mul_le_mono_nonneg_r; lia.
  - rewrite Z.pow_add_r by lia. apply Z.mul_lt_mono_pos_r; lia.
Qed.

Lemma iter_xO (m d : positive) : Zpos (Pos.iter xO m d) = Zpos m * 2 ^ Zpos d.
Proof.
  induction d as [|d IH] using Pos.peano_ind.
  - simpl. lia.
  - rewrite Pos.iter_succ, Pos2Z.inj_succ, Z.pow_succ_r by lia.
    rewrite Pos2Z.inj_xO, IH. lia.
Qed.

Lemma shl_align_spec (m : positive) (e e' : Z) :
  let '(mz, ez) := shl_align m e e' in
  ez = Z.min e e' /\ Zpos mz = Zpos m * 2 ^ (e - ez).
Proof.
  unfold shl_align. destruct (e' - e) as [|d|d] eqn:E.
  - split; [lia|]. replace (e - e) with 0 by lia. lia.
  - split; [lia|]. replace (e - e) with 0 by lia. lia.
  - split; [lia|]. rewrite iter_xO. f_equal. f_equal. lia.
Qed.

(** [binary_round] rounds to a Number value, and not to zero when the
    exponent is at least that of the subnormal numbers. *)
Lemma binary_round_rounded (s : bool) (m : positive) (e : Z) :
  rounded s (binary_round prec emax s m e) /\
  (-1074 <= e -> binary_round prec emax s m e <> S754_zero s).
Proof.
  unfold binary_round. rewrite fexp_eq.
  pose proof (shl_align_spec m e (fexp64 (Zpos (digits2_pos m) + e))) as H.
  destruct (shl_align m e _) as [mz ez]. destruct H as [Hez Hmz].
  change (Zpos (digits2_pos m)) with (Zdigits2 (Zpos m)) in *.
  assert (Hd : Zdigits2 (Zpos mz) = Zdigits2 (Zpos m) + (e - ez)).
  { rewrite Hmz. apply Zdigits2_mul_pow2; lia. }
  assert (Hpre : ez <= fexp64 (Zdigits2 (Zpos mz) + ez)).
  { rewrite Hd. replace (Zdigits2 (Zpos m) + (e - ez) + ez) with (Zdigits2 (Zpos m) + e) by lia. lia. }
  pose proof (binary_round_aux_rounded s (Zpos mz) ez loc_Exact ltac:(lia) Hpre) as [Hr Hnz].
  split; [assumption|]. intros He. apply Hnz.
  set (n := fexp64 (Zdigits2 (Zpos mz) + ez) - ez).
  assert (Hn : 0 <= n < Zdigits2 (Zpos mz)).
  { pose proof (Zdigits2_pos_pos (Zpos m) ltac:(lia)).
    subst n. rewrite Hd in *. unfold fexp64 in *. lia. }
  pose proof (Zdigits2_shiftr (Zpos mz) n ltac:(lia) ltac:(lia) ltac:(lia)) as Hs.
  destruct (Z_lt_le_dec 0 (Zpos mz / 2 ^ n)) as [|Hz]; [assumption|exfalso].
  assert (0 <= Zpos mz / 2 ^ n) by (apply Z.div_pos; [lia|apply Z.pow_pos_nonneg; lia]).
  replace (Zpos mz / 2 ^ n) with 0 in Hs by lia.
  change (Zdigits2 0) with 0 in Hs. lia.
Qed.

Lemma binary_normalize_wf (z e : Z) (sz : bool) :
  wf (binary_normalize prec emax z e sz).
Proof.
  destruct z as [|p|p]; simpl; [reflexivity| |];
    eapply rounded_wf; apply binary_round_rounded.
Qed.

Lemma ofZ_wf (z : Z) : wf (ofZ z).
Proof. apply binary_normalize_wf. Qed.

Lemma add_wf (x y : number) : wf x -> wf y -> wf (add x y).
Proof.
  intros Hx Hy. unfold add.
  destruct x as [sx|sx| |sx mx ex], y as [sy|sy| |sy my ey];
    try destruct sx; try destruct sy;
    try exact Hx; try exact Hy; try reflexivity;
    unfold SFadd; apply binary_normalize_wf.
Qed.

Lemma sub_wf (x y : number) : wf x -> wf y -> wf (sub x y).
Proof.
  intros Hx Hy. unfold sub.
  destruct x as [sx|sx| |sx mx ex], y as [sy|sy| |sy my ey];
    try destruct sx; try destruct sy;
    try exact Hx; try exact Hy; try reflexivity;
    unfold SFsub; apply binary_normalize_wf.
Qed.

Lemma mul_wf (x y : number) : wf x -> wf y -> wf (mul x y).
Proof.
  intros Hx Hy. unfold mul.
  destruct x as [sx|sx| |sx mx ex], y as [sy|sy| |sy my ey];
    simpl; try reflexivity.
  apply wf_finite in Hx, Hy. destruct Hx as [Hcx Hbx], Hy as [Hcy Hby].
  unfold canonical64 in *.
  eapply rounded_wf. apply binary_round_aux_rounded; [lia|].
  pose proof (Zdigits2_bounds (Zpos mx) ltac:(lia)) as [Hxl _].
  pose proof (Zdigits2_bounds (Zpos my) ltac:(lia)) as [Hyl _].
  pose proof (Zdigits2_pos_pos (Zpos mx) ltac:(lia)).
  pose proof (Zdigits2_pos_pos (Zpos my) ltac:(lia)).
  assert (Hd : Zdigits2 (Zpos mx) + Zdigits2 (Zpos my) - 2 < Zdigits2 (Zpos (mx * my))).
  { apply Zdigits2_lower; [lia|].
    replace (Zdigits2 (Zpos mx) + Zdigits2 (Zpos my) - 2)
      with ((Zdigits2 (Zpos mx) - 1) + (Zdigits2 (Zpos my) - 1)) by lia.
    rewrite Z.pow_add_r by lia. rewrite Pos2Z.inj_mul.
    apply Z.mul_le_mono_nonneg; try lia; apply Z.pow_nonneg; lia. }
  unfold fexp64 in *. lia.
Qed.

Lemma div_core_pre (m1 m2 : positive) (e1 e2 : Z) :
  let '(q, e, l) := SFdiv_core_binary prec emax (Zpos m1) e1 (Zpos m2) e2 in
  0 <= q /\ e <= fexp64 (Zdigits2 q + e).
Proof.
  unfold SFdiv_core_binary. rewrite fexp_eq.
  set (d1 := Zdigits2 (Zpos m1)). set (d2 := Zdigits2 (Zpos m2)).
  set (e' := Z.min (fexp64 (d1 + e1 - (d2 + e2))) (e1 - e2)).
  set (s := e1 - e2 - e').
  assert (Hs : 0 <= s) by (subst s e'; lia).
  set (m' := match s with Z.pos _ => Z.shiftl (Zpos m1) s | 0 => Zpos m1 | Z.neg _ => 0 end).
  assert (Hm' : m' = Zpos m1 * 2 ^ s).
  { subst m'. destruct s as [|p|p] eqn:Es; try lia.
    rewrite Z.shiftl_mul_pow2; lia. }
  clearbody m'.
  assert (Hqr : Z.div_eucl m' (Zpos m2) = (m' / Zpos m2, m' mod Zpos m2)).
  { unfold Z.div, Z.modulo. now destruct (Z.div_eucl m' (Zpos m2)). }
  rewrite Hqr. cbv beta iota zeta.
  pose proof (Z.div_mod m' (Zpos m2) ltac:(lia)) as Hde.
  pose proof (Z.mod_pos_bound m' (Zpos m2) ltac:(lia)) as Hmod.
  set (q := m' / Zpos m2) in *. set (r := m' mod Zpos m2) in *.
  clearbody q r. clear Hqr.
  assert (0 < 2 ^ s) by (apply Z.pow_pos_nonneg; lia).
  assert (Hm'0 : 0 < m') by (rewrite Hm'; apply Z.mul_pos_pos; lia).
  assert (Hq : 0 <= q) by nia.
  split; [assumption|].
  pose proof (Zdigits2_bounds (Zpos m1) ltac:(lia)) as [H1l H1h].
  pose proof (Zdigits2_bounds (Zpos m2) ltac:(lia)) as [H2l H2h].
  pose proof (Zdigits2_pos_pos (Zpos m1) ltac:(lia)).
  pose proof (Zdigits2_pos_pos (Zpos m2) ltac:(lia)).
  fold d1 in H1l, H1h, H. fold d2 in H2l, H2h, H0.
  destruct (Z.eq_dec q 0) as [->|Hqn].
  - (* the quotient is below one *)
    change (Zdigits2 0) with 0.
    assert (Hlt : 2 ^ (d1 - 1 + s) < 2 ^ d2).
    { rewrite Z.pow_add_r by lia. nia. }
    apply Z.pow_lt_mono_r_iff in Hlt; try lia.
    subst e' s. unfold fexp64 in *. lia.
  - assert (Hdq : d1 + s - d2 <= Zdigits2 q).
    { pose proof (Zdigits2_pos_pos q ltac:(lia)).
      destruct (Z_le_gt_dec (d1 + s - d2) 1) as [|Hbig]; [lia|].
      assert (d1 + s - d2 - 1 < Zdigits2 q); [|lia].
      apply Zdigits2_lower; [lia|].
      assert (Hp : 2 ^ (d1 - 1 + s) = 2 ^ (d1 + s - d2 - 1) * 2 ^ d2).
      { rewrite <- Z.pow_add_r by lia. f_equal. lia. }
      assert (Hm1s : 2 ^ (d1 - 1 + s) <= m').
      { rewrite Hm', Z.pow_add_r by lia. apply Z.mul_le_mono_nonneg_r; lia. }
      assert (0 < 2 ^ (d1 + s - d2 - 1)) by (apply Z.pow_pos_nonneg; lia).
      nia. }
    subst e' s. unfold fexp64 in *. lia.
Qed.

Lemma div_wf (x y : number) : wf (div x y).
Proof.
  unfold div.
  destruct x as [sx|sx| |sx mx ex], y as [sy|sy| |sy my ey];
    simpl; try reflexivity.
  pose proof (div_core_pre mx my ex ey) as H.
  destruct (SFdiv_core_binary prec emax (Zpos mx) ex (Zpos my) ey) as [[q e] l].
  destruct H as [Hq He].
  eapply rounded_wf. apply binary_round_aux_rounded; assumption.
Qed.

(** ** The order of Number values

    A Number value other than [NaN] is an integer multiple of [2^-1074],
    or an infinity; [key] is that integer, with the infinities beyond
    all of them.  It decides every comparison. *)

Lemma canonical_facts (m : positive) (e : Z) :
  canonical64 (Zpos m) e ->
  -1074 <= e /\ Zdigits2 (Zpos m) <= 53 /\
  (-1074 < e -> Zdigits2 (Zpos m) = 53).
Proof. unfold canonical64, fexp64. lia. Qed.

Lemma key_finite_pos (m : positive) (e : Z) :
  canonical64 (Zpos m) e -> e <= 971 ->
  0 < Zpos m * 2 ^ (e + 1074) < 2 ^ 2100.
Proof.
  intros Hc He. pose proof (canonical_facts m e Hc) as [Hmin [Hd _]].
  pose proof (Zdigits2_bounds (Zpos m) ltac:(lia)) as [_ Hhi].
  assert (0 < 2 ^ (e + 1074)) by (apply Z.pow_pos_nonneg; lia).
  split; [lia|].
  assert (Zpos m < 2 ^ 53).
  { eapply Z.lt_le_trans; [exact Hhi|]. apply Z.pow_le_mono_r; lia. }
  assert (2 ^ (e + 1074) <= 2 ^ 2045) by (apply Z.pow_le_mono_r; lia).
  replace (2 ^ 2100) with (2 ^ 53 * 2 ^ 2047) by (rewrite <- Z.pow_add_r; [reflexivity|lia|lia]).
  assert (2 ^ 2045 < 2 ^ 2047) by (apply Z.pow_lt_mono_r; lia).
  nia.
Qed.

Lemma key_order_same_sign (m1 m2 : positive) (e1 e2 : Z) :
  canonical64 (Zpos m1) e1 -> canonical64 (Zpos m2) e2 ->
  match e1 ?= e2 with
  | Lt => Lt
  | Gt => Gt
  | Eq => Pos.compare_cont Eq m1 m2
  end = (Zpos m1 * 2 ^ (e1 + 1074) ?= Zpos m2 * 2 ^ (e2 + 1074)).
Proof.
  intros H1 H2.
  pose proof (canonical_facts m1 e1 H1) as [Hm1 [Hd1 Hn1]].
  pose proof (canonical_facts m2 e2 H2) as [Hm2 [Hd2 Hn2]].
  pose proof (Zdigits2_bounds (Zpos m1) ltac:(lia)) as [Hl1 Hh1].
  pose proof (Zdigits2_bounds (Zpos m2) ltac:(lia)) as [Hl2 Hh2].
  assert (Hlt : forall ma mb ea eb, -1074 <= ea -> ea < eb ->
            Zpos ma < 2 ^ 53 -> 2 ^ 52 <= Zpos mb ->
            Zpos ma * 2 ^ (ea + 1074) < Zpos mb * 2 ^ (eb + 1074)).
  { intros ma mb ea eb Hea Hlt Ha Hb.
    replace (eb + 1074) with ((ea + 1074) + (eb - ea)) by lia.
    rewrite (Z.pow_add_r 2 (ea + 1074) (eb - ea)) by lia.
    assert (0 < 2 ^ (ea + 1074)) by (apply Z.pow_pos_nonneg; lia).
    assert (2 ^ 1 <= 2 ^ (eb - ea)) by (apply Z.pow_le_mono_r; lia).
    change (2 ^ 1) with 2 in *. change (2 ^ 53) with (2 * 2 ^ 52) in Ha.
    set (T := 2 ^ 52) in *. assert (0 < T) by reflexivity. clearbody T.
    set (P := 2 ^ (ea + 1074)) in *. set (Q := 2 ^ (eb - ea)) in *.
    clearbody P Q.
    assert (Z.pos ma * P < 2 * T * P) by (apply Z.mul_lt_mono_pos_r; lia).
    assert (T * (2 * P) <= Z.pos mb * (P * Q)).
    { apply Z.mul_le_mono_nonneg; try lia. nia. }
    lia. }
  assert (Hu1 : Zpos m1 < 2 ^ 53)
    by (eapply Z.lt_le_trans; [exact Hh1|apply Z.pow_le_mono_r; lia]).
  assert (Hu2 : Zpos m2 < 2 ^ 53)
    by (eapply Z.lt_le_trans; [exact Hh2|apply Z.pow_le_mono_r; lia]).
  destruct (Z.compare_spec e1 e2) as [Heq|Hl|Hg].
  - subst e2. rewrite Pos.compare_cont_spec.
    assert (0 < 2 ^ (e1 + 1074)) by (apply Z.pow_pos_nonneg; lia).
    change (Pos.compare m1 m2) with (Zpos m1 ?= Zpos m2).
    destruct (Z.compare_spec (Zpos m1) (Zpos m2)) as [E|E|E];
      unfold Pos.switch_Eq; symmetry.
    + apply Z.compare_eq_iff. now rewrite E.
    + apply Z.compare_lt_iff. apply Z.mul_lt_mono_pos_r; lia.
    + apply Z.compare_gt_iff. apply Z.mul_lt_mono_pos_r; lia.
  - symmetry. apply Z.compare_lt_iff. apply Hlt; try lia.
    rewrite Hn2 in Hl2 by lia. exact Hl2.
  - symmetry. apply Z.compare_gt_iff. apply Hlt; try lia.
    rewrite Hn1 in Hl1 by lia. exact Hl1.
Qed.

(** [SFcompare] is the order of the keys. *)
Lemma SFcompare_key (x y : number) :
  isTime x -> isTime y -> SFcompare x y = Some (key x ?= key y).
Proof.
  intros [Hx Nx] [Hy Ny].
  destruct x as [sx|sx| |sx mx ex], y as [sy|sy| |sy my ey];
    try discriminate;
    try (apply wf_finite in Hx; destruct Hx as [Hcx Hbx];
         pose proof (key_finite_pos mx ex Hcx Hbx));
    try (apply wf_finite in Hy; destruct Hy as [Hcy Hby];
         pose proof (key_finite_pos my ey Hcy Hby));
    try destruct sx; try destruct sy;
    unfold SFcompare, key, cond_Zopp; f_equal;
    try reflexivity;
    try (symmetry; apply Z.compare_lt_iff; lia);
    try (symmetry; apply Z.compare_gt_iff; lia).
  - transitivity (CompOpp (match ex ?= ey with
                          | Eq => Pos.compare_cont Eq mx my
                          | Lt => Lt
                          | Gt => Gt
                          end)); [destruct (ex ?= ey); reflexivity|].
    rewrite (key_order_same_sign mx my ex ey Hcx Hcy).
    rewrite Z.compare_opp. symmetry. apply Z.compare_antisym.
  - apply key_order_same_sign; assumption.
Qed.

Lemma lt_key (x y : number) :
  isTime x -> isTime y -> lt x y = (key x <? key y).
Proof.
  intros Hx Hy. unfold lt, SFltb, Z.ltb.
  rewrite (SFcompare_key x y Hx Hy). now destruct (key x ?= key y).
Qed.

Lemma le_key (x y : number) :
  isTime x -> isTime y -> le x y = (key x <=? key y).
Proof.
  intros Hx Hy. unfold le, SFleb, Z.leb.
  rewrite (SFcompare_key x y Hx Hy). now destruct (key x ?= key y).
Qed.

Lemma strictEq_key (x y : number) :
  isTime x -> isTime y -> strictEq x y = (key x =? key y).
Proof.
  intros Hx Hy. unfold strictEq, SFeqb.
  rewrite (SFcompare_key x y Hx Hy), Z.eqb_compare.
  now destruct (key x ?= key y).
Qed.

Lemma rounded_sign_lt (s : bool) (r : number) :
  rounded s r -> r <> S754_zero s -> lt r (ofZ 0) = s.
Proof.
  intros H Hnz. destruct H; [congruence| |]; destruct s; reflexivity.
Qed.

Lemma aligned_key (s : bool) (m : positive) (e ez : Z) :
  -1074 <= ez -> ez <= e ->
  cond_Zopp s (Zpos (fst (shl_align m e ez))) * 2 ^ (ez + 1074)
    = key (S754_finite s m e).
Proof.
  intros H1 H2. pose proof (shl_align_spec m e ez) as H.
  destruct (shl_align m e ez) as [mz ez']. destruct H as [He Hm].
  cbn [fst key]. rewrite Hm.
  replace ez' with ez in * by lia.
  replace (e + 1074) with ((e - ez) + (ez + 1074)) by lia.
  rewrite (Z.pow_add_r 2 (e - ez) (ez + 1074)) by lia.
  destruct s; unfold cond_Zopp; lia.
Qed.

(** The comparator [a - b] of [sort] is below zero exactly when [a] is
    below [b]. *)
Lemma sub_sign (x y : number) :
  isTime x -> isTime y -> lt (sub x y) (ofZ 0) = (key x <? key y).
Proof.
  intros Hx Hy. pose proof Hx as [Wx Nx]. pose proof Hy as [Wy Ny].
  destruct x as [sx|sx| |sx mx ex], y as [sy|sy| |sy my ey];
    try discriminate;
    try (apply wf_finite in Wx; destruct Wx as [Hcx Hbx];
         pose proof (key_finite_pos mx ex Hcx Hbx));
    try (apply wf_finite in Wy; destruct Wy as [Hcy Hby];
         pose proof (key_finite_pos my ey Hcy Hby)).
  1-8: try destruct sx; try destruct sy; unfold sub, SFsub, key, cond_Zopp;
       cbn [negb]; change (ofZ 0) with (S754_zero false);
       unfold lt, SFltb, SFcompare;
       try reflexivity; symmetry;
       try (apply Z.ltb_lt; lia); apply Z.ltb_ge; lia.
  unfold sub, SFsub.
  pose proof (canonical_facts mx ex Hcx) as [Hex _].
  pose proof (canonical_facts my ey Hcy) as [Hey _].
  set (ez := Z.min ex ey).
  pose proof (aligned_key sx mx ex ez ltac:(subst ez; lia) ltac:(subst ez; lia)) as Kx.
  pose proof (aligned_key sy my ey ez ltac:(subst ez; lia) ltac:(subst ez; lia)) as Ky.
  set (X := cond_Zopp sx (Zpos (fst (shl_align mx ex ez)))) in *.
  set (Y := cond_Zopp sy (Zpos (fst (shl_align my ey ez)))) in *.
  assert (Hp : 0 < 2 ^ (ez + 1074)) by (apply Z.pow_pos_nonneg; subst ez; lia).
  rewrite <- Kx, <- Ky.
  destruct (X - Y) as [|p|p] eqn:E; unfold binary_normalize.
  - change (ofZ 0) with (S754_zero false). cbn.
    symmetry. apply Z.ltb_ge. assert (X = Y) by lia. subst. lia.
  - pose proof (binary_round_rounded false p ez) as [Hr Hnz].
    rewrite (rounded_sign_lt false _ Hr (Hnz ltac:(subst ez; lia))).
    symmetry. apply Z.ltb_ge. apply Z.mul_le_mono_nonneg_r; lia.
  - pose proof (binary_round_rounded true p ez) as [Hr Hnz].
    rewrite (rounded_sign_lt true _ Hr (Hnz ltac:(subst ez; lia))).
    symmetry. apply Z.ltb_lt. apply Z.mul_lt_mono_pos_r; lia.
Qed.

Lemma ofDecimal_wf (neg : bool) (d x : Z) : wf (ofDecimal neg d x).
Proof.
  unfold ofDecimal. destruct d as [|p|p]; try reflexivity.
  destruct (0 <=? x); [apply binary_normalize_wf|apply div_wf].
Qed.

Lemma parseInt_wf (s : string) : wf (JsConv.parseInt s).
Proof.
  unfold JsConv.parseInt.
  destruct (JsConv.splitSign _) as [neg l].
  destruct (JsString.takeWhile JsString.isDigit l); [reflexivity|].
  destruct (_ =? 0); [reflexivity|apply ofZ_wf].
Qed.

Lemma parseFloat_wf (s : string) : wf (JsConv.parseFloat s).
Proof.
  unfold JsConv.parseFloat.
  destruct (JsConv.splitSign _) as [neg l].
  destruct (JsString.isPrefixL _ l); [reflexivity|].
  destruct (match JsString.dropWhile JsString.isDigit l with
            | [] => _ | _ :: _ => _ end) as [fp r2].
  destruct (_ ++ fp)%list; [reflexivity|apply ofDecimal_wf].
Qed.

Lemma parseTimestamp_wf (s : string) : wf (Codec.parseTimestamp s).
Proof.
  unfold Codec.parseTimestamp. destruct s; [apply ofZ_wf|].
  destruct (JsString.splitOn _ _) as [|p0 [|p1 [|p2 [|p3 l]]]];
    try (destruct (negb _); [apply parseFloat_wf|apply ofZ_wf]);
    repeat first [apply add_wf|apply mul_wf|apply parseInt_wf
                 |apply parseFloat_wf|apply ofZ_wf].
Qed.

Lemma nonNegative_isTime (x : number) : nonNegative x -> isTime x.
Proof.
  intros H. split; [now apply rounded_wf with false|]. now destruct H.
Qed.

Lemma ofZ_nonNegative (z : Z) : 0 <= z -> nonNegative (ofZ z).
Proof.
  intros H. unfold ofZ, binary_normalize.
  destruct z as [|p|p]; try lia; [constructor|apply binary_round_rounded].
Qed.

Lemma add_nonNegative (x y : number) :
  nonNegative x -> nonNegative y -> nonNegative (add x y).
Proof.
  intros Hx Hy. unfold add.
  destruct Hx as [| |mx ex Hcx Hbx], Hy as [| |my ey Hcy Hby];
    try (constructor; assumption); try constructor.
  unfold SFadd, cond_Zopp, binary_normalize.
  destruct (Zpos _ + Zpos _) as [|p|p] eqn:E; try lia.
  apply binary_round_rounded.
Qed.

Lemma mul_nonNegative (x : number) (m : positive) (e : Z) :
  nonNegative x -> wf (S754_finite false m e) ->
  nonNegative (mul x (S754_finite false m e)).
Proof.
  intros Hx Hy. pose proof (mul_wf x (S754_finite false m e)
    (rounded_wf _ _ Hx) Hy) as Hw.
  destruct Hx as [| |mx ex Hcx Hbx]; try constructor.
  unfold mul, SFmul in *. cbn [xorb] in *.
  apply wf_finite in Hy. destruct Hy as [Hcy Hby]. unfold canonical64 in *.
  apply binary_round_aux_rounded; [lia|].
  pose proof (Zdigits2_bounds (Zpos mx) ltac:(lia)) as [Hxl _].
  pose proof (Zdigits2_bounds (Zpos m) ltac:(lia)) as [Hyl _].
  pose proof (Zdigits2_pos_pos (Zpos mx) ltac:(lia)).
  pose proof (Zdigits2_pos_pos (Zpos m) ltac:(lia)).
  assert (Hd : Zdigits2 (Zpos mx) + Zdigits2 (Zpos m) - 2 < Zdigits2 (Zpos (mx * m))).
  { apply Zdigits2_lower; [lia|].
    replace (Zdigits2 (Zpos mx) + Zdigits2 (Zpos m) - 2)
      with ((Zdigits2 (Zpos mx) - 1) + (Zdigits2 (Zpos m) - 1)) by lia.
    rewrite Z.pow_add_r by lia. rewrite Pos2Z.inj_mul.
    apply Z.mul_le_mono_nonneg; try lia; apply Z.pow_nonneg; lia. }
  unfold fexp64 in *. lia.
Qed.

End FloatFacts.

(** ** The stable sort *)

Module SortFacts.
Import Binary64 Semantics Shapes.
Import JsNumber JsArray.

Section Keyed.
Context {A : Type}.
Variable comparefn : A -> A -> number.
Variable k : A -> Z.
Variable dom : A -> Prop.
Hypothesis before_key :
  forall x y, dom x -> dom y -> before comparefn x y = (k x <? k y).

Lemma insert_perm (x : A) (l : list A) : Permutation (insert comparefn x l) (x :: l).
Proof.
  induction l as [|y l IH]; simpl; [reflexivity|].
  destruct (before comparefn y x); [|reflexivity].
  rewrite IH. apply perm_swap.
Qed.

Lemma sort_perm (l : list A) : Permutation (sort comparefn l) l.
Proof.
  induction l as [|x l IH]; simpl; [reflexivity|].
  rewrite insert_perm. now constructor.
Qed.

Lemma sort_dom (l : list A) : Forall dom l -> Forall dom (sort comparefn l).
Proof.
  intros H. rewrite Forall_forall in *. intros x Hx. apply H.
  eapply Permutation_in; [apply sort_perm|exact Hx].
Qed.

Lemma insert_sorted (x : A) (l : list A) :
  dom x -> Forall dom l -> StronglySorted (keyLe k) l ->
  StronglySorted (keyLe k) (insert comparefn x l).
Proof.
  intros Hx Hl Hs. induction Hs as [|y l Hs IH Hy]; simpl.
  - repeat constructor.
  - inversion Hl as [|? ? Dy Dl]; subst.
    rewrite (before_key y x Dy Hx).
    destruct (Z.ltb_spec (k y) (k x)) as [Hlt|Hge].
    + constructor; [now apply IH|].
      rewrite Forall_forall. intros z Hz.
      apply (Permutation_in _ (insert_perm x l)) in Hz.
      destruct Hz as [<-|Hz]; [unfold keyLe; lia|].
      rewrite Forall_forall in Hy. now apply Hy.
    + constructor; [now constructor|].
      constructor; [exact Hge|].
      rewrite Forall_forall in *. intros z Hz.
      specialize (Hy z Hz). unfold keyLe in *. lia.
Qed.

Lemma sort_sorted (l : list A) :
  Forall dom l -> StronglySorted (keyLe k) (sort comparefn l).
Proof.
  induction 1 as [|x l Hx Hl IH]; simpl; [constructor|].
  apply insert_sorted; auto. now apply sort_dom.
Qed.

(** Stability: the elements with a given key keep their order. *)
Lemma insert_filter (t : Z) (x : A) (l : list A) :
  dom x -> Forall dom l -> StronglySorted (keyLe k) l ->
  filter (fun a => k a =? t) (insert comparefn x l)
    = filter (fun a => k a =? t) (x :: l).
Proof.
  intros Hx Hl Hs. induction Hs as [|y l Hs IH Hy]; [reflexivity|].
  inversion Hl as [|? ? Dy Dl]; subst.
  cbn [insert]. rewrite (before_key y x Dy Hx).
  destruct (Z.ltb_spec (k y) (k x)) as [Hlt|Hge]; [|reflexivity].
  cbn [filter]. rewrite (IH Dl). cbn [filter].
  destruct (Z.eqb_spec (k y) t) as [Ey|Ny];
    destruct (Z.eqb_spec (k x) t) as [Ex|Nx]; try reflexivity.
  lia.
Qed.

Lemma sort_stable (t : Z) (l : list A) :
  Forall dom l ->
  filter (fun a => k a =? t) (sort comparefn l)
    = filter (fun a => k a =? t) l.
Proof.
  induction 1 as [|x l Hx Hl IH]; [reflexivity|].
  cbn [sort]. rewrite insert_filter; auto.
  - cbn [filter]. now rewrite IH.
  - now apply sort_dom.
  - now apply sort_sorted.
Qed.
End Keyed.

End SortFacts.

(** ** What a successful match says *)

Module RegexFacts.
Import Binary64 Semantics Shapes.
Import JsString Regex.

Lemma run_sound (r : regex) :
  forall st k res, run r st k = Some res ->
    exists st', Matches r st st' /\ k st' = Some res.
Proof.
  induction r as [|c|p|a IHa b IHb|a IHa b IHb|a IHa|n a IHa| |];
    intros st k res H; simpl in H.
  - exists st. split; [apply M_Eps|assumption].
  - destruct (rest st) as [|x l] eqn:E; [discriminate|].
    destruct (Ascii.eqb_spec x c) as [->|]; [|discriminate].
    eexists. split; [apply M_Chr; eassumption|assumption].
  - destruct (rest st) as [|x l] eqn:E; [discriminate|].
    destruct (p x) eqn:Ep; [|discriminate].
    eexists. split; [eapply M_Cls; eassumption|assumption].
  - apply IHa in H. destruct H as [st1 [H1 H]].
    apply IHb in H. destruct H as [st2 [H2 H]].
    exists st2. split; [eapply M_Seq; eassumption|assumption].
  - destruct (run a st k) eqn:E.
    + injection H as <-. apply IHa in E. destruct E as [st' [H1 H2]].
      exists st'. split; [now apply M_AltL|assumption].
    + apply IHb in H. destruct H as [st' [H1 H2]].
      exists st'. split; [now apply M_AltR|assumption].
  - set (fuel := List.length (rest st)) in H. clearbody fuel.
    revert st H. induction fuel as [|fuel IHf]; intros st H.
    + exists st. split; [apply M_Star0|assumption].
    + match type of H with
      | match ?X with _ => _ end = _ => destruct X eqn:E
      end.
      * injection H as <-. apply IHa in E. destruct E as [st1 [H1 H2]].
        destruct (pos st <? pos st1)%nat; [|discriminate].
        apply IHf in H2. destruct H2 as [st2 [H2 H3]].
        exists st2. split; [eapply M_StarS; eassumption|assumption].
      * exists st. split; [apply M_Star0|assumption].
  - apply IHa in H. destruct H as [st' [H1 H2]].
    eexists. split; [apply M_Group; eassumption|assumption].
  - destruct (pos st =? 0)%nat eqn:E; [|discriminate].
    apply Nat.eqb_eq in E. exists st. split; [now apply M_Bol|assumption].
  - destruct (rest st) eqn:E; [|discriminate].
    exists st. split; [now apply M_Eol|assumption].
Qed.

Lemma matchAt_sound (r : regex) (s : list ascii) (i : nat) (res : result) :
  matchAt r s i = Some res ->
  exists st', Matches r (mkState i (skipn i s) []) st' /\
              res = mkResult i (pos st') (caps st').
Proof.
  unfold matchAt. intros H.
  destruct (run r _ Some) as [st|] eqn:E; [|discriminate].
  injection H as <-. apply run_sound in E. destruct E as [st' [H1 H2]].
  injection H2 as <-. now exists st'.
Qed.

Lemma search_sound (r : regex) (s : list ascii) (fuel i : nat) (res : result) :
  search r s fuel i = Some res ->
  exists j, matchAt r s j = Some res.
Proof.
  revert i. induction fuel as [|fuel IH]; intros i H; simpl in H.
  - destruct (matchAt r s i) eqn:E; [|discriminate]. injection H as <-. eauto.
  - destruct (matchAt r s i) eqn:E; [injection H as <-; eauto|]. eauto.
Qed.

Lemma execFrom_sound (r : regex) (s : string) (i : nat) (res : result) :
  execFrom r s i = Some res -> exists j, matchAt r (chars s) j = Some res.
Proof.
  unfold execFrom. destruct (_ <? _)%nat; [discriminate|]. apply search_sound.
Qed.

(** Inversion of [Matches], one lemma per form of pattern. *)
Lemma inv_Eps (st st' : mstate) : Matches Eps st st' -> st' = st.
Proof. intros H. now inversion H. Qed.

Lemma inv_Chr (c : ascii) (st st' : mstate) :
  Matches (Chr c) st st' ->
  exists l, rest st = c :: l /\ st' = mkState (S (pos st)) l (caps st).
Proof. intros H. inversion H; subst. eauto. Qed.

Lemma inv_Cls (p : ascii -> bool) (st st' : mstate) :
  Matches (Cls p) st st' ->
  exists x l, rest st = x :: l /\ p x = true /\
              st' = mkState (S (pos st)) l (caps st).
Proof. intros H. inversion H; subst. eauto 6. Qed.

Lemma inv_Seq (a b : regex) (st st2 : mstate) :
  Matches (Seq a b) st st2 ->
  exists st1, Matches a st st1 /\ Matches b st1 st2.
Proof. intros H. inversion H; subst. eauto. Qed.

Lemma inv_Alt (a b : regex) (st st' : mstate) :
  Matches (Alt a b) st st' -> Matches a st st' \/ Matches b st st'.
Proof. intros H. inversion H; subst; auto. Qed.

Lemma inv_Group (n : nat) (a : regex) (st st' : mstate) :
  Matches (Group n a) st st' ->
  exists st1, Matches a st st1 /\
    st' = mkState (pos st1) (rest st1)
            ((n, str (firstn (pos st1 - pos st) (rest st))) :: caps st1).
Proof. intros H. inversion H; subst. eauto. Qed.

Lemma inv_Bol (st st' : mstate) : Matches Bol st st' -> st' = st /\ pos st = 0%nat.
Proof. intros H. inversion H; subst. auto. Qed.

Lemma inv_Eol (st st' : mstate) : Matches Eol st st' -> st' = st /\ rest st = [].
Proof. intros H. inversion H; subst. auto. Qed.

End RegexFacts.

(** ** Reading digits *)

Module DigitFacts.
Import Binary64 Semantics Shapes.
Import JsNumber JsString JsConv FloatFacts.

Lemma chars_str (l : list ascii) : chars (str l) = l.
Proof. apply list_ascii_of_string_of_list_ascii. Qed.

Lemma takeWhile_all (p : ascii -> bool) (l : list ascii) :
  Forall (fun c => p c = true) (takeWhile p l).
Proof.
  induction l as [|c l IH]; simpl; [constructor|].
  destruct (p c) eqn:E; constructor; assumption.
Qed.

Lemma takeWhile_id (p : ascii -> bool) (l : list ascii) :
  Forall (fun c => p c = true) l -> takeWhile p l = l.
Proof. induction 1 as [|c l H _ IH]; simpl; [reflexivity|]. now rewrite H, IH. Qed.

Lemma digitVal_range (c : ascii) : isDigit c = true -> 0 <= digitVal c <= 9.
Proof.
  unfold isDigit, digitVal. rewrite andb_true_iff, !N.leb_le.
  intros [H1 H2]. lia.
Qed.

Lemma digitsValue_acc_nonneg (l : list ascii) (acc : Z) :
  allDigits l -> 0 <= acc ->
  0 <= fold_left (fun a c => 10 * a + digitVal c) l acc.
Proof.
  intros H. revert acc.
  induction H as [|c l Hc _ IH]; intros acc Ha; cbn [fold_left]; [assumption|].
  apply IH. pose proof (digitVal_range c Hc). lia.
Qed.

Lemma digitsValue_nonneg (l : list ascii) : allDigits l -> 0 <= digitsValue l.
Proof. intros H. apply digitsValue_acc_nonneg; [assumption|lia]. Qed.

Lemma digit_not_space (c : ascii) : isDigit c = true -> isSpace c = false.
Proof.
  unfold isDigit, isSpace. rewrite andb_true_iff, !N.leb_le. intros [H1 H2].
  cbv zeta.
  destruct (N.leb_spec 9 (code c)), (N.leb_spec (code c) 13),
    (N.eqb_spec (code c) 32), (N.eqb_spec (code c) 160);
    try reflexivity; lia.
Qed.

Lemma digit_no_sign (c : ascii) (l : list ascii) :
  isDigit c = true -> splitSign (c :: l) = (false, c :: l).
Proof.
  destruct c as [[] [] [] [] [] [] [] []]; try discriminate; reflexivity.
Qed.

(** [parseInt] of a non-empty run of digits is a number at least zero. *)
Lemma parseInt_digits (ds : list ascii) :
  allDigits ds -> ds <> [] -> nonNegative (parseInt (str ds)).
Proof.
  intros Hd Hne. unfold parseInt. rewrite chars_str.
  destruct ds as [|c l]; [congruence|].
  inversion Hd as [|? ? Hc Hl]; subst.
  unfold trimStartL. cbn [dropWhile]. rewrite (digit_not_space c Hc).
  rewrite (digit_no_sign c l Hc).
  rewrite (takeWhile_id isDigit (c :: l) Hd).
  pose proof (digitsValue_nonneg (c :: l) Hd) as Hv.
  destruct (Z.eqb_spec (digitsValue (c :: l)) 0); [constructor|].
  apply ofZ_nonNegative. assumption.
Qed.

Lemma ofDecimal_nonNegative (d x : Z) : 0 <= d -> nonNegative (ofDecimal false d x).
Proof.
  intros Hd. unfold ofDecimal. destruct d as [|p|p]; try lia; [constructor|].
  destruct (0 <=? x).
  - unfold cond_Zopp, binary_normalize.
    assert (0 < 10 ^ x \/ 10 ^ x = 0).
    { destruct (Z.lt_trichotomy 0 (10 ^ x)) as [|[|]]; auto.
      pose proof (Z.pow_nonneg 10 x ltac:(lia)). lia. }
    destruct (Zpos p * 10 ^ x) as [|q|q] eqn:E; try lia; [constructor|].
    apply binary_round_rounded.
  - unfold SFdiv. cbn [xorb].
    pose proof (div_core_pre p (Z.to_pos (10 ^ (- x))) 0 0) as H.
    destruct (SFdiv_core_binary _ _ _ _ _ _) as [[q e] l].
    destruct H as [Hq He]. apply binary_round_aux_rounded; assumption.
Qed.

(** [parseFloat ('0.' + v)] is a number at least zero, whatever [v]. *)
Lemma parseFloat_zero_dot (v : string) :
  nonNegative (parseFloat ("0." ++ v)).
Proof.
  unfold parseFloat.
  change (chars ("0." ++ v)) with ("0"%char :: "."%char :: chars v).
  change (trimStartL ("0"%char :: "."%char :: chars v))
    with ("0"%char :: "."%char :: chars v).
  change (splitSign ("0"%char :: "."%char :: chars v))
    with (false, "0"%char :: "."%char :: chars v).
  cbv beta iota zeta.
  change (isPrefixL (chars "Infinity") ("0"%char :: "."%char :: chars v)) with false.
  cbv beta iota zeta.
  change (takeWhile isDigit ("0"%char :: "."%char :: chars v)) with ["0"%char].
  change (dropWhile isDigit ("0"%char :: "."%char :: chars v))
    with ("."%char :: chars v).
  cbv beta iota zeta.
  cbn [app].
  apply ofDecimal_nonNegative.
  apply digitsValue_nonneg. constructor; [reflexivity|apply takeWhile_all].
Qed.

Lemma mul_60_nonNegative (x : number) :
  nonNegative x -> nonNegative (mul x (ofZ 60)).
Proof. intros H. apply (mul_nonNegative x _ _ H). reflexivity. Qed.

Lemma mul_3600_nonNegative (x : number) :
  nonNegative x -> nonNegative (mul x (ofZ 3600)).
Proof. intros H. apply (mul_nonNegative x _ _ H). reflexivity. Qed.

End DigitFacts.

(** ** The times the LRC parser reads *)

Module LrcFacts.
Import Binary64 Semantics Shapes.
Import JsNumber JsString JsConv Regex Lrc FloatFacts RegexFacts DigitFacts.

Lemma digit_step (st st1 : mstate) :
  Matches digit st st1 -> exists ds, digitRun st st1 ds.
Proof.
  intros H. apply inv_Cls in H. destruct H as (x & l & Hr & Hx & ->).
  exists [x]. unfold digitRun. cbn [rest pos caps].
  split; [repeat constructor; assumption|].
  split; [discriminate|]. split; [assumption|].
  split; [simpl; lia|reflexivity].
Qed.

Lemma digitRun_seq (st st1 st2 : mstate) (a b : list ascii) :
  digitRun st st1 a -> digitRun st1 st2 b -> digitRun st st2 (a ++ b).
Proof.
  intros (Ha & Hna & Hra & Hpa & Hca) (Hb & Hnb & Hrb & Hpb & Hcb).
  unfold digitRun.
  split; [apply Forall_app; split; assumption|].
  split; [destruct a; [congruence|discriminate]|].
  split; [rewrite Hra, Hrb; now rewrite app_assoc|].
  split; [rewrite Hpb, Hpa, length_app; lia|congruence].
Qed.

Lemma opt_digits (r : regex) (st st1 : mstate) :
  (forall s s1, Matches r s s1 -> exists ds, digitRun s s1 ds) ->
  Matches (Opt r) st st1 ->
  st1 = st \/ exists ds, digitRun st st1 ds.
Proof.
  intros Hr H. apply inv_Alt in H. destruct H as [H|H].
  - right. now apply Hr.
  - left. now apply inv_Eps.
Qed.

Lemma rep12_digits (st st1 : mstate) :
  Matches (Rep12 digit) st st1 -> exists ds, digitRun st st1 ds.
Proof.
  intros H. apply inv_Seq in H. destruct H as (s1 & H1 & H2).
  apply digit_step in H1. destruct H1 as [d1 H1].
  apply (opt_digits digit) in H2; [|apply digit_step].
  destruct H2 as [-> | [ds H2]]; [eauto|].
  eexists. eapply digitRun_seq; eassumption.
Qed.

Lemma rep13_digits (st st1 : mstate) :
  Matches (Rep13 digit) st st1 -> exists ds, digitRun st st1 ds.
Proof.
  intros H. apply inv_Seq in H. destruct H as (s1 & H1 & H2).
  apply digit_step in H1. destruct H1 as [d1 H1].
  apply (opt_digits (Seq digit (Opt digit))) in H2; [|apply rep12_digits].
  destruct H2 as [-> | [ds H2]]; [eauto|].
  eexists. eapply digitRun_seq; eassumption.
Qed.

(** A group of digits records them. *)
Lemma group_digits (n : nat) (r : regex) (st st' : mstate) :
  (forall s s1, Matches r s s1 -> exists ds, digitRun s s1 ds) ->
  Matches (Group n r) st st' ->
  exists ds, allDigits ds /\ ds <> [] /\
    caps st' = (n, str ds) :: caps st.
Proof.
  intros Hr H. apply inv_Group in H. destruct H as (s1 & H & ->).
  apply Hr in H.
  destruct H as [ds (Hd & Hne & Hrest & Hpos & Hcaps)].
  exists ds. split; [assumption|]. split; [assumption|]. cbn [caps].
  rewrite Hcaps, Hpos, Hrest.
  replace (pos st + List.length ds - pos st)%nat with (List.length ds + 0)%nat by lia.
  rewrite firstn_app_2. cbn [firstn]. now rewrite app_nil_r.
Qed.

Lemma chr_caps (c : ascii) (st st' : mstate) :
  Matches (Chr c) st st' -> caps st' = caps st.
Proof. intros H. apply inv_Chr in H. now destruct H as (l & _ & ->). Qed.

(** A field that a pattern makes optional: a separator and a group of
    digits. *)
Lemma opt_field (sep : ascii) (n : nat) (r : regex) (st st' : mstate) :
  (forall s s1, Matches r s s1 -> exists ds, digitRun s s1 ds) ->
  Matches (Opt (Seq (Chr sep) (Group n r))) st st' ->
  caps st' = caps st \/
  exists g, digitText g /\ caps st' = (n, g) :: caps st.
Proof.
  intros Hr H. apply inv_Alt in H. destruct H as [H|H].
  - right. apply inv_Seq in H. destruct H as (s1 & H1 & H2).
    apply chr_caps in H1. apply (group_digits n r _ _ Hr) in H2.
    destruct H2 as (ds & Hd & Hn & Hc).
    exists (str ds). split; [now exists ds|]. congruence.
  - left. apply inv_Eps in H. now subst.
Qed.

Lemma stamp_shape (open close : ascii) (st st' : mstate) :
  caps st = [] ->
  Matches (Cat [Chr open; Group 1 (Rep12 digit); Chr ":"; Group 2 (Rep12 digit);
                Opt (Seq (Chr ":") (Group 3 (Rep12 digit)));
                Opt (Seq (Chr ".") (Group 4 (Rep13 digit)));
                Chr close]) st st' ->
  stampGroups (caps st').
Proof.
  intros Hc H. cbn [Cat] in H.
  apply inv_Seq in H. destruct H as (s1 & H1 & H).
  apply inv_Seq in H. destruct H as (s2 & H2 & H).
  apply inv_Seq in H. destruct H as (s3 & H3 & H).
  apply inv_Seq in H. destruct H as (s4 & H4 & H).
  apply inv_Seq in H. destruct H as (s5 & H5 & H).
  apply inv_Seq in H. destruct H as (s6 & H6 & H7).
  apply chr_caps in H1, H3, H7.
  apply (group_digits 1 _ _ _ rep12_digits) in H2.
  destruct H2 as (d1 & Hd1 & Hn1 & Hc1).
  apply (group_digits 2 _ _ _ rep12_digits) in H4.
  destruct H4 as (d2 & Hd2 & Hn2 & Hc2).
  apply (opt_field ":" 3 _ _ _ rep12_digits) in H5.
  apply (opt_field "." 4 _ _ _ rep13_digits) in H6.
  exists (str d1), (str d2).
  split; [now exists d1|]. split; [now exists d2|].
  assert (Hbase : caps s4 = [(2%nat, str d2); (1%nat, str d1)]) by congruence.
  destruct H5 as [H5|(g3 & Hg3 & H5)], H6 as [H6|(g4 & Hg4 & H6)].
  - left. congruence.
  - right. right. left. exists g4. split; [assumption|]. congruence.
  - right. left. exists g3. split; [assumption|]. congruence.
  - right. right. right. exists g3, g4.
    split; [assumption|]. split; [assumption|]. congruence.
Qed.

Lemma digitText_nonEmpty (g : string) : digitText g -> nonEmpty g = true.
Proof. intros (ds & _ & Hn & ->). destruct ds; [congruence|reflexivity]. Qed.

Lemma digitText_parseInt (g : string) : digitText g -> nonNegative (parseInt g).
Proof. intros (ds & Hd & Hn & ->). now apply parseInt_digits. Qed.

(** The time of a matched bracket is a number at least zero. *)
Lemma lineStampTime_nonNegative (i j : nat) (g : list (nat * string)) :
  stampGroups g -> nonNegative (lineStampTime (mkResult i j g)).
Proof.
  intros (g1 & g2 & H1 & H2 & H).
  pose proof (digitText_parseInt g1 H1) as P1.
  pose proof (digitText_parseInt g2 H2) as P2.
  unfold lineStampTime, groupText. cbn [groups].
  destruct H as [-> | [(g3 & H3 & ->) | [(g4 & H4 & ->) | (g3 & g4 & H3 & H4 & ->)]]];
    cbn [group Nat.eqb];
    try rewrite (digitText_nonEmpty g3 H3);
    try rewrite (digitText_nonEmpty g4 H4);
    cbn [nonEmpty];
    repeat first [apply add_nonNegative | apply mul_60_nonNegative
                 | apply mul_3600_nonNegative | apply parseFloat_zero_dot
                 | apply digitText_parseInt; assumption | assumption].
Qed.

Lemma tagStampTime_nonNegative (i j : nat) (g : list (nat * string)) :
  stampGroups g -> nonNegative (tagStampTime (mkResult i j g)).
Proof.
  intros (g1 & g2 & H1 & H2 & H).
  pose proof (digitText_parseInt g1 H1) as P1.
  pose proof (digitText_parseInt g2 H2) as P2.
  unfold tagStampTime, groupText. cbn [groups].
  destruct H as [-> | [(g3 & H3 & ->) | [(g4 & H4 & ->) | (g3 & g4 & H3 & H4 & ->)]]];
    cbn [group Nat.eqb];
    try rewrite (digitText_nonEmpty g3 H3);
    try rewrite (digitText_nonEmpty g4 H4);
    cbn [nonEmpty];
    repeat first [apply add_nonNegative | apply mul_60_nonNegative
                 | apply mul_3600_nonNegative | apply parseFloat_zero_dot
                 | apply ofZ_nonNegative; lia
                 | apply digitText_parseInt; assumption | assumption].
Qed.

End LrcFacts.

(** ** The lines the parsers push *)

Module ParserFacts.
Import Binary64 Semantics Shapes.
Import JsNumber JsString JsConv Regex Lrc LrcParser.
Import FloatFacts RegexFacts DigitFacts LrcFacts SortFacts Props.

Lemma lineTime_match (content : string) (i : nat) (res : result) :
  execFrom lineTimeRegex content i = Some res ->
  nonNegative (lineStampTime res).
Proof.
  intros H. apply execFrom_sound in H. destruct H as [j H].
  apply matchAt_sound in H. destruct H as (st' & H & ->).
  apply lineStampTime_nonNegative.
  eapply stamp_shape; [|exact H]. reflexivity.
Qed.

Lemma stripStamps_times (fuel : nat) :
  forall content ts i,
    Forall nonNegative ts ->
    Forall nonNegative (snd (fst (stripStamps fuel content ts i))).
Proof.
  induction fuel as [|fuel IH]; intros content ts i Hts; simpl.
  - destruct (execFrom lineTimeRegex content i) as [res|]; [|assumption].
    destruct (index res =? 0)%nat; assumption.
  - destruct (execFrom lineTimeRegex content i) as [res|] eqn:E; [|assumption].
    destruct (index res =? 0)%nat; [|assumption].
    apply IH. apply Forall_app. split; [assumption|].
    constructor; [|constructor]. eapply lineTime_match; eassumption.
Qed.

Section WithIds.
Variable randomId : Ids.supply.

Lemma buildLine_start (c v : string) (bg hw : bool) (t : number) (n : nat) :
  TimedLine.startTime (fst (buildLine randomId c v bg hw t n)) = t.
Proof.
  unfold buildLine.
  destruct (if hw then _ else _) as [ws n1].
  destruct (Ids.generateId randomId n1). reflexivity.
Qed.

Lemma buildLines_starts (c v : string) (bg hw : bool) (ts : list number) :
  forall n,
    map TimedLine.startTime (fst (buildLines randomId c v bg hw ts n)) = ts.
Proof.
  induction ts as [|t ts IH]; intros n; simpl; [reflexivity|].
  pose proof (buildLine_start c v bg hw t n) as Ht.
  destruct (buildLine randomId c v bg hw t n) as [l n1].
  specialize (IH n1).
  destruct (buildLines randomId c v bg hw ts n1) as [ls n2].
  simpl in *. now rewrite Ht, IH.
Qed.

Lemma processLine_timed (st : state) (rawLine : string) :
  Forall timed (lines st) ->
  Forall timed (lines (processLine randomId st rawLine)).
Proof.
  intros H. unfold processLine.
  destruct (negb _); [assumption|].
  destruct (metaOf _) as [[key val]|]; [assumption|].
  pose proof (stripStamps_times (String.length (trim rawLine)) (trim rawLine)
                [] (lastIndex st) ltac:(constructor)) as Hts.
  destruct (stripStamps _ _ _ _) as [[content1 ts] li]. simpl in Hts.
  destruct ts as [|t ts]; [assumption|].
  destruct (match exec voiceRegex content1 with Some _ => _ | None => _ end)
    as [voice content2].
  pose proof (buildLines_starts content2 voice
                (startsWith content1 "(" && endsWith content1 ")")
                (test wordTimingRegex content2) (t :: ts) (nextId st)) as Hs.
  destruct (buildLines _ _ _ _ _ _ _) as [ls n]. cbn [lines fst] in *.
  apply Forall_app. split; [assumption|].
  clear H. revert Hs Hts. generalize (t :: ts). clear.
  induction ls as [|l ls IH]; intros ts Hs Hts; [constructor|].
  cbn [map] in Hs. destruct ts as [|t ts]; [discriminate|].
  injection Hs as Hl Hls. inversion Hts as [|? ? Ht Hts'].
  constructor; [|apply (IH ts); assumption].
  unfold timed. apply nonNegative_isTime. rewrite Hl. exact Ht.
Qed.

Lemma scan_timed (text : string) :
  Forall timed (lines (scan randomId text)).
Proof.
  unfold scan.
  assert (H : Forall timed (lines (mkSt [] initialMetadata 0 0)))
    by constructor.
  revert H. generalize (mkSt [] initialMetadata 0 0).
  induction (split lineBreakRegex 0 text) as [|r rs IH]; intros st H;
    [assumption|].
  simpl. apply IH. now apply processLine_timed.
Qed.
End WithIds.

(** The comparator of both parsers orders the lines by the key of their
    start time. *)
Lemma byStartTime_key (a b : TimedLine.t) :
  timed a -> timed b ->
  JsArray.before byStartTime a b
    = (key (TimedLine.startTime a) <? key (TimedLine.startTime b)).
Proof. intros Ha Hb. unfold JsArray.before, byStartTime. now apply sub_sign. Qed.

Lemma keyLe_ascending (ls : list TimedLine.t) :
  Forall timed ls ->
  StronglySorted (keyLe (fun l => key (TimedLine.startTime l))) ls ->
  ascending ls.
Proof.
  unfold ascending. intros Hd Hs.
  induction Hs as [|l ls Hs IH Hl]; simpl; [constructor|].
  inversion Hd as [|? ? Dl Dls]; subst.
  constructor; [now apply IH|].
  rewrite Forall_map. rewrite Forall_forall in *.
  intros x Hx. rewrite le_key; [|assumption|now apply Dls].
  apply Z.leb_le. now apply Hl.
Qed.

Lemma sort_ascending (ls : list TimedLine.t) :
  Forall timed ls -> ascending (JsArray.sort byStartTime ls).
Proof.
  intros H. apply keyLe_ascending.
  - now apply (sort_dom byStartTime timed).
  - apply (sort_sorted byStartTime _ timed byStartTime_key). assumption.
Qed.

Lemma sameStart_key (l0 l : TimedLine.t) :
  timed l0 -> timed l ->
  sameStart l0 l
    = (key (TimedLine.startTime l) =? key (TimedLine.startTime l0)).
Proof. intros H0 H. unfold sameStart. now apply strictEq_key. Qed.

Lemma sort_ties (ls : list TimedLine.t) :
  Forall timed ls -> tiesInOrder ls (JsArray.sort byStartTime ls).
Proof.
  intros H. unfold tiesInOrder. rewrite Forall_forall. intros l0 Hl0.
  assert (D0 : timed l0) by (rewrite Forall_forall in H; now apply H).
  f_equal.
  rewrite (filter_ext_in (sameStart l0)
             (fun a => key (TimedLine.startTime a) =? key (TimedLine.startTime l0))
             (JsArray.sort byStartTime ls)).
  - rewrite (filter_ext_in (sameStart l0)
               (fun a => key (TimedLine.startTime a) =? key (TimedLine.startTime l0)) ls).
    + apply (sort_stable byStartTime _ timed byStartTime_key). assumption.
    + intros a Ha. apply sameStart_key; [assumption|].
      rewrite Forall_forall in H. now apply H.
  - intros a Ha. apply sameStart_key; [assumption|].
    pose proof (sort_dom byStartTime timed ls H) as Hd.
    rewrite Forall_forall in Hd. now apply Hd.
Qed.

(** The inference of end times keeps the start, the identifier and the raw
    text of every line. *)
Lemma inferEndTimes_starts (ls : list TimedLine.t) :
  map TimedLine.startTime (inferEndTimes ls) = map TimedLine.startTime ls.
Proof.
  induction ls as [|l [|l' rest] IH]; [reflexivity|reflexivity|].
  change (inferEndTimes (l :: l' :: rest))
    with (setLineEnd (TimedLine.startTime l') l :: inferEndTimes (l' :: rest)).
  cbn [map]. now rewrite IH.
Qed.

Lemma inferEndTimes_filter (f : TimedLine.t -> bool) (ls : list TimedLine.t) :
  (forall e l, f (setLineEnd e l) = f l) ->
  map identity (filter f (inferEndTimes ls)) = map identity (filter f ls).
Proof.
  intros Hf.
  induction ls as [|l [|l' rest] IH]; [reflexivity| |].
  - simpl. rewrite Hf. now destruct (f l).
  - change (inferEndTimes (l :: l' :: rest))
      with (setLineEnd (TimedLine.startTime l') l :: inferEndTimes (l' :: rest)).
    cbn [filter]. rewrite Hf.
    destruct (f l); cbn [map]; now rewrite IH.
Qed.

End ParserFacts.

Module TtmlOrder.
Import Binary64 Semantics Shapes.
Import JsNumber JsString JsConv Dom Ttml.
Import FloatFacts SortFacts ParserFacts Props.

Lemma parseTime_wf (t : option string) (v : number) :
  parseTime t = Some v -> wf v.
Proof.
  unfold parseTime. destruct t as [[|c s]|]; try discriminate.
  generalize (String c s). intros t.
  destruct (includes t ":");
    [intros H; injection H as <-; apply parseTimestamp_wf|].
  destruct (endsWith t "ms"); [intros H; injection H as <-; apply div_wf|].
  destruct (endsWith t "s");
    [intros H; injection H as <-; apply parseFloat_wf|].
  destruct (isNaN _); [discriminate|].
  intros H; injection H as <-. apply parseFloat_wf.
Qed.

Lemma orZero_isTime (x : option number) :
  (forall v, x = Some v -> wf v) -> isTime (orZero x).
Proof.
  intros H. unfold orZero. destruct x as [v|]; [|split; reflexivity].
  specialize (H v eq_refl).
  destruct v; cbn [truthy]; split; try reflexivity; assumption.
Qed.

Section WithIds.
Variable randomId : Ids.supply.

Lemma lineOfP_timed (agentMap : list (string * string)) (p : Node)
    (n n' : nat) (l : TimedLine.t) :
  lineOfP randomId agentMap p n = (Some l, n') -> timed l.
Proof.
  unfold lineOfP.
  destruct (fold_left _ (childNodesOf p) _) as [words n1].
  destruct words as [|w ws]; [discriminate|].
  destruct (Ids.generateId randomId n1) as [i n2].
  intros [= <- _]. unfold timed. cbn [TimedLine.startTime].
  apply orZero_isTime. apply parseTime_wf.
Qed.

Lemma linesOfContainer_timed (agentMap : list (string * string))
    (acc : list TimedLine.t * nat) (container : Node) :
  Forall timed (fst acc) ->
  Forall timed (fst (linesOfContainer randomId agentMap acc container)).
Proof.
  unfold linesOfContainer.
  revert acc. induction (getElementsByTagName "p" container) as [|p ps IH];
    intros acc H; [assumption|].
  cbn [fold_left]. apply IH.
  destruct (lineOfP randomId agentMap p (snd acc)) as [[l|] n] eqn:E;
    [|assumption].
  cbn [fst]. apply Forall_app. split; [assumption|].
  constructor; [|constructor]. eapply lineOfP_timed. eassumption.
Qed.

Lemma collectLines_timed (agentMap : list (string * string)) (body : Node) :
  Forall timed (collectLines randomId agentMap body).
Proof.
  unfold collectLines.
  assert (H : Forall timed (fst (@nil TimedLine.t, 0%nat))) by constructor.
  revert H. generalize (@nil TimedLine.t, 0%nat).
  generalize (match getElementsByTagName "div" body with
              | [] => [body]
              | _ :: _ => getElementsByTagName "div" body
              end).
  intros cs. induction cs as [|c cs IH]; intros acc H; [assumption|].
  cbn [fold_left]. apply IH. now apply linesOfContainer_timed.
Qed.
End WithIds.

End TtmlOrder.

Module ParserOrder.
Import Binary64 Semantics Shapes.
Import JsNumber JsString JsConv Regex Lrc LrcParser Parser.
Import FloatFacts SortFacts ParserFacts TtmlOrder Props.

Section WithEnvironment.
Variable randomId : Ids.supply.
Variable parseFromString : string -> Dom.Document.

Lemma plainLines_starts (ls : list string) :
  forall n, Forall (fun l => TimedLine.startTime l = ofZ 0)
                   (fst (plainLines randomId ls n)).
Proof.
  induction ls as [|l ls IH]; intros n; simpl; [constructor|].
  destruct (plainWordsOf randomId _ (S n)) as [ws n2].
  specialize (IH n2). destruct (plainLines randomId ls n2) as [rest n3].
  constructor; [reflexivity|assumption].
Qed.

Lemma zeros_ascending (ls : list TimedLine.t) :
  Forall (fun l => TimedLine.startTime l = ofZ 0) ls -> ascending ls.
Proof.
  unfold ascending. induction 1 as [|l ls Hl Hls IH]; simpl; constructor.
  - assumption.
  - rewrite Forall_map. rewrite Forall_forall in *. intros x Hx.
    rewrite Hl, (Hls x Hx). reflexivity.
Qed.

Lemma ties_refl (ls : list TimedLine.t) : tiesInOrder ls ls.
Proof. unfold tiesInOrder. rewrite Forall_forall. reflexivity. Qed.

Lemma lrc_sorted (text : string) :
  ascending (inferEndTimes (JsArray.sort byStartTime (lines (scan randomId text))))
  /\ tiesInOrder (lines (scan randomId text))
       (inferEndTimes (JsArray.sort byStartTime (lines (scan randomId text)))).
Proof.
  pose proof (scan_timed randomId text) as H. split.
  - unfold ascending. rewrite inferEndTimes_starts.
    now apply sort_ascending.
  - pose proof (sort_ties _ H) as Ht. unfold tiesInOrder in *.
    rewrite Forall_forall in *. intros l0 Hl0.
    rewrite inferEndTimes_filter by reflexivity. now apply Ht.
Qed.

(** C2: whatever the text and the format, the lines [parseLyrics]
    returns ascend by start time, and the lines that start together
    come in the order in which the parser met them. *)
Theorem parseLyrics_sorted (text : string) (format : option LyricsFormat) :
  ascending
    (LyricsDocument.lines (parseLyrics randomId parseFromString text format))
  /\
  tiesInOrder
    (encountered randomId parseFromString text format)
    (LyricsDocument.lines (parseLyrics randomId parseFromString text format)).
Proof.
  unfold parseLyrics, encountered.
  destruct (match format with Some f => f | None => detectFormat text end).
  - split; [|apply ties_refl].
    apply zeros_ascending. apply plainLines_starts.
  - apply lrc_sorted.
  - apply lrc_sorted.
  - unfold Ttml.parseTTML, Ttml.parseDocument.
    destruct (Ttml.readHead (parseFromString text)) as [metadata agentMap].
    unfold Ttml.firstOf. cbn [snd].
    destruct (hd_error _) as [body|]; cbn [LyricsDocument.lines].
    + pose proof (collectLines_timed randomId agentMap body) as H.
      split; [now apply sort_ascending|now apply sort_ties].
    + split; [constructor|constructor].
Qed.
End WithEnvironment.

End ParserOrder.

(** ** End times inferred by the LRC parser *)

Module EndTimeFacts.
Import Binary64 Semantics Shapes.
Import JsNumber Lrc LrcParser Props.

Lemma inferWordEnds_nth (e : number) (ws : list TimedWord.t) :
  forall j,
    nth_error (inferWordEnds e ws) j
      = option_map (setWordEnd (inferredWordEnd e ws j)) (nth_error ws j).
Proof.
  induction ws as [|w [|w' rest] IH]; intros j.
  - now destruct j.
  - destruct j as [|[|j]]; reflexivity.
  - change (inferWordEnds e (w :: w' :: rest))
      with (setWordEnd (TimedWord.startTime w') w :: inferWordEnds e (w' :: rest)).
    destruct j as [|j]; [reflexivity|].
    cbn [nth_error]. rewrite IH. reflexivity.
Qed.

Lemma inferWordEnds_starts (e : number) (ws : list TimedWord.t) :
  map TimedWord.startTime (inferWordEnds e ws) = map TimedWord.startTime ws.
Proof.
  induction ws as [|w [|w' rest] IH]; [reflexivity|reflexivity|].
  change (inferWordEnds e (w :: w' :: rest))
    with (setWordEnd (TimedWord.startTime w') w :: inferWordEnds e (w' :: rest)).
  cbn [map]. now rewrite IH.
Qed.

Lemma nth_error_start {A} (f : A -> number) (l l' : list A) (i : nat) :
  map f l = map f l' ->
  option_map f (nth_error l i) = option_map f (nth_error l' i).
Proof. intros H. rewrite <- !nth_error_map. now rewrite H. Qed.

Lemma inferredWordEnd_starts (e : number) (ws ws' : list TimedWord.t) (j : nat) :
  map TimedWord.startTime ws = map TimedWord.startTime ws' ->
  inferredWordEnd e ws j = inferredWordEnd e ws' j.
Proof.
  intros H. unfold inferredWordEnd.
  pose proof (nth_error_start TimedWord.startTime ws ws' (S j) H) as E.
  destruct (nth_error ws (S j)), (nth_error ws' (S j)); simpl in E;
    congruence.
Qed.

Lemma inferEndTimes_nth (ls : list TimedLine.t) :
  forall i,
    nth_error (inferEndTimes ls) i
      = option_map (fun l => setLineEnd (inferredLineEnd ls i l) l)
                   (nth_error ls i).
Proof.
  induction ls as [|l [|l' rest] IH]; intros i.
  - now destruct i.
  - destruct i as [|[|i]]; reflexivity.
  - change (inferEndTimes (l :: l' :: rest))
      with (setLineEnd (TimedLine.startTime l') l :: inferEndTimes (l' :: rest)).
    destruct i as [|i]; [reflexivity|].
    cbn [nth_error]. rewrite IH. reflexivity.
Qed.

Lemma inferredLineEnd_starts (ls ls' : list TimedLine.t) (i : nat)
    (l l' : TimedLine.t) :
  map TimedLine.startTime ls = map TimedLine.startTime ls' ->
  TimedLine.startTime l = TimedLine.startTime l' ->
  inferredLineEnd ls i l = inferredLineEnd ls' i l'.
Proof.
  intros H Hl. unfold inferredLineEnd.
  pose proof (nth_error_start TimedLine.startTime ls ls' (S i) H) as E.
  destruct (nth_error ls (S i)), (nth_error ls' (S i)); simpl in E;
    congruence.
Qed.

Lemma inferEndTimes_inferred (ls : list TimedLine.t) :
  endTimesInferred (inferEndTimes ls).
Proof.
  intros i l H. rewrite inferEndTimes_nth in H.
  destruct (nth_error ls i) as [l0|] eqn:E; [|discriminate].
  injection H as <-.
  assert (Hend : inferredLineEnd (inferEndTimes ls) i
                   (setLineEnd (inferredLineEnd ls i l0) l0)
                 = inferredLineEnd ls i l0).
  { apply inferredLineEnd_starts; [|reflexivity].
    apply ParserFacts.inferEndTimes_starts. }
  rewrite Hend. split; [reflexivity|].
  intros j w Hw. cbn [setLineEnd TimedLine.words] in *.
  rewrite inferWordEnds_nth in Hw.
  destruct (nth_error (TimedLine.words l0) j) as [w0|]; [|discriminate].
  injection Hw as <-. cbn [setWordEnd TimedWord.endTime]. f_equal.
  symmetry. apply inferredWordEnd_starts. apply inferWordEnds_starts.
Qed.

Lemma inferWordEnds_length (e : number) (ws : list TimedWord.t) :
  List.length (inferWordEnds e ws) = List.length ws.
Proof.
  rewrite <- (length_map TimedWord.startTime (inferWordEnds e ws)).
  rewrite inferWordEnds_starts. apply length_map.
Qed.

Lemma inferEndTimes_length (ls : list TimedLine.t) :
  List.length (inferEndTimes ls) = List.length ls.
Proof.
  rewrite <- (length_map TimedLine.startTime (inferEndTimes ls)).
  rewrite ParserFacts.inferEndTimes_starts. apply length_map.
Qed.

Lemma setLineEnd_set (e : number) (l0 : TimedLine.t) :
  lineEndSet e l0 (setLineEnd e l0).
Proof.
  unfold lineEndSet, setLineEnd.
  cbn [TimedLine.id TimedLine.startTime TimedLine.rawText TimedLine.voice
       TimedLine.isBackground TimedLine.attributes TimedLine.endTime
       TimedLine.words].
  repeat (split; [reflexivity|]).
  split; [apply inferWordEnds_length|].
  intros j w0 Hw. rewrite inferWordEnds_nth, Hw. cbn [option_map].
  exists (setWordEnd (inferredWordEnd e (TimedLine.words l0) j) w0).
  split; [reflexivity|]. unfold wordEndSet, setWordEnd.
  cbn [TimedWord.id TimedWord.text TimedWord.startTime TimedWord.isBackground
       TimedWord.endTime].
  repeat split; reflexivity.
Qed.

Lemma inferEndTimes_set (ls : list TimedLine.t) :
  endTimesSet ls (inferEndTimes ls).
Proof.
  split; [apply inferEndTimes_length|].
  intros i l0 H. rewrite inferEndTimes_nth, H. cbn [option_map].
  exists (setLineEnd (inferredLineEnd ls i l0) l0).
  split; [reflexivity|apply setLineEnd_set].
Qed.

(** C5: the document of the LRC parser, and of the ELRC parser, has the
    lines the parser pushed, sorted by start time: as many, in the sorted
    order, each with its identifier, start, text, voice and flags, and
    with its words, as many and in their order.  Every line but the last
    ends where the next line starts and the last line ends 5 s after its
    start; in every line, every word but the last ends where the next
    word starts and the last word ends where the line ends. *)
Theorem parseLRC_end_times (randomId : Ids.supply) (text : string) :
  (endTimesSet (JsArray.sort byStartTime (lines (scan randomId text)))
               (LyricsDocument.lines (parseLRC randomId text)) /\
   endTimesInferred (LyricsDocument.lines (parseLRC randomId text))) /\
  (endTimesSet (JsArray.sort byStartTime (lines (scan randomId text)))
               (LyricsDocument.lines (parseELRC randomId text)) /\
   endTimesInferred (LyricsDocument.lines (parseELRC randomId text))).
Proof.
  assert (H : endTimesSet
                (JsArray.sort byStartTime (lines (scan randomId text)))
                (LyricsDocument.lines (parseLRC randomId text)) /\
              endTimesInferred
                (LyricsDocument.lines (parseLRC randomId text))).
  { unfold parseLRC. cbn [LyricsDocument.lines].
    split; [apply inferEndTimes_set|apply inferEndTimes_inferred]. }
  split; exact H.
Qed.

End EndTimeFacts.

(** ** One line for each leading time *)

Module StampFacts.
Import Binary64 Semantics Shapes.
Import JsNumber JsString Regex Lrc LrcParser Props.

Section WithIds.
Variable randomId : Ids.supply.

Lemma taggedWords_texts (parts : list string) :
  forall t n t' n',
    map TimedWord.text (fst (taggedWords randomId parts t n))
      = map TimedWord.text (fst (taggedWords randomId parts t' n')).
Proof.
  induction parts as [|p ps IH]; intros t n t' n'; [reflexivity|].
  cbn [taggedWords]. destruct (exec tagRegex p) as [res|]; [apply IH|].
  destruct (nonEmpty (trim p)); [|apply IH].
  cbn [Ids.generateId].
  specialize (IH t (S n) t' (S n')).
  destruct (taggedWords randomId ps t (S n)) as [ws n2].
  destruct (taggedWords randomId ps t' (S n')) as [ws' n2'].
  cbn [fst map TimedWord.text] in *. now rewrite IH.
Qed.

Lemma plainWords_texts (ws : list string) :
  forall t n, map TimedWord.text (fst (plainWords randomId ws t n)) = ws.
Proof.
  induction ws as [|w ws IH]; intros t n; [reflexivity|].
  cbn [plainWords Ids.generateId]. specialize (IH t (S n)).
  destruct (plainWords randomId ws t (S n)) as [rest n2].
  cbn [fst map TimedWord.text] in *. now rewrite IH.
Qed.

Lemma buildLine_shared (c v : string) (bg hw : bool) (t : number) (n : nat) :
  let l := fst (buildLine randomId c v bg hw t n) in
  TimedLine.startTime l = t /\
  TimedLine.voice l = Some v /\
  TimedLine.isBackground l = Some bg /\
  map TimedWord.text (TimedLine.words l) = wordTexts randomId c hw /\
  TimedLine.rawText l
    = (if nonEmpty (join " " (wordTexts randomId c hw))
       then join " " (wordTexts randomId c hw) else c).
Proof.
  unfold wordTexts, buildLine.
  destruct hw.
  - pose proof (taggedWords_texts
                  (filter (fun p => nonEmpty (trim p)) (split tagSplitRegex 1 c))
                  t n (ofZ 0) 0%nat) as E.
    destruct (taggedWords randomId _ t n) as [ws n1].
    destruct (taggedWords randomId _ (ofZ 0) 0%nat) as [ws0 m1].
    cbn [fst Ids.generateId TimedLine.words TimedLine.startTime TimedLine.voice
         TimedLine.isBackground TimedLine.rawText] in *.
    rewrite <- E. repeat split; reflexivity.
  - pose proof (plainWords_texts (filter nonEmpty (split spacesRegex 0 c)) t n) as E.
    pose proof (plainWords_texts (filter nonEmpty (split spacesRegex 0 c)) (ofZ 0) 0%nat) as E0.
    destruct (plainWords randomId _ t n) as [ws n1].
    destruct (plainWords randomId _ (ofZ 0) 0%nat) as [ws0 m1].
    cbn [fst Ids.generateId TimedLine.words TimedLine.startTime TimedLine.voice
         TimedLine.isBackground TimedLine.rawText] in *.
    rewrite E0, E. repeat split; reflexivity.
Qed.

(** [timestamps.forEach] pushes one line for each time, in order, and
    the lines differ in their times and identifiers only. *)
Theorem buildLines_one_per_stamp (c v : string) (bg hw : bool)
    (timestamps : list number) (n : nat) :
  let ls := fst (buildLines randomId c v bg hw timestamps n) in
  map TimedLine.startTime ls = timestamps /\
  Forall (fun l =>
            TimedLine.voice l = Some v /\
            TimedLine.isBackground l = Some bg /\
            map TimedWord.text (TimedLine.words l) = wordTexts randomId c hw /\
            TimedLine.rawText l
              = (if nonEmpty (join " " (wordTexts randomId c hw))
                 then join " " (wordTexts randomId c hw) else c)) ls.
Proof.
  revert n. induction timestamps as [|t ts IH]; intros n.
  - split; [reflexivity|constructor].
  - cbn [buildLines].
    pose proof (buildLine_shared c v bg hw t n) as Hl.
    destruct (buildLine randomId c v bg hw t n) as [l n1].
    specialize (IH n1).
    destruct (buildLines randomId c v bg hw ts n1) as [ls n2].
    cbn [fst] in *. destruct Hl as (Ht & Hrest). destruct IH as [IH1 IH2].
    split; [cbn [map]; now rewrite Ht, IH1|].
    constructor; assumption.
Qed.
End WithIds.

(** The scenario of the specification: two leading times give two
    lines with the same text. *)
Theorem parseLRC_two_stamps (randomId : Ids.supply) :
  map summary
      (LyricsDocument.lines (parseLRC randomId "[00:01.00][00:05.00]Chorus"))
    = [("Chorus"%string, ofZ 1); ("Chorus"%string, ofZ 5)].
Proof. vm_compute. reflexivity. Qed.

(** C4: a line that begins with a bracketed time does not always give a
    line of lyrics.  When the text of the line before holds a bracketed
    time after its words, the search on that line leaves the shared
    pattern's [lastIndex] behind its end; the search on the next line
    starts there, finds nothing, and the line is dropped. *)
Theorem parseLRC_drops_line_after_inner_stamp (randomId : Ids.supply) :
  map summary (LyricsDocument.lines (parseLRC randomId lineAfterInnerStamp))
    = [("abc [00:05.00]"%string, ofZ 1)] /\
  map summary (LyricsDocument.lines (parseLRC randomId "[00:02.00]Chorus"))
    = [("Chorus"%string, ofZ 2)].
Proof. split; vm_compute; reflexivity. Qed.

End StampFacts.

(** ** The shift utility *)

Module ShiftFacts.
Import Binary64 Semantics Shapes.
Import JsNumber Shift Props.

Lemma shiftWord_frame (off : number) (w : TimedWord.t) :
  sameWordButTimes w (shiftWord off w).
Proof. repeat split. Qed.

Lemma shiftLine_frame (off : number) (l : TimedLine.t) :
  sameLineButTimes l (shiftLine off l).
Proof.
  repeat split. simpl.
  induction (TimedLine.words l) as [|w ws IH]; simpl; constructor; auto.
  apply shiftWord_frame.
Qed.

(** C10: [shiftTimestamps] changes nothing but start and end times: the
    format and the metadata are those of the input, and the lines are as
    many, in the same order, each with its id, raw text, voice,
    background flag and attribute bag, and with words that keep their
    id, text and background flag. *)
Theorem shiftTimestamps_frame (doc : LyricsDocument.t) (offsetSeconds : number) :
  LyricsDocument.format (shiftTimestamps doc offsetSeconds)
    = LyricsDocument.format doc /\
  LyricsDocument.metadata (shiftTimestamps doc offsetSeconds)
    = LyricsDocument.metadata doc /\
  List.length (LyricsDocument.lines (shiftTimestamps doc offsetSeconds))
    = List.length (LyricsDocument.lines doc) /\
  Forall2 sameLineButTimes (LyricsDocument.lines doc)
          (LyricsDocument.lines (shiftTimestamps doc offsetSeconds)).
Proof.
  unfold shiftTimestamps; simpl. repeat split.
  - apply length_map.
  - induction (LyricsDocument.lines doc) as [|l ls IH]; simpl; constructor; auto.
    apply shiftLine_frame.
Qed.

(** Shifting by zero: a time [t >= 0] is kept, up to the sign of zero. *)
Lemma shiftTime_zero (t : number) :
  startKept t -> sameTime t (shiftTime (ofZ 0) t).
Proof.
  unfold startKept, sameTime, shiftTime, ge, strictEq.
  destruct t as [s|s| |s m e]; try destruct s; simpl; try discriminate;
    intros _; try reflexivity.
  unfold SFeqb; simpl. rewrite Z.compare_refl.
  now rewrite Pos.compare_cont_refl.
Qed.

Lemma shiftEnd_zero (e : option number) :
  endKept e -> shiftEnd (ofZ 0) e = e.
Proof.
  destruct e as [t|]; [|reflexivity].
  unfold endKept, gt, shiftEnd, shiftTime.
  destruct t as [s|s| |s m e]; try destruct s; simpl; try discriminate;
    intros _; reflexivity.
Qed.

Lemma sameEnd_refl (e : option number) : endKept e -> sameEnd e e.
Proof.
  destruct e as [t|]; simpl; [|easy].
  unfold gt, sameTime, strictEq.
  destruct t as [s|s| |s m e]; try destruct s; simpl; try discriminate;
    intros _; try reflexivity.
  unfold SFeqb; simpl. rewrite Z.compare_refl.
  now rewrite Pos.compare_cont_refl.
Qed.

(** Where every start time is at least zero and every end time that is
    present is above zero, the shift by zero keeps all times. *)
Theorem shiftTimestamps_zero_keeps (doc : LyricsDocument.t) :
  Forall lineTimesKept (LyricsDocument.lines doc) ->
  Forall2 sameLineTimes (LyricsDocument.lines doc)
          (LyricsDocument.lines (shiftTimestamps doc (ofZ 0))).
Proof.
  unfold shiftTimestamps; simpl.
  induction 1 as [|l ls [Hs [He Hw]] _ IH]; simpl; constructor; auto.
  repeat split; simpl.
  - now apply shiftTime_zero.
  - rewrite shiftEnd_zero by assumption. now apply sameEnd_refl.
  - induction Hw as [|w ws [Hws Hwe] _ IHw]; simpl; constructor; auto.
    split; simpl.
    + now apply shiftTime_zero.
    + rewrite shiftEnd_zero by assumption. now apply sameEnd_refl.
Qed.

(** C6: the shift by zero is not the identity on the document the LRC
    parser makes of two lines that start at 0 s.  The first line and its
    word end at 0, where the second line starts; the test
    [line.endTime ? ... : undefined] takes the end 0 for an absent one and
    drops it. *)
Theorem shiftTimestamps_zero_drops_end_at_zero (randomId : Ids.supply) :
  let doc := LrcParser.parseLRC randomId twoLinesAtZero in
  map TimedLine.endTime (LyricsDocument.lines doc)
    = [Some (ofZ 0); Some (ofZ 5)] /\
  map TimedLine.endTime (LyricsDocument.lines (shiftTimestamps doc (ofZ 0)))
    = [None; Some (ofZ 5)] /\
  map (fun l => map TimedWord.endTime (TimedLine.words l))
      (LyricsDocument.lines doc)
    = [[Some (ofZ 0)]; [Some (ofZ 5)]] /\
  map (fun l => map TimedWord.endTime (TimedLine.words l))
      (LyricsDocument.lines (shiftTimestamps doc (ofZ 0)))
    = [[None]; [Some (ofZ 5)]].
Proof. repeat split; vm_compute; reflexivity. Qed.

(** The shift by zero on the document read from one line of lyrics. *)
Lemma shiftTimestamps_zero_keeps_witness :
  Forall2 sameLineTimes
    (LyricsDocument.lines (LrcParser.parseLRC sampleIds "[00:01.00]One two"))
    (LyricsDocument.lines
       (shiftTimestamps (LrcParser.parseLRC sampleIds "[00:01.00]One two")
                        (ofZ 0))).
Proof.
  apply (shiftTimestamps_zero_keeps
           (LrcParser.parseLRC sampleIds "[00:01.00]One two")).
  vm_compute. repeat constructor.
Defined.

End ShiftFacts.

(** ** The timing mode of the TTML generator *)

Module GenerateFacts.
Import Binary64 Semantics Shapes.
Import JsNumber JsString Generate Props.

Lemma chars_append (a b : string) : chars (a ++ b) = (chars a ++ chars b)%list.
Proof. induction a as [|c a IH]; simpl; [reflexivity|]. unfold chars in *. simpl. now rewrite IH. Qed.

(** The generated text carries the label right after the fixed prologue. *)
Lemma timing_attribute (doc : LyricsDocument.t) :
  attributeValue "itunes:timing" (generateTTML doc) = Some (timingMode doc).
Proof.
  unfold attributeValue, generateTTML.
  set (tail := paragraphs _ _ _).
  set (hd := headAndBodyOpen _ _ _).
  assert (Hhd : exists r, hd = (dq ++ r)%string) by (eexists; reflexivity).
  destruct Hhd as [r ->]. clearbody tail.
  rewrite !chars_append.
  replace (afterMarker (chars ("itunes:timing" ++ "=" ++ dq))
             (chars prologue ++ chars (timingMode doc) ++ chars (dq ++ r)%string ++ chars (tail ++ epilogue)%string)%list)
    with (Some (chars (timingMode doc) ++ chars (dq ++ r)%string ++ chars (tail ++ epilogue)%string)%list)
    by reflexivity.
  unfold timingMode. destruct (hasWordSync doc); reflexivity.
Qed.

Lemma lineHasWordSync_iff (l : TimedLine.t) :
  lineHasWordSync l = true <->
  (1 < List.length (TimedLine.words l))%nat /\
  exists w, In w (TimedLine.words l) /\ startsLate l w.
Proof.
  unfold lineHasWordSync, startsLate.
  rewrite andb_true_iff, Nat.ltb_lt, existsb_exists. tauto.
Qed.

Lemma hasWordSync_iff (doc : LyricsDocument.t) :
  hasWordSync doc = true <-> someWordLate doc.
Proof.
  unfold hasWordSync, someWordLate. rewrite existsb_exists.
  split; intros [l [Hin H]]; exists l; split; auto; now apply lineHasWordSync_iff.
Qed.

(** C9, as amended: [generateTTML] writes [itunes:timing] as [Word] exactly
    when some line has more than one word and some word of that line, the
    first one included, starts more than 0.05 s after the line; it writes
    [Line] otherwise. *)
Theorem generateTTML_timing (doc : LyricsDocument.t) :
  (someWordLate doc /\
   attributeValue "itunes:timing" (generateTTML doc) = Some "Word"%string)
  \/
  (~ someWordLate doc /\
   attributeValue "itunes:timing" (generateTTML doc) = Some "Line"%string).
Proof.
  rewrite timing_attribute. unfold timingMode.
  destruct (hasWordSync doc) eqn:E.
  - left. split; [now apply hasWordSync_iff | reflexivity].
  - right. split; [|reflexivity].
    intros H. apply hasWordSync_iff in H. congruence.
Qed.

(** C9, as stated, fails: the label is [Word] for a line whose first word
    alone starts late, although no word after the first does. *)
Theorem generateTTML_timing_first_word :
  attributeValue "itunes:timing" (generateTTML lateFirstWord)
    = Some "Word"%string /\
  ~ someLaterWordLate lateFirstWord.
Proof.
  split; [vm_compute; reflexivity|].
  intros (l & Hl & _ & w & Hw & Hlate).
  destruct Hl as [<-|[]]. destruct Hw as [<-|[]].
  vm_compute in Hlate. discriminate.
Qed.

End GenerateFacts.

(** ** The timestamp codec: inputs that are not times *)

Module CodecFacts.
Import Binary64 Semantics Shapes.
Import JsNumber JsString JsConv Codec.

(** [formatTimestamp] answers the zero string to [NaN] and to what is
    below zero, minus infinity included. *)
Theorem formatTimestamp_guard (seconds : number) (p : precision) :
  isNaN seconds = true \/ lt seconds (ofZ 0) = true ->
  formatTimestamp seconds p = zeroString p.
Proof.
  intros H. unfold formatTimestamp.
  destruct H as [-> | ->]; [reflexivity | now rewrite orb_true_r].
Qed.

(** C8: [formatTimestamp] does not answer the zero string to plus
    infinity: [isNaN (seconds) || seconds < 0] lets it through, the hours
    are infinite and the other fields are [NaN]. *)
Theorem formatTimestamp_infinity :
  formatTimestamp Infinity P2 = "Infinity:NaN:NaN.NaN"%string /\
  formatTimestamp Infinity P3 = "Infinity:NaN:NaN.NaN"%string.
Proof. split; vm_compute; reflexivity. Qed.

(** C3: [parseTimestamp] does not answer 0 to every text that is no
    time: with one or two colons it adds what [parseInt] and [parseFloat]
    return, and they return [NaN] where the third branch tests for it. *)
Theorem parseTimestamp_not_a_time :
  parseTimestamp "a:b" = NaN /\
  parseTimestamp "x:y:z" = NaN /\
  parseTimestamp "abc" = ofZ 0.
Proof. repeat split; vm_compute; reflexivity. Qed.

(** Without a colon, a text that [parseFloat] cannot read gives 0. *)
Theorem parseTimestamp_no_colon (timeStr : string) :
  splitOn ":" (stripBrackets (trim timeStr))
    = [stripBrackets (trim timeStr)] ->
  isNaN (parseFloat (stripBrackets (trim timeStr))) = true ->
  parseTimestamp timeStr = ofZ 0.
Proof.
  intros Hs Hn. unfold parseTimestamp.
  destruct timeStr; [reflexivity|].
  rewrite Hs, Hn. reflexivity.
Qed.

(** C1: the text made of a time does not always read back within the
    precision.  The fraction digits are [Math.floor ((seconds % 1) * 100)],
    and the product is rounded before the floor is taken: for 0.58 it is
    57.99999999999999, the text is ["00:00.57"], and the number read back
    lies more than a hundredth below 0.58.  At three digits 4.005 is
    written ["00:04.004"]. *)
Theorem formatTimestamp_loses_a_unit :
  formatTimestamp (parseFloat "0.58") P2 = "00:00.57"%string /\
  (1 # 100 < toQ (parseFloat "0.58")
             - toQ (parseTimestamp (formatTimestamp (parseFloat "0.58") P2)))%Q /\
  formatTimestamp (parseFloat "4.005") P3 = "00:04.004"%string /\
  (1 # 1000 < toQ (parseFloat "4.005")
              - toQ (parseTimestamp (formatTimestamp (parseFloat "4.005") P3)))%Q.
Proof. repeat split; vm_compute; reflexivity. Qed.

(** From 3.6e24 seconds on, the hours are written with an exponent, and
    [parseInt] reads their first digit only. *)
Theorem formatTimestamp_exponent_form :
  formatTimestamp (parseFloat "1e25") P2
    = "2.777777777777778e+21:01:04.00"%string /\
  parseTimestamp (formatTimestamp (parseFloat "1e25") P2) = ofZ 7264.
Proof. split; vm_compute; reflexivity. Qed.

(** The guard at work on a time below zero. *)
Lemma formatTimestamp_guard_witness :
  (isNaN (ofZ (-1)) = true \/ lt (ofZ (-1)) (ofZ 0) = true) /\
  formatTimestamp (ofZ (-1)) P3 = zeroString P3.
Proof.
  assert (H : isNaN (ofZ (-1)) = true \/ lt (ofZ (-1)) (ofZ 0) = true)
    by (right; vm_compute; reflexivity).
  split; [exact H | exact (formatTimestamp_guard (ofZ (-1)) P3 H)].
Defined.

(** A text without a colon that is no number. *)
Lemma parseTimestamp_no_colon_witness : parseTimestamp "abc" = ofZ 0.
Proof.
  apply (parseTimestamp_no_colon "abc"); vm_compute; reflexivity.
Defined.

End CodecFacts.

(** ** The TTML parser without a body *)

Module TtmlFacts.
Import Binary64 Semantics Shapes.
Import Dom Ttml Props.

(** C7: when the document made of the text has no [body] element, the
    TTML parser returns a document without lines.  The model is a total
    function: no step of [parseTTML] can throw. *)
Theorem parseTTML_without_body (randomId : Ids.supply)
    (parseFromString : string -> Document) (text : string) :
  documentElementsByTagName "body" (parseFromString text) = [] ->
  LyricsDocument.lines (parseTTML randomId parseFromString text) = [] /\
  LyricsDocument.format (parseTTML randomId parseFromString text) = TTML.
Proof.
  intros H. unfold parseTTML, parseDocument.
  destruct (readHead _) as [metadata agentMap].
  rewrite H. simpl. split; reflexivity.
Qed.

Lemma parseTTML_without_body_witness :
  LyricsDocument.lines
    (parseTTML sampleIds (fun _ => errorDocument) "<tt><body>") = [] /\
  LyricsDocument.format
    (parseTTML sampleIds (fun _ => errorDocument) "<tt><body>") = TTML.
Proof.
  apply (parseTTML_without_body sampleIds (fun _ => errorDocument) "<tt><body>").
  reflexivity.
Defined.

End TtmlFacts.

(** ** Binary64 arithmetic: the value of each operation *)

Module RoundFacts.
Import JsNumber Binary64 FloatFacts.

Lemma loc_of_record_of_loc (m : Z) (l : location) :
  loc_of_shr_record (shr_record_of_loc m l) = l.
Proof. destruct l as [|[]]; reflexivity. Qed.

Lemma locates_shr_1 (r : shr_record) (N D : Z) :
  0 <= shr_m r -> 0 < D ->
  locates (shr_m r) (loc_of_shr_record r) N D ->
  locates (shr_m (shr_1 r)) (loc_of_shr_record (shr_1 r)) N (2 * D).
Proof.
  destruct r as [m rb sb]. cbn [shr_m]. intros Hm HD.
  destruct m as [|p|p]; [| |lia].
  - destruct rb, sb; cbn [shr_1 shr_m loc_of_shr_record locates orb]; lia.
  - destruct p as [p|p|]; destruct rb, sb;
      cbn [shr_1 shr_m loc_of_shr_record locates orb];
      try rewrite (Pos2Z.inj_xI p); try rewrite (Pos2Z.inj_xO p); lia.
Qed.

Lemma locates_iter (k : nat) (r : shr_record) (N D : Z) :
  0 <= shr_m r -> 0 < D ->
  locates (shr_m r) (loc_of_shr_record r) N D ->
  locates (shr_m (Nat.iter k shr_1 r)) (loc_of_shr_record (Nat.iter k shr_1 r))
    N (D * 2 ^ Z.of_nat k).
Proof.
  intros Hm HD H. induction k as [|k IH].
  - change (Nat.iter 0 shr_1 r) with r.
    change (2 ^ Z.of_nat 0) with 1. rewrite Z.mul_1_r. exact H.
  - change (Nat.iter (S k) shr_1 r) with (shr_1 (Nat.iter k shr_1 r)).
    replace (D * 2 ^ Z.of_nat (S k)) with (2 * (D * 2 ^ Z.of_nat k)).
    + apply locates_shr_1; [|apply Z.mul_pos_pos; [lia|apply Z.pow_pos_nonneg; lia]|exact IH].
      rewrite shr_iter_m by assumption.
      apply Z.div_pos; [assumption|]. apply Z.pow_pos_nonneg; lia.
    + rewrite Nat2Z.inj_succ, Z.pow_succ_r by lia. ring.
Qed.

Lemma locates_shr (r : shr_record) (e n N D : Z) :
  0 <= shr_m r -> 0 < D ->
  locates (shr_m r) (loc_of_shr_record r) N D ->
  locates (shr_m (fst (shr r e n))) (loc_of_shr_record (fst (shr r e n)))
    N (D * 2 ^ Z.max n 0).
Proof.
  intros Hm HD H. unfold shr. destruct n as [|p|p]; cbn [fst].
  - change (2 ^ Z.max 0 0) with 1. rewrite Z.mul_1_r. exact H.
  - rewrite iter_pos_nat. rewrite Z.max_l by lia.
    rewrite <- (positive_nat_Z p). apply locates_iter; assumption.
  - rewrite Z.max_r by lia. change (2 ^ 0) with 1. rewrite Z.mul_1_r. exact H.
Qed.

Lemma locates_fexp (m e : Z) (l : location) (N D : Z) :
  0 <= m -> 0 < D -> locates m l N D ->
  locates (shr_m (fst (shr_fexp prec emax m e l)))
    (loc_of_shr_record (fst (shr_fexp prec emax m e l)))
    N (D * 2 ^ Z.max (fexp64 (Zdigits2 m + e) - e) 0).
Proof.
  intros Hm HD H. unfold shr_fexp. rewrite fexp_eq.
  apply locates_shr; rewrite ?shr_m_of_loc, ?loc_of_record_of_loc; assumption.
Qed.

(** Rounding to nearest: the integer chosen is within half a unit. *)
Lemma round_nearest_even_near (m : Z) (l : location) (N D : Z) :
  0 < D -> locates m l N D ->
  2 * Z.abs (round_nearest_even m l * D - N) <= D /\
  m <= round_nearest_even m l <= m + 1.
Proof.
  intros HD H. destruct l as [|[]]; cbn [locates round_nearest_even] in *.
  all: try destruct (Z.even m).
  all: split; [|lia].
  all: match goal with
       | |- context [Z.abs ?x] => destruct (Z.abs_spec x) as [[? ->]|[? ->]]
       end; lia.
Qed.


(** The second shift of [binary_round_aux] keeps the value. *)
Lemma renormalize (m1 m2 e1 : Z) :
  (m1 = 0 /\ e1 = -1074 \/ 0 < m1 /\ canonical64 m1 e1) ->
  m1 <= m2 <= m1 + 1 -> 0 < m2 ->
  exists t, 0 <= t <= 1 /\
    snd (shr_fexp prec emax m2 e1 loc_Exact) = e1 + t /\
    shr_m (fst (shr_fexp prec emax m2 e1 loc_Exact)) * 2 ^ t = m2 /\
    0 < shr_m (fst (shr_fexp prec emax m2 e1 loc_Exact)).
Proof.
  intros Hc Hm Hp.
  pose proof (shr_fexp_spec m2 e1 loc_Exact ltac:(lia)) as [Hs He].
  set (n := fexp64 (Zdigits2 m2 + e1) - e1) in *.
  assert (Hn : n <= 0 \/ n = 1 /\ m2 = 2 ^ Zdigits2 m1 /\ 0 < Zdigits2 m1).
  { destruct Hc as [[-> ->]|[Hm1 Hc]].
    - assert (m2 = 1) by lia. subst m2. left. subst n.
      change (Zdigits2 1) with 1. unfold fexp64. lia.
    - unfold canonical64 in Hc.
      pose proof (Zdigits2_pos_pos m1 Hm1) as Hd1.
      destruct (Z.eq_dec m2 m1) as [->|Hne].
      + left. subst n. lia.
      + assert (m2 = m1 + 1) by lia. subst m2.
        pose proof (Zdigits2_succ m1 Hm1) as Hd.
        destruct (Z.eq_dec (Zdigits2 (m1 + 1)) (Zdigits2 m1)) as [E|E].
        * left. subst n. rewrite E. lia.
        * assert (E1 : Zdigits2 (m1 + 1) = Zdigits2 m1 + 1) by lia.
          pose proof (Zdigits2_bounds m1 Hm1) as B1.
          pose proof (Zdigits2_bounds (m1 + 1) ltac:(lia)) as B2.
          rewrite E1 in B2.
          replace (Zdigits2 m1 + 1 - 1) with (Zdigits2 m1) in B2 by lia.
          destruct (Z_le_gt_dec n 0) as [|Hgt]; [left; assumption|right].
          split; [|split; [lia|assumption]].
          subst n. rewrite E1 in *. unfold fexp64 in *. lia. }
  destruct Hn as [Hn|(Hn & Hm2 & Hd)].
  - exists 0. rewrite Z.max_r in Hs, He by assumption.
    change (2 ^ 0) with 1 in *. rewrite Z.div_1_r in Hs.
    rewrite Hs, He. repeat split; lia.
  - exists 1. rewrite Hn in Hs, He. change (Z.max 1 0) with 1 in *.
    change (2 ^ 1) with 2 in *.
    assert (Hev : m2 = 2 * 2 ^ (Zdigits2 m1 - 1)).
    { rewrite Hm2. rewrite <- Z.pow_succ_r by lia. f_equal. lia. }
    assert (0 < 2 ^ (Zdigits2 m1 - 1)) by (apply Z.pow_pos_nonneg; lia).
    assert (Hq : m2 / 2 = 2 ^ (Zdigits2 m1 - 1)).
    { rewrite Hev, Z.mul_comm. apply Z.div_mul. lia. }
    rewrite Hs, He, Hq. repeat split; lia.
Qed.

(** The value of what [binary_round_aux] returns: an integer multiple [k]
    of the unit the exponent function gives, within half a unit of the
    ratio [N / D] that the mantissa and the location stand for. *)
Lemma binary_round_aux_value (s : bool) (m e : Z) (l : location) (N D : Z) :
  0 <= m -> 0 < D -> locates m l N D ->
  e <= fexp64 (Zdigits2 m + e) -> Zdigits2 m + e <= 1023 ->
  exists k, 0 <= k /\
    key (binary_round_aux prec emax s m e l)
      = cond_Zopp s (k * 2 ^ (fexp64 (Zdigits2 m + e) + 1074)) /\
    2 * Z.abs (k * (D * 2 ^ (fexp64 (Zdigits2 m + e) - e)) - N)
      <= D * 2 ^ (fexp64 (Zdigits2 m + e) - e) /\
    isFinite (binary_round_aux prec emax s m e l) = true.
Proof.
  intros Hm HD Hloc Hle Hmax. unfold binary_round_aux.
  pose proof (shr_fexp_spec m e l Hm) as [H1m H1e].
  pose proof (locates_fexp m e l N D Hm HD Hloc) as Hl1.
  destruct (shr_fexp prec emax m e l) as [r1 e1]. cbn [fst snd] in *.
  rewrite Z.max_l in H1m, H1e, Hl1 by lia.
  set (E := fexp64 (Zdigits2 m + e)) in *.
  replace (e + (E - e)) with E in H1e by lia.
  set (n := E - e) in *.
  assert (Hn : 0 <= n) by (subst n; lia).
  assert (Hpn : 0 < 2 ^ n) by (apply Z.pow_pos_nonneg; lia).
  assert (H1nn : 0 <= shr_m r1) by (rewrite H1m; apply Z.div_pos; lia).
  assert (HDn : 0 < D * 2 ^ n) by (apply Z.mul_pos_pos; lia).
  pose proof (round_nearest_even_near _ _ _ _ HDn Hl1) as [Hnear Hm2].
  set (m2 := round_nearest_even (shr_m r1) (loc_of_shr_record r1)) in *.
  clearbody m2.
  assert (HE : -1074 <= E <= 970) by (subst E; unfold fexp64; lia).
  assert (Hc1 : shr_m r1 = 0 /\ e1 = -1074 \/
                0 < shr_m r1 /\ canonical64 (shr_m r1) e1).
  { destruct (Z.eq_dec (shr_m r1) 0) as [H0|Hn0].
    - left. split; [assumption|].
      destruct (Z.eq_dec m 0) as [->|Hmn].
      + change (Zdigits2 0) with 0 in *. subst e1 E. unfold fexp64 in *. lia.
      + assert (Hd : Zdigits2 m <= n).
        { destruct (Z_le_gt_dec (Zdigits2 m) n) as [|Hgt]; [assumption|exfalso].
          pose proof (Zdigits2_shiftr m n ltac:(lia) Hn ltac:(lia)) as Hs.
          rewrite <- H1m, H0 in Hs. change (Zdigits2 0) with 0 in Hs. lia. }
        subst e1 n E. unfold fexp64 in *. lia.
    - right. split; [lia|].
      assert (0 < m).
      { destruct (Z.eq_dec m 0) as [->|]; [|lia].
        rewrite Z.div_0_l in H1m by lia. lia. }
      rewrite H1m, H1e. subst n E.
      apply canonical_shifted; [lia | lia | ]. rewrite <- H1m. lia. }
  destruct (Z.eq_dec m2 0) as [Hz|Hnz].
  - exists 0. subst m2.
    pose proof (shr_fexp_spec 0 e1 loc_Exact ltac:(lia)) as [H2m _].
    destruct (shr_fexp prec emax 0 e1 loc_Exact) as [r2 e2]. cbn [fst] in H2m.
    rewrite Z.div_0_l in H2m by (apply Z.pow_nonzero; lia).
    rewrite H2m. cbn [key isFinite]. rewrite Z.mul_0_l.
    split; [lia|]. split; [destruct s; reflexivity|]. split; [|reflexivity].
    rewrite Z.mul_0_l in Hnear |- *. exact Hnear.
  - exists m2.
    destruct (renormalize (shr_m r1) m2 e1 Hc1 Hm2 ltac:(lia))
      as (t & Ht & He2 & Hv & Hp2).
    destruct (shr_fexp prec emax m2 e1 loc_Exact) as [r2 e2]. cbn [fst snd] in *.
    destruct (shr_m r2) as [|p|p] eqn:Ep; [lia| |lia].
    assert (Hb : (e2 <=? emax - prec) = true).
    { apply Z.leb_le. unfold emax, prec. lia. }
    rewrite Hb. cbn [key isFinite].
    split; [lia|]. split; [|split; [exact Hnear|reflexivity]].
    f_equal. rewrite <- Hv, He2, H1e.
    replace (E + t + 1074) with (t + (E + 1074)) by lia.
    rewrite Z.pow_add_r by lia. ring.
Qed.


Lemma locates_lower (m : Z) (l : location) (N D : Z) :
  0 < D -> locates m l N D -> m * D <= N.
Proof. destruct l as [|[]]; cbn [locates]; lia. Qed.

Lemma rounds_ratio (r : number) (N D N' D' : Z) :
  0 < D -> 0 < D' -> N * D' = N' * D -> rounds r N D -> rounds r N' D'.
Proof.
  intros HD HD' Hx (Hnn & Hf & g & k & Hg & Hk & Hkey & Herr & Hgrid).
  split; [assumption|]. split; [assumption|].
  exists g, k. split; [assumption|]. split; [assumption|].
  split; [assumption|].
  assert (Hp : 0 < 2 ^ g) by (apply Z.pow_pos_nonneg; lia).
  set (K := k * 2 ^ g) in *. clearbody K.
  split.
  - apply (Z.mul_le_mono_pos_r _ _ D HD).
    assert (E : (K * D' - N') * D = (K * D - N) * D').
    { rewrite !Z.mul_sub_distr_r, <- Hx. ring. }
    replace (2 * Z.abs (K * D' - N') * D)
      with (2 * Z.abs ((K * D' - N') * D))
      by (rewrite Z.abs_mul, (Z.abs_eq D) by lia; ring).
    rewrite E, Z.abs_mul, (Z.abs_eq D') by lia.
    pose proof (Z.mul_le_mono_nonneg_r _ _ D' ltac:(lia) Herr). lia.
  - destruct Hgrid as [->|Hgrid]; [left; reflexivity|right].
    apply (Z.mul_le_mono_pos_r _ _ D HD).
    pose proof (Z.mul_le_mono_nonneg_r _ _ D' ltac:(lia) Hgrid). lia.
Qed.

Lemma round_aux_rounds (m e : Z) (l : location) (N D : Z) :
  0 <= m -> 0 < D -> locates m l N D ->
  e <= fexp64 (Zdigits2 m + e) -> Zdigits2 m + e <= 1023 ->
  rounds (binary_round_aux prec emax false m e l)
    (N * 2 ^ (fexp64 (Zdigits2 m + e) + 1074))
    (D * 2 ^ (fexp64 (Zdigits2 m + e) - e)).
Proof.
  intros Hm HD Hloc Hle Hmax.
  destruct (binary_round_aux_value false m e l N D Hm HD Hloc Hle Hmax)
    as (k & Hk & Hkey & Herr & Hfin).
  pose proof (binary_round_aux_rounded false m e l Hm Hle) as [Hr _].
  set (E := fexp64 (Zdigits2 m + e)) in *.
  assert (HE : -1074 <= E) by (subst E; unfold fexp64; lia).
  assert (Hpg : 0 < 2 ^ (E + 1074)) by (apply Z.pow_pos_nonneg; lia).
  assert (Hpn : 0 < 2 ^ (E - e)) by (apply Z.pow_pos_nonneg; lia).
  split; [exact Hr|]. split; [exact Hfin|].
  exists (E + 1074), k. split; [lia|]. split; [assumption|].
  split; [exact Hkey|].
  set (G := 2 ^ (E + 1074)) in *. set (A := D * 2 ^ (E - e)) in *.
  assert (HA : 0 < A) by (subst A; apply Z.mul_pos_pos; lia).
  split.
  - replace (k * G * A - N * G) with ((k * A - N) * G) by ring.
    rewrite Z.abs_mul, (Z.abs_eq G) by lia.
    pose proof (Z.mul_le_mono_nonneg_r _ _ G ltac:(lia) Herr). lia.
  - destruct (Z.eq_dec E (-1074)) as [E0|En]; [left; lia|right].
    assert (Hmp : 0 < m).
    { destruct (Z.eq_dec m 0) as [->|]; [|lia].
      change (Zdigits2 0) with 0 in *. subst E. unfold fexp64 in *. lia. }
    assert (HEd : E = Zdigits2 m + e - 53) by (subst E; unfold fexp64 in *; lia).
    pose proof (Zdigits2_bounds m Hmp) as [Hlo _].
    pose proof (locates_lower m l N D HD Hloc) as HN.
    replace (E + 1074 + 52) with (52 + (E + 1074)) by lia.
    rewrite Z.pow_add_r by lia. fold G.
    assert (H52 : 2 ^ 52 * A <= N).
    { subst A. replace (E - e) with (Zdigits2 m - 53) by lia.
      replace (2 ^ 52 * (D * 2 ^ (Zdigits2 m - 53)))
        with (2 ^ (52 + (Zdigits2 m - 53)) * D).
      - replace (52 + (Zdigits2 m - 53)) with (Zdigits2 m - 1) by lia.
        pose proof (Z.mul_le_mono_nonneg_r _ _ D ltac:(lia) Hlo). lia.
      - rewrite Z.pow_add_r by lia. ring. }
    pose proof (Z.mul_le_mono_nonneg_r _ _ G ltac:(lia) H52). lia.
Qed.

(** A Number value rounds to itself. *)
Lemma rounds_self (m : positive) (e : Z) :
  wf (S754_finite false m e) ->
  rounds (S754_finite false m e) (key (S754_finite false m e)) 1.
Proof.
  intros Hwf. pose proof Hwf as Hw. apply wf_finite in Hw. destruct Hw as [Hc Hb].
  pose proof (canonical_facts m e Hc) as (He & Hd & Hn).
  split; [constructor; assumption|]. split; [reflexivity|].
  exists (e + 1074), (Zpos m). cbn [key cond_Zopp].
  split; [lia|]. split; [lia|]. split; [reflexivity|].
  assert (0 < 2 ^ (e + 1074)) by (apply Z.pow_pos_nonneg; lia).
  split.
  - rewrite Z.mul_1_r, Z.sub_diag. cbn [Z.abs]. lia.
  - destruct (Z.eq_dec e (-1074)) as [->|]; [left; reflexivity|right].
    rewrite Z.mul_1_r.
    replace (e + 1074 + 52) with (52 + (e + 1074)) by lia.
    rewrite Z.pow_add_r by lia.
    pose proof (Zdigits2_bounds (Zpos m) ltac:(lia)) as [Hlo _].
    rewrite Hn in Hlo by lia. change (53 - 1) with 52 in Hlo.
    apply Z.mul_le_mono_nonneg_r; lia.
Qed.

Lemma rounds_zero (D : Z) : 0 < D -> rounds (S754_zero false) 0 D.
Proof.
  intros HD. split; [constructor|]. split; [reflexivity|].
  exists 0, 0. cbn [key]. change (2 ^ 0) with 1.
  repeat split; lia.
Qed.

(** [binary_normalize] rounds the integer times the power of two. *)
Lemma binary_normalize_rounds (z e : Z) :
  0 <= z -> -1074 <= e -> z * 2 ^ (e + 1074) < 2 ^ 2097 ->
  rounds (binary_normalize prec emax z e false) (z * 2 ^ (e + 1074)) 1.
Proof.
  intros Hz He Hb. destruct z as [|p|p]; [| |lia].
  - cbn [binary_normalize]. rewrite Z.mul_0_l. apply rounds_zero. lia.
  - cbn [binary_normalize]. unfold binary_round. rewrite fexp_eq.
    pose proof (shl_align_spec p e (fexp64 (Zpos (digits2_pos p) + e))) as H.
    destruct (shl_align p e _) as [mz ez]. destruct H as [Hez Hmz].
    change (Zpos (digits2_pos p)) with (Zdigits2 (Zpos p)) in *.
    assert (Hd : Zdigits2 (Zpos mz) + ez = Zdigits2 (Zpos p) + e).
    { rewrite Hmz, Zdigits2_mul_pow2 by lia. lia. }
    assert (Hmax : Zdigits2 (Zpos p) + e <= 1023).
    { pose proof (Zdigits2_bounds (Zpos p) ltac:(lia)) as [Hlo _].
      pose proof (Zdigits2_pos_pos (Zpos p) ltac:(lia)).
      destruct (Z_le_gt_dec (Zdigits2 (Zpos p) + e) 1023) as [|Hgt];
        [assumption|exfalso].
      assert (2 ^ 2097 <= Zpos p * 2 ^ (e + 1074)); [|lia].
      apply Z.le_trans with (2 ^ (Zdigits2 (Zpos p) - 1) * 2 ^ (e + 1074)).
      - rewrite <- Z.pow_add_r by lia. apply Z.pow_le_mono_r; lia.
      - apply Z.mul_le_mono_nonneg_r; [apply Z.pow_nonneg; lia | lia]. }
    eapply rounds_ratio;
      [| |
       |apply (round_aux_rounds (Zpos mz) ez loc_Exact (Zpos mz) 1);
        [lia|lia|cbn [locates]; lia|rewrite Hd; lia|rewrite Hd; assumption]].
    + rewrite Z.mul_1_l. apply Z.pow_pos_nonneg; [lia|]. rewrite Hd. lia.
    + lia.
    + rewrite Hd. set (E := fexp64 (Zdigits2 (Zpos p) + e)).
      assert (-1074 <= E) by (subst E; unfold fexp64; lia).
      rewrite Hmz, !Z.mul_1_l, Z.mul_1_r.
      rewrite <- !Z.mul_assoc, <- !Z.pow_add_r by lia.
      f_equal. f_equal. lia.
Qed.


(** ** The arithmetic operators on numbers at least zero *)

Lemma nonNegative_key (x : number) : nonNegative x -> 0 <= key x.
Proof.
  intros [| |m e Hc Hb]; cbn [key cond_Zopp]; lia.
Qed.

Lemma add_rounds (x y : number) :
  nonNegative x -> nonNegative y ->
  isFinite x = true -> isFinite y = true ->
  key x + key y < 2 ^ 2097 ->
  rounds (add x y) (key x + key y) 1.
Proof.
  intros Hx Hy Fx Fy Hb. unfold add.
  destruct Hx as [| |mx ex Hcx Hbx], Hy as [| |my ey Hcy Hby];
    try discriminate; cbn [SFadd key cond_Zopp].
  - apply rounds_zero. lia.
  - rewrite Z.add_0_l. apply (rounds_self my ey). apply wf_finite. auto.
  - rewrite Z.add_0_r. apply (rounds_self mx ex). apply wf_finite. auto.
  - pose proof (canonical_facts mx ex Hcx) as (Hex & _).
    pose proof (canonical_facts my ey Hcy) as (Hey & _).
    set (ez := Z.min ex ey).
    pose proof (aligned_key false mx ex ez ltac:(subst ez; lia) ltac:(subst ez; lia)) as Kx.
    pose proof (aligned_key false my ey ez ltac:(subst ez; lia) ltac:(subst ez; lia)) as Ky.
    cbn [key cond_Zopp] in *.
    rewrite <- Kx, <- Ky in Hb |- *. rewrite <- Z.mul_add_distr_r in Hb |- *.
    apply binary_normalize_rounds; [lia|subst ez; lia|assumption].
Qed.

Lemma mul_pre (mx my : positive) (ex ey : Z) :
  canonical64 (Zpos mx) ex -> canonical64 (Zpos my) ey ->
  ex + ey <= fexp64 (Zdigits2 (Zpos (mx * my)) + (ex + ey)).
Proof.
  unfold canonical64. intros Hcx Hcy.
  pose proof (Zdigits2_bounds (Zpos mx) ltac:(lia)) as [Hxl _].
  pose proof (Zdigits2_bounds (Zpos my) ltac:(lia)) as [Hyl _].
  pose proof (Zdigits2_pos_pos (Zpos mx) ltac:(lia)).
  pose proof (Zdigits2_pos_pos (Zpos my) ltac:(lia)).
  assert (Hd : Zdigits2 (Zpos mx) + Zdigits2 (Zpos my) - 2 < Zdigits2 (Zpos (mx * my))).
  { apply Zdigits2_lower; [lia|].
    replace (Zdigits2 (Zpos mx) + Zdigits2 (Zpos my) - 2)
      with ((Zdigits2 (Zpos mx) - 1) + (Zdigits2 (Zpos my) - 1)) by lia.
    rewrite Z.pow_add_r by lia. rewrite Pos2Z.inj_mul.
    apply Z.mul_le_mono_nonneg; try lia; apply Z.pow_nonneg; lia. }
  unfold fexp64 in *. lia.
Qed.

Lemma mul_rounds (x y : number) :
  nonNegative x -> nonNegative y ->
  isFinite x = true -> isFinite y = true ->
  key x * key y < 2 ^ 2097 * 2 ^ 1074 ->
  rounds (mul x y) (key x * key y) (2 ^ 1074).
Proof.
  intros Hx Hy Fx Fy Hb. unfold mul.
  destruct Hx as [| |mx ex Hcx Hbx], Hy as [| |my ey Hcy Hby];
    try discriminate; cbn [SFmul key cond_Zopp xorb];
    rewrite ?Z.mul_0_l, ?Z.mul_0_r; try (apply rounds_zero; lia).
  cbn [key cond_Zopp] in Hb.
  pose proof (canonical_facts mx ex Hcx) as (Hex & _).
  pose proof (canonical_facts my ey Hcy) as (Hey & _).
  pose proof (mul_pre mx my ex ey Hcx Hcy) as Hpre.
  set (m := Zpos (mx * my)) in *. set (e := ex + ey) in *.
  assert (Hm : m = Zpos mx * Zpos my) by (subst m; apply Pos2Z.inj_mul).
  assert (Hmax : Zdigits2 m + e <= 1023).
  { pose proof (Zdigits2_bounds m ltac:(lia)) as [Hlo _].
    pose proof (Zdigits2_pos_pos m ltac:(lia)).
    destruct (Z_le_gt_dec (Zdigits2 m + e) 1023) as [|Hgt]; [assumption|exfalso].
    assert (2 ^ 2097 * 2 ^ 1074
            <= Zpos mx * 2 ^ (ex + 1074) * (Zpos my * 2 ^ (ey + 1074))); [|lia].
    replace (Zpos mx * 2 ^ (ex + 1074) * (Zpos my * 2 ^ (ey + 1074)))
      with (m * (2 ^ (ex + 1074) * 2 ^ (ey + 1074))) by (rewrite Hm; ring).
    rewrite <- !Z.pow_add_r by lia.
    apply Z.le_trans with (2 ^ (Zdigits2 m - 1) * 2 ^ (ex + 1074 + (ey + 1074))).
    - rewrite <- Z.pow_add_r by lia. apply Z.pow_le_mono_r; subst e; lia.
    - apply Z.mul_le_mono_nonneg_r; [apply Z.pow_nonneg; lia | lia]. }
  set (E := fexp64 (Zdigits2 m + e)) in *.
  assert (HE : -1074 <= E) by (subst E; unfold fexp64; lia).
  eapply rounds_ratio;
    [| |
     |apply (round_aux_rounds m e loc_Exact m 1);
      [lia|lia|cbn [locates]; lia|assumption|assumption]].
  - rewrite Z.mul_1_l. apply Z.pow_pos_nonneg; [lia|]. fold E. lia.
  - apply Z.pow_pos_nonneg; lia.
  - fold E. rewrite Z.mul_1_l.
    assert (P : 2 ^ (E + 1074) * 2 ^ 1074
                = 2 ^ (ex + 1074) * 2 ^ (ey + 1074) * 2 ^ (E - e)).
    { rewrite <- !Z.pow_add_r by (subst e; lia). f_equal. subst e. lia. }
    transitivity (m * (2 ^ (E + 1074) * 2 ^ 1074)); [ring|].
    rewrite P, Hm. ring.
Qed.

Lemma new_location_locates (m2 q r m' : Z) :
  0 < m2 -> m' = m2 * q + r -> 0 <= r < m2 ->
  locates q (new_location m2 r) m' m2.
Proof.
  intros H2 Hm Hr. unfold new_location, new_location_even, new_location_odd.
  destruct (Z.even m2) eqn:Ev.
  - destruct (Z.eqb_spec r 0); [cbn [locates]; lia|].
    destruct (Z.compare_spec (2 * r) m2); cbn [locates]; lia.
  - destruct (Z.eqb_spec r 0); [cbn [locates]; lia|].
    rewrite <- Z.negb_odd in Ev. apply negb_false_iff in Ev.
    apply Z.odd_spec in Ev. destruct Ev as [j Hj].
    destruct (Z.compare_spec (2 * r + 1) m2); cbn [locates]; lia.
Qed.

Lemma div_core_value (m1 m2 : positive) (e1 e2 : Z) :
  let '(q, e, l) := SFdiv_core_binary prec emax (Zpos m1) e1 (Zpos m2) e2 in
  e <= e1 - e2 /\
  locates q l (Zpos m1 * 2 ^ (e1 - e2 - e)) (Zpos m2) /\
  Zdigits2 q + e
    <= Z.max (Zdigits2 (Zpos m1) + e1 - (Zdigits2 (Zpos m2) + e2) + 1) (-1074).
Proof.
  unfold SFdiv_core_binary. rewrite fexp_eq.
  set (d1 := Zdigits2 (Zpos m1)). set (d2 := Zdigits2 (Zpos m2)).
  set (e' := Z.min (fexp64 (d1 + e1 - (d2 + e2))) (e1 - e2)).
  set (s := e1 - e2 - e').
  assert (Hs : 0 <= s) by (subst s e'; lia).
  set (m' := match s with Z.pos _ => Z.shiftl (Zpos m1) s | 0 => Zpos m1 | Z.neg _ => 0 end).
  assert (Hm' : m' = Zpos m1 * 2 ^ s).
  { subst m'. destruct s as [|p|p] eqn:Es; try lia.
    rewrite Z.shiftl_mul_pow2; lia. }
  clearbody m'.
  assert (Hqr : Z.div_eucl m' (Zpos m2) = (m' / Zpos m2, m' mod Zpos m2)).
  { unfold Z.div, Z.modulo. now destruct (Z.div_eucl m' (Zpos m2)). }
  rewrite Hqr. cbv beta iota zeta.
  pose proof (Z.div_mod m' (Zpos m2) ltac:(lia)) as Hde.
  pose proof (Z.mod_pos_bound m' (Zpos m2) ltac:(lia)) as Hmod.
  set (q := m' / Zpos m2) in *. set (r := m' mod Zpos m2) in *.
  clearbody q r. clear Hqr.
  assert (0 < 2 ^ s) by (apply Z.pow_pos_nonneg; lia).
  assert (Hm'0 : 0 < m') by (rewrite Hm'; apply Z.mul_pos_pos; lia).
  assert (Hq : 0 <= q).
  { destruct (Z_lt_le_dec q 0) as [Hneg|]; [exfalso|assumption].
    assert (Zpos m2 * q <= Zpos m2 * (-1)) by (apply Z.mul_le_mono_nonneg_l; lia).
    lia. }
  split; [subst e'; lia|]. split.
  - fold s. rewrite <- Hm'. apply new_location_locates; lia.
  - pose proof (Zdigits2_bounds (Zpos m1) ltac:(lia)) as [H1l H1h].
    pose proof (Zdigits2_bounds (Zpos m2) ltac:(lia)) as [H2l H2h].
    pose proof (Zdigits2_pos_pos (Zpos m1) ltac:(lia)) as P1.
    pose proof (Zdigits2_pos_pos (Zpos m2) ltac:(lia)) as P2.
    fold d1 in H1l, H1h, P1. fold d2 in H2l, H2h, P2.
    destruct (Z.eq_dec q 0) as [->|Hqn].
    + change (Zdigits2 0) with 0. subst e'. unfold fexp64. lia.
    + assert (Hlt : q * 2 ^ (d2 - 1) < 2 ^ (d1 + s)).
      { apply Z.le_lt_trans with (q * Zpos m2).
        - apply Z.mul_le_mono_nonneg_l; lia.
        - apply Z.le_lt_trans with m'; [lia|].
          rewrite Hm', Z.pow_add_r by lia.
          apply Z.mul_lt_mono_pos_r; lia. }
      assert (0 < 2 ^ (d2 - 1)) by (apply Z.pow_pos_nonneg; lia).
      assert (Hk : 0 <= d1 + s - d2 + 1).
      { destruct (Z_le_gt_dec 0 (d1 + s - d2 + 1)) as [|Hn]; [assumption|exfalso].
        assert (2 ^ (d1 + s) <= 2 ^ (d2 - 1)) by (apply Z.pow_le_mono_r; lia).
        assert (1 * 2 ^ (d2 - 1) <= q * 2 ^ (d2 - 1))
          by (apply Z.mul_le_mono_nonneg_r; lia).
        lia. }
      assert (Hqk : q < 2 ^ (d1 + s - d2 + 1)).
      { apply (Z.mul_lt_mono_pos_r (2 ^ (d2 - 1))); [assumption|].
        rewrite <- Z.pow_add_r by lia.
        replace (d1 + s - d2 + 1 + (d2 - 1)) with (d1 + s) by lia. assumption. }
      pose proof (Zdigits2_upper q _ ltac:(lia) Hk Hqk). subst s. lia.
Qed.

(** The quotient of two finite numbers above zero, whatever their
    mantissas. *)
Lemma div_rounds (m1 m2 : positive) (e1 e2 : Z) :
  -1074 <= e1 -> -1074 <= e2 ->
  Zdigits2 (Zpos m1) + e1 - (Zdigits2 (Zpos m2) + e2) <= 1021 ->
  rounds (div (S754_finite false m1 e1) (S754_finite false m2 e2))
    (Zpos m1 * 2 ^ (e1 + 1074) * 2 ^ 1074) (Zpos m2 * 2 ^ (e2 + 1074)).
Proof.
  intros H1 H2 Hd. unfold div. cbn [SFdiv xorb].
  pose proof (div_core_pre m1 m2 e1 e2) as Hp.
  pose proof (div_core_value m1 m2 e1 e2) as Hv.
  destruct (SFdiv_core_binary prec emax (Zpos m1) e1 (Zpos m2) e2) as [[q e] l].
  destruct Hp as [Hq Hpre]. destruct Hv as (He & Hloc & Hmax).
  set (E := fexp64 (Zdigits2 q + e)) in *.
  assert (HE : -1074 <= E) by (subst E; unfold fexp64; lia).
  assert (0 < 2 ^ (e2 + 1074)) by (apply Z.pow_pos_nonneg; lia).
  assert (0 < 2 ^ (E - e)) by (apply Z.pow_pos_nonneg; lia).
  eapply rounds_ratio;
    [| |
     |apply (round_aux_rounds q e l (Zpos m1 * 2 ^ (e1 - e2 - e)) (Zpos m2));
      [assumption|lia|assumption|assumption|lia]].
  - fold E. apply Z.mul_pos_pos; lia.
  - apply Z.mul_pos_pos; lia.
  - fold E.
    assert (P : 2 ^ (e1 - e2 - e) * 2 ^ (E + 1074) * 2 ^ (e2 + 1074)
                = 2 ^ (e1 + 1074) * 2 ^ 1074 * 2 ^ (E - e)).
    { rewrite <- !Z.pow_add_r by lia. f_equal. lia. }
    transitivity (Zpos m1 * Zpos m2
                  * (2 ^ (e1 - e2 - e) * 2 ^ (E + 1074) * 2 ^ (e2 + 1074)));
      [ring|].
    rewrite P. ring.
Qed.


(** ** Exact results *)

Lemma rounds_exact (r : number) (N : Z) :
  onGrid N -> rounds r N 1 -> denotes r N.
Proof.
  intros HG (Hnn & Hf & g & k & Hg & Hk & Hkey & Herr & Hgrid).
  split; [assumption|]. split; [assumption|]. rewrite Hkey.
  assert (Hp : 0 < 2 ^ g) by (apply Z.pow_pos_nonneg; lia).
  rewrite !Z.mul_1_r in *.
  destruct Hgrid as [->|Hge].
  - change (2 ^ 0) with 1 in *. lia.
  - destruct (HG g Hg Hge) as [j Hj]. rewrite Hj in Herr |- *.
    replace (k * 2 ^ g - j * 2 ^ g) with ((k - j) * 2 ^ g) in Herr by ring.
    rewrite Z.abs_mul, (Z.abs_eq (2 ^ g)) in Herr by lia.
    destruct (Z.eq_dec k j) as [->|Hne]; [reflexivity|exfalso].
    assert (H1 : 1 <= Z.abs (k - j)) by lia.
    pose proof (Z.mul_le_mono_nonneg_r _ _ (2 ^ g) ltac:(lia) H1). lia.
Qed.

Lemma onGrid_scaled (z t : Z) : 0 <= z < 2 ^ 53 -> 0 <= t -> onGrid (z * 2 ^ t).
Proof.
  intros Hz Ht g Hg Hge.
  assert (0 < 2 ^ t) by (apply Z.pow_pos_nonneg; lia).
  assert (Hlt : 2 ^ (g + 52) < 2 ^ (53 + t)).
  { apply Z.le_lt_trans with (z * 2 ^ t); [assumption|].
    rewrite Z.pow_add_r by lia. apply Z.mul_lt_mono_pos_r; lia. }
  apply Z.pow_lt_mono_r_iff in Hlt; [|lia|lia].
  exists (z * 2 ^ (t - g)). rewrite <- Z.mul_assoc, <- Z.pow_add_r by lia.
  do 2 f_equal. lia.
Qed.

Lemma denotes_shape (x : number) (v : Z) :
  denotes x v ->
  exists m t, 0 <= m < 2 ^ 53 /\ 0 <= t <= 2045 /\ v = m * 2 ^ t /\
              (t = 0 \/ 2 ^ 52 <= m).
Proof.
  intros (Hnn & Hf & <-).
  destruct Hnn as [| |m e Hc Hb]; [|discriminate|].
  - exists 0, 0. cbn [key]. repeat split; lia.
  - pose proof (canonical_facts m e Hc) as (He & Hd & Hn).
    pose proof (Zdigits2_bounds (Zpos m) ltac:(lia)) as [Hlo Hhi].
    exists (Zpos m), (e + 1074). cbn [key cond_Zopp].
    split.
    + split; [lia|]. apply Z.lt_le_trans with (2 ^ Zdigits2 (Zpos m)); [lia|].
      apply Z.pow_le_mono_r; lia.
    + split; [lia|]. split; [reflexivity|].
      destruct (Z.eq_dec e (-1074)) as [->|]; [left; reflexivity|right].
      rewrite Hn in Hlo by lia. exact Hlo.
Qed.

Lemma denotes_onGrid (x : number) (v : Z) : denotes x v -> onGrid v.
Proof.
  intros H. destruct (denotes_shape x v H) as (m & t & Hm & Ht & -> & _).
  apply onGrid_scaled; lia.
Qed.

Lemma denotes_nonneg (x : number) (v : Z) : denotes x v -> 0 <= v.
Proof. intros (Hnn & _ & <-). now apply nonNegative_key. Qed.

Lemma ofZ_denotes (z : Z) : 0 <= z < 2 ^ 53 -> denotes (ofZ z) (z * 2 ^ 1074).
Proof.
  intros Hz. apply rounds_exact; [apply onGrid_scaled; lia|].
  unfold ofZ. apply (binary_normalize_rounds z 0); [lia|lia|].
  change (0 + 1074) with 1074.
  apply Z.lt_le_trans with (2 ^ 53 * 2 ^ 1074).
  - apply Z.mul_lt_mono_pos_r; [apply Z.pow_pos_nonneg; lia|lia].
  - rewrite <- Z.pow_add_r by lia. apply Z.pow_le_mono_r; lia.
Qed.

(** [Math.floor] of a number below [2^52]. *)
Lemma floor_denotes (x : number) (v : Z) :
  denotes x v -> v < 2 ^ 52 * 2 ^ 1074 -> floor x = ofZ (v / 2 ^ 1074).
Proof.
  intros (Hnn & Hf & <-) Hb.
  destruct Hnn as [| |m e Hc Hb']; [reflexivity|discriminate|].
  pose proof (canonical_facts m e Hc) as (He & Hd & Hn).
  cbn [key cond_Zopp] in *.
  assert (Hneg : e < 0).
  { destruct (Z_lt_le_dec e 0) as [|Hge]; [assumption|exfalso].
    pose proof (Zdigits2_bounds (Zpos m) ltac:(lia)) as [Hlo _].
    rewrite Hn in Hlo by lia. change (53 - 1) with 52 in Hlo.
    assert (2 ^ 52 * 2 ^ 1074 <= Zpos m * 2 ^ (e + 1074)); [|lia].
    apply Z.mul_le_mono_nonneg;
      [lia | lia | apply Z.pow_nonneg; lia | apply Z.pow_le_mono_r; lia]. }
  unfold floor. destruct (Z.leb_spec 0 e) as [|_]; [lia|].
  cbv zeta. unfold ofZ. f_equal.
  rewrite Z.shiftr_div_pow2 by lia.
  replace (2 ^ 1074) with (2 ^ (- e) * 2 ^ (e + 1074))
    by (rewrite <- Z.pow_add_r by lia; f_equal; lia).
  rewrite Z.div_mul_cancel_r; [reflexivity| |];
    apply Z.pow_nonzero; lia.
Qed.

(** The remainder operator is exact. *)
Lemma rem_denotes (x : number) (v : Z) (my : positive) (ey : Z) :
  denotes x v -> wf (S754_finite false my ey) ->
  key (S754_finite false my ey) < 2 ^ 2097 ->
  denotes (rem x (S754_finite false my ey))
          (v mod key (S754_finite false my ey)).
Proof.
  intros (Hnn & Hf & <-) Hy Hlim. apply wf_finite in Hy. destruct Hy as [Hcy Hby].
  pose proof (canonical_facts my ey Hcy) as (Hey & Hdy & _).
  cbn [key cond_Zopp] in Hlim.
  destruct Hnn as [| |mx ex Hcx Hbx]; [|discriminate|].
  - cbn [rem key]. rewrite Z.mod_0_l.
    + split; [constructor|]. split; reflexivity.
    + cbn [cond_Zopp]. apply Z.neq_mul_0. split; [lia|apply Z.pow_nonzero; lia].
  - pose proof (canonical_facts mx ex Hcx) as (Hex & Hdx & _).
    cbn [rem key cond_Zopp]. set (e := Z.min ex ey).
    set (r := (Zpos mx * 2 ^ (ex - e)) mod (Zpos my * 2 ^ (ey - e))).
    assert (Hpx : 0 < 2 ^ (ex - e)) by (apply Z.pow_pos_nonneg; subst e; lia).
    assert (Hpy : 0 < 2 ^ (ey - e)) by (apply Z.pow_pos_nonneg; subst e; lia).
    assert (Hpe : 0 < 2 ^ (e + 1074)) by (apply Z.pow_pos_nonneg; subst e; lia).
    assert (Hr : 0 <= r < Zpos my * 2 ^ (ey - e)).
    { apply Z.mod_pos_bound. apply Z.mul_pos_pos; lia. }
    assert (Hr' : r <= Zpos mx * 2 ^ (ex - e)).
    { apply Z.mod_le; [|apply Z.mul_pos_pos; lia].
      apply Z.mul_nonneg_nonneg; lia. }
    assert (Hx53 : Zpos mx < 2 ^ 53).
    { pose proof (Zdigits2_bounds (Zpos mx) ltac:(lia)) as [_ Hhi].
      apply Z.lt_le_trans with (2 ^ Zdigits2 (Zpos mx)); [lia|].
      apply Z.pow_le_mono_r; lia. }
    assert (Hy53 : Zpos my < 2 ^ 53).
    { pose proof (Zdigits2_bounds (Zpos my) ltac:(lia)) as [_ Hhi].
      apply Z.lt_le_trans with (2 ^ Zdigits2 (Zpos my)); [lia|].
      apply Z.pow_le_mono_r; lia. }
    assert (Hr53 : r < 2 ^ 53).
    { destruct (Z.min_spec ex ey) as [[_ Hm]|[_ Hm]]; fold e in Hm.
      - rewrite Hm, Z.sub_diag in Hr'. change (2 ^ 0) with 1 in Hr'. lia.
      - rewrite Hm, Z.sub_diag in Hr. change (2 ^ 0) with 1 in Hr. lia. }
    assert (Hv : r * 2 ^ (e + 1074)
                 = (Zpos mx * 2 ^ (ex + 1074)) mod (Zpos my * 2 ^ (ey + 1074))).
    { subst r. rewrite <- Z.mul_mod_distr_r by lia.
      rewrite <- !Z.mul_assoc, <- !Z.pow_add_r by (subst e; lia).
      do 2 f_equal; f_equal; lia. }
    rewrite <- Hv.
    apply rounds_exact; [apply onGrid_scaled; subst e; lia|].
    apply binary_normalize_rounds; [lia|subst e; lia|].
    rewrite Hv. eapply Z.lt_trans; [|exact Hlim].
    apply Z.mod_pos_bound. apply Z.mul_pos_pos; [lia|].
    apply Z.pow_pos_nonneg; lia.
Qed.


(** ** The floor of a quotient *)

(** [R = k * G] is [v / c] rounded on the grid of unit [G]; [v] is on
    the grid of unit [Gs]; both grids hold the multiples of [W]. *)
Lemma floor_quotient (W G U Gs Us P R v c k ms : Z) :
  0 < c -> 0 < G -> 0 < U -> 0 < Gs -> 0 < Us ->
  W = G * U -> W = Gs * Us -> 0 < P -> P < W ->
  0 <= k -> R = k * G -> 2 * Z.abs (R * c - v) <= c * G ->
  (G = 1 \/ P * G * c <= v) ->
  0 <= ms -> v = ms * Gs -> v < 2 * P * Gs ->
  R / W = v / (c * W).
Proof.
  intros Hc HG HU HGs HUs HW HWs HP HPW Hk HR Herr Hgrid Hms Hv Hvb.
  assert (HWp : 0 < W) by (rewrite HW; apply Z.mul_pos_pos; assumption).
  assert (HcW : 0 < c * W) by (apply Z.mul_pos_pos; assumption).
  assert (HcG : 0 < c * G) by (apply Z.mul_pos_pos; assumption).
  pose proof (Z.div_mod v (c * W) ltac:(lia)) as Hdm.
  pose proof (Z.mod_pos_bound v (c * W) HcW) as Hmod.
  assert (Hq0 : 0 <= v / (c * W)).
  { apply Z.div_pos; [|assumption]. rewrite Hv. apply Z.mul_nonneg_nonneg; lia. }
  set (q := v / (c * W)) in *. clearbody q.
  assert (Hq1 : c * W * q <= v) by lia.
  assert (Hq2 : v < c * W * q + c * W) by lia.
  symmetry. apply Z.div_unique with (R - W * q); [|ring].
  left. split.
  - destruct (Z_le_gt_dec (W * q) R) as [|Hlt]; [lia|exfalso].
    assert (Hkq : k < U * q).
    { apply (Z.mul_lt_mono_pos_l G); [assumption|].
      rewrite Z.mul_assoc, <- HW. lia. }
    assert (Hstep : R + G <= W * q).
    { pose proof (Z.mul_le_mono_nonneg_l (k + 1) (U * q) G ltac:(lia) ltac:(lia)) as H1.
      rewrite Z.mul_assoc, <- HW in H1. lia. }
    pose proof (Z.mul_le_mono_nonneg_r _ _ c ltac:(lia) Hstep) as Hc1.
    destruct (Z.abs_spec (R * c - v)) as [[? Ha]|[? Ha]]; rewrite Ha in Herr; lia.
  - destruct (Z_lt_le_dec R (W * q + W)) as [|Hge]; [lia|exfalso].
    assert (Hms1 : ms < c * Us * (q + 1)).
    { apply (Z.mul_lt_mono_pos_r Gs); [assumption|]. rewrite <- Hv.
      replace (c * Us * (q + 1) * Gs) with (c * (Gs * Us) * q + c * (Gs * Us)) by ring.
      rewrite <- HWs. lia. }
    assert (Hstep : v + Gs <= c * W * q + c * W).
    { pose proof (Z.mul_le_mono_nonneg_r (ms + 1) (c * Us * (q + 1)) Gs
                    ltac:(lia) ltac:(lia)) as H1.
      replace (c * Us * (q + 1) * Gs) with (c * (Gs * Us) * q + c * (Gs * Us))
        in H1 by ring.
      rewrite <- HWs in H1. lia. }
    pose proof (Z.mul_le_mono_nonneg_r _ _ c ltac:(lia) Hge) as Hc1.
    assert (Hd : Gs <= R * c - v) by lia.
    assert (H2 : 2 * Gs <= c * G).
    { destruct (Z.abs_spec (R * c - v)) as [[? Ha]|[? Ha]]; rewrite Ha in Herr; lia. }
    assert (Hv2 : v < P * (c * G)).
    { apply Z.lt_le_trans with (P * (2 * Gs)); [lia|].
      apply Z.mul_le_mono_nonneg_l; lia. }
    destruct Hgrid as [HG1|Hge2]; [|lia].
    subst G. rewrite Z.mul_1_r in *.
    assert (HWq : 0 <= W * q) by (apply Z.mul_nonneg_nonneg; lia).
    pose proof (Z.mul_le_mono_nonneg_r (P + 1) R c ltac:(lia) ltac:(lia)) as H3.
    destruct (Z.abs_spec (R * c - v)) as [[? Ha]|[? Ha]]; rewrite Ha in Herr; lia.
Qed.

Lemma pow2_split (a b : Z) : 0 <= a <= b -> 2 ^ b = 2 ^ a * 2 ^ (b - a).
Proof. intros H. rewrite <- Z.pow_add_r by lia. f_equal. lia. Qed.

Lemma shape_bound (m t b : Z) :
  0 <= t -> (t = 0 \/ 2 ^ 52 <= m) -> m * 2 ^ t < 2 ^ 52 * 2 ^ b -> 0 <= b ->
  t <= b.
Proof.
  intros Ht [->|Hm] Hb Hb0; [lia|].
  assert (0 < 2 ^ t) by (apply Z.pow_pos_nonneg; lia).
  assert (H1 : 2 ^ 52 * 2 ^ t < 2 ^ 52 * 2 ^ b).
  { eapply Z.le_lt_trans; [|exact Hb]. apply Z.mul_le_mono_nonneg_r; lia. }
  apply Z.mul_lt_mono_pos_l in H1; [|lia].
  apply Z.pow_lt_mono_r_iff in H1; lia.
Qed.

(** [Math.floor (x / y)] is the floor of the exact quotient when [y] is a
    whole number and [x] is below [2^52]. *)
Lemma floor_div (x y : number) (v c : Z) :
  denotes x v -> v < 2 ^ 52 * 2 ^ 1074 ->
  denotes y (c * 2 ^ 1074) -> 0 < c ->
  floor (div x y) = ofZ (v / (c * 2 ^ 1074)).
Proof.
  intros Hx Hb Hy Hc.
  assert (HW : 0 < 2 ^ 1074) by (apply Z.pow_pos_nonneg; lia).
  destruct (denotes_shape x v Hx) as (m & t & Hm & Ht & Hv & Hsh).
  destruct Hx as (Hnx & Hfx & Hkx). destruct Hy as (Hny & Hfy & Hky).
  destruct Hny as [| |my ey Hcy Hby]; [cbn [key] in Hky; lia|discriminate|].
  destruct Hnx as [| |mx ex Hcx Hbx]; [|discriminate|].
  - cbn [key] in Hkx. subst v. rewrite Z.div_0_l by lia. reflexivity.
  - pose proof (canonical_facts mx ex Hcx) as (Hex & Hdx & _).
    pose proof (canonical_facts my ey Hcy) as (Hey & Hdy & _).
    cbn [key cond_Zopp] in Hkx, Hky.
    assert (Hdd : Zdigits2 (Zpos mx) + ex - (Zdigits2 (Zpos my) + ey) <= 1021).
    { pose proof (Zdigits2_bounds (Zpos mx) ltac:(lia)) as [Hxl _].
      pose proof (Zdigits2_bounds (Zpos my) ltac:(lia)) as [_ Hyh].
      pose proof (Zdigits2_pos_pos (Zpos mx) ltac:(lia)).
      pose proof (Zdigits2_pos_pos (Zpos my) ltac:(lia)).
      assert (Hx1 : Zdigits2 (Zpos mx) + ex <= 52).
      { assert (H1 : 2 ^ (Zdigits2 (Zpos mx) - 1 + (ex + 1074)) < 2 ^ (52 + 1074)).
        { rewrite !Z.pow_add_r by lia. eapply Z.le_lt_trans; [|rewrite <- Hkx in Hb; exact Hb].
          apply Z.mul_le_mono_nonneg_r; [apply Z.pow_nonneg; lia|lia]. }
        apply Z.pow_lt_mono_r_iff in H1; lia. }
      assert (Hy1 : 0 < Zdigits2 (Zpos my) + ey).
      { assert (H1 : 2 ^ 1074 < 2 ^ (Zdigits2 (Zpos my) + (ey + 1074))).
        { rewrite Z.pow_add_r by lia.
          apply Z.le_lt_trans with (Zpos my * 2 ^ (ey + 1074)).
          - rewrite Hky. replace (2 ^ 1074) with (1 * 2 ^ 1074) at 1 by ring.
            apply Z.mul_le_mono_nonneg_r; lia.
          - apply Z.mul_lt_mono_pos_r; [apply Z.pow_pos_nonneg; lia|lia]. }
        apply Z.pow_lt_mono_r_iff in H1; lia. }
      lia. }
    pose proof (div_rounds mx my ex ey Hex Hey Hdd) as Hr.
    rewrite Hkx, Hky in Hr.
    apply (rounds_ratio _ _ _ v c) in Hr; [|lia|lia|ring].
    set (r := div (S754_finite false mx ex) (S754_finite false my ey)) in *.
    destruct Hr as (Hnr & Hfr & g & k & Hg & Hk & Hkey & Herr & Hgrid).
    assert (Htb : t <= 1074) by (apply (shape_bound m t 1074); lia).
    assert (Hgb : g <= 1074).
    { destruct Hgrid as [->|Hge]; [lia|].
      assert (H1 : 2 ^ (g + 52) < 2 ^ (52 + 1074)).
      { rewrite (Z.pow_add_r 2 52 1074) by lia.
        eapply Z.le_lt_trans; [|exact Hb].
        eapply Z.le_trans; [|exact Hge].
        replace (2 ^ (g + 52)) with (2 ^ (g + 52) * 1) at 1 by ring.
        apply Z.mul_le_mono_nonneg_l; [apply Z.pow_nonneg; lia|lia]. }
      apply Z.pow_lt_mono_r_iff in H1; lia. }
    assert (Hq : key r / 2 ^ 1074 = v / (c * 2 ^ 1074)).
    { assert (A1 : 2 ^ 1074 = 2 ^ g * 2 ^ (1074 - g)) by (apply pow2_split; lia).
      assert (A2 : 2 ^ 1074 = 2 ^ t * 2 ^ (1074 - t)) by (apply pow2_split; lia).
      assert (A3 : 2 ^ 52 < 2 ^ 1074) by (apply Z.pow_lt_mono_r; lia).
      assert (A4 : 2 * Z.abs (key r * c - v) <= c * 2 ^ g)
        by (rewrite Hkey; exact Herr).
      assert (A5 : 2 ^ g = 1 \/ 2 ^ 52 * 2 ^ g * c <= v).
      { destruct Hgrid as [->|Hge]; [left; reflexivity|right].
        rewrite Z.pow_add_r in Hge by lia. lia. }
      assert (A6 : v < 2 * 2 ^ 52 * 2 ^ t).
      { rewrite Hv. replace (2 * 2 ^ 52) with (2 ^ 53) by reflexivity.
        apply Z.mul_lt_mono_pos_r; [apply Z.pow_pos_nonneg; lia|lia]. }
      apply (floor_quotient (2 ^ 1074) (2 ^ g) (2 ^ (1074 - g)) (2 ^ t)
               (2 ^ (1074 - t)) (2 ^ 52) (key r) v c k m);
        try assumption; try (apply Z.pow_pos_nonneg; lia); lia. }
    rewrite <- Hq. apply floor_denotes; [repeat split; assumption|].
    assert (Hqb : key r / 2 ^ 1074 < 2 ^ 52).
    { rewrite Hq. apply Z.div_lt_upper_bound; [lia|].
      eapply Z.lt_le_trans; [exact Hb|].
      replace (c * 2 ^ 1074 * 2 ^ 52) with (c * (2 ^ 52 * 2 ^ 1074)) by ring.
      assert (HB : 0 < 2 ^ 52 * 2 ^ 1074) by (apply Z.mul_pos_pos; lia).
      set (B := 2 ^ 52 * 2 ^ 1074) in *. clearbody B.
      replace B with (1 * B) at 1 by ring.
      apply Z.mul_le_mono_nonneg_r; lia. }
    pose proof (Z.mul_succ_div_gt (key r) (2 ^ 1074) HW) as H1.
    eapply Z.lt_le_trans; [exact H1|].
    rewrite (Z.mul_comm (2 ^ 52)).
    apply Z.mul_le_mono_nonneg_l; lia.
Qed.


(** ** Whole numbers, and the error of one rounding *)

Lemma mul_denotes (x y : number) (a b : Z) :
  denotes x (a * 2 ^ 1074) -> denotes y (b * 2 ^ 1074) ->
  0 <= a -> 0 <= b -> a * b < 2 ^ 53 ->
  denotes (mul x y) (a * b * 2 ^ 1074).
Proof.
  intros (Hnx & Hfx & Hkx) (Hny & Hfy & Hky) Ha Hb Hab.
  assert (HW : 0 < 2 ^ 1074) by (apply Z.pow_pos_nonneg; lia).
  apply rounds_exact.
  - apply onGrid_scaled; [split; [apply Z.mul_nonneg_nonneg; lia|lia]|lia].
  - apply (rounds_ratio _ (key x * key y) (2 ^ 1074)); [lia|lia| |].
    + rewrite Hkx, Hky. ring.
    + apply mul_rounds; try assumption.
      rewrite Hkx, Hky.
      replace (a * 2 ^ 1074 * (b * 2 ^ 1074)) with (a * b * 2 ^ 1074 * 2 ^ 1074) by ring.
      apply Z.mul_lt_mono_pos_r; [lia|].
      apply Z.lt_le_trans with (2 ^ 53 * 2 ^ 1074).
      * apply Z.mul_lt_mono_pos_r; lia.
      * rewrite <- Z.pow_add_r by lia. apply Z.pow_le_mono_r; lia.
Qed.

Lemma add_denotes (x y : number) (a b : Z) :
  denotes x a -> denotes y b -> onGrid (a + b) -> a + b < 2 ^ 2097 ->
  denotes (add x y) (a + b).
Proof.
  intros (Hnx & Hfx & Hkx) (Hny & Hfy & Hky) HG Hb.
  apply rounds_exact; [assumption|].
  rewrite <- Hkx, <- Hky in *. apply add_rounds; assumption.
Qed.

(** The error of a rounding is at most [2^-53] of the value, or half the
    least unit. *)
Lemma rounds_error (r : number) (N D : Z) :
  0 < D -> rounds r N D ->
  2 ^ 53 * Z.abs (key r * D - N) <= Z.max N (2 ^ 52 * D).
Proof.
  intros HD (Hnn & Hf & g & k & Hg & Hk & Hkey & Herr & Hgrid).
  rewrite Hkey.
  assert (Hp : 0 < 2 ^ g) by (apply Z.pow_pos_nonneg; lia).
  set (e := Z.abs (k * 2 ^ g * D - N)) in *. clearbody e.
  replace (2 ^ 53) with (2 ^ 52 * 2) by reflexivity.
  destruct Hgrid as [->|Hge].
  - change (2 ^ 0) with 1 in *.
    assert (2 ^ 52 * (2 * e) <= 2 ^ 52 * (D * 1))
      by (apply Z.mul_le_mono_nonneg_l; lia).
    lia.
  - rewrite Z.pow_add_r in Hge by lia.
    assert (2 ^ 52 * (2 * e) <= 2 ^ 52 * (D * 2 ^ g))
      by (apply Z.mul_le_mono_nonneg_l; lia).
    lia.
Qed.

(** The digits of the fraction: [Math.floor (ms * c)] for [c] the power
    of ten of the precision. *)
Lemma fraction_digits (x y : number) (f c : Z) :
  denotes x f -> f < 2 ^ 1074 -> denotes y (c * 2 ^ 1074) -> 1 <= c <= 1024 ->
  exists K, floor (mul x y) = ofZ K /\ 0 <= K < c /\
    2 ^ 53 * (K * 2 ^ 1074 - c * f) <= c * 2 ^ 1074 /\
    2 ^ 53 * (c * f - K * 2 ^ 1074) < 2 ^ 53 * 2 ^ 1074 + c * 2 ^ 1074.
Proof.
  intros Hx Hf Hy Hc.
  assert (HW : 0 < 2 ^ 1074) by (apply Z.pow_pos_nonneg; lia).
  assert (HW52 : 2 ^ 52 * 2 ^ 1022 = 2 ^ 1074)
    by (rewrite <- Z.pow_add_r by lia; reflexivity).
  assert (HW53 : 2 ^ 53 * 2 ^ 1021 = 2 ^ 1074)
    by (rewrite <- Z.pow_add_r by lia; reflexivity).
  assert (H1022 : 0 < 2 ^ 1022) by (apply Z.pow_pos_nonneg; lia).
  assert (H1021 : 0 < 2 ^ 1021) by (apply Z.pow_pos_nonneg; lia).
  pose proof (denotes_nonneg x f Hx) as Hf0.
  destruct (denotes_shape x f Hx) as (m & t & Hm & Ht & Hv & Hsh).
  assert (Hr : rounds (mul x y) (c * f) 1).
  { destruct Hx as (Hnx & Hfx & Hkx), Hy as (Hny & Hfy & Hky).
    apply (rounds_ratio _ (key x * key y) (2 ^ 1074)); [lia|lia| |].
    - rewrite Hkx, Hky. ring.
    - apply mul_rounds; try assumption. rewrite Hkx, Hky.
      apply Z.le_lt_trans with (2 ^ 1074 * (1024 * 2 ^ 1074)).
      + apply Z.mul_le_mono_nonneg; lia.
      + replace (2 ^ 1074 * (1024 * 2 ^ 1074)) with (2 ^ 1084 * 2 ^ 1074).
        * apply Z.mul_lt_mono_pos_r; [lia|]. apply Z.pow_lt_mono_r; lia.
        * replace 1024 with (2 ^ 10) by reflexivity.
          replace (2 ^ 1084) with (2 ^ 1074 * 2 ^ 10)
            by (rewrite <- Z.pow_add_r by lia; reflexivity).
          ring. }
  pose proof (rounds_error _ _ 1 ltac:(lia) Hr) as He.
  destruct Hr as (Hnn & Hfin & g & k & Hg & Hk & Hkey & Herr & Hgrid).
  rewrite !Z.mul_1_r in *.
  set (R := key (mul x y)) in *.
  set (W := 2 ^ 1074) in *.
  assert (HcfW : c * f < c * W) by (apply Z.mul_lt_mono_pos_l; lia).
  assert (HcfW' : c * W <= 1024 * W) by (apply Z.mul_le_mono_nonneg_r; lia).
  assert (He' : 2 ^ 53 * Z.abs (R - c * f) <= c * W).
  { eapply Z.le_trans; [exact He|]. apply Z.max_lub; [lia|].
    rewrite <- HW52. fold W.
    replace (2 ^ 52) with (1 * 2 ^ 52) at 1 by ring.
    apply Z.mul_le_mono_nonneg; lia. }
  assert (HRc : R < c * W).
  { destruct (Z_lt_le_dec R (c * W)) as [|Hge]; [assumption|exfalso].
    assert (Hgap : 2 ^ 1021 <= W - f).
    { destruct (Z_le_gt_dec t 1020) as [Hs|Hb].
      - assert (f < 2 ^ 53 * 2 ^ 1020).
        { rewrite Hv. apply Z.lt_le_trans with (2 ^ 53 * 2 ^ t).
          - apply Z.mul_lt_mono_pos_r; [apply Z.pow_pos_nonneg; lia|lia].
          - apply Z.mul_le_mono_nonneg_l; [lia|]. apply Z.pow_le_mono_r; lia. }
        assert (2 ^ 53 * 2 ^ 1020 + 2 ^ 1021 <= W); [|lia].
        subst W. rewrite <- HW53.
        replace (2 ^ 1021) with (2 * 2 ^ 1020) by (rewrite <- Z.pow_succ_r by lia; reflexivity).
        assert (0 < 2 ^ 1020) by (apply Z.pow_pos_nonneg; lia).
        replace (2 ^ 53) with 9007199254740992 by reflexivity. lia.
      - assert (Ht2 : t < 1074).
        { destruct (Z_lt_le_dec t 1074) as [|Hbig]; [assumption|exfalso].
          assert (2 ^ 1074 <= 2 ^ t) by (apply Z.pow_le_mono_r; lia).
          assert (0 < m).
          { destruct Hsh as [->|Hm52]; [lia|].
            assert (0 < 2 ^ 52) by (apply Z.pow_pos_nonneg; lia). lia. }
          assert (1 * 2 ^ t <= m * 2 ^ t)
            by (apply Z.mul_le_mono_nonneg_r; [apply Z.pow_nonneg; lia|lia]).
          lia. }
        assert (Hsplit : W = 2 ^ (1074 - t) * 2 ^ t).
        { subst W. rewrite <- Z.pow_add_r by lia. f_equal. lia. }
        assert (0 < 2 ^ t) by (apply Z.pow_pos_nonneg; lia).
        assert (Hm1 : m < 2 ^ (1074 - t)).
        { apply (Z.mul_lt_mono_pos_r (2 ^ t)); [assumption|].
          rewrite <- Hsplit, <- Hv. assumption. }
        assert (Hstep : (m + 1) * 2 ^ t <= 2 ^ (1074 - t) * 2 ^ t)
          by (apply Z.mul_le_mono_nonneg_r; lia).
        rewrite <- Hsplit in Hstep.
        assert (2 ^ 1021 <= 2 ^ t) by (apply Z.pow_le_mono_r; lia).
        lia. }
    assert (Hcg : c * 2 ^ 1021 <= c * (W - f))
      by (apply Z.mul_le_mono_nonneg_l; lia).
    assert (Habs : Z.abs (R - c * f) = R - c * f) by (apply Z.abs_eq; lia).
    rewrite Habs in He'.
    assert (2 ^ 53 * (c * 2 ^ 1021) <= 2 ^ 53 * (R - c * f)).
    { apply Z.mul_le_mono_nonneg_l; [lia|]. lia. }
    assert (2 ^ 53 * (c * 2 ^ 1021) = c * W).
    { subst W. rewrite <- HW53. ring. }
    assert (c * 1 <= c * (W - f)) by (apply Z.mul_le_mono_nonneg_l; lia).
    assert (2 ^ 53 * 1 <= 2 ^ 53 * (R - c * W + 1)).
    { apply Z.mul_le_mono_nonneg_l; lia. }
    lia. }
  assert (HR0 : 0 <= R) by (subst R; now apply nonNegative_key).
  exists (R / W).
  pose proof (Z.div_mod R W ltac:(lia)) as Hdm.
  pose proof (Z.mod_pos_bound R W HW) as Hmod.
  split; [|split; [split|split]].
  - apply floor_denotes; [repeat split; assumption|].
    fold R W. apply Z.lt_le_trans with (1024 * W); [lia|].
    apply Z.mul_le_mono_nonneg_r; [lia|].
    replace 1024 with (2 ^ 10) by reflexivity. apply Z.pow_le_mono_r; lia.
  - apply Z.div_pos; lia.
  - apply Z.div_lt_upper_bound; lia.
  - assert (2 ^ 53 * (R / W * W - c * f) <= 2 ^ 53 * Z.abs (R - c * f)); [|lia].
    apply Z.mul_le_mono_nonneg_l; lia.
  - assert (2 ^ 53 * (c * f - R) <= 2 ^ 53 * Z.abs (R - c * f)).
    { apply Z.mul_le_mono_nonneg_l; lia. }
    assert (2 ^ 53 * (R - R / W * W) < 2 ^ 53 * W).
    { apply Z.mul_lt_mono_pos_l; lia. }
    lia.
Qed.


(** The number a decimal numeral with a fraction denotes. *)
Lemma ofDecimal_rounds (d x : Z) :
  0 < d < 2 ^ 53 -> x < 0 ->
  rounds (ofDecimal false d x) (d * 2 ^ 1074) (10 ^ (- x)).
Proof.
  intros Hd Hx. destruct d as [|q|q]; try lia.
  unfold ofDecimal. destruct (Z.leb_spec 0 x) as [|_]; [lia|].
  assert (HC : 0 < 10 ^ (- x)) by (apply Z.pow_pos_nonneg; lia).
  assert (HW : 0 < 2 ^ 1074) by (apply Z.pow_pos_nonneg; lia).
  set (C := 10 ^ (- x)) in *.
  assert (Hid : Zpos (Z.to_pos C) = C) by (apply Z2Pos.id; assumption).
  assert (Hdd : Zdigits2 (Zpos q) + 0 - (Zdigits2 (Zpos (Z.to_pos C)) + 0) <= 1021).
  { pose proof (Zdigits2_upper (Zpos q) 53 ltac:(lia) ltac:(lia) ltac:(lia)).
    pose proof (Zdigits2_pos_pos (Zpos (Z.to_pos C)) ltac:(lia)). lia. }
  pose proof (div_rounds q (Z.to_pos C) 0 0 ltac:(lia) ltac:(lia) Hdd) as Hr.
  rewrite Hid in Hr. change (0 + 1074) with 1074 in Hr.
  apply (rounds_ratio _ _ _ (Zpos q * 2 ^ 1074) C) in Hr;
    [exact Hr|apply Z.mul_pos_pos; lia|lia|ring].
Qed.

(** Hours, minutes, seconds and fraction of a time: the parts add up. *)
Lemma clock_parts (v W : Z) :
  0 < W -> 0 <= v ->
  v = (3600 * (v / (3600 * W)) + 60 * ((v mod (3600 * W)) / (60 * W))
       + (v mod (60 * W)) / W) * W + v mod W /\
  0 <= v / (3600 * W) /\
  0 <= (v mod (3600 * W)) / (60 * W) < 60 /\
  0 <= (v mod (60 * W)) / W < 60 /\
  0 <= v mod W < W.
Proof.
  intros HW Hv.
  assert (H1 : (v mod (3600 * W)) mod (60 * W) = v mod (60 * W)).
  { apply Z.mod_mod_divide. exists 60. ring. }
  assert (H2 : (v mod (60 * W)) mod W = v mod W).
  { apply Z.mod_mod_divide. exists 60. ring. }
  pose proof (Z.div_mod v (3600 * W) ltac:(lia)) as D1.
  pose proof (Z.mod_pos_bound v (3600 * W) ltac:(lia)) as B1.
  pose proof (Z.div_mod (v mod (3600 * W)) (60 * W) ltac:(lia)) as D2.
  pose proof (Z.mod_pos_bound v (60 * W) ltac:(lia)) as B2.
  pose proof (Z.div_mod (v mod (60 * W)) W ltac:(lia)) as D3.
  pose proof (Z.mod_pos_bound v W ltac:(lia)) as B3.
  rewrite H1 in D2. rewrite H2 in D3.
  split; [lia|]. split; [apply Z.div_pos; lia|].
  split; [split; [apply Z.div_pos; lia|apply Z.div_lt_upper_bound; lia]|].
  split; [split; [apply Z.div_pos; lia|apply Z.div_lt_upper_bound; lia]|].
  assumption.
Qed.

(** The roundings of the trip add up to less than a unit of the fraction
    plus a millionth. *)
Lemma round_trip_error (c W v A S f K d keySec keyR : Z) :
  c = 100 \/ c = 1000 -> 2 ^ 64 <= W ->
  v = (A + S) * W + f -> 0 <= f < W -> 0 <= S < 60 -> 0 <= A ->
  A * W + S * W + W <= 2 ^ 32 * W ->
  0 <= K < c ->
  2 ^ 53 * (K * W - c * f) <= c * W ->
  2 ^ 53 * (c * f - K * W) < 2 ^ 53 * W + c * W ->
  d = S * c + K ->
  2 ^ 53 * Z.abs (keySec * c - d * W) <= Z.max (d * W) (2 ^ 52 * c) ->
  0 <= keySec ->
  2 ^ 53 * Z.abs (keyR * 1 - (A * W + keySec)) <= Z.max (A * W + keySec) (2 ^ 52 * 1) ->
  c * 1000000 * Z.abs (keyR - v) < (1000000 + c) * W.
Proof.
  intros Hc HW Hv Hf HS HA Hlim HK Hup Hlo Hd Hsec Hs0 Hfin.
  assert (HAW : 0 <= A * W) by (apply Z.mul_nonneg_nonneg; lia).
  assert (HSW : 0 <= S * W) by (apply Z.mul_nonneg_nonneg; lia).
  assert (HKW : 0 <= K * W) by (apply Z.mul_nonneg_nonneg; lia).
  assert (HKW' : K * W <= (c - 1) * W) by (apply Z.mul_le_mono_nonneg_r; lia).
  assert (HSW' : S * W <= 59 * W) by (apply Z.mul_le_mono_nonneg_r; lia).
  replace (2 ^ 64) with 18446744073709551616 in HW by reflexivity.
  replace (2 ^ 53) with 9007199254740992 in * by reflexivity.
  replace (2 ^ 52) with 4503599627370496 in * by reflexivity.
  replace (2 ^ 32) with 4294967296 in * by reflexivity.
  set (Z2 := keySec * c - d * W) in *.
  set (Z1 := keyR * 1 - (A * W + keySec)) in *.
  assert (Hd' : d * W = c * (S * W) + K * W) by (rewrite Hd; ring).
  destruct Hc as [-> | ->].
  - destruct (Z.abs_spec Z2) as [[? E2]|[? E2]]; rewrite E2 in Hsec;
    destruct (Z.abs_spec Z1) as [[? E1]|[? E1]]; rewrite E1 in Hfin;
    destruct (Z.abs_spec (keyR - v)) as [[? E3]|[? E3]]; rewrite E3;
    destruct (Z.max_spec (d * W) (4503599627370496 * 100)) as [[? M2]|[? M2]];
      rewrite M2 in Hsec;
    destruct (Z.max_spec (A * W + keySec) (4503599627370496 * 1)) as [[? M1]|[? M1]];
      rewrite M1 in Hfin;
    subst Z1 Z2; lia.
  - destruct (Z.abs_spec Z2) as [[? E2]|[? E2]]; rewrite E2 in Hsec;
    destruct (Z.abs_spec Z1) as [[? E1]|[? E1]]; rewrite E1 in Hfin;
    destruct (Z.abs_spec (keyR - v)) as [[? E3]|[? E3]]; rewrite E3;
    destruct (Z.max_spec (d * W) (4503599627370496 * 1000)) as [[? M2]|[? M2]];
      rewrite M2 in Hsec;
    destruct (Z.max_spec (A * W + keySec) (4503599627370496 * 1)) as [[? M1]|[? M1]];
      rewrite M1 in Hfin;
    subst Z1 Z2; lia.
Qed.

(** ** Values as rationals *)

Lemma toQ_key (x : number) (v : Z) :
  denotes x v -> (toQ x == v # Z.to_pos (2 ^ 1074))%Q.
Proof.
  intros (Hnn & Hf & <-).
  assert (HW : Zpos (Z.to_pos (2 ^ 1074)) = 2 ^ 1074)
    by (apply Z2Pos.id; apply Z.pow_pos_nonneg; lia).
  destruct Hnn as [| |m e Hc Hb]; [reflexivity|discriminate|].
  pose proof (canonical_facts m e Hc) as (He & _).
  unfold toQ, Qeq. cbn [key cond_Zopp Qnum Qden].
  destruct (Z.leb_spec 0 e) as [Hp|Hn]; cbn [inject_Z Qnum Qden]; rewrite HW.
  - rewrite Z.pow_add_r by lia. ring.
  - rewrite Z2Pos.id by (apply Z.pow_pos_nonneg; lia).
    rewrite <- Z.mul_assoc, <- Z.pow_add_r by lia.
    do 2 f_equal. lia.
Qed.

Lemma Qabs_diff_key (x y : number) (a b n : Z) (d : positive) :
  denotes x a -> denotes y b ->
  Z.abs (a - b) * Zpos d < n * 2 ^ 1074 ->
  (Qabs (toQ x - toQ y) < n # d)%Q.
Proof.
  intros Hx Hy H.
  assert (HW : Zpos (Z.to_pos (2 ^ 1074)) = 2 ^ 1074)
    by (apply Z2Pos.id; apply Z.pow_pos_nonneg; lia).
  rewrite (toQ_key x a Hx), (toQ_key y b Hy).
  set (Wp := Z.to_pos (2 ^ 1074)) in *.
  assert (E : ((a # Wp) - (b # Wp) == (a - b) # Wp)%Q).
  { unfold Qeq, Qminus, Qplus, Qopp. cbn [Qnum Qden].
    rewrite Pos2Z.inj_mul. ring. }
  rewrite E. unfold Qlt. cbn [Qabs Qnum Qden]. rewrite HW. exact H.
Qed.

End RoundFacts.

(** ** Decimal numerals *)

Module NumeralFacts.
Import JsNumber JsString JsConv Codec Binary64 Shapes FloatFacts DigitFacts RoundFacts.

Lemma digitChar_digit (d : Z) :
  0 <= d <= 9 -> isDigit (digitChar d) = true /\ digitVal (digitChar d) = d.
Proof.
  intros H.
  assert (E : d = 0 \/ d = 1 \/ d = 2 \/ d = 3 \/ d = 4 \/ d = 5 \/ d = 6 \/
              d = 7 \/ d = 8 \/ d = 9) by lia.
  repeat (destruct E as [->|E]; [split; reflexivity|]). subst d. split; reflexivity.
Qed.

Lemma digits_fold (l : list ascii) (acc : Z) :
  fold_left (fun a c => 10 * a + digitVal c) l acc
    = acc * 10 ^ Z.of_nat (List.length l) + digitsValue l.
Proof.
  unfold digitsValue. revert acc. induction l as [|c l IH]; intros acc.
  - cbn [fold_left List.length]. change (10 ^ Z.of_nat 0) with 1. lia.
  - cbn [fold_left List.length]. rewrite IH, (IH (10 * 0 + digitVal c)).
    rewrite Nat2Z.inj_succ, Z.pow_succ_r by lia. ring.
Qed.

Lemma digitsValue_app (l1 l2 : list ascii) :
  digitsValue (l1 ++ l2)
    = digitsValue l1 * 10 ^ Z.of_nat (List.length l2) + digitsValue l2.
Proof. unfold digitsValue at 1. rewrite fold_left_app. apply digits_fold. Qed.

Lemma showDigits_step (fuel : nat) (n : Z) (acc : list ascii) :
  showDigits (S fuel) n acc
    = if n <? 10 then digitChar (n mod 10) :: acc
      else showDigits fuel (n / 10) (digitChar (n mod 10) :: acc).
Proof. reflexivity. Qed.

Lemma showDigits_spec (fuel : nat) (n : Z) (acc : list ascii) :
  0 <= n < 2 ^ Z.of_nat (S fuel) ->
  exists ds, showDigits (S fuel) n acc = (ds ++ acc)%list /\
             allDigits ds /\ ds <> [] /\ digitsValue ds = n.
Proof.
  revert n acc. induction fuel as [|f IH]; intros n acc Hn;
    rewrite showDigits_step;
    pose proof (Z.mod_pos_bound n 10 ltac:(lia)) as Hm;
    destruct (digitChar_digit (n mod 10) ltac:(lia)) as [Hd Hv];
    destruct (Z.ltb_spec n 10) as [Hlt|Hge].
  1, 3: exists [digitChar (n mod 10)]; split; [reflexivity|];
    split; [repeat constructor; assumption|]; split; [discriminate|];
    unfold digitsValue; cbn [fold_left]; rewrite Hv;
    rewrite Z.mod_small by lia; lia.
  - change (2 ^ Z.of_nat 1) with 2 in Hn. lia.
  - assert (Hq : 0 <= n / 10 < 2 ^ Z.of_nat (S f)).
    { split; [apply Z.div_pos; lia|].
      apply Z.div_lt_upper_bound; [lia|].
      rewrite (Nat2Z.inj_succ (S f)), Z.pow_succ_r in Hn by lia. lia. }
    destruct (IH (n / 10) (digitChar (n mod 10) :: acc) Hq)
      as (ds & E & Ha & Hne & Hval).
    exists (ds ++ [digitChar (n mod 10)])%list.
    split; [rewrite E, <- app_assoc; reflexivity|].
    split; [apply Forall_app; split; [assumption|repeat constructor; assumption]|].
    split; [destruct ds; discriminate|].
    rewrite digitsValue_app, Hval. cbn [List.length].
    change (10 ^ Z.of_nat 1) with 10.
    unfold digitsValue at 1. cbn [fold_left]. rewrite Hv.
    pose proof (Z.div_mod n 10 ltac:(lia)). lia.
Qed.

Lemma showZ_digits (n : Z) :
  0 <= n ->
  exists ds, showZ n = str ds /\ allDigits ds /\ ds <> [] /\ digitsValue ds = n.
Proof.
  intros Hn. unfold showZ.
  destruct (showDigits_spec (Z.to_nat (Z.log2 n)) n []) as (ds & E & H).
  - split; [assumption|].
    rewrite Nat2Z.inj_succ, Z2Nat.id by apply Z.log2_nonneg.
    destruct (Z.eq_dec n 0) as [->|]; [reflexivity|].
    apply Z.log2_spec. lia.
  - exists ds. rewrite E, app_nil_r. split; [reflexivity|exact H].
Qed.

Lemma padded_spec (k : nat) (bound : nat) (n : Z) :
  forallb (padded k) (map Z.of_nat (seq 0 bound)) = true ->
  0 <= n < Z.of_nat bound ->
  exists ds, padStart0 k (showZ n) = str ds /\ allDigits ds /\
             List.length ds = k /\ digitsValue ds = n.
Proof.
  intros Hall Hn. rewrite forallb_forall in Hall.
  assert (Hin : In n (map Z.of_nat (seq 0 bound))).
  { apply in_map_iff. exists (Z.to_nat n). split; [lia|]. apply in_seq. lia. }
  specialize (Hall n Hin). unfold padded in Hall.
  apply andb_prop in Hall. destruct Hall as [Hall Hv].
  apply andb_prop in Hall. destruct Hall as [Hl Hd].
  exists (chars (padStart0 k (showZ n))).
  split; [symmetry; apply string_of_list_ascii_of_string|].
  split; [apply Forall_forall; now apply forallb_forall|].
  split; [now apply Nat.eqb_eq|now apply Z.eqb_eq].
Qed.

Lemma padded_two : forallb (padded 2) (map Z.of_nat (seq 0 100)) = true.
Proof. vm_compute. reflexivity. Qed.

Lemma padded_three : forallb (padded 3) (map Z.of_nat (seq 0 1000)) = true.
Proof. vm_compute. reflexivity. Qed.

(** ** Reading back the text of a time *)

Lemma dropWhile_head (p : ascii -> bool) (l : list ascii) :
  Forall (fun c => p c = false) l -> dropWhile p l = l.
Proof. intros [|c l' Hc _]; [reflexivity|]. cbn [dropWhile]. now rewrite Hc. Qed.

Lemma trim_plain (l : list ascii) :
  Forall (fun c => plainChar c = true) l -> trim (str l) = str l.
Proof.
  intros H. unfold trim, trimL, trimStartL, trimEndL. rewrite chars_str.
  assert (Hs : Forall (fun c => isSpace c = false) l).
  { eapply Forall_impl; [|exact H]. intros c Hc. unfold plainChar in Hc.
    apply andb_prop in Hc. destruct Hc as [Hc _]. now apply negb_true_iff. }
  rewrite (dropWhile_head _ l Hs).
  rewrite (dropWhile_head _ (rev l)) by now apply Forall_rev.
  now rewrite rev_involutive.
Qed.

Lemma stripBrackets_plain (l : list ascii) :
  Forall (fun c => plainChar c = true) l -> stripBrackets (str l) = str l.
Proof.
  intros H. unfold stripBrackets. rewrite chars_str. f_equal.
  induction H as [|c l Hc _ IH]; [reflexivity|]. cbn [filter].
  unfold plainChar in Hc. apply andb_prop in Hc. destruct Hc as [_ Hc].
  rewrite Hc, IH. reflexivity.
Qed.

Lemma digit_plain (c : ascii) : isDigit c = true -> plainChar c = true.
Proof.
  intros H. unfold plainChar. rewrite (digit_not_space c H).
  destruct c as [[] [] [] [] [] [] [] []]; try discriminate; reflexivity.
Qed.

Lemma digit_not_colon (c : ascii) : isDigit c = true -> Ascii.eqb c ":" = false.
Proof. destruct c as [[] [] [] [] [] [] [] []]; try discriminate; reflexivity. Qed.

Lemma splitOnL_field (cur ds rest : list ascii) :
  Forall (fun c => Ascii.eqb c ":" = false) ds ->
  splitOnL ":" cur (ds ++ ":"%char :: rest)
    = str (rev cur ++ ds) :: splitOnL ":" [] rest.
Proof.
  intros H. revert cur. induction H as [|c l Hc _ IH]; intros cur.
  - cbn [app splitOnL]. rewrite app_nil_r. reflexivity.
  - cbn [app splitOnL]. rewrite Hc, IH. cbn [rev]. now rewrite <- app_assoc.
Qed.

Lemma splitOnL_last (cur ds : list ascii) :
  Forall (fun c => Ascii.eqb c ":" = false) ds ->
  splitOnL ":" cur ds = [str (rev cur ++ ds)].
Proof.
  intros H. revert cur. induction H as [|c l Hc _ IH]; intros cur.
  - cbn [splitOnL]. now rewrite app_nil_r.
  - cbn [splitOnL]. rewrite Hc, IH. cbn [rev]. now rewrite <- app_assoc.
Qed.

Lemma parseInt_value (ds : list ascii) :
  allDigits ds -> ds <> [] -> parseInt (str ds) = ofZ (digitsValue ds).
Proof.
  intros Ha Hne. unfold parseInt. rewrite chars_str.
  destruct ds as [|c l]; [contradiction|].
  inversion Ha as [|? ? Hc Hl]; subst.
  unfold trimStartL. cbn [dropWhile]. rewrite (digit_not_space c Hc).
  rewrite (digit_no_sign c l Hc), (takeWhile_id isDigit (c :: l) Ha).
  destruct (Z.eqb_spec (digitsValue (c :: l)) 0) as [->|]; reflexivity.
Qed.

Lemma takeWhile_stop (a r : list ascii) (c : ascii) :
  allDigits a -> isDigit c = false ->
  takeWhile isDigit (a ++ c :: r) = a /\ dropWhile isDigit (a ++ c :: r) = c :: r.
Proof.
  intros Ha Hc. induction Ha as [|x a Hx _ [IH1 IH2]].
  - cbn [app takeWhile dropWhile]. rewrite Hc. split; reflexivity.
  - cbn [app takeWhile dropWhile]. rewrite Hx, IH1, IH2. split; reflexivity.
Qed.

Lemma dropWhile_all (a : list ascii) : allDigits a -> dropWhile isDigit a = [].
Proof.
  induction 1 as [|x a Hx _ IH]; [reflexivity|].
  cbn [dropWhile]. now rewrite Hx.
Qed.

(** [parseFloat] of digits, a point and digits. *)
Lemma parseFloat_value (a b : list ascii) :
  allDigits a -> a <> [] -> allDigits b ->
  parseFloat (str (a ++ "."%char :: b))
    = ofDecimal false (digitsValue (a ++ b)) (- Z.of_nat (List.length b)).
Proof.
  intros Ha Hne Hb. unfold parseFloat. rewrite chars_str.
  destruct a as [|c l]; [contradiction|].
  inversion Ha as [|? ? Hc Hl]; subst.
  unfold trimStartL. cbn [app dropWhile]. rewrite (digit_not_space c Hc).
  rewrite (digit_no_sign c _ Hc).
  assert (Hinf : isPrefixL (chars "Infinity") (c :: l ++ "."%char :: b) = false).
  { cbn. destruct c as [[] [] [] [] [] [] [] []]; try discriminate; reflexivity. }
  rewrite Hinf.
  destruct (takeWhile_stop (c :: l) b "."%char Ha eq_refl) as [E1 E2].
  cbn [app] in E1, E2. rewrite E1, E2.
  rewrite (takeWhile_id isDigit b Hb), (dropWhile_all b Hb).
  cbn [app]. reflexivity.
Qed.

End NumeralFacts.

(** ** The timestamp codec: writing a time and reading it back *)

Module RoundTrip.
Import JsNumber JsString JsConv Codec Binary64 Shapes FloatFacts DigitFacts.
Import RoundFacts NumeralFacts.

Lemma denotes_isTime (x : number) (v : Z) : denotes x v -> isTime x.
Proof. intros (H & _). now apply nonNegative_isTime. Qed.

Lemma rem_whole (x y : number) (v c : Z) :
  denotes x v -> denotes y c -> 0 < c < 2 ^ 2097 ->
  denotes (rem x y) (v mod c).
Proof.
  intros Hx (Hny & Hfy & Hky) Hc.
  destruct Hny as [| |my ey Hcy Hby]; [cbn [key] in Hky; lia|discriminate|].
  rewrite <- Hky. apply rem_denotes; [assumption|apply wf_finite; auto|lia].
Qed.

Lemma toString_ofZ (z : Z) : 0 <= z < 2 ^ 53 -> toString (ofZ z) = showZ z.
Proof.
  intros Hz. destruct (ofZ_denotes z Hz) as (Hnn & Hf & Hk).
  assert (HW : 0 < 2 ^ 1074) by (apply Z.pow_pos_nonneg; lia).
  destruct Hnn as [| |m e Hc Hb]; [|discriminate|].
  - cbn [key] in Hk. assert (z = 0) by lia. subst z. reflexivity.
  - pose proof (canonical_facts m e Hc) as (He & _).
    cbn [key cond_Zopp] in Hk.
    assert (Hi : integerValue (S754_finite false m e) = Some z).
    { unfold integerValue. destruct (Z.leb_spec 0 e) as [Hp|Hn].
      - cbn [cond_Zopp]. f_equal.
        rewrite Z.pow_add_r, Z.mul_assoc in Hk by lia.
        apply Z.mul_cancel_r in Hk; lia.
      - assert (Hm : Zpos m = z * 2 ^ (- e)).
        { replace (2 ^ 1074) with (2 ^ (- e) * 2 ^ (e + 1074)) in Hk
            by (rewrite <- Z.pow_add_r by lia; f_equal; lia).
          rewrite Z.mul_assoc in Hk.
          apply Z.mul_cancel_r in Hk; [assumption|].
          apply Z.pow_nonzero; lia. }
        cbv zeta. rewrite Z.shiftr_div_pow2, Z.shiftl_mul_pow2 by lia.
        rewrite Hm, Z.div_mul by (apply Z.pow_nonzero; lia).
        rewrite Z.eqb_refl. reflexivity. }
    unfold toString. rewrite Hi.
    destruct (Z.ltb_spec z (2 ^ 53)) as [|]; [reflexivity|lia].
Qed.

Lemma gt_ofZ (z : Z) : 0 <= z < 2 ^ 53 -> gt (ofZ z) (ofZ 0) = (0 <? z).
Proof.
  intros Hz. unfold gt. change (SFltb (ofZ 0) (ofZ z)) with (lt (ofZ 0) (ofZ z)).
  assert (HW : 0 < 2 ^ 1074) by (apply Z.pow_pos_nonneg; lia).
  rewrite lt_key by (eapply denotes_isTime; apply ofZ_denotes; lia).
  destruct (ofZ_denotes z Hz) as (_ & _ & ->).
  destruct (ofZ_denotes 0 ltac:(lia)) as (_ & _ & ->).
  destruct (Z.ltb_spec 0 z), (Z.ltb_spec (0 * 2 ^ 1074) (z * 2 ^ 1074)); lia.
Qed.

Lemma format_text (x : number) (v : Z) (p : precision) :
  denotes x v -> v < 2 ^ 32 * 2 ^ 1074 ->
  exists K, 0 <= K < scale p /\
    2 ^ 53 * (K * 2 ^ 1074 - scale p * (v mod 2 ^ 1074)) <= scale p * 2 ^ 1074 /\
    2 ^ 53 * (scale p * (v mod 2 ^ 1074) - K * 2 ^ 1074)
      < 2 ^ 53 * 2 ^ 1074 + scale p * 2 ^ 1074 /\
    formatTimestamp x p
      = timeText (v / (3600 * 2 ^ 1074))
                 ((v mod (3600 * 2 ^ 1074)) / (60 * 2 ^ 1074))
                 ((v mod (60 * 2 ^ 1074)) / 2 ^ 1074) K p.
Proof.
  intros Hx Hb.
  assert (HW : 0 < 2 ^ 1074) by (apply Z.pow_pos_nonneg; lia).
  assert (H64 : 2 ^ 64 <= 2 ^ 1074) by (apply Z.pow_le_mono_r; lia).
  pose proof (denotes_nonneg x v Hx) as Hv0.
  pose proof (clock_parts v (2 ^ 1074) HW Hv0) as (Hsum & HH & HM & HS & Hf).
  set (W := 2 ^ 1074) in *.
  assert (P32 : 2 ^ 32 = 4294967296) by reflexivity.
  assert (P52 : 2 ^ 52 = 4503599627370496) by reflexivity.
  assert (P53 : 2 ^ 53 = 9007199254740992) by reflexivity.
  assert (P64 : 2 ^ 64 = 18446744073709551616) by reflexivity.
  assert (Hlim : W < 2 ^ 2097) by (subst W; apply Z.pow_lt_mono_r; lia).
  assert (D3600 : denotes (ofZ 3600) (3600 * W)) by (apply ofZ_denotes; lia).
  assert (D60 : denotes (ofZ 60) (60 * W)) by (apply ofZ_denotes; lia).
  assert (D1 : denotes (ofZ 1) (1 * W)) by (apply ofZ_denotes; lia).
  assert (Dc : denotes (ofZ (scale p)) (scale p * W))
    by (apply ofZ_denotes; destruct p; cbn [scale]; lia).
  assert (Hb52 : v < 2 ^ 52 * W) by lia.
  assert (Hh : floor (div x (ofZ 3600)) = ofZ (v / (3600 * W)))
    by (apply floor_div; [assumption|assumption|assumption|lia]).
  assert (R3600 : denotes (rem x (ofZ 3600)) (v mod (3600 * W)))
    by (apply rem_whole; [assumption|assumption|lia]).
  pose proof (Z.mod_pos_bound v (3600 * W) ltac:(lia)) as B3600.
  pose proof (Z.mod_pos_bound v (60 * W) ltac:(lia)) as B60.
  assert (Hm : floor (div (rem x (ofZ 3600)) (ofZ 60))
               = ofZ ((v mod (3600 * W)) / (60 * W)))
    by (apply floor_div; [assumption|lia|assumption|lia]).
  assert (R60 : denotes (rem x (ofZ 60)) (v mod (60 * W)))
    by (apply rem_whole; [assumption|assumption|lia]).
  assert (Hs : floor (rem x (ofZ 60)) = ofZ ((v mod (60 * W)) / W))
    by (apply floor_denotes; [assumption|lia]).
  assert (R1 : denotes (rem x (ofZ 1)) (v mod (1 * W)))
    by (apply rem_whole; [assumption|assumption|lia]).
  rewrite Z.mul_1_l in R1.
  destruct (fraction_digits (rem x (ofZ 1)) (ofZ (scale p)) (v mod W) (scale p)
              R1 ltac:(lia) Dc ltac:(destruct p; cbn [scale]; lia))
    as (K & HKf & HK & Hup & Hlo).
  exists K. split; [assumption|]. split; [assumption|]. split; [assumption|].
  assert (Hnan : isNaN x = false).
  { destruct Hx as (_ & Hfin & _). destruct x; try discriminate; reflexivity. }
  assert (Hlt0 : lt x (ofZ 0) = false).
  { rewrite lt_key; [|eapply denotes_isTime; eassumption
                      |eapply denotes_isTime; apply ofZ_denotes; lia].
    destruct Hx as (_ & _ & ->).
    destruct (ofZ_denotes 0 ltac:(lia)) as (_ & _ & ->).
    apply Z.ltb_ge. lia. }
  unfold formatTimestamp. rewrite Hnan, Hlt0. cbn [orb]. cbv zeta.
  rewrite Hh, Hm, Hs.
  assert (Hfr : match p with
                | P3 => padStart0 3 (toString (floor (mul (rem x (ofZ 1)) (ofZ 1000))))
                | P2 => padStart0 2 (toString (floor (mul (rem x (ofZ 1)) (ofZ 100))))
                end = padStart0 (width p) (showZ K)).
  { destruct p; cbn [scale width] in *; rewrite HKf, toString_ofZ by lia; reflexivity. }
  rewrite Hfr.
  assert (v / (3600 * W) < 2 ^ 53).
  { apply Z.div_lt_upper_bound; [lia|].
    assert (W * 1 <= W * (3600 * 2 ^ 53)) by (apply Z.mul_le_mono_nonneg_l; lia).
    lia. }
  rewrite !toString_ofZ, gt_ofZ by lia.
  unfold timeText. reflexivity.
Qed.


(** ** Reading the text back *)

Lemma str_app (a b : list ascii) : (str a ++ str b)%string = str (a ++ b).
Proof.
  unfold str. induction a as [|c a IH]; [reflexivity|].
  cbn [string_of_list_ascii app append]. now rewrite IH.
Qed.

Lemma str_sep (c : ascii) (b : list ascii) :
  (String c EmptyString ++ str b)%string = str (c :: b).
Proof. reflexivity. Qed.

Lemma parseTimestamp_plain (l : list ascii) :
  l <> [] -> Forall (fun c => plainChar c = true) l ->
  parseTimestamp (str l)
  = match splitOnL ":" [] l with
    | [p0; p1; p2] =>
        add (add (mul (parseInt p0) (ofZ 3600)) (mul (parseInt p1) (ofZ 60)))
            (parseFloat p2)
    | [p0; p1] => add (mul (parseInt p0) (ofZ 60)) (parseFloat p1)
    | _ => if negb (isNaN (parseFloat (str l))) then parseFloat (str l)
           else ofZ 0
    end.
Proof.
  intros Hne Hp. destruct l as [|c l]; [contradiction|].
  unfold parseTimestamp. cbn [str string_of_list_ascii].
  change (String c (string_of_list_ascii l)) with (str (c :: l)).
  rewrite (trim_plain _ Hp), (stripBrackets_plain _ Hp).
  unfold splitOn. rewrite chars_str. reflexivity.
Qed.

Lemma parse_text (H M S K : Z) (p : precision) :
  0 <= H -> 0 <= M < 60 -> 0 <= S < 60 -> 0 <= K < scale p ->
  parseTimestamp (timeText H M S K p)
  = if 0 <? H
    then add (add (mul (ofZ H) (ofZ 3600)) (mul (ofZ M) (ofZ 60)))
             (ofDecimal false (S * scale p + K) (- Z.of_nat (width p)))
    else add (mul (ofZ M) (ofZ 60))
             (ofDecimal false (S * scale p + K) (- Z.of_nat (width p))).
Proof.
  intros HH HM HS HK.
  destruct (showZ_digits H HH) as (hd & EH & AH & NH & VH).
  destruct (padded_spec 2 100 M padded_two ltac:(lia)) as (md & EM & AM & LM & VM).
  destruct (padded_spec 2 100 S padded_two ltac:(lia)) as (sd & ES & AS & LS & VS).
  assert (HF : exists fd, padStart0 (width p) (showZ K) = str fd /\ allDigits fd /\
                          List.length fd = width p /\ digitsValue fd = K).
  { destruct p; cbn [scale width] in *.
    - apply (padded_spec 2 100 K padded_two). lia.
    - apply (padded_spec 3 1000 K padded_three). lia. }
  destruct HF as (fd & EK & AK & LK & VK).
  assert (Hsc : 10 ^ Z.of_nat (width p) = scale p) by (destruct p; reflexivity).
  assert (Nm : md <> []) by (destruct md; [discriminate|discriminate]).
  assert (Ns : sd <> []) by (destruct sd; [discriminate|discriminate]).
  assert (Pd : forall l, allDigits l -> Forall (fun c => plainChar c = true) l).
  { intros l Hl. eapply Forall_impl; [|exact Hl]. apply digit_plain. }
  assert (Cd : forall l, allDigits l -> Forall (fun c => Ascii.eqb c ":" = false) l).
  { intros l Hl. eapply Forall_impl; [|exact Hl]. apply digit_not_colon. }
  assert (Hlast : Forall (fun c => Ascii.eqb c ":" = false) (sd ++ "."%char :: fd)).
  { apply Forall_app. split; [now apply Cd|]. constructor; [reflexivity|now apply Cd]. }
  assert (Plast : Forall (fun c => plainChar c = true) (sd ++ "."%char :: fd)).
  { apply Forall_app. split; [now apply Pd|]. constructor; [reflexivity|now apply Pd]. }
  assert (Vsec : digitsValue (sd ++ fd) = S * scale p + K).
  { rewrite digitsValue_app, VS, VK, LK, Hsc. reflexivity. }
  unfold timeText. rewrite EH, EM, ES, EK.
  destruct (0 <? H).
  - repeat (rewrite str_sep || rewrite str_app).
    repeat (first [rewrite <- app_assoc | progress (cbn [app])]).
    rewrite parseTimestamp_plain.
    + rewrite (splitOnL_field [] hd _ (Cd hd AH)).
      rewrite (splitOnL_field [] md _ (Cd md AM)).
      rewrite (splitOnL_last [] _ Hlast). cbn [rev app].
      rewrite (parseInt_value hd AH NH), (parseInt_value md AM Nm).
      rewrite (parseFloat_value sd fd AS Ns AK).
      rewrite VH, VM, Vsec, LK. reflexivity.
    + destruct hd; [contradiction|discriminate].
    + apply Forall_app. split; [now apply Pd|]. constructor; [reflexivity|].
      apply Forall_app. split; [now apply Pd|]. constructor; [reflexivity|].
      exact Plast.
  - repeat (rewrite str_sep || rewrite str_app).
    repeat (first [rewrite <- app_assoc | progress (cbn [app])]).
    rewrite parseTimestamp_plain.
    + rewrite (splitOnL_field [] md _ (Cd md AM)).
      rewrite (splitOnL_last [] _ Hlast). cbn [rev app].
      rewrite (parseInt_value md AM Nm).
      rewrite (parseFloat_value sd fd AS Ns AK).
      rewrite VM, Vsec, LK. reflexivity.
    + destruct md; [contradiction|discriminate].
    + apply Forall_app. split; [now apply Pd|]. constructor; [reflexivity|].
      exact Plast.
Qed.


(** The text of 1 h 2 min 3.45 s read back. *)
Lemma parse_text_witness :
  parseTimestamp (timeText 1 2 3 45 P2)
  = add (add (mul (ofZ 1) (ofZ 3600)) (mul (ofZ 2) (ofZ 60)))
        (ofDecimal false (3 * scale P2 + 45) (- Z.of_nat (width P2))).
Proof.
  apply (parse_text 1 2 3 45 P2); cbn [scale]; lia.
Defined.

(** ** The round trip *)

Lemma sum_within (I sec x : number) (A S K v : Z) (p : precision) :
  denotes x v -> denotes I (A * 2 ^ 1074) -> 0 <= A ->
  rounds sec ((S * scale p + K) * 2 ^ 1074) (scale p) ->
  v = (A + S) * 2 ^ 1074 + v mod 2 ^ 1074 ->
  0 <= S < 60 -> v < 2 ^ 32 * 2 ^ 1074 -> 0 <= K < scale p ->
  2 ^ 53 * (K * 2 ^ 1074 - scale p * (v mod 2 ^ 1074)) <= scale p * 2 ^ 1074 ->
  2 ^ 53 * (scale p * (v mod 2 ^ 1074) - K * 2 ^ 1074)
    < 2 ^ 53 * 2 ^ 1074 + scale p * 2 ^ 1074 ->
  (Qabs (toQ (add I sec) - toQ x) < unitOf p + (1 # 1000000))%Q.
Proof.
  intros Hx HI HA Hsec Hsum HS Hb HK Hup Hlo.
  assert (HW : 0 < 2 ^ 1074) by (apply Z.pow_pos_nonneg; lia).
  assert (H64 : 2 ^ 64 <= 2 ^ 1074) by (apply Z.pow_le_mono_r; lia).
  assert (H2097 : 2 ^ 1074 * 2 ^ 40 <= 2 ^ 2097).
  { rewrite <- Z.pow_add_r by lia. apply Z.pow_le_mono_r; lia. }
  pose proof (Z.mod_pos_bound v (2 ^ 1074) HW) as Hf.
  assert (Hc : scale p = 100 \/ scale p = 1000) by (destruct p; auto).
  assert (Hc0 : 0 < scale p) by lia.
  pose proof (rounds_error sec _ (scale p) Hc0 Hsec) as Esec.
  destruct Hsec as (Hns & Hfs & _).
  pose proof (nonNegative_key sec Hns) as Hs0.
  set (W := 2 ^ 1074) in *. set (f := v mod W) in *.
  set (c := scale p) in *. set (d := S * c + K) in *.
  assert (P32 : 2 ^ 32 = 4294967296) by reflexivity.
  assert (P40 : 2 ^ 40 = 1099511627776) by reflexivity.
  assert (P52 : 2 ^ 52 = 4503599627370496) by reflexivity.
  assert (P53 : 2 ^ 53 = 9007199254740992) by reflexivity.
  assert (P64 : 2 ^ 64 = 18446744073709551616) by reflexivity.
  assert (HAW : 0 <= A * W) by (apply Z.mul_nonneg_nonneg; lia).
  assert (HSW : 0 <= S * W <= 59 * W).
  { split; [apply Z.mul_nonneg_nonneg; lia|apply Z.mul_le_mono_nonneg_r; lia]. }
  assert (HKW : 0 <= K * W <= c * W).
  { split; [apply Z.mul_nonneg_nonneg; lia|apply Z.mul_le_mono_nonneg_r; lia]. }
  assert (HdW : d * W = c * (S * W) + K * W) by (subst d; ring).
  assert (Hlim : A * W + S * W + W <= 2 ^ 32 * W).
  { assert (H1 : (A + S) * W < 2 ^ 32 * W) by lia.
    apply Z.mul_lt_mono_pos_r in H1; [|assumption].
    assert (H2 : (A + S + 1) * W <= 2 ^ 32 * W)
      by (apply Z.mul_le_mono_nonneg_r; lia).
    lia. }
  assert (Hsb : key sec < 61 * W).
  { destruct (Z.abs_spec (key sec * c - d * W)) as [[? E]|[? E]];
      rewrite E in Esec;
      destruct (Z.max_spec (d * W) (2 ^ 52 * c)) as [[? M]|[? M]];
      rewrite M in Esec; destruct Hc as [Hc|Hc]; rewrite Hc in *; lia. }
  destruct HI as (HnI & HfI & HkI).
  assert (Hr : rounds (add I sec) (key I + key sec) 1).
  { apply add_rounds; try assumption. rewrite HkI. lia. }
  pose proof (rounds_error _ _ 1 ltac:(lia) Hr) as Efin.
  rewrite HkI in Efin.
  pose proof (round_trip_error c W v A S f K d (key sec) (key (add I sec))
                Hc H64 Hsum Hf HS HA Hlim HK Hup Hlo eq_refl Esec Hs0 Efin) as Hbound.
  assert (HR : denotes (add I sec) (key (add I sec))).
  { destruct Hr as (Hn & Hfin & _). repeat split; assumption. }
  subst c. destruct p; cbn [scale unitOf] in *.
  - change ((1 # 100) + (1 # 1000000))%Q with (1000100 # 100000000)%Q.
    apply (Qabs_diff_key _ _ _ v _ _ HR Hx). fold W. lia.
  - change ((1 # 1000) + (1 # 1000000))%Q with (1001000 # 1000000000)%Q.
    apply (Qabs_diff_key _ _ _ v _ _ HR Hx). fold W. lia.
Qed.

(** C1, amended: for a time from zero up to [2^32] seconds, the text made
    of it reads back within one unit of the last digit written plus a
    millionth of a second.  The unit alone is not a bound: the floor is
    taken of a rounded product, and the sum read back is rounded again. *)
Theorem round_trip_within (s : number) (p : precision) :
  isTime s -> ge s (ofZ 0) = true -> lt s (ofZ 4294967296) = true ->
  (Qabs (toQ (parseTimestamp (formatTimestamp s p)) - toQ s)
   < unitOf p + (1 # 1000000))%Q.
Proof.
  intros [Hwf Hnan] Hge Hlt.
  destruct s as [b|b| |b m e]; try discriminate.
  - destruct b, p; vm_compute; reflexivity.
  - destruct b; discriminate.
  - destruct b; [discriminate|].
    assert (HW : 0 < 2 ^ 1074) by (apply Z.pow_pos_nonneg; lia).
    assert (P32 : 2 ^ 32 = 4294967296) by reflexivity.
    assert (P53 : 2 ^ 53 = 9007199254740992) by reflexivity.
    set (x := S754_finite false m e) in *.
    assert (Hx : denotes x (key x)).
    { apply wf_finite in Hwf. destruct Hwf as [Hc Hb].
      split; [constructor; assumption|]. split; reflexivity. }
    pose proof (denotes_nonneg _ _ Hx) as Hv0.
    assert (Hb : key x < 2 ^ 32 * 2 ^ 1074).
    { rewrite lt_key in Hlt;
        [|eapply denotes_isTime; eassumption
         |eapply denotes_isTime; apply ofZ_denotes; lia].
      destruct (ofZ_denotes 4294967296 ltac:(lia)) as (_ & _ & E).
      rewrite E in Hlt. apply Z.ltb_lt in Hlt. lia. }
    set (v := key x) in *.
    destruct (format_text x v p Hx Hb) as (K & HK & Hup & Hlo & ->).
    pose proof (clock_parts v (2 ^ 1074) HW Hv0) as (Hsum & HH & HM & HS & Hf).
    set (H := v / (3600 * 2 ^ 1074)) in *.
    set (M := (v mod (3600 * 2 ^ 1074)) / (60 * 2 ^ 1074)) in *.
    set (S := (v mod (60 * 2 ^ 1074)) / 2 ^ 1074) in *.
    rewrite (parse_text H M S K p HH HM HS HK).
    assert (Hsec : rounds (ofDecimal false (S * scale p + K) (- Z.of_nat (width p)))
                          ((S * scale p + K) * 2 ^ 1074) (scale p)).
    { assert (Hsc : 10 ^ (- - Z.of_nat (width p)) = scale p)
        by (destruct p; reflexivity).
      assert (Hc : 0 < scale p <= 1000) by (destruct p; cbn [scale]; lia).
      assert (HSc : 0 <= S * scale p <= 59 * scale p).
      { split; [apply Z.mul_nonneg_nonneg; lia|apply Z.mul_le_mono_nonneg_r; lia]. }
      destruct (Z.eq_dec (S * scale p + K) 0) as [E0|Hn0].
      - rewrite E0. cbn [ofDecimal]. rewrite Z.mul_0_l. apply rounds_zero. lia.
      - rewrite <- Hsc at 3. apply ofDecimal_rounds; [lia|].
        destruct p; cbn [width]; lia. }
    assert (HH32 : H < 2 ^ 32).
    { subst H. apply Z.div_lt_upper_bound; lia. }
    assert (D60 : denotes (mul (ofZ M) (ofZ 60)) (M * 60 * 2 ^ 1074)).
    { apply mul_denotes; try (apply ofZ_denotes; lia); lia. }
    destruct (Z.ltb_spec 0 H) as [Hpos|Hz].
    + apply (sum_within _ _ x (H * 3600 + M * 60) S K v p); try assumption; try lia.
      replace ((H * 3600 + M * 60) * 2 ^ 1074)
        with (H * 3600 * 2 ^ 1074 + M * 60 * 2 ^ 1074) by ring.
      apply add_denotes; [|assumption| |].
      * apply mul_denotes; try (apply ofZ_denotes; lia); lia.
      * replace (H * 3600 * 2 ^ 1074 + M * 60 * 2 ^ 1074)
          with ((H * 3600 + M * 60) * 2 ^ 1074) by ring.
        apply onGrid_scaled; lia.
      * assert (2 ^ 1074 * 2 ^ 53 <= 2 ^ 2097).
        { rewrite <- Z.pow_add_r by lia. apply Z.pow_le_mono_r; lia. }
        lia.
    + assert (H = 0) by lia.
      apply (sum_within _ _ x (M * 60) S K v p); try assumption; lia.
Qed.

(** The bound at 0.58 seconds, where the text is one hundredth short. *)
Lemma round_trip_within_witness :
  isTime (parseFloat "0.58") /\
  ge (parseFloat "0.58") (ofZ 0) = true /\
  lt (parseFloat "0.58") (ofZ 4294967296) = true /\
  (Qabs (toQ (parseTimestamp (formatTimestamp (parseFloat "0.58") P2))
         - toQ (parseFloat "0.58"))
   < unitOf P2 + (1 # 1000000))%Q.
Proof.
  assert (H1 : isTime (parseFloat "0.58")) by (split; vm_compute; reflexivity).
  assert (H2 : ge (parseFloat "0.58") (ofZ 0) = true) by (vm_compute; reflexivity).
  assert (H3 : lt (parseFloat "0.58") (ofZ 4294967296) = true)
    by (vm_compute; reflexivity).
  exact (conj H1 (conj H2 (conj H3
           (round_trip_within (parseFloat "0.58") P2 H1 H2 H3)))).
Defined.

End RoundTrip.

Module CodecMore.
Import JsNumber JsString JsConv Codec Binary64 Shapes FloatFacts DigitFacts.
Import RoundFacts NumeralFacts RoundTrip MoreProps.

(** In the text of a time below [2^32] seconds the hours, the minutes and
    the seconds are the whole seconds of the time, split exactly: no
    rounding of the divisions shows in them. *)
Theorem formatTimestamp_fields (s : number) (p : precision) :
  isTime s -> ge s (ofZ 0) = true -> lt s (ofZ 4294967296) = true ->
  exists H M S K,
    formatTimestamp s p = timeText H M S K p /\
    0 <= H /\ 0 <= M < 60 /\ 0 <= S < 60 /\ 0 <= K < scale p /\
    (inject_Z (3600 * H + 60 * M + S) <= toQ s
     < inject_Z (3600 * H + 60 * M + S + 1))%Q.
Proof.
  intros [Hwf Hnan] Hge Hlt.
  destruct s as [b|b| |b m e]; try discriminate.
  - exists 0, 0, 0, 0.
    split; [destruct b, p; reflexivity|].
    destruct p; cbn [scale]; repeat split; try lia; vm_compute; congruence.
  - destruct b; discriminate.
  - destruct b; [discriminate|].
    assert (HW : 0 < 2 ^ 1074) by (apply Z.pow_pos_nonneg; lia).
    assert (P32 : 2 ^ 32 = 4294967296) by reflexivity.
    assert (P53 : 2 ^ 53 = 9007199254740992) by reflexivity.
    set (x := S754_finite false m e) in *.
    assert (Hx : denotes x (key x)).
    { apply wf_finite in Hwf. destruct Hwf as [Hc Hb].
      split; [constructor; assumption|]. split; reflexivity. }
    pose proof (denotes_nonneg _ _ Hx) as Hv0.
    assert (Hb : key x < 2 ^ 32 * 2 ^ 1074).
    { rewrite lt_key in Hlt;
        [|eapply denotes_isTime; eassumption
         |eapply denotes_isTime; apply ofZ_denotes; lia].
      destruct (ofZ_denotes 4294967296 ltac:(lia)) as (_ & _ & E).
      rewrite E in Hlt. apply Z.ltb_lt in Hlt. lia. }
    destruct (format_text x (key x) p Hx Hb) as (K & HK & _ & _ & E).
    pose proof (clock_parts (key x) (2 ^ 1074) HW Hv0) as (Hsum & HH & HM & HS & Hf).
    eexists _, _, _, K. split; [exact E|].
    split; [assumption|]. split; [assumption|]. split; [assumption|].
    split; [assumption|].
    assert (HWp : Zpos (Z.to_pos (2 ^ 1074)) = 2 ^ 1074) by (apply Z2Pos.id; lia).
    rewrite (toQ_key x (key x) Hx).
    unfold Qle, Qlt. cbn [Qnum Qden inject_Z]. rewrite HWp. lia.
Qed.


Lemma time_cases (s : number) (n : Z) :
  isTime s -> ge s (ofZ 0) = true -> lt s (ofZ n) = true -> 0 <= n < 2 ^ 53 ->
  (exists b, s = S754_zero b) \/
  (denotes s (key s) /\ key s < n * 2 ^ 1074).
Proof.
  intros [Hwf Hnan] Hge Hlt Hn.
  destruct s as [b|b| |b m e]; try discriminate.
  - left. now exists b.
  - destruct b; [discriminate|].
    destruct (ofZ n) as [?|[]| |[] ? ?]; discriminate.
  - destruct b; [discriminate|]. right.
    set (x := S754_finite false m e) in *.
    assert (Hx : denotes x (key x)).
    { apply wf_finite in Hwf. destruct Hwf as [Hc Hb].
      split; [constructor; assumption|]. split; reflexivity. }
    split; [assumption|].
    rewrite lt_key in Hlt;
      [|eapply denotes_isTime; eassumption
       |eapply denotes_isTime; apply ofZ_denotes; lia].
    destruct (ofZ_denotes n Hn) as (_ & _ & E).
    rewrite E in Hlt. now apply Z.ltb_lt in Hlt.
Qed.

Lemma length_str (l : list ascii) : String.length (str l) = List.length l.
Proof. unfold str. induction l as [|c l IH]; [reflexivity|]. cbn. now rewrite IH. Qed.

Lemma timeText_length (M S K : Z) (p : precision) :
  0 <= M < 60 -> 0 <= S < 60 -> 0 <= K < scale p ->
  String.length (timeText 0 M S K p) = (6 + width p)%nat.
Proof.
  intros HM HS HK.
  destruct (padded_spec 2 100 M padded_two ltac:(lia)) as (md & EM & AM & LM & VM).
  destruct (padded_spec 2 100 S padded_two ltac:(lia)) as (sd & ES & AS & LS & VS).
  assert (HF : exists fd, padStart0 (width p) (showZ K) = str fd /\ allDigits fd /\
                          List.length fd = width p /\ digitsValue fd = K).
  { destruct p; cbn [scale width] in *.
    - apply (padded_spec 2 100 K padded_two). lia.
    - apply (padded_spec 3 1000 K padded_three). lia. }
  destruct HF as (fd & EK & AK & LK & VK).
  unfold timeText. change (0 <? 0) with false. cbv iota.
  rewrite EM, ES, EK.
  repeat (rewrite str_sep || rewrite str_app).
  rewrite length_str.
  repeat first [rewrite length_app | progress cbn [List.length]]. lia.
Qed.

(** Below one hour the text has a fixed width: two digits of minutes, two
    of seconds and the digits of the fraction, with their separators. *)
Theorem formatTimestamp_length (s : number) (p : precision) :
  isTime s -> ge s (ofZ 0) = true -> lt s (ofZ 3600) = true ->
  String.length (formatTimestamp s p) = (6 + width p)%nat.
Proof.
  intros Ht Hge Hlt.
  assert (P53 : 2 ^ 53 = 9007199254740992) by reflexivity.
  assert (P32 : 2 ^ 32 = 4294967296) by reflexivity.
  assert (HW : 0 < 2 ^ 1074) by (apply Z.pow_pos_nonneg; lia).
  destruct (time_cases s 3600 Ht Hge Hlt ltac:(lia)) as [[b ->]|[Hx Hb]].
  - destruct b, p; reflexivity.
  - pose proof (denotes_nonneg _ _ Hx) as Hv0.
    destruct (format_text s (key s) p Hx ltac:(lia)) as (K & HK & _ & _ & ->).
    pose proof (clock_parts (key s) (2 ^ 1074) HW Hv0) as (_ & _ & HM & HS & _).
    rewrite (Z.div_small (key s) (3600 * 2 ^ 1074)) by lia.
    now apply timeText_length.
Qed.

(** ** Brackets around a time *)

Lemma bracket_not_space (c : ascii) : isBracket c = true -> isSpace c = false.
Proof. destruct c as [[] [] [] [] [] [] [] []]; try discriminate; reflexivity. Qed.

Lemma parseTimestamp_clean (a b : string) :
  a <> EmptyString -> b <> EmptyString ->
  stripBrackets (trim a) = stripBrackets (trim b) ->
  parseTimestamp a = parseTimestamp b.
Proof.
  intros Ha Hb H. destruct a as [|x a]; [contradiction|].
  destruct b as [|y b]; [contradiction|].
  unfold parseTimestamp. cbv zeta. rewrite H. reflexivity.
Qed.

Lemma str_chars (s : string) : str (chars s) = s.
Proof. apply string_of_list_ascii_of_string. Qed.

Lemma chars_app (a b : string) : chars (a ++ b) = (chars a ++ chars b)%list.
Proof.
  unfold chars. induction a as [|c a IH]; [reflexivity|].
  cbn [append list_ascii_of_string app]. now rewrite IH.
Qed.

Lemma trimL_ends (a : ascii) (mid : list ascii) (z : ascii) :
  isSpace a = false -> isSpace z = false ->
  trimL (a :: mid ++ [z]) = (a :: mid ++ [z])%list.
Proof.
  intros Ha Hz. unfold trimL, trimStartL, trimEndL.
  cbn [dropWhile]. rewrite Ha.
  replace (rev (a :: mid ++ [z])) with (z :: rev (a :: mid)).
  - cbn [dropWhile]. rewrite Hz.
    change (z :: rev (a :: mid)) with ([z] ++ rev (a :: mid))%list.
    rewrite rev_app_distr, rev_involutive. reflexivity.
  - change (a :: mid ++ [z])%list with ((a :: mid) ++ [z])%list.
    rewrite rev_app_distr. reflexivity.
Qed.

(** The square or angle brackets around a time change nothing: a stamp
    of a line and a tag of a word read as the bare time does. *)
Theorem parseTimestamp_brackets (t : string) (opening closing : ascii) :
  isBracket opening = true -> isBracket closing = true -> trim t = t ->
  parseTimestamp (String opening (t ++ String closing EmptyString))
    = parseTimestamp t.
Proof.
  intros Ho Hc Ht.
  set (l := (chars t ++ [closing])%list).
  assert (Hchars : chars (String opening (t ++ String closing EmptyString))
                   = opening :: l).
  { unfold chars. cbn [list_ascii_of_string]. f_equal.
    apply (chars_app t (String closing EmptyString)). }
  assert (Htrim : trim (String opening (t ++ String closing EmptyString))
                  = String opening (t ++ String closing EmptyString)).
  { unfold trim. rewrite Hchars. subst l.
    rewrite (trimL_ends _ _ _ (bracket_not_space _ Ho) (bracket_not_space _ Hc)).
    rewrite <- Hchars. apply str_chars. }
  assert (Hstrip : stripBrackets (String opening (t ++ String closing EmptyString))
                   = stripBrackets t).
  { unfold stripBrackets. rewrite Hchars. subst l. cbn [filter].
    rewrite Ho. cbn [negb]. rewrite filter_app. cbn [filter].
    rewrite Hc. cbn [negb]. now rewrite app_nil_r. }
  destruct t as [|c t'] eqn:Et.
  - cbn [append]. unfold parseTimestamp. cbv zeta.
    change (String opening (String closing EmptyString))
      with (String opening (EmptyString ++ String closing EmptyString)).
    rewrite Htrim, Hstrip. reflexivity.
  - rewrite <- Et in *. apply parseTimestamp_clean.
    + discriminate.
    + rewrite Et. discriminate.
    + rewrite Htrim, Hstrip, Ht. reflexivity.
Qed.

(** The fields of the text for 75 seconds. *)
Lemma formatTimestamp_fields_witness :
  exists H M S K,
    formatTimestamp (ofZ 75) P2 = timeText H M S K P2 /\
    0 <= H /\ 0 <= M < 60 /\ 0 <= S < 60 /\ 0 <= K < scale P2 /\
    (inject_Z (3600 * H + 60 * M + S) <= toQ (ofZ 75)
     < inject_Z (3600 * H + 60 * M + S + 1))%Q.
Proof.
  assert (H1 : isTime (ofZ 75)) by (split; vm_compute; reflexivity).
  assert (H2 : ge (ofZ 75) (ofZ 0) = true) by (vm_compute; reflexivity).
  assert (H3 : lt (ofZ 75) (ofZ 4294967296) = true)
    by (vm_compute; reflexivity).
  exact (formatTimestamp_fields (ofZ 75) P2 H1 H2 H3).
Defined.

(** The width of the text for 75 seconds with three fraction digits. *)
Lemma formatTimestamp_length_witness :
  String.length (formatTimestamp (ofZ 75) P3) = (6 + width P3)%nat.
Proof.
  assert (H1 : isTime (ofZ 75)) by (split; vm_compute; reflexivity).
  assert (H2 : ge (ofZ 75) (ofZ 0) = true) by (vm_compute; reflexivity).
  assert (H3 : lt (ofZ 75) (ofZ 3600) = true) by (vm_compute; reflexivity).
  exact (formatTimestamp_length (ofZ 75) P3 H1 H2 H3).
Defined.

(** A stamp in square brackets. *)
Lemma parseTimestamp_brackets_witness :
  parseTimestamp "[01:02.50]" = parseTimestamp "01:02.50".
Proof.
  exact (parseTimestamp_brackets "01:02.50" "[" "]" eq_refl eq_refl eq_refl).
Defined.

End CodecMore.

(** ** The shift never goes below zero *)

Module ShiftMore.
Import JsNumber JsString JsConv Codec Shift Editor MoreProps.

Lemma shiftTime_notBelowZero (o t : number) : notBelowZero (shiftTime o t).
Proof.
  unfold shiftTime, notBelowZero. change (ofZ 0) with (S754_zero false).
  destruct (add t o) as [s|s| |s m e]; try destruct s; cbn; auto.
Qed.

Lemma shiftEnd_notBelowZero (o : number) (e : option number) :
  endNotBelowZero (shiftEnd o e).
Proof.
  destruct e as [t|]; cbn [shiftEnd]; [|exact I].
  destruct (truthy t); [apply shiftTime_notBelowZero|exact I].
Qed.

(** Whatever the document and the offset, no time of the shifted document
    is below zero: each is at least zero, or [NaN]. *)
Theorem shiftTimestamps_not_below_zero (doc : LyricsDocument.t) (o : number) :
  Forall lineNotBelowZero (LyricsDocument.lines (shiftTimestamps doc o)).
Proof.
  unfold shiftTimestamps. cbn [LyricsDocument.lines].
  apply Forall_map. apply Forall_forall. intros l _.
  split; [apply shiftTime_notBelowZero|].
  split; [apply shiftEnd_notBelowZero|].
  cbn [shiftLine TimedLine.words]. apply Forall_map. apply Forall_forall.
  intros w _. split; [apply shiftTime_notBelowZero|apply shiftEnd_notBelowZero].
Qed.

Lemma shiftTime_nan (t : number) : shiftTime NaN t = NaN.
Proof. unfold shiftTime, add. destruct t; reflexivity. Qed.

(** An offset text that [parseTimestamp] reads as [NaN] wipes the times:
    every start time of the document handed on is [NaN], while the
    feedback reports a shift by zero. *)
Theorem handleBatchShift_not_a_time (doc : LyricsDocument.t)
    (shiftOffset : string) (d : direction) :
  isNaN (parseTimestamp shiftOffset) = true ->
  Forall lineStartsNaN (LyricsDocument.lines (fst (handleBatchShift doc shiftOffset d))) /\
  snd (handleBatchShift doc shiftOffset d)
    = ("Shifted all by " ++ (match d with Forward => "+" | Backward => "-" end)
       ++ "00:00.000")%string.
Proof.
  intros H. unfold handleBatchShift. cbv zeta. cbn [fst snd].
  destruct (parseTimestamp shiftOffset); try discriminate.
  split; [|destruct d; reflexivity].
  change (mul S754_nan (directionValue d)) with NaN.
  unfold shiftTimestamps. cbn [LyricsDocument.lines].
  apply Forall_map. apply Forall_forall. intros l _.
  split; [cbn [shiftLine TimedLine.startTime]; now rewrite shiftTime_nan|].
  cbn [shiftLine TimedLine.words]. apply Forall_map. apply Forall_forall.
  intros w _. cbn [shiftWord TimedWord.startTime]. now rewrite shiftTime_nan.
Qed.

(** The offset text "a:b" on a document of one line. *)
Lemma handleBatchShift_not_a_time_witness :
  Forall lineStartsNaN
    (LyricsDocument.lines
       (fst (handleBatchShift
               (LrcParser.parseLRC Props.sampleIds "[00:01.00]One two")
               "a:b" Backward))) /\
  snd (handleBatchShift
         (LrcParser.parseLRC Props.sampleIds "[00:01.00]One two")
         "a:b" Backward)
    = "Shifted all by -00:00.000"%string.
Proof.
  exact (handleBatchShift_not_a_time
           (LrcParser.parseLRC Props.sampleIds "[00:01.00]One two")
           "a:b" Backward eq_refl).
Defined.

End ShiftMore.

Module EditorFacts.
Import JsNumber JsString JsConv Editor.

Lemma replaceAt_length {A : Type} (i : nat) (x : A) (l : list A) :
  List.length (replaceAt i x l) = List.length l.
Proof.
  revert i; induction l as [|y r IH]; intros [|j]; cbn; auto.
Qed.

Lemma replaceAt_middle {A : Type} (pre : list A) (x y : A) (post : list A) :
  replaceAt (List.length pre) x (pre ++ y :: post) = (pre ++ x :: post)%list.
Proof.
  induction pre as [|z pre IH]; cbn; [reflexivity|now rewrite IH].
Qed.

Lemma nth_error_two {A : Type} (l : list A) (k : nat) (a b : A) :
  nth_error l k = Some a -> nth_error l (S k) = Some b ->
  exists pre post, l = (pre ++ a :: b :: post)%list /\ List.length pre = k.
Proof.
  revert k; induction l as [|y r IH]; intros [|k] Ha Hb; cbn in *;
    try discriminate.
  - injection Ha as ->. destruct r as [|z r]; cbn in Hb; [discriminate|].
    injection Hb as ->. now exists [], r.
  - destruct (IH k Ha Hb) as (pre & post & -> & <-).
    now exists (y :: pre), post.
Qed.

Lemma flat_map_two {A B : Type} (f : A -> list B) (pre post : list A)
    (a b : A) :
  flat_map f (pre ++ a :: b :: post) =
  (flat_map f pre ++ (f a ++ f b) ++ flat_map f post)%list.
Proof.
  rewrite flat_map_app. cbn [flat_map]. now rewrite (app_assoc (f a)).
Qed.

Lemma replace_two {A : Type} (pre post : list A) (a b a' b' : A) :
  replaceAt (S (List.length pre)) b'
    (replaceAt (List.length pre) a' (pre ++ a :: b :: post)) =
  (pre ++ a' :: b' :: post)%list /\
  replaceAt (List.length pre) a'
    (replaceAt (S (List.length pre)) b' (pre ++ a :: b :: post)) =
  (pre ++ a' :: b' :: post)%list.
Proof.
  split.
  - rewrite replaceAt_middle.
    replace (S (List.length pre)) with (List.length (pre ++ [a'])%list)
      by (rewrite length_app; cbn; lia).
    replace (pre ++ a' :: b :: post)%list with ((pre ++ [a']) ++ b :: post)%list
      by (now rewrite <- app_assoc).
    rewrite replaceAt_middle. now rewrite <- app_assoc.
  - replace (S (List.length pre)) with (List.length (pre ++ [a])%list)
      by (rewrite length_app; cbn; lia).
    replace (pre ++ a :: b :: post)%list with ((pre ++ [a]) ++ b :: post)%list
      by (now rewrite <- app_assoc).
    rewrite replaceAt_middle. rewrite <- app_assoc. cbn [app].
    apply replaceAt_middle.
Qed.

Lemma lineAt_some (lines : list TimedLine.t) (i : Z) (l : TimedLine.t) :
  lineAt lines i = Some l ->
  0 <= i /\ nth_error lines (Z.to_nat i) = Some l.
Proof.
  unfold lineAt. destruct (Z.ltb_spec i 0); [discriminate|]. now split.
Qed.

(** Moving a word keeps the number of lines and the words of the document
    in their order; only the boundary between two neighbouring lines
    moves. *)
Theorem moveWord_keeps_words (lines : list TimedLine.t) (lineIndex : Z)
    (d : wordDirection) (newLines : list TimedLine.t) :
  moveWord lines lineIndex d = Updated newLines ->
  List.length newLines = List.length lines /\
  flat_map TimedLine.words newLines = flat_map TimedLine.words lines.
Proof.
  unfold moveWord. destruct d.
  - destruct (Z.leb_spec lineIndex 0) as [|Hpos]; [discriminate|].
    destruct (lineAt lines lineIndex) as [cur|] eqn:Ec; [|discriminate].
    destruct (TimedLine.words cur) as [|w ws] eqn:Ew; [discriminate|].
    destruct (lineAt lines (lineIndex - 1)) as [tgt|] eqn:Et; [|discriminate].
    intros [= <-].
    apply lineAt_some in Ec as [_ Ec]. apply lineAt_some in Et as [_ Et].
    replace (Z.to_nat lineIndex) with (S (Z.to_nat (lineIndex - 1))) in *
      by lia.
    destruct (nth_error_two _ _ _ _ Et Ec) as (pre & post & -> & <-).
    rewrite (proj2 (replace_two pre post tgt cur _ _)).
    split; [rewrite !length_app; reflexivity|].
    rewrite !flat_map_two. cbn [withWords TimedLine.words]. rewrite Ew.
    do 2 f_equal. now rewrite <- app_assoc.
  - destruct (Z.geb_spec lineIndex (Z.of_nat (List.length lines) - 1))
      as [|Hlt]; [discriminate|].
    destruct (lineAt lines lineIndex) as [cur|] eqn:Ec; [|discriminate].
    destruct (rev (TimedLine.words cur)) as [|w ws] eqn:Ew; [discriminate|].
    destruct (lineAt lines (lineIndex + 1)) as [tgt|] eqn:Et; [|discriminate].
    intros [= <-].
    apply lineAt_some in Ec as [H0 Ec]. apply lineAt_some in Et as [_ Et].
    replace (Z.to_nat (lineIndex + 1)) with (S (Z.to_nat lineIndex)) in *
      by lia.
    destruct (nth_error_two _ _ _ _ Ec Et) as (pre & post & -> & <-).
    rewrite (proj1 (replace_two pre post cur tgt _ _)).
    split; [rewrite !length_app; reflexivity|].
    rewrite !flat_map_two. cbn [withWords TimedLine.words].
    rewrite <- (rev_involutive (TimedLine.words cur)), Ew. cbn [rev].
    do 2 f_equal. now rewrite <- app_assoc.
Qed.

(** Where the call throws: moving up from an index past the last line, or
    moving down from a negative index (other than -1 on an empty
    document).  On every index of the document it returns or updates. *)
Theorem moveWord_throws (lines : list TimedLine.t) (lineIndex : Z)
    (d : wordDirection) :
  moveWord lines lineIndex d = Thrown <->
  match d with
  | Up => 0 < lineIndex /\ Z.of_nat (List.length lines) <= lineIndex
  | Down => lineIndex < 0 /\ lineIndex < Z.of_nat (List.length lines) - 1
  end.
Proof.
  unfold moveWord. destruct d.
  - destruct (Z.leb_spec lineIndex 0) as [|Hpos];
      [split; [discriminate|lia]|].
    unfold lineAt at 1. destruct (Z.ltb_spec lineIndex 0); [lia|].
    destruct (nth_error lines (Z.to_nat lineIndex)) as [cur|] eqn:Ec.
    + assert (Hin : (Z.to_nat lineIndex < List.length lines)%nat)
        by (apply nth_error_Some; congruence).
      unfold lineAt. destruct (Z.ltb_spec (lineIndex - 1) 0); [lia|].
      destruct (nth_error lines (Z.to_nat (lineIndex - 1))) as [tgt|] eqn:Et.
      * destruct (TimedLine.words cur); split; try discriminate; lia.
      * apply nth_error_None in Et. lia.
    + apply nth_error_None in Ec. split; [lia|reflexivity].
  - destruct (Z.geb_spec lineIndex (Z.of_nat (List.length lines) - 1))
      as [|Hlt]; [split; [discriminate|lia]|].
    unfold lineAt at 1. destruct (Z.ltb_spec lineIndex 0) as [Hneg|Hnn].
    + split; [lia|reflexivity].
    + destruct (nth_error lines (Z.to_nat lineIndex)) as [cur|] eqn:Ec.
      * unfold lineAt. destruct (Z.ltb_spec (lineIndex + 1) 0); [lia|].
        destruct (nth_error lines (Z.to_nat (lineIndex + 1))) as [tgt|] eqn:Et.
        -- destruct (rev (TimedLine.words cur)); split; try discriminate; lia.
        -- apply nth_error_None in Et. lia.
      * apply nth_error_None in Ec. lia.
Qed.

(** The first word of the second line moved up. *)
Lemma moveWord_keeps_words_witness :
  exists newLines,
    moveWord MoreProps.twoLines 1 Up = Updated newLines /\
    List.length newLines = List.length MoreProps.twoLines /\
    flat_map TimedLine.words newLines
      = flat_map TimedLine.words MoreProps.twoLines.
Proof.
  destruct (moveWord MoreProps.twoLines 1 Up) as [|newLines|] eqn:E;
    [vm_compute in E; discriminate| |vm_compute in E; discriminate].
  exists newLines. split; [reflexivity|].
  exact (moveWord_keeps_words MoreProps.twoLines 1 Up newLines E).
Defined.

Lemma nth_error_middle {A : Type} (pre : list A) (a : A) (post : list A) :
  nth_error (pre ++ a :: post) (List.length pre) = Some a.
Proof.
  rewrite nth_error_app2 by lia. now rewrite Nat.sub_diag.
Qed.

Lemma nth_error_after {A : Type} (pre : list A) (a b : A) (post : list A) :
  nth_error (pre ++ a :: b :: post) (S (List.length pre)) = Some b.
Proof.
  rewrite nth_error_app2 by lia.
  replace (S (List.length pre) - List.length pre)%nat with 1%nat by lia.
  reflexivity.
Qed.

(** Moving the last word of a line down and then the first word of the
    next line up gives every line its words back. *)
Theorem moveWord_down_up (lines : list TimedLine.t) (lineIndex : Z)
    (moved : list TimedLine.t) :
  moveWord lines lineIndex Down = Updated moved ->
  exists restored,
    moveWord moved (lineIndex + 1) Up = Updated restored /\
    map TimedLine.words restored = map TimedLine.words lines /\
    map TimedLine.id restored = map TimedLine.id lines.
Proof.
  unfold moveWord at 1.
  destruct (Z.geb_spec lineIndex (Z.of_nat (List.length lines) - 1))
    as [|Hlt]; [discriminate|].
  destruct (lineAt lines lineIndex) as [cur|] eqn:Ec; [|discriminate].
  destruct (rev (TimedLine.words cur)) as [|w ws] eqn:Ew; [discriminate|].
  destruct (lineAt lines (lineIndex + 1)) as [tgt|] eqn:Et; [|discriminate].
  intros [= <-].
  apply lineAt_some in Ec as [H0 Ec]. apply lineAt_some in Et as [_ Et].
  replace (Z.to_nat (lineIndex + 1)) with (S (Z.to_nat lineIndex)) in *
    by lia.
  destruct (nth_error_two _ _ _ _ Ec Et) as (pre & post & -> & Hpre).
  rewrite <- Hpre.
  rewrite (proj1 (replace_two pre post cur tgt _ _)).
  unfold moveWord.
  destruct (Z.leb_spec (lineIndex + 1) 0) as [|_]; [lia|].
  unfold lineAt.
  destruct (Z.ltb_spec (lineIndex + 1) 0) as [|_]; [lia|].
  destruct (Z.ltb_spec (lineIndex + 1 - 1) 0) as [|_]; [lia|].
  replace (Z.to_nat (lineIndex + 1 - 1)) with (List.length pre) by lia.
  replace (Z.to_nat (lineIndex + 1)) with (S (List.length pre)) by lia.
  rewrite nth_error_after, nth_error_middle.
  cbn [withWords TimedLine.words TimedLine.startTime].
  eexists. split; [reflexivity|].
  rewrite (proj2 (replace_two pre post _ _ _ _)).
  rewrite !map_app. cbn [map withWords TimedLine.words TimedLine.id].
  rewrite <- (rev_involutive (TimedLine.words cur)), Ew. cbn [rev].
  split; reflexivity.
Qed.

(** The last word of the first of two lines moved down and up again. *)
Lemma moveWord_down_up_witness :
  exists moved restored,
    moveWord MoreProps.twoLines 0 Down = Updated moved /\
    moveWord moved (0 + 1) Up = Updated restored /\
    map TimedLine.words restored = map TimedLine.words MoreProps.twoLines /\
    map TimedLine.id restored = map TimedLine.id MoreProps.twoLines.
Proof.
  destruct (moveWord MoreProps.twoLines 0 Down) as [|moved|] eqn:E;
    [vm_compute in E; discriminate| |vm_compute in E; discriminate].
  destruct (moveWord_down_up MoreProps.twoLines 0 moved E)
    as (restored & H).
  exists moved, restored. split; [reflexivity|exact H].
Defined.

End EditorFacts.

Module PreviewFacts.
Import JsNumber JsConv Props Binary64 Shapes FloatFacts Preview.

Lemma findIndexFrom_spec {A : Type} (p : A -> nat -> bool) (l : list A)
    (k : nat) :
  (findIndexFrom p l k = -1 /\
   forall j x, nth_error l j = Some x -> p x (k + j)%nat = false) \/
  (exists j x,
     findIndexFrom p l k = Z.of_nat (k + j) /\ nth_error l j = Some x /\
     p x (k + j)%nat = true /\
     forall j' y, (j' < j)%nat -> nth_error l j' = Some y ->
                  p y (k + j')%nat = false).
Proof.
  revert k; induction l as [|a r IH]; intros k; cbn [findIndexFrom].
  - left. split; [reflexivity|]. intros [|j] x; discriminate.
  - destruct (p a k) eqn:Ea.
    + right. exists 0%nat, a. rewrite Nat.add_0_r.
      repeat split; auto. intros j' y Hj; lia.
    + destruct (IH (S k)) as [[E Hn]|(j & x & E & Hx & Hp & Hn)].
      * left. split; [exact E|]. intros [|j] x Hx; cbn in Hx.
        -- injection Hx as <-. now rewrite Nat.add_0_r.
        -- rewrite Nat.add_succ_r. now apply Hn.
      * right. exists (S j), x. rewrite Nat.add_succ_r.
        repeat split; auto. intros [|j'] y Hj Hy; cbn in Hy.
        -- injection Hy as <-. now rewrite Nat.add_0_r.
        -- rewrite Nat.add_succ_r. apply Hn; [lia|exact Hy].
Qed.

Lemma ge_or_lt (t x : number) :
  isTime t -> isTime x -> lt t x = false -> ge t x = true.
Proof.
  intros Ht Hx. unfold ge. fold (le x t).
  rewrite (lt_key _ _ Ht Hx), (le_key _ _ Hx Ht).
  intros H. apply Z.ltb_ge in H. now apply Z.leb_le.
Qed.

Lemma some_line_active (t : number) (r pre : list TimedLine.t)
    (x : TimedLine.t) :
  isTime t -> Forall timed r -> ge t (TimedLine.startTime x) = true ->
  exists j y, nth_error (pre ++ x :: r) j = Some y /\
              isActive t (pre ++ x :: r) y j = true.
Proof.
  intros Ht. revert pre x; induction r as [|z r IH]; intros pre x Hr Hx.
  - exists (List.length pre), x. unfold isActive.
    rewrite !nth_error_app2 by lia.
    replace (S (List.length pre) - List.length pre)%nat with 1%nat by lia.
    rewrite Nat.sub_diag. cbn [nth_error]. now rewrite Hx.
  - inversion Hr as [|? ? Hz Hr']; subst.
    destruct (lt t (TimedLine.startTime z)) eqn:Ez.
    + exists (List.length pre), x. unfold isActive.
      rewrite !nth_error_app2 by lia.
      replace (S (List.length pre) - List.length pre)%nat with 1%nat by lia.
      rewrite Nat.sub_diag. cbn [nth_error]. now rewrite Hx, Ez.
    + destruct (IH (pre ++ [x])%list z Hr' (ge_or_lt _ _ Ht Hz Ez))
        as (j & y & Hy & Ha).
      rewrite <- app_assoc in Hy, Ha. cbn [app] in Hy, Ha.
      now exists j, y.
Qed.

(** Once the playback position has reached the start of the first line,
    some line is active: the index is that of a line which has started and
    whose successor, when there is one, has not.  The lines need not be in
    order. *)
Theorem activeLineIndex_exists (currentTime : number)
    (lines : list TimedLine.t) (first : TimedLine.t) :
  isTime currentTime -> Forall timed lines ->
  nth_error lines 0 = Some first ->
  ge currentTime (TimedLine.startTime first) = true ->
  exists i line,
    activeLineIndex currentTime lines = Z.of_nat i /\
    nth_error lines i = Some line /\
    ge currentTime (TimedLine.startTime line) = true /\
    forall nextLine, nth_error lines (S i) = Some nextLine ->
                     lt currentTime (TimedLine.startTime nextLine) = true.
Proof.
  intros Ht Hl H0 Hf.
  destruct lines as [|first' rest]; [discriminate|].
  cbn [nth_error] in H0. injection H0 as ->.
  inversion Hl as [|? ? _ Hr]; subst.
  destruct (some_line_active currentTime rest [] first Ht Hr Hf)
    as (j & y & Hy & Ha). cbn [app] in Hy, Ha.
  unfold activeLineIndex, findIndex.
  destruct (findIndexFrom_spec (isActive currentTime (first :: rest))
              (first :: rest) 0)
    as [[_ Hn]|(i & x & E & Hx & Hp & _)].
  - specialize (Hn j y Hy). cbn [Nat.add] in Hn. congruence.
  - exists i, x. cbn [Nat.add] in E, Hp. unfold isActive in Hp.
    apply andb_true_iff in Hp as [Hg Hnext].
    repeat split; auto. intros n Hnx. now rewrite Hnx in Hnext.
Qed.

Lemma ascending_nth (ls : list TimedLine.t) :
  Forall timed ls -> ascending ls ->
  forall j k a b, (j <= k)%nat ->
    nth_error ls j = Some a -> nth_error ls k = Some b ->
    key (TimedLine.startTime a) <= key (TimedLine.startTime b).
Proof.
  unfold ascending.
  induction ls as [|x ls IH]; intros Ht Hs j k a b Hjk Ha Hb.
  - destruct j; discriminate.
  - inversion Ht as [|? ? Hx Hts]; subst.
    cbn [map] in Hs. inversion Hs as [|? ? Hs' Hall]; subst.
    destruct j as [|j], k as [|k]; cbn [nth_error] in Ha, Hb; try lia.
    + injection Ha as <-. injection Hb as <-. lia.
    + injection Ha as <-.
      assert (Hin : In (TimedLine.startTime b) (map TimedLine.startTime ls))
        by (apply in_map; eapply nth_error_In; eauto).
      rewrite Forall_forall in Hall. specialize (Hall _ Hin).
      rewrite Forall_forall in Hts.
      assert (Hb' : timed b) by (apply Hts; eapply nth_error_In; eauto).
      rewrite (le_key _ _ Hx Hb') in Hall. now apply Z.leb_le.
    + apply (IH Hts Hs' j k); auto; lia.
Qed.

(** On lines in ascending order of start time the active line is the last
    one that has started: the lines up to it have started, those after it
    have not. *)
Theorem activeLineIndex_last_started (currentTime : number)
    (lines : list TimedLine.t) (first : TimedLine.t) :
  isTime currentTime -> Forall timed lines -> ascending lines ->
  nth_error lines 0 = Some first ->
  ge currentTime (TimedLine.startTime first) = true ->
  exists i,
    activeLineIndex currentTime lines = Z.of_nat i /\
    (i < List.length lines)%nat /\
    forall j line, nth_error lines j = Some line ->
      (ge currentTime (TimedLine.startTime line) = true <-> (j <= i)%nat).
Proof.
  intros Ht Hl Hs H0 Hf.
  destruct (activeLineIndex_exists currentTime lines first Ht Hl H0 Hf)
    as (i & x & E & Hx & Hg & Hnext).
  exists i. split; [exact E|].
  assert (Hi : (i < List.length lines)%nat)
    by (apply nth_error_Some; congruence).
  split; [exact Hi|].
  intros j line Hj.
  assert (Tl : timed line)
    by (rewrite Forall_forall in Hl; apply Hl; eapply nth_error_In; eauto).
  assert (Tx : timed x)
    by (rewrite Forall_forall in Hl; apply Hl; eapply nth_error_In; eauto).
  unfold ge in *. fold (le (TimedLine.startTime line) currentTime).
  fold (le (TimedLine.startTime x) currentTime) in Hg.
  rewrite (le_key _ _ Tl Ht). rewrite (le_key _ _ Tx Ht) in Hg.
  apply Z.leb_le in Hg. rewrite Z.leb_le.
  split.
  - intros Hle. destruct (Nat.le_gt_cases j i) as [|Hgt]; [assumption|].
    exfalso.
    assert (Hj' : (j < List.length lines)%nat)
      by (apply nth_error_Some; congruence).
    destruct (nth_error lines (S i)) as [n|] eqn:En;
      [|apply nth_error_None in En; lia].
    assert (Tn : timed n)
      by (rewrite Forall_forall in Hl; apply Hl; eapply nth_error_In; eauto).
    specialize (Hnext n eq_refl). rewrite (lt_key _ _ Ht Tn) in Hnext.
    apply Z.ltb_lt in Hnext.
    pose proof (ascending_nth _ Hl Hs (S i) j n line ltac:(lia) En Hj). lia.
  - intros Hji.
    pose proof (ascending_nth _ Hl Hs j i line x Hji Hj Hx). lia.
Qed.

(** Before the first line of an ascending document starts, and whenever the
    position is not a number, no line is active: the index is -1. *)
Theorem activeLineIndex_none (currentTime : number)
    (lines : list TimedLine.t) :
  Forall timed lines -> ascending lines ->
  (isNaN currentTime = true \/
   isTime currentTime /\
   forall first, nth_error lines 0 = Some first ->
                 lt currentTime (TimedLine.startTime first) = true) ->
  activeLineIndex currentTime lines = -1.
Proof.
  intros Hl Hs Hc. unfold activeLineIndex, findIndex.
  destruct (findIndexFrom_spec (isActive currentTime lines) lines 0)
    as [[E _]|(i & x & _ & Hx & Hp & _)]; [exact E|].
  exfalso. unfold isActive in Hp. apply andb_true_iff in Hp as [Hg _].
  destruct Hc as [Hn|[Ht Hfirst]].
  - destruct currentTime; try discriminate.
    unfold ge, SFleb, SFcompare in Hg.
    destruct (TimedLine.startTime x); discriminate.
  - destruct lines as [|f r]; [destruct i; discriminate|].
    specialize (Hfirst f eq_refl).
    assert (Tf : timed f) by (now inversion Hl).
    assert (Tx : timed x)
      by (rewrite Forall_forall in Hl; apply Hl; eapply nth_error_In; eauto).
    pose proof (ascending_nth _ Hl Hs 0 i f x ltac:(lia) eq_refl Hx).
    rewrite (lt_key _ _ Ht Tf) in Hfirst. apply Z.ltb_lt in Hfirst.
    unfold ge in Hg. fold (le (TimedLine.startTime x) currentTime) in Hg.
    rewrite (le_key _ _ Tx Ht) in Hg. apply Z.leb_le in Hg. lia.
Qed.

Lemma twoLines_timed : Forall timed MoreProps.twoLines.
Proof. vm_compute. repeat constructor. Qed.

Lemma twoLines_ascending : ascending MoreProps.twoLines.
Proof. unfold ascending. vm_compute. repeat constructor. Qed.

(** Two seconds into two lines that start at 1 and at 3 seconds. *)
Lemma activeLineIndex_exists_witness :
  exists i line,
    activeLineIndex (ofZ 2) MoreProps.twoLines = Z.of_nat i /\
    nth_error MoreProps.twoLines i = Some line /\
    ge (ofZ 2) (TimedLine.startTime line) = true /\
    forall nextLine, nth_error MoreProps.twoLines (S i) = Some nextLine ->
                     lt (ofZ 2) (TimedLine.startTime nextLine) = true.
Proof.
  assert (H1 : isTime (ofZ 2)) by (split; vm_compute; reflexivity).
  destruct (nth_error MoreProps.twoLines 0) as [first|] eqn:E;
    [|vm_compute in E; discriminate].
  assert (H2 : ge (ofZ 2) (TimedLine.startTime first) = true)
    by (vm_compute in E; injection E as <-; vm_compute; reflexivity).
  exact (activeLineIndex_exists (ofZ 2) MoreProps.twoLines first
           H1 twoLines_timed E H2).
Defined.

(** Four seconds into the same lines: both have started. *)
Lemma activeLineIndex_last_started_witness :
  exists i,
    activeLineIndex (ofZ 4) MoreProps.twoLines = Z.of_nat i /\
    (i < List.length MoreProps.twoLines)%nat /\
    forall j line, nth_error MoreProps.twoLines j = Some line ->
      (ge (ofZ 4) (TimedLine.startTime line) = true <-> (j <= i)%nat).
Proof.
  assert (H1 : isTime (ofZ 4)) by (split; vm_compute; reflexivity).
  destruct (nth_error MoreProps.twoLines 0) as [first|] eqn:E;
    [|vm_compute in E; discriminate].
  assert (H2 : ge (ofZ 4) (TimedLine.startTime first) = true)
    by (vm_compute in E; injection E as <-; vm_compute; reflexivity).
  exact (activeLineIndex_last_started (ofZ 4) MoreProps.twoLines first
           H1 twoLines_timed twoLines_ascending E H2).
Defined.

(** Half a second in, before the first of the two lines. *)
Lemma activeLineIndex_none_witness :
  activeLineIndex (parseFloat "0.5") MoreProps.twoLines = -1.
Proof.
  apply (activeLineIndex_none (parseFloat "0.5") MoreProps.twoLines
           twoLines_timed twoLines_ascending).
  right. split; [split; vm_compute; reflexivity|].
  intros first E. vm_compute in E. injection E as <-.
  vm_compute. reflexivity.
Defined.

End PreviewFacts.

(** ** The undo history *)

Module HistoryFacts.
Import App.

Lemma step_bounds (st : state) (a : action) :
  0 <= historyIndex st < Z.of_nat (List.length (history st)) ->
  Z.of_nat (List.length (history st)) <= 50 ->
  lyricsDoc st <> None ->
  0 <= historyIndex (step st a)
    < Z.of_nat (List.length (history (step st a))) /\
  Z.of_nat (List.length (history (step st a))) <= 50 /\
  lyricsDoc (step st a) <> None.
Proof.
  intros Hi Hl Hd. destruct a as [d b| |]; cbn [step].
  - unfold updateLyricsDoc.
    destruct (b && negb (isUndoRedoAction st));
      cbn [historyIndex history lyricsDoc]; [|repeat split; try lia; discriminate].
    unfold sliceTo. destruct (Z.ltb_spec (historyIndex st + 1) 0); [lia|].
    set (pushed := (firstn (Z.to_nat (historyIndex st + 1)) (history st)
                    ++ [d])%list).
    assert (Hp : Z.of_nat (List.length pushed) = historyIndex st + 2).
    { unfold pushed. rewrite length_app, length_firstn. cbn [List.length]. lia. }
    destruct (Z.ltb_spec 50 (Z.of_nat (List.length pushed))) as [Hover|Hfit].
    + assert (Ht : Z.of_nat (List.length (tl pushed))
                   = Z.of_nat (List.length pushed) - 1).
      { destruct pushed; cbn [tl List.length] in *; lia. }
      repeat split; try lia; discriminate.
    + repeat split; try lia; discriminate.
  - unfold undo. destruct (Z.ltb_spec 0 (historyIndex st));
      cbn [historyIndex history lyricsDoc]; [|repeat split; try lia; exact Hd].
    repeat split; try lia. unfold item.
    destruct (Z.ltb_spec (historyIndex st - 1) 0); [lia|].
    apply nth_error_Some. lia.
  - unfold redo.
    destruct (Z.ltb_spec (historyIndex st)
                (Z.of_nat (List.length (history st)) - 1));
      cbn [historyIndex history lyricsDoc]; [|repeat split; try lia; exact Hd].
    repeat split; try lia. unfold item.
    destruct (Z.ltb_spec (historyIndex st + 1) 0); [lia|].
    apply nth_error_Some. lia.
Qed.

Lemma fold_bounds (actions : list action) (st : state) :
  0 <= historyIndex st < Z.of_nat (List.length (history st)) ->
  Z.of_nat (List.length (history st)) <= 50 ->
  lyricsDoc st <> None ->
  0 <= historyIndex (fold_left step actions st)
    < Z.of_nat (List.length (history (fold_left step actions st))) /\
  Z.of_nat (List.length (history (fold_left step actions st))) <= 50 /\
  lyricsDoc (fold_left step actions st) <> None.
Proof.
  revert st; induction actions as [|a r IH]; intros st Hi Hl Hd;
    cbn [fold_left]; [auto|].
  destruct (step_bounds st a Hi Hl Hd) as (Hi' & Hl' & Hd').
  now apply IH.
Qed.

(** Whatever the user does, the history cursor stays on an entry of the
    history, the history holds at most fifty documents, and the document
    on display is never [undefined]. *)
Theorem history_bounds (actions : list action) :
  0 <= historyIndex (run actions)
    < Z.of_nat (List.length (history (run actions))) /\
  Z.of_nat (List.length (history (run actions))) <= 50 /\
  lyricsDoc (run actions) <> None.
Proof.
  unfold run. apply fold_bounds; cbn; try lia. discriminate.
Qed.

Lemma item_last {A : Type} (l : list A) (x : A) :
  item (l ++ [x]) (Z.of_nat (List.length l)) = Some x.
Proof.
  unfold item. destruct (Z.ltb_spec (Z.of_nat (List.length l)) 0); [lia|].
  rewrite Nat2Z.id, nth_error_app2 by lia. now rewrite Nat.sub_diag.
Qed.

Lemma item_tl {A : Type} (l : list A) (i : Z) :
  0 <= i -> item (tl l) i = item l (i + 1).
Proof.
  intros Hi. unfold item.
  destruct (Z.ltb_spec i 0); [lia|]. destruct (Z.ltb_spec (i + 1) 0); [lia|].
  replace (Z.to_nat (i + 1)) with (S (Z.to_nat i)) by lia.
  destruct l as [|x l]; [now destruct (Z.to_nat i)|reflexivity].
Qed.

Lemma item_pushed {A : Type} (l : list A) (x : A) (i : Z) :
  0 <= i < Z.of_nat (List.length l) ->
  item (firstn (Z.to_nat (i + 1)) l ++ [x]) i = item l i.
Proof.
  intros Hi. unfold item. destruct (Z.ltb_spec i 0); [lia|].
  rewrite nth_error_app1 by (rewrite length_firstn; lia).
  rewrite nth_error_firstn.
  destruct (Nat.ltb_spec (Z.to_nat i) (Z.to_nat (i + 1))); [reflexivity|lia].
Qed.

Lemma update_undo_redo (st : state) (d : LyricsDocument.t) :
  0 <= historyIndex st < Z.of_nat (List.length (history st)) ->
  Z.of_nat (List.length (history st)) <= 50 ->
  isUndoRedoAction st = false ->
  lyricsDoc (undo (updateLyricsDoc st d true))
    = item (history st) (historyIndex st) /\
  lyricsDoc (redo (undo (updateLyricsDoc st d true))) = Some d.
Proof.
  intros Hi Hl Hf. unfold updateLyricsDoc. rewrite Hf. cbn [andb negb].
  unfold sliceTo. destruct (Z.ltb_spec (historyIndex st + 1) 0); [lia|].
  set (kept := firstn (Z.to_nat (historyIndex st + 1)) (history st)).
  assert (Hk : Z.of_nat (List.length kept) = historyIndex st + 1)
    by (unfold kept; rewrite length_firstn; lia).
  assert (Hp : Z.of_nat (List.length (kept ++ [d])) = historyIndex st + 2)
    by (rewrite length_app; cbn [List.length]; lia).
  destruct (Z.ltb_spec 50 (Z.of_nat (List.length (kept ++ [d]))))
    as [Hover|Hfit].
  - assert (Ht : Z.of_nat (List.length (tl (kept ++ [d])))
                 = historyIndex st + 1)
      by (destruct (kept ++ [d])%list; cbn [tl List.length] in *; lia).
    unfold undo. cbn [historyIndex history].
    destruct (Z.ltb_spec 0 (Z.of_nat (List.length (tl (kept ++ [d]))) - 1));
      [|lia].
    cbn [lyricsDoc]. split.
    + rewrite item_tl by lia. rewrite Ht.
      replace (historyIndex st + 1 - 1 - 1 + 1) with (historyIndex st) by lia.
      unfold kept. now apply item_pushed.
    + unfold redo. cbn [historyIndex history].
      destruct (Z.ltb_spec (Z.of_nat (List.length (tl (kept ++ [d]))) - 1 - 1)
                  (Z.of_nat (List.length (tl (kept ++ [d]))) - 1)); [|lia].
      cbn [lyricsDoc]. rewrite item_tl by lia. rewrite Ht.
      replace (historyIndex st + 1 - 1 - 1 + 1 + 1)
        with (Z.of_nat (List.length kept)) by lia.
      apply item_last.
  - unfold undo. cbn [historyIndex history].
    destruct (Z.ltb_spec 0 (Z.of_nat (List.length (kept ++ [d])) - 1)); [|lia].
    cbn [lyricsDoc]. split.
    + rewrite Hp. replace (historyIndex st + 2 - 1 - 1) with (historyIndex st)
        by lia.
      unfold kept. now apply item_pushed.
    + unfold redo. cbn [historyIndex history].
      destruct (Z.ltb_spec (Z.of_nat (List.length (kept ++ [d])) - 1 - 1)
                  (Z.of_nat (List.length (kept ++ [d])) - 1)); [|lia].
      cbn [lyricsDoc]. rewrite Hp.
      replace (historyIndex st + 2 - 1 - 1 + 1)
        with (Z.of_nat (List.length kept)) by lia.
      apply item_last.
Qed.

(** An edit that is recorded can be undone and redone: undo shows the
    document the history cursor was on before the edit, and redo shows the
    edited document again. *)
Theorem update_then_undo (actions : list action) (newDoc : LyricsDocument.t) :
  isUndoRedoAction (run actions) = false ->
  lyricsDoc (undo (updateLyricsDoc (run actions) newDoc true))
    = item (history (run actions)) (historyIndex (run actions)) /\
  lyricsDoc (redo (undo (updateLyricsDoc (run actions) newDoc true)))
    = Some newDoc.
Proof.
  intros Hf. destruct (history_bounds actions) as (Hi & Hl & _).
  now apply update_undo_redo.
Qed.

(** The edit made right after an undo is not recorded: the history and
    the cursor stay as the undo left them, and a redo replaces the edited
    document by the one that was undone. *)
Theorem edit_after_undo_not_recorded (actions : list action)
    (newDoc : LyricsDocument.t) :
  0 < historyIndex (run actions) ->
  history (updateLyricsDoc (undo (run actions)) newDoc true)
    = history (run actions) /\
  historyIndex (updateLyricsDoc (undo (run actions)) newDoc true)
    = historyIndex (run actions) - 1 /\
  lyricsDoc (updateLyricsDoc (undo (run actions)) newDoc true)
    = Some newDoc /\
  lyricsDoc (redo (updateLyricsDoc (undo (run actions)) newDoc true))
    = item (history (run actions)) (historyIndex (run actions)).
Proof.
  intros Hpos. destruct (history_bounds actions) as (Hi & Hl & _).
  unfold undo. destruct (Z.ltb_spec 0 (historyIndex (run actions))); [|lia].
  unfold updateLyricsDoc. cbn [isUndoRedoAction andb negb history historyIndex
                               lyricsDoc].
  repeat split. unfold redo. cbn [history historyIndex].
  destruct (Z.ltb_spec (historyIndex (run actions) - 1)
              (Z.of_nat (List.length (history (run actions))) - 1)); [|lia].
  cbn [lyricsDoc]. f_equal. lia.
Qed.

(** An edit on the mounted application. *)
Lemma update_then_undo_witness :
  lyricsDoc (undo (updateLyricsDoc (run []) emptyDoc true))
    = item (history (run [])) (historyIndex (run [])) /\
  lyricsDoc (redo (undo (updateLyricsDoc (run []) emptyDoc true)))
    = Some emptyDoc.
Proof.
  exact (update_then_undo [] emptyDoc eq_refl).
Defined.

(** An edit, an undo, and a second edit. *)
Lemma edit_after_undo_not_recorded_witness :
  history (updateLyricsDoc (undo (run [Update emptyDoc true])) emptyDoc true)
    = history (run [Update emptyDoc true]) /\
  historyIndex
    (updateLyricsDoc (undo (run [Update emptyDoc true])) emptyDoc true)
    = historyIndex (run [Update emptyDoc true]) - 1 /\
  lyricsDoc
    (updateLyricsDoc (undo (run [Update emptyDoc true])) emptyDoc true)
    = Some emptyDoc /\
  lyricsDoc
    (redo (updateLyricsDoc (undo (run [Update emptyDoc true])) emptyDoc true))
    = item (history (run [Update emptyDoc true]))
           (historyIndex (run [Update emptyDoc true])).
Proof.
  exact (edit_after_undo_not_recorded [Update emptyDoc true] emptyDoc
           eq_refl).
Defined.

End HistoryFacts.

(** ** The generated TTML is detected as TTML *)

Module DetectFacts.
Import JsString Generate Parser.

Lemma isPrefixL_app (p l r : list ascii) :
  isPrefixL p l = true -> isPrefixL p (l ++ r) = true.
Proof.
  revert l; induction p as [|a p IH]; intros [|b l] H; cbn in *;
    try reflexivity; try discriminate.
  apply andb_true_iff in H as [Hab Hp]. rewrite Hab. now apply IH.
Qed.

Lemma includesL_app (l r p : list ascii) :
  includesL l p = true -> includesL (l ++ r) p = true.
Proof.
  induction l as [|b l IH]; cbn [includesL app]; intros H.
  - rewrite orb_false_r in H. destruct p; [|discriminate].
    destruct r; reflexivity.
  - apply orb_true_iff in H as [H|H].
    + change (b :: l ++ r)%list with ((b :: l) ++ r)%list.
      now rewrite (isPrefixL_app _ _ r H).
    + rewrite (IH H). apply orb_true_r.
Qed.

Lemma includes_append (s r p : string) :
  includes s p = true -> includes (s ++ r) p = true.
Proof.
  assert (E : chars (s ++ r)%string = (chars s ++ chars r)%list).
  { unfold chars. induction s as [|c s IH]; [reflexivity|].
    cbn [append list_ascii_of_string app]. now rewrite IH. }
  unfold includes. intros H. rewrite E. now apply includesL_app.
Qed.

(** Whatever the document, the text [generateTTML] writes is detected as
    TTML, so [parseLyrics] without a format hands it to the TTML parser. *)
Theorem detectFormat_generateTTML (randomId : Ids.supply)
    (parseFromString : string -> Dom.Document) (doc : LyricsDocument.t) :
  detectFormat (generateTTML doc) = TTML /\
  parseLyrics randomId parseFromString (generateTTML doc) None
    = Ttml.parseTTML randomId parseFromString (generateTTML doc).
Proof.
  assert (H : detectFormat (generateTTML doc) = TTML).
  { unfold detectFormat, generateTTML. cbv zeta.
    rewrite includes_append; [reflexivity|]. vm_compute. reflexivity. }
  split; [exact H|]. unfold parseLyrics. now rewrite H.
Qed.

End DetectFacts.

(** ** The voices of the editor *)

Module VoiceFacts.
Import JsString Lrc Shapes DigitFacts NumeralFacts Voices.

Lemma voiceName_inj (a b : Z) :
  0 <= a -> 0 <= b -> voiceName a = voiceName b -> a = b.
Proof.
  intros Ha Hb H. unfold voiceName in H. cbn [append] in H.
  injection H as H.
  destruct (showZ_digits a Ha) as (da & Ea & _ & _ & Va).
  destruct (showZ_digits b Hb) as (db & Eb & _ & _ & Vb).
  rewrite Ea, Eb in H.
  assert (E : da = db).
  { rewrite <- (chars_str da), <- (chars_str db). now rewrite H. }
  congruence.
Qed.

Lemma includesName_In (current : list string) (name : string) :
  includesName current name = true <-> In name current.
Proof.
  unfold includesName. rewrite existsb_exists. split.
  - intros (x & Hx & E). apply String.eqb_eq in E. now subst.
  - intros H. exists name. split; [assumption|apply String.eqb_refl].
Qed.

Lemma nextFree_cases (fuel : nat) (current : list string) (start : Z) :
  (forall k, (k < fuel)%nat ->
             In (voiceName (start + Z.of_nat k)) current) \/
  (exists n, nextFree fuel current start = Some n /\ start <= n /\
             ~ In (voiceName n) current).
Proof.
  revert start; induction fuel as [|fuel IH]; intros start.
  - left. intros k Hk. lia.
  - cbn [nextFree].
    destruct (includesName current (voiceName start)) eqn:E.
    + apply includesName_In in E.
      destruct (IH (start + 1)) as [Hall|(n & Hn & Hle & Hfree)].
      * left. intros [|k] Hk.
        -- now rewrite Z.add_0_r.
        -- replace (start + Z.of_nat (S k)) with (start + 1 + Z.of_nat k)
             by lia.
           apply Hall. lia.
      * right. exists n. repeat split; [assumption|lia|assumption].
    + right. exists start. repeat split; [lia|].
      intros Hin. apply includesName_In in Hin. congruence.
Qed.

(** The [while] loop stops: among [k + 1] names in a row one is not in an
    array of [k] names. *)
Lemma nextFree_some (current : list string) (start : Z) :
  0 <= start ->
  exists n, nextFree (S (List.length current)) current start = Some n /\
            start <= n /\ ~ In (voiceName n) current.
Proof.
  intros Hs.
  destruct (nextFree_cases (S (List.length current)) current start)
    as [Hall|H]; [exfalso|exact H].
  set (names := map (fun k => voiceName (start + Z.of_nat k))
                    (seq 0 (S (List.length current)))).
  assert (Hnd : NoDup names).
  { unfold names. apply NoDup_map_NoDup_ForallPairs; [|apply seq_NoDup].
    intros a b _ _ E. apply voiceName_inj in E; lia. }
  assert (Hincl : incl names current).
  { intros x Hx. unfold names in Hx. apply in_map_iff in Hx.
    destruct Hx as (k & <- & Hk). apply in_seq in Hk. apply Hall. lia. }
  pose proof (NoDup_incl_length Hnd Hincl) as Hlen.
  unfold names in Hlen. rewrite length_map, length_seq in Hlen. lia.
Qed.

Lemma addVoices_spec (n : nat) :
  forall (i : Z) (current : list string),
    0 <= i ->
    exists added,
      addVoices n i current = Some (current ++ added)%list /\
      List.length added = n /\
      (NoDup current -> NoDup (current ++ added)).
Proof.
  induction n as [|n IH]; intros i current Hi; cbn [addVoices].
  - exists []. rewrite app_nil_r. auto.
  - destruct (nextFree_some current (i + 1) ltac:(lia))
      as (x & -> & Hx & Hfree).
    destruct (IH (i + 1) (current ++ [voiceName x])%list ltac:(lia))
      as (added & -> & Hlen & Hnd).
    exists (voiceName x :: added). rewrite <- app_assoc. cbn [app].
    split; [reflexivity|]. split; [cbn [List.length]; lia|].
    intros H. rewrite <- app_assoc in Hnd. cbn [app] in Hnd. apply Hnd.
    apply NoDup_app; [assumption|repeat constructor; intros []|].
    intros y Hy [<-|[]]. contradiction.
Qed.

(** For a count of at least one, [setVoiceCount] ends with exactly [count]
    voices: the voices there were, cut to the first [count] or followed by
    new names; and the names stay distinct if they were. *)
Theorem setVoiceCount_count (definedVoices : list string) (count : Z) :
  1 <= count ->
  exists voices,
    setVoiceCount definedVoices count = Some voices /\
    Z.of_nat (List.length voices) = count /\
    (NoDup definedVoices -> NoDup voices) /\
    (voices = firstn (Z.to_nat count) definedVoices \/
     exists added, voices = (definedVoices ++ added)%list).
Proof.
  intros Hc. unfold setVoiceCount.
  destruct (Z.ltb_spec count 1); [lia|].
  destruct (Z.ltb_spec (Z.of_nat (List.length definedVoices)) count)
    as [Hgrow|Hcut].
  - destruct (addVoices_spec
                (Z.to_nat (count - Z.of_nat (List.length definedVoices)))
                (Z.of_nat (List.length definedVoices)) definedVoices
                ltac:(lia)) as (added & -> & Hlen & Hnd).
    exists (definedVoices ++ added)%list.
    split; [reflexivity|]. split; [rewrite length_app; lia|].
    split; [assumption|]. right. now exists added.
  - exists (firstn (Z.to_nat count) definedVoices).
    split; [reflexivity|]. split; [rewrite length_firstn; lia|].
    split; [|now left].
    intros Hnd. rewrite <- (firstn_skipn (Z.to_nat count) definedVoices) in Hnd.
    now apply NoDup_app_remove_r in Hnd.
Qed.

(** One voice more than the two there are. *)
Lemma setVoiceCount_count_witness :
  exists voices,
    setVoiceCount ["v1"; "v3"]%string 3 = Some voices /\
    Z.of_nat (List.length voices) = 3 /\
    (NoDup ["v1"; "v3"]%string -> NoDup voices) /\
    (voices = firstn (Z.to_nat 3) ["v1"; "v3"]%string \/
     exists added, voices = (["v1"; "v3"]%string ++ added)%list).
Proof.
  exact (setVoiceCount_count ["v1"; "v3"]%string 3 ltac:(lia)).
Defined.

(** After [cycleVoice] every line with the given id has a voice, and it
    is one of the defined voices; the other lines are as they were. *)
Theorem cycleVoice_defined (definedVoices : list string)
    (lines : list TimedLine.t) (lineId : string)
    (currentVoice : option string) :
  Forall2 (fun l l' =>
             if String.eqb (TimedLine.id l) lineId then
               exists v, TimedLine.voice l' = Some v /\
                         In v (fst (cycleVoice definedVoices lines lineId
                                      currentVoice))
             else l' = l)
          lines
          (snd (cycleVoice definedVoices lines lineId currentVoice)).
Proof.
  assert (Hmap : forall voice voices,
            (exists v, voice = Some v /\ In v voices) ->
            Forall2 (fun l l' =>
                       if String.eqb (TimedLine.id l) lineId then
                         exists v, TimedLine.voice l' = Some v /\ In v voices
                       else l' = l)
                    lines (updateLineVoice lines lineId voice)).
  { intros voice voices Hv. unfold updateLineVoice.
    induction lines as [|l ls IH]; cbn [map]; constructor; [|exact IH].
    destruct (String.eqb (TimedLine.id l) lineId); [exact Hv|reflexivity]. }
  unfold cycleVoice. destruct definedVoices as [|first rest]; cbn [fst snd].
  - apply Hmap. exists "v1"%string. split; [reflexivity|now left].
  - apply Hmap.
    set (currentIndex := match currentVoice with
                         | Some v => if nonEmpty v
                                     then indexOf (first :: rest) v else -1
                         | None => -1
                         end).
    destruct (Z.eqb_spec currentIndex (-1)) as [|Hne].
    + exists first. split; [reflexivity|now left].
    + set (len := Z.of_nat (List.length (first :: rest))).
      assert (Hlen : 0 < len) by (unfold len; cbn [List.length]; lia).
      pose proof (Z.mod_pos_bound (currentIndex + 1) len Hlen) as Hm.
      destruct (nth_error (first :: rest)
                  (Z.to_nat ((currentIndex + 1) mod len))) as [v|] eqn:E.
      * exists v. split; [reflexivity|]. eapply nth_error_In; eauto.
      * apply nth_error_None in E. unfold len in *. lia.
Qed.

End VoiceFacts.

(** ** The start times and the lines of the LRC parser *)

Module LrcMore.
Import Binary64 Semantics Shapes.
Import JsNumber JsString JsConv Regex Lrc LrcParser.
Import FloatFacts RegexFacts DigitFacts LrcFacts SortFacts ParserFacts Props.

Lemma nonNegative_ge (x : number) : nonNegative x -> ge x (ofZ 0) = true.
Proof.
  intros [| |m e Hc Hb]; reflexivity.
Qed.

Section WithIds.
Variable randomId : Ids.supply.

Lemma processLine_starts (st : state) (rawLine : string) :
  Forall (fun l => nonNegative (TimedLine.startTime l)) (lines st) ->
  Forall (fun l => nonNegative (TimedLine.startTime l))
         (lines (processLine randomId st rawLine)).
Proof.
  intros H. unfold processLine.
  destruct (negb _); [assumption|].
  destruct (metaOf _) as [[key val]|]; [assumption|].
  pose proof (stripStamps_times (String.length (trim rawLine)) (trim rawLine)
                [] (lastIndex st) ltac:(constructor)) as Hts.
  destruct (stripStamps _ _ _ _) as [[content1 ts] li]. cbn [fst snd] in Hts.
  destruct ts as [|t ts]; [assumption|].
  destruct (match exec voiceRegex content1 with Some _ => _ | None => _ end)
    as [voice content2].
  pose proof (buildLines_starts randomId content2 voice
                (startsWith content1 "(" && endsWith content1 ")")
                (test wordTimingRegex content2) (t :: ts) (nextId st)) as Hs.
  destruct (buildLines _ _ _ _ _ _ _) as [ls n]. cbn [lines fst] in *.
  apply Forall_app. split; [assumption|].
  rewrite <- Hs in Hts. clear -Hts.
  induction ls as [|l ls IH]; [constructor|].
  cbn [map] in Hts. inversion Hts; subst. constructor; auto.
Qed.

Lemma scan_starts (text : string) :
  Forall (fun l => nonNegative (TimedLine.startTime l))
         (lines (scan randomId text)).
Proof.
  unfold scan.
  assert (H : Forall (fun l => nonNegative (TimedLine.startTime l))
                     (lines (mkSt [] initialMetadata 0 0)))
    by constructor.
  revert H. generalize (mkSt [] initialMetadata 0 0).
  induction (split lineBreakRegex 0 text) as [|r rs IH]; intros st H;
    [assumption|].
  cbn [fold_left]. apply IH. now apply processLine_starts.
Qed.

(** Every line the LRC parser returns, and the ELRC parser with it, starts
    at a time that compares at or after zero: no start is negative and
    none is [NaN]. *)
Theorem parseLRC_starts_not_negative (text : string) :
  Forall (fun l => ge (TimedLine.startTime l) (ofZ 0) = true)
         (LyricsDocument.lines (parseLRC randomId text)) /\
  Forall (fun l => ge (TimedLine.startTime l) (ofZ 0) = true)
         (LyricsDocument.lines (parseELRC randomId text)).
Proof.
  assert (H : Forall (fun l => ge (TimedLine.startTime l) (ofZ 0) = true)
                (LyricsDocument.lines (parseLRC randomId text))).
  { unfold parseLRC. cbn [LyricsDocument.lines].
    pose proof (scan_starts text) as Hs.
    set (sorted := JsArray.sort byStartTime (lines (scan randomId text))).
    assert (Hsorted : Forall (fun l => nonNegative (TimedLine.startTime l))
                             sorted).
    { rewrite Forall_forall in *. intros l Hl. apply Hs.
      eapply Permutation_in; [apply sort_perm|exact Hl]. }
    assert (Hm : Forall (fun t => ge t (ofZ 0) = true)
                   (map TimedLine.startTime (inferEndTimes sorted))).
    { rewrite inferEndTimes_starts. apply Forall_map.
      eapply Forall_impl; [|exact Hsorted].
      intros l Hl. now apply nonNegative_ge. }
    now apply Forall_map in Hm. }
  split; exact H.
Qed.

Lemma includes_char (c : ascii) (l : list ascii) :
  includesL l [c] = false -> ~ In c l.
Proof.
  induction l as [|x l IH]; cbn [includesL isPrefixL]; intros H; [intros []|].
  apply orb_false_iff in H as [Hx Hl]. rewrite andb_true_r in Hx.
  intros [->|Hin]; [now rewrite Ascii.eqb_refl in Hx|now apply IH].
Qed.

Lemma no_bracket_no_stamp (s : string) (i : nat) :
  ~ In "["%char (chars s) -> execFrom lineTimeRegex s i = None.
Proof.
  intros Hno. destruct (execFrom lineTimeRegex s i) as [res|] eqn:E;
    [exfalso|reflexivity].
  apply execFrom_sound in E. destruct E as [j E].
  apply matchAt_sound in E. destruct E as (st' & H & _).
  unfold lineTimeRegex in H. cbn [Cat] in H.
  apply inv_Seq in H. destruct H as (s1 & H1 & _).
  apply inv_Chr in H1. destruct H1 as (l & Hl & _). cbn [rest] in Hl.
  apply Hno. rewrite <- (firstn_skipn j (chars s)). apply in_or_app. right.
  rewrite Hl. now left.
Qed.

Lemma dropWhile_incl (p : ascii -> bool) (l : list ascii) :
  incl (dropWhile p l) l.
Proof.
  induction l as [|c l IH]; cbn [dropWhile]; [apply incl_refl|].
  destruct (p c); [now apply incl_tl|apply incl_refl].
Qed.

Lemma trim_incl (s : string) : incl (chars (trim s)) (chars s).
Proof.
  unfold trim, trimL, trimEndL, trimStartL. rewrite chars_str.
  intros c Hc. apply in_rev in Hc. apply dropWhile_incl in Hc.
  apply in_rev in Hc. now apply dropWhile_incl in Hc.
Qed.

Lemma splitLoop_incl (r : regex) (s : list ascii) (fuel : nat) :
  forall p q,
    Forall (fun piece => incl (chars piece) s) (splitLoop r 0 s fuel p q).
Proof.
  assert (Hskip : forall p, incl (chars (str (skipn p s))) s).
  { intros p c Hc. rewrite chars_str in Hc.
    rewrite <- (firstn_skipn p s). apply in_or_app. now right. }
  induction fuel as [|fuel IH]; intros p q; cbn [splitLoop].
  - constructor; [apply Hskip|constructor].
  - destruct (List.length s <=? q)%nat;
      [constructor; [apply Hskip|constructor]|].
    destruct (matchAt r s q) as [res|]; [|apply IH].
    destruct (stop res =? p)%nat; [apply IH|].
    cbn [seq map app]. constructor; [|apply IH].
    intros c Hc. rewrite chars_str in Hc.
    rewrite <- (firstn_skipn p s). apply in_or_app. right.
    rewrite <- (firstn_skipn (q - p) (skipn p s)). apply in_or_app. now left.
Qed.

Lemma split_incl (r : regex) (s : string) :
  Forall (fun piece => incl (chars piece) (chars s)) (split r 0 s).
Proof.
  unfold split. destruct (chars s) as [|c l] eqn:E.
  - constructor; [|constructor]. rewrite E. apply incl_refl.
  - apply splitLoop_incl.
Qed.

Lemma processLine_no_bracket (st : state) (rawLine : string) :
  ~ In "["%char (chars rawLine) ->
  lines (processLine randomId st rawLine) = lines st.
Proof.
  intros Hno. unfold processLine.
  destruct (negb _); [reflexivity|].
  destruct (metaOf _) as [[key val]|]; [reflexivity|].
  assert (Hc : ~ In "["%char (chars (trim rawLine)))
    by (intros H; apply Hno; now apply trim_incl).
  assert (E : stripStamps (String.length (trim rawLine)) (trim rawLine) []
                (lastIndex st) = (trim rawLine, [], 0%nat)).
  { destruct (String.length (trim rawLine)); cbn [stripStamps];
      now rewrite no_bracket_no_stamp. }
  rewrite E. reflexivity.
Qed.

(** A text without an opening square bracket has no line for the LRC
    parser: the document it returns is empty. *)
Theorem parseLRC_no_bracket (text : string) :
  includes text "[" = false ->
  LyricsDocument.lines (parseLRC randomId text) = [].
Proof.
  intros Hinc. apply includes_char in Hinc.
  unfold parseLRC. cbn [LyricsDocument.lines].
  assert (E : lines (scan randomId text) = []).
  { unfold scan. pose proof (split_incl lineBreakRegex text) as Hp.
    assert (H0 : lines (mkSt [] initialMetadata 0 0) = []) by reflexivity.
    revert H0. generalize (mkSt [] initialMetadata 0 0).
    induction Hp as [|piece pieces Hpiece _ IH]; intros st H0; [exact H0|].
    cbn [fold_left]. apply IH. rewrite processLine_no_bracket; [exact H0|].
    intros Hin. apply Hinc. now apply Hpiece. }
  rewrite E. reflexivity.
Qed.

End WithIds.

(** Two lines of plain text. *)
Lemma parseLRC_no_bracket_witness :
  LyricsDocument.lines
    (parseLRC sampleIds ("One two" ++ LF ++ "Three four")%string) = [].
Proof.
  exact (parseLRC_no_bracket sampleIds
           ("One two" ++ LF ++ "Three four")%string eq_refl).
Defined.

End LrcMore.

(** ** The patterns of the LRC parser on a line that was written *)

Module ExportRegex.
Import Binary64 Semantics Shapes.
Import JsNumber JsString JsConv Codec Regex Lrc LrcParser.
Import FloatFacts RegexFacts DigitFacts LrcFacts SortFacts ParserFacts Props.
Import RoundFacts NumeralFacts RoundTrip CodecMore StampFacts LrcMore.
Import GenerateLrc ExportProps.

(** *** What a match leaves of the input *)

Lemma Matches_suffix (r : regex) (st st' : mstate) :
  Matches r st st' -> exists pre, rest st = (pre ++ rest st')%list.
Proof.
  induction 1 as [st|c st l Hr|p x st l Hr Hp|a b st st1 st2 _ IH1 _ IH2
                  |a b st st' _ IH|a b st st' _ IH|a st
                  |a st st1 st2 _ IH1 _ IH2|n a st st' _ IH|st Hp|st Hr];
    cbn [rest] in *.
  - now exists [].
  - exists [c]. now rewrite Hr.
  - exists [x]. now rewrite Hr.
  - destruct IH1 as [p1 E1], IH2 as [p2 E2]. exists (p1 ++ p2)%list.
    now rewrite E1, E2, app_assoc.
  - exact IH.
  - exact IH.
  - now exists [].
  - destruct IH1 as [p1 E1], IH2 as [p2 E2]. exists (p1 ++ p2)%list.
    now rewrite E1, E2, app_assoc.
  - exact IH.
  - now exists [].
  - now exists [].
Qed.

Lemma star_class (p : ascii -> bool) (st st' : mstate) :
  Matches (Star (Cls p)) st st' ->
  caps st' = caps st /\ (pos st <= pos st')%nat.
Proof.
  intros H. remember (Star (Cls p)) as r eqn:Er.
  induction H as [st|c st l Hr|q x st l Hr Hp|a b st st1 st2 _ IH1 _ IH2
                  |a b st st' _ IH|a b st st' _ IH|a st
                  |a st st1 st2 H1 _ _ IH2|n a st st' _ IH|st Hp|st Hr];
    try discriminate.
  - split; [reflexivity|lia].
  - injection Er as ->. apply inv_Cls in H1.
    destruct H1 as (x & l & _ & _ & ->).
    destruct (IH2 eq_refl) as [Hc Hp]. cbn [caps pos] in *. split; [assumption|lia].
Qed.

(** A pattern that begins with a character finds nothing in a text
    without it. *)
Lemma search_needs_char (c : ascii) (r : regex) (s : string) (i : nat) :
  ~ In c (chars s) -> execFrom (Seq (Chr c) r) s i = None.
Proof.
  intros Hno. destruct (execFrom (Seq (Chr c) r) s i) as [res|] eqn:E;
    [exfalso|reflexivity].
  apply execFrom_sound in E. destruct E as [j E].
  apply matchAt_sound in E. destruct E as (st' & H & _).
  apply inv_Seq in H. destruct H as (s1 & H1 & _).
  apply inv_Chr in H1. destruct H1 as (l & Hl & _). cbn [rest] in Hl.
  apply Hno. rewrite <- (firstn_skipn j (chars s)). apply in_or_app. right.
  rewrite Hl. now left.
Qed.

Lemma no_colon_no_voice (s : string) :
  ~ In ":"%char (chars s) -> exec voiceRegex s = None.
Proof.
  intros Hno. unfold exec.
  destruct (execFrom voiceRegex s 0) as [res|] eqn:E; [exfalso|reflexivity].
  apply execFrom_sound in E. destruct E as [j E].
  apply matchAt_sound in E. destruct E as (st' & H & _).
  unfold voiceRegex in H. cbn [Cat] in H.
  apply inv_Seq in H. destruct H as (s1 & H1 & H).
  apply inv_Seq in H. destruct H as (s2 & H2 & H).
  apply inv_Seq in H. destruct H as (s3 & H3 & _).
  apply inv_Bol in H1. destruct H1 as [-> _].
  apply Matches_suffix in H2. destruct H2 as [pre Hpre]. cbn [rest] in Hpre.
  apply inv_Chr in H3. destruct H3 as (l & Hl & _).
  apply Hno. rewrite <- (firstn_skipn j (chars s)). apply in_or_app. right.
  rewrite Hpre, Hl. apply in_or_app. right. now left.
Qed.

(** *** The key of a line that begins with a stamp *)

Lemma digit_not_upper (c : ascii) : isDigit c = true -> isUpper c = false.
Proof.
  unfold isDigit, isUpper. rewrite andb_true_iff, !N.leb_le. intros [H1 H2].
  destruct (N.leb_spec 65 (code c)); [lia|reflexivity].
Qed.

Lemma dropWhile_last (p : ascii -> bool) (a : list ascii) (x : ascii) :
  p x = false -> dropWhile p (a ++ [x]) = (dropWhile p a ++ [x])%list.
Proof.
  intros Hx. induction a as [|c a IH]; cbn [app dropWhile].
  - now rewrite Hx.
  - destruct (p c); [exact IH|reflexivity].
Qed.

Lemma trimL_head (c : ascii) (l : list ascii) :
  isSpace c = false -> exists l', trimL (c :: l) = c :: l'.
Proof.
  intros Hc. unfold trimL, trimStartL, trimEndL. cbn [dropWhile]. rewrite Hc.
  cbn [rev]. rewrite (dropWhile_last isSpace (rev l) c Hc).
  rewrite rev_app_distr. cbn [rev app]. eauto.
Qed.

Lemma leadingDigit_test (c : ascii) (l : list ascii) :
  isDigit c = true -> test leadingDigit (str (c :: l)) = true.
Proof.
  intros Hc. unfold test, exec, execFrom. rewrite chars_str.
  cbn [List.length Nat.ltb Nat.leb Nat.sub].
  assert (E : matchAt leadingDigit (c :: l) 0
              = Some (mkResult 0 1 [])).
  { unfold matchAt, leadingDigit, digit.
    cbn [run skipn rest pos caps Nat.eqb]. now rewrite Hc. }
  cbn [search]. now rewrite E.
Qed.

Lemma stamped_no_meta (c : ascii) (l : list ascii) :
  isDigit c = true -> metaOf (str ("["%char :: c :: l)) = None.
Proof.
  intros Hc. unfold metaOf, exec.
  destruct (execFrom metaRegex _ 0) as [res|] eqn:E; [|reflexivity].
  apply execFrom_sound in E. destruct E as [j E]. rewrite chars_str in E.
  apply matchAt_sound in E. destruct E as (st' & H & ->).
  unfold metaRegex in H. cbn [Cat] in H.
  apply inv_Seq in H. destruct H as (s1 & H1 & H).
  apply inv_Seq in H. destruct H as (s2 & H2 & H).
  apply inv_Seq in H. destruct H as (s3 & H3 & H).
  apply inv_Seq in H. destruct H as (s4 & H4 & H).
  apply inv_Seq in H. destruct H as (s5 & H5 & H).
  apply inv_Seq in H. destruct H as (s6 & H6 & H7).
  apply inv_Bol in H1. destruct H1 as [-> Hj]. cbn [pos] in Hj. subst j.
  cbn [skipn] in H2.
  apply inv_Chr in H2. destruct H2 as (l2 & Hl2 & ->).
  cbn [rest pos caps] in *. injection Hl2 as <-.
  apply inv_Group in H3. destruct H3 as (t1 & Hplus & ->).
  unfold Plus in Hplus. apply inv_Seq in Hplus.
  destruct Hplus as (t0 & Hc0 & Hstar).
  apply inv_Cls in Hc0. destruct Hc0 as (x & lx & Hx & _ & ->).
  cbn [rest pos caps] in *. injection Hx as <- <-.
  apply star_class in Hstar. destruct Hstar as [Hcaps Hpos].
  cbn [caps pos] in Hcaps, Hpos.
  apply inv_Chr in H4. destruct H4 as (l4 & _ & ->). cbn [rest pos caps] in *.
  apply inv_Group in H5. destruct H5 as (t2 & Hstar2 & ->).
  apply star_class in Hstar2. destruct Hstar2 as [Hcaps2 _].
  cbn [caps] in Hcaps2.
  apply inv_Chr in H6. destruct H6 as (l6 & _ & ->). cbn [rest pos caps] in *.
  apply inv_Eol in H7. destruct H7 as [-> _].
  unfold groupText. cbn [groups caps]. rewrite Hcaps2, Hcaps.
  cbn [group Nat.eqb].
  destruct (pos t1 - 1)%nat as [|k] eqn:Ek; [lia|].
  cbn [firstn]. unfold toLowerCase. rewrite chars_str. cbn [map].
  unfold toLowerChar at 1. rewrite (digit_not_upper c Hc).
  unfold trim. rewrite chars_str.
  destruct (trimL_head c (map toLowerChar (firstn k l)) (digit_not_space c Hc))
    as [l' ->].
  now rewrite (leadingDigit_test c l' Hc).
Qed.

(** *** The stamp at the head of the line *)

Lemma stamp_match (d1 d2 d3 d4 d5 d6 : ascii) (raw : list ascii) :
  isDigit d1 = true -> isDigit d2 = true -> isDigit d3 = true ->
  isDigit d4 = true -> isDigit d5 = true -> isDigit d6 = true ->
  matchAt lineTimeRegex
    ("["%char :: d1 :: d2 :: ":"%char :: d3 :: d4 :: "."%char :: d5 :: d6
       :: "]"%char :: raw) 0
  = Some (mkResult 0 10
            [(4%nat, str [d5; d6]); (2%nat, str [d3; d4]);
             (1%nat, str [d1; d2])]).
Proof.
  intros H1 H2 H3 H4 H5 H6.
  assert (Nb : isDigit "]" = false) by reflexivity.
  unfold matchAt, lineTimeRegex, Rep12, Rep13, Opt, digit.
  cbn [Cat run skipn rest pos caps Ascii.eqb Bool.eqb].
  rewrite H1. cbn [run rest pos caps]. rewrite H2.
  cbn [run rest pos caps Ascii.eqb Bool.eqb].
  rewrite H3. cbn [run rest pos caps]. rewrite H4.
  cbn [run rest pos caps Ascii.eqb Bool.eqb].
  rewrite H5. cbn [run rest pos caps]. rewrite H6.
  cbn [run rest pos caps Ascii.eqb Bool.eqb]. rewrite Nb.
  cbn [run rest pos caps Ascii.eqb Bool.eqb firstn Nat.sub].
  reflexivity.
Qed.

End ExportRegex.

(** ** A line of LRC text read back *)

Module ExportFacts.
Import Binary64 Semantics Shapes.
Import JsNumber JsString JsConv Codec Regex Lrc LrcParser.
Import FloatFacts RegexFacts DigitFacts LrcFacts SortFacts ParserFacts Props.
Import RoundFacts NumeralFacts RoundTrip CodecMore StampFacts LrcMore.
Import GenerateLrc ExportProps ExportRegex.

Lemma substring_from (a b : list ascii) (n : nat) :
  (List.length b <= n)%nat ->
  substring (List.length a) n (str (a ++ b)) = str b.
Proof.
  intros Hn. induction a as [|c a IH]; cbn [List.length app].
  - clear -Hn. revert n Hn. induction b as [|c b IH]; intros n Hn.
    + destruct n; reflexivity.
    + destruct n as [|n]; cbn [List.length] in Hn; [lia|].
      unfold str in *. cbn [string_of_list_ascii substring].
      rewrite IH by lia. reflexivity.
  - unfold str in *. cbn [string_of_list_ascii substring]. exact IH.
Qed.

Lemma trimmed_trim (l : list ascii) : trimmedL l = true -> trimL l = l.
Proof.
  unfold trimmedL, trimL, trimStartL, trimEndL. intros H.
  apply andb_true_iff in H as [Hh Hr].
  destruct l as [|c l]; [reflexivity|].
  apply negb_true_iff in Hh. cbn [dropWhile]. rewrite Hh.
  destruct (rev (c :: l)) as [|z r] eqn:E.
  - apply (f_equal (@List.length ascii)) in E. rewrite length_rev in E.
    discriminate.
  - apply negb_true_iff in Hr. cbn [dropWhile]. rewrite Hr.
    rewrite <- E. apply rev_involutive.
Qed.

Lemma trimmed_after (a : list ascii) (raw : list ascii) :
  trimmedL (a ++ ["]"%char])%list = true -> trimmedL raw = true ->
  trimmedL (a ++ "]"%char :: raw)%list = true.
Proof.
  unfold trimmedL. intros Ha Hr.
  apply andb_true_iff in Ha as [Hah _]. apply andb_true_iff in Hr as [_ Hrr].
  apply andb_true_iff. split.
  - destruct a; [reflexivity|exact Hah].
  - replace (a ++ "]"%char :: raw)%list with ((a ++ ["]"%char]) ++ raw)%list
      by (now rewrite <- app_assoc).
    rewrite rev_app_distr. destruct (rev raw) as [|z r]; [|exact Hrr].
    cbn [app]. rewrite rev_app_distr. reflexivity.
Qed.

Lemma lyric_chars (raw : string) (c : ascii) :
  forallb lyricChar (chars raw) = true -> lyricChar c = false ->
  ~ In c (chars raw).
Proof.
  intros H Hc Hin. rewrite forallb_forall in H. specialize (H c Hin).
  congruence.
Qed.

(** The times of the stamp, and what is left of the line. *)
Lemma stripStamps_stamped (d1 d2 d3 d4 d5 d6 : ascii) (raw : string) :
  isDigit d1 = true -> isDigit d2 = true -> isDigit d3 = true ->
  isDigit d4 = true -> isDigit d5 = true -> isDigit d6 = true ->
  exportable raw = true ->
  let content :=
    str ("["%char :: d1 :: d2 :: ":"%char :: d3 :: d4 :: "."%char :: d5 :: d6
           :: "]"%char :: chars raw) in
  stripStamps (String.length content) content [] 0
  = (raw,
     [lineStampTime
        (mkResult 0 10 [(4%nat, str [d5; d6]); (2%nat, str [d3; d4]);
                        (1%nat, str [d1; d2])])],
     0%nat).
Proof.
  intros H1 H2 H3 H4 H5 H6 Hx content.
  apply andb_true_iff in Hx as [Hch Htr].
  assert (Hlen : String.length content = (10 + List.length (chars raw))%nat)
    by (unfold content; rewrite length_str; reflexivity).
  assert (Hexec : execFrom lineTimeRegex content 0
                  = Some (mkResult 0 10
                            [(4%nat, str [d5; d6]); (2%nat, str [d3; d4]);
                             (1%nat, str [d1; d2])])).
  { unfold execFrom, content. rewrite chars_str.
    cbn [List.length Nat.ltb Nat.leb Nat.sub search].
    now rewrite (stamp_match d1 d2 d3 d4 d5 d6 (chars raw)). }
  assert (Hrest : trim (substring 10 (String.length content) content) = raw).
  { pose proof (substring_from
                  ["["%char; d1; d2; ":"%char; d3; d4; "."%char; d5; d6;
                   "]"%char]
                  (chars raw) (String.length content) ltac:(lia)) as E.
    cbn [List.length app] in E. fold content in E. rewrite E.
    unfold trim. rewrite chars_str, (trimmed_trim _ Htr). apply str_chars. }
  assert (Hnone : forall i, execFrom lineTimeRegex raw i = None).
  { intros i. apply no_bracket_no_stamp.
    apply (lyric_chars raw "["%char Hch). reflexivity. }
  destruct (String.length content) as [|fuel] eqn:Ef; [lia|].
  cbn [stripStamps]. rewrite Hexec. cbn [index stop Nat.eqb].
  rewrite Ef, Hrest. cbn [app].
  destruct fuel; cbn [stripStamps]; now rewrite Hnone.
Qed.

(** *** The stamp of a time below one hour *)

Lemma two_digits (n : Z) :
  0 <= n < 100 ->
  exists a b, isDigit a = true /\ isDigit b = true /\
              padStart0 2 (showZ n) = str [a; b] /\ digitsValue [a; b] = n.
Proof.
  intros Hn.
  destruct (padded_spec 2 100 n padded_two Hn) as (ds & E & Ha & Hl & Hv).
  destruct ds as [|a [|b [|c ds]]]; try discriminate.
  inversion Ha as [|? ? Hda Ha']; subst. inversion Ha' as [|? ? Hdb _]; subst.
  exists a, b. auto.
Qed.

Lemma stamp_of_time (x : number) :
  isTime x -> ge x (ofZ 0) = true -> lt x (ofZ 3600) = true ->
  exists d1 d2 d3 d4 d5 d6,
    isDigit d1 = true /\ isDigit d2 = true /\ isDigit d3 = true /\
    isDigit d4 = true /\ isDigit d5 = true /\ isDigit d6 = true /\
    formatTimestamp x P2
      = str [d1; d2; ":"%char; d3; d4; "."%char; d5; d6] /\
    (Qabs (toQ (lineStampTime (stampResult d1 d2 d3 d4 d5 d6)) - toQ x)
     < (1 # 100) + (1 # 1000000))%Q.
Proof.
  intros [Hwf Hnan] Hge Hlt.
  destruct x as [b|b| |b m e]; try discriminate.
  - exists "0"%char, "0"%char, "0"%char, "0"%char, "0"%char, "0"%char.
    repeat split; try reflexivity; destruct b; vm_compute; reflexivity.
  - destruct b; discriminate.
  - destruct b; [discriminate|].
    assert (HW : 0 < 2 ^ 1074) by (apply Z.pow_pos_nonneg; lia).
    assert (P32 : 2 ^ 32 = 4294967296) by reflexivity.
    assert (P53 : 2 ^ 53 = 9007199254740992) by reflexivity.
    set (x := S754_finite false m e) in *.
    assert (Hx : denotes x (key x)).
    { apply wf_finite in Hwf. destruct Hwf as [Hc Hb].
      split; [constructor; assumption|]. split; reflexivity. }
    pose proof (denotes_nonneg _ _ Hx) as Hv0.
    assert (Hb : key x < 3600 * 2 ^ 1074).
    { rewrite lt_key in Hlt;
        [|eapply denotes_isTime; eassumption
         |eapply denotes_isTime; apply ofZ_denotes; lia].
      destruct (ofZ_denotes 3600 ltac:(lia)) as (_ & _ & E).
      rewrite E in Hlt. apply Z.ltb_lt in Hlt. lia. }
    set (v := key x) in *.
    assert (Hb32 : v < 2 ^ 32 * 2 ^ 1074) by lia.
    destruct (format_text x v P2 Hx Hb32) as (K & HK & Hup & Hlo & Htext).
    pose proof (clock_parts v (2 ^ 1074) HW Hv0) as (Hsum & HH & HM & HS & Hf).
    assert (H0 : v / (3600 * 2 ^ 1074) = 0) by (apply Z.div_small; lia).
    rewrite H0 in Htext, Hsum.
    set (M := (v mod (3600 * 2 ^ 1074)) / (60 * 2 ^ 1074)) in *.
    set (S := (v mod (60 * 2 ^ 1074)) / 2 ^ 1074) in *.
    cbn [scale] in HK, Hup, Hlo.
    destruct (two_digits M ltac:(lia)) as (d1 & d2 & D1 & D2 & EM & VM).
    destruct (two_digits S ltac:(lia)) as (d3 & d4 & D3 & D4 & ES & VS).
    destruct (two_digits K ltac:(lia)) as (d5 & d6 & D5 & D6 & EK & VK).
    exists d1, d2, d3, d4, d5, d6. repeat split; try assumption.
    + rewrite Htext. unfold timeText. cbn [Z.ltb Z.compare width].
      rewrite EM, ES, EK. reflexivity.
    + unfold lineStampTime, stampResult, groupText.
      cbn [groups group Nat.eqb nonEmpty str string_of_list_ascii].
      change (String d1 (String d2 EmptyString)) with (str [d1; d2]).
      change (String d3 (String d4 EmptyString)) with (str [d3; d4]).
      change ("0." ++ String d5 (String d6 EmptyString))%string
        with (str (["0"%char] ++ "."%char :: [d5; d6])).
      rewrite (parseInt_value [d1; d2]), (parseInt_value [d3; d4]), VM, VS;
        try discriminate; try (repeat constructor; assumption).
      rewrite (parseFloat_value ["0"%char] [d5; d6]);
        try discriminate; try (repeat constructor; assumption).
      assert (EK0 : digitsValue (["0"%char] ++ [d5; d6]) = K).
      { rewrite <- VK. reflexivity. }
      rewrite EK0. cbn [List.length Z.of_nat Pos.of_succ_nat Pos.succ Z.opp].
      assert (D60 : denotes (mul (ofZ M) (ofZ 60)) (M * 60 * 2 ^ 1074)).
      { apply mul_denotes; try (apply ofZ_denotes; lia); lia. }
      assert (DI : denotes (add (mul (ofZ M) (ofZ 60)) (ofZ S))
                           ((M * 60 + S) * 2 ^ 1074)).
      { replace ((M * 60 + S) * 2 ^ 1074)
          with (M * 60 * 2 ^ 1074 + S * 2 ^ 1074) by ring.
        apply add_denotes; [assumption|apply ofZ_denotes; lia| |].
        - replace (M * 60 * 2 ^ 1074 + S * 2 ^ 1074)
            with ((M * 60 + S) * 2 ^ 1074) by ring.
          apply onGrid_scaled; lia.
        - assert (2 ^ 1074 * 2 ^ 53 <= 2 ^ 2097).
          { rewrite <- Z.pow_add_r by lia. apply Z.pow_le_mono_r; lia. }
          lia. }
      assert (Hsec : rounds (ofDecimal false K (-2))
                            ((0 * scale P2 + K) * 2 ^ 1074) (scale P2)).
      { cbn [scale]. rewrite Z.mul_0_l, Z.add_0_l.
        destruct (Z.eq_dec K 0) as [->|Hn0].
        - cbn [ofDecimal]. rewrite Z.mul_0_l. apply rounds_zero. lia.
        - change 100 with (10 ^ (- -2)). apply ofDecimal_rounds; lia. }
      apply (sum_within _ _ x (M * 60 + S) 0 K v P2); try assumption;
        cbn [scale]; lia.
Qed.

Lemma wordTexts_plain (randomId : Ids.supply) (content : string) :
  wordTexts randomId content false
  = filter nonEmpty (split spacesRegex 0 content).
Proof.
  unfold wordTexts, buildLine.
  pose proof (plainWords_texts randomId
                (filter nonEmpty (split spacesRegex 0 content)) (ofZ 0) 0%nat)
    as E.
  destruct (plainWords randomId _ (ofZ 0) 0%nat) as [ws n1].
  cbn [fst Ids.generateId TimedLine.words] in *. exact E.
Qed.

(** The text [generateLRC] writes for a line that starts below one hour
    and whose text is exportable is read by the parser as one line: with
    the text, white space collapsed; with the default voice; and at a time
    less than a hundredth of a second and a millionth from the start of
    the line.  The pattern of the stamps is left at index 0. *)
Theorem lrcLine_read_back (randomId : Ids.supply) (st : Lrc.state)
    (line : TimedLine.t) :
  lastIndex st = 0%nat ->
  isTime (TimedLine.startTime line) ->
  ge (TimedLine.startTime line) (ofZ 0) = true ->
  lt (TimedLine.startTime line) (ofZ 3600) = true ->
  exportable (TimedLine.rawText line) = true ->
  exists l n,
    processLine randomId st (lrcLineText line)
      = mkSt (lines st ++ [l]) (Lrc.metadata st) 0 n /\
    TimedLine.rawText l = collapsed (TimedLine.rawText line) /\
    TimedLine.voice l = Some "v1"%string /\
    (Qabs (toQ (TimedLine.startTime l) - toQ (TimedLine.startTime line))
     < (1 # 100) + (1 # 1000000))%Q.
Proof.
  intros Hli Ht Hge Hlt Hx.
  destruct (stamp_of_time _ Ht Hge Hlt)
    as (d1 & d2 & d3 & d4 & d5 & d6 & D1 & D2 & D3 & D4 & D5 & D6 & Etext & Hq).
  set (raw := TimedLine.rawText line) in *.
  set (content :=
         str ("["%char :: d1 :: d2 :: ":"%char :: d3 :: d4 :: "."%char :: d5
                :: d6 :: "]"%char :: chars raw)).
  assert (Eline : lrcLineText line = content).
  { unfold lrcLineText, content. fold raw. rewrite Etext.
    unfold str. cbn [string_of_list_ascii append].
    now rewrite string_of_list_ascii_of_string. }
  pose proof Hx as Hx'. apply andb_true_iff in Hx' as [Hch Htr].
  assert (Etrim : trim content = content).
  { unfold trim, content. rewrite chars_str. f_equal. apply trimmed_trim.
    apply (trimmed_after
             ["["%char; d1; d2; ":"%char; d3; d4; "."%char; d5; d6]
             (chars raw)); [reflexivity|exact Htr]. }
  assert (Emeta : metaOf content = None)
    by (unfold content; now apply stamped_no_meta).
  pose proof (stripStamps_stamped d1 d2 d3 d4 d5 d6 raw D1 D2 D3 D4 D5 D6 Hx)
    as Estrip.
  cbv zeta in Estrip. fold content in Estrip.
  fold (stampResult d1 d2 d3 d4 d5 d6) in Estrip.
  assert (Evoice : exec voiceRegex raw = None).
  { apply no_colon_no_voice. apply (lyric_chars raw ":"%char Hch). reflexivity. }
  assert (Eword : test wordTimingRegex raw = false).
  { unfold test, exec, wordTimingRegex. cbn [Cat].
    rewrite search_needs_char; [reflexivity|].
    apply (lyric_chars raw "<"%char Hch). reflexivity. }
  pose proof (buildLine_shared randomId raw "v1"
                (startsWith raw "(" && endsWith raw ")") false
                (lineStampTime (stampResult d1 d2 d3 d4 d5 d6)) (nextId st))
    as Hl.
  destruct (buildLine randomId raw "v1"
              (startsWith raw "(" && endsWith raw ")") false
              (lineStampTime (stampResult d1 d2 d3 d4 d5 d6)) (nextId st))
    as [l n] eqn:Eb.
  cbv zeta in Hl. cbn [fst] in Hl.
  destruct Hl as (Hstart & Hvoice & _ & _ & Hraw).
  exists l, n. split; [|split; [|split]].
  - rewrite Eline. unfold processLine. cbv zeta. rewrite Etrim.
    unfold content at 1. cbn [str string_of_list_ascii nonEmpty negb].
    fold (str (chars raw)). 
    change (String "[" (String d1 (String d2 (String ":" (String d3 (String d4
              (String "." (String d5 (String d6 (String "]" (str (chars raw))))))))))))
      with content.
    rewrite Emeta, Hli, Estrip, Evoice, Eword.
    cbn [buildLines]. rewrite Eb. reflexivity.
  - rewrite Hraw, wordTexts_plain. reflexivity.
  - exact Hvoice.
  - rewrite Hstart. exact Hq.
Qed.

(** A line without words leaves [generateELRC] as a bare stamp, so it is
    read back with an empty text, whatever its text was. *)
Theorem elrcLine_without_words (randomId : Ids.supply) (st : Lrc.state)
    (line : TimedLine.t) :
  lastIndex st = 0%nat ->
  isTime (TimedLine.startTime line) ->
  ge (TimedLine.startTime line) (ofZ 0) = true ->
  lt (TimedLine.startTime line) (ofZ 3600) = true ->
  TimedLine.words line = [] ->
  exists l n,
    processLine randomId st (elrcLineText line)
      = mkSt (lines st ++ [l]) (Lrc.metadata st) 0 n /\
    TimedLine.rawText l = EmptyString /\
    (Qabs (toQ (TimedLine.startTime l) - toQ (TimedLine.startTime line))
     < (1 # 100) + (1 # 1000000))%Q.
Proof.
  intros Hli Ht Hge Hlt Hw.
  set (bare := TimedLine.mk (TimedLine.id line) (TimedLine.startTime line)
                 (TimedLine.endTime line) [] EmptyString
                 (TimedLine.voice line) (TimedLine.isBackground line)
                 (TimedLine.attributes line)).
  assert (E : elrcLineText line = lrcLineText bare).
  { unfold elrcLineText, lrcLineText, bare. rewrite Hw. reflexivity. }
  destruct (lrcLine_read_back randomId st bare Hli Ht Hge Hlt eq_refl)
    as (l & n & Hp & Hraw & _ & Hq).
  exists l, n. rewrite E. split; [exact Hp|]. split; [|exact Hq].
  rewrite Hraw. reflexivity.
Qed.

(** The line "One two" at 61 seconds. *)
Lemma lrcLine_read_back_witness :
  exists l n,
    processLine sampleIds (mkSt [] initialMetadata 0 0) (lrcLineText sampleLine)
      = mkSt ([] ++ [l]) initialMetadata 0 n /\
    TimedLine.rawText l = collapsed (TimedLine.rawText sampleLine) /\
    TimedLine.voice l = Some "v1"%string /\
    (Qabs (toQ (TimedLine.startTime l) - toQ (TimedLine.startTime sampleLine))
     < (1 # 100) + (1 # 1000000))%Q.
Proof.
  assert (H1 : isTime (TimedLine.startTime sampleLine))
    by (split; vm_compute; reflexivity).
  exact (lrcLine_read_back sampleIds (mkSt [] initialMetadata 0 0) sampleLine
           eq_refl H1 eq_refl eq_refl eq_refl).
Defined.

(** The same line, which has no words. *)
Lemma elrcLine_without_words_witness :
  exists l n,
    processLine sampleIds (mkSt [] initialMetadata 0 0) (elrcLineText sampleLine)
      = mkSt ([] ++ [l]) initialMetadata 0 n /\
    TimedLine.rawText l = EmptyString /\
    (Qabs (toQ (TimedLine.startTime l) - toQ (TimedLine.startTime sampleLine))
     < (1 # 100) + (1 # 1000000))%Q.
Proof.
  assert (H1 : isTime (TimedLine.startTime sampleLine))
    by (split; vm_compute; reflexivity).
  exact (elrcLine_without_words sampleIds (mkSt [] initialMetadata 0 0)
           sampleLine eq_refl H1 eq_refl eq_refl eq_refl).
Defined.

End ExportFacts.

(** ** A document written as LRC and read back *)

Module ExportDocument.
Import Binary64 Semantics Shapes.
Import JsNumber JsString JsConv Codec Regex Lrc LrcParser.
Import FloatFacts RegexFacts DigitFacts LrcFacts SortFacts ParserFacts Props.
Import RoundFacts NumeralFacts RoundTrip CodecMore StampFacts LrcMore.
Import GenerateLrc ExportProps ExportRegex ExportFacts.

(** *** Splitting the text at its line feeds *)

Lemma matchAt_no_break (s : list ascii) (q : nat) (c : ascii)
    (l : list ascii) :
  skipn q s = c :: l -> notBreak c -> matchAt lineBreakRegex s q = None.
Proof.
  intros Hs [Hcr Hlf]. unfold matchAt, lineBreakRegex, Opt.
  cbn [run rest pos caps]. rewrite Hs.
  destruct (Ascii.eqb_spec c Lrc.CR) as [|_]; [contradiction|].
  destruct (Ascii.eqb_spec c Lrc.LF) as [|_]; [contradiction|].
  reflexivity.
Qed.

Lemma matchAt_line_feed (s : list ascii) (q : nat) (l : list ascii) :
  skipn q s = Lrc.LF :: l ->
  matchAt lineBreakRegex s q = Some (mkResult q (S q) []).
Proof.
  intros Hs. unfold matchAt, lineBreakRegex, Opt.
  cbn [run rest pos caps]. rewrite Hs. reflexivity.
Qed.

Lemma skipn_inside (pre t rest : list ascii) (k : nat) :
  (k <= List.length t)%nat ->
  skipn (List.length pre + k) (pre ++ t ++ rest) = (skipn k t ++ rest)%list.
Proof.
  intros Hk. rewrite skipn_app.
  replace (List.length pre + k - List.length pre)%nat with k by lia.
  rewrite (skipn_all2 pre) by lia. cbn [app].
  rewrite skipn_app. replace (k - List.length t)%nat with 0%nat by lia.
  reflexivity.
Qed.

Lemma splitLoop_text (t pre rest : list ascii) (n : nat) :
  Forall notBreak t ->
  forall k fuel,
    List.length t = (k + n)%nat ->
    (List.length (pre ++ t ++ Lrc.LF :: rest) - (List.length pre + k) <= fuel)%nat ->
    splitLoop lineBreakRegex 0 (pre ++ t ++ Lrc.LF :: rest) fuel
      (List.length pre) (List.length pre + k)
    = str t
        :: splitLoop lineBreakRegex 0 (pre ++ t ++ Lrc.LF :: rest) (fuel - n - 1)
             (List.length pre + List.length t + 1)
             (List.length pre + List.length t + 1).
Proof.
  intros Ht. set (s := (pre ++ t ++ Lrc.LF :: rest)%list).
  assert (Hlen : List.length s
                 = (List.length pre + List.length t + 1 + List.length rest)%nat).
  { unfold s. rewrite !length_app. cbn [List.length]. lia. }
  induction n as [|n IH]; intros k fuel Hk Hfuel.
  - assert (Hs : skipn (List.length pre + k) s = Lrc.LF :: rest).
    { unfold s. rewrite skipn_inside by lia.
      rewrite skipn_all2 by lia. reflexivity. }
    destruct fuel as [|f]; [lia|]. cbn [splitLoop].
    destruct (Nat.leb_spec (List.length s) (List.length pre + k)); [lia|].
    rewrite (matchAt_line_feed s _ rest Hs). cbn [stop].
    destruct (Nat.eqb_spec (S (List.length pre + k)) (List.length pre));
      [lia|].
    cbn [seq map app groups].
    replace (List.length pre + k - List.length pre)%nat with (List.length t)
      by lia.
    assert (Hp : skipn (List.length pre) s = (t ++ Lrc.LF :: rest)%list).
    { unfold s. pose proof (skipn_inside pre t (Lrc.LF :: rest) 0 ltac:(lia)) as E.
      rewrite Nat.add_0_r in E. exact E. }
    rewrite Hp, firstn_app, firstn_all, Nat.sub_diag. cbn [firstn].
    rewrite app_nil_r. f_equal.
    replace (S f - 0 - 1)%nat with f by lia.
    replace (List.length pre + List.length t + 1)%nat
      with (S (List.length pre + k)) by lia.
    reflexivity.
  - assert (Hs : exists c l, skipn (List.length pre + k) s = c :: l /\
                             notBreak c).
    { unfold s. rewrite skipn_inside by lia.
      destruct (skipn k t) as [|c l] eqn:E.
      - apply (f_equal (@List.length ascii)) in E. rewrite length_skipn in E.
        cbn [List.length] in E. lia.
      - exists c, (l ++ Lrc.LF :: rest)%list. split; [reflexivity|].
        rewrite Forall_forall in Ht. apply Ht.
        rewrite <- (firstn_skipn k t). apply in_or_app. right. rewrite E.
        now left. }
    destruct Hs as (c & l & Hs & Hc).
    destruct fuel as [|f]; [lia|]. cbn [splitLoop].
    destruct (Nat.leb_spec (List.length s) (List.length pre + k)); [lia|].
    rewrite (matchAt_no_break s _ c l Hs Hc).
    replace (S (List.length pre + k)) with (List.length pre + S k)%nat by lia.
    rewrite (IH (S k) f) by lia.
    replace (S f - S n - 1)%nat with (f - n - 1)%nat by lia. reflexivity.
Qed.

Lemma splitLoop_texts (texts : list (list ascii)) :
  Forall (Forall notBreak) texts ->
  forall pre fuel,
    (List.length (joined texts) <= fuel)%nat ->
    splitLoop lineBreakRegex 0 (pre ++ joined texts) fuel
      (List.length pre) (List.length pre)
    = (map str texts ++ [EmptyString])%list.
Proof.
  induction 1 as [|t texts Ht _ IH]; intros pre fuel Hfuel.
  - unfold joined. cbn [map List.concat]. rewrite app_nil_r.
    destruct fuel as [|f]; cbn [splitLoop];
      [|rewrite Nat.leb_refl]; now rewrite skipn_all.
  - unfold joined in *. cbn [map List.concat] in *.
    rewrite length_app, length_app in Hfuel. cbn [List.length] in Hfuel.
    rewrite <- app_assoc. cbn [app].
    pose proof (splitLoop_text t pre
                  (List.concat (map (fun t => t ++ [Lrc.LF])%list texts))
                  (List.length t) Ht 0 fuel eq_refl) as E.
    rewrite Nat.add_0_r in E. rewrite E.
    2:{ repeat first [rewrite length_app | progress cbn [List.length]]. lia. }
    cbn [map app]. f_equal.
    replace (pre ++ t ++ Lrc.LF :: List.concat (map (fun t => t ++ [Lrc.LF]) texts))%list
      with ((pre ++ t ++ [Lrc.LF]) ++ List.concat (map (fun t => t ++ [Lrc.LF]) texts))%list
      by (rewrite <- !app_assoc; reflexivity).
    replace (List.length pre + List.length t + 1)%nat
      with (List.length (pre ++ t ++ [Lrc.LF])%list)
      by (rewrite !length_app; cbn [List.length]; lia).
    apply IH. lia.
Qed.

Lemma split_texts (texts : list (list ascii)) :
  Forall (Forall notBreak) texts ->
  split lineBreakRegex 0 (str (joined texts))
  = (map str texts ++ [EmptyString])%list.
Proof.
  intros H. unfold split. rewrite chars_str.
  destruct (joined texts) as [|c l] eqn:E.
  - destruct texts as [|t texts]; [reflexivity|].
    unfold joined in E. cbn [map List.concat] in E.
    destruct t; discriminate.
  - rewrite <- E. apply (splitLoop_texts texts H [] _ (Nat.le_refl _)).
Qed.

(** *** The lines of the document, one by one *)

Lemma digit_notBreak (c : ascii) : isDigit c = true -> notBreak c.
Proof. intros H. split; intros ->; discriminate. Qed.

Lemma lyric_notBreak (c : ascii) : lyricChar c = true -> notBreak c.
Proof. intros H. split; intros ->; discriminate. Qed.

Lemma lrcLineText_no_break (line : TimedLine.t) :
  exportableLine line -> Forall notBreak (chars (lrcLineText line)).
Proof.
  intros (Ht & Hge & Hlt & Hx).
  destruct (stamp_of_time _ Ht Hge Hlt)
    as (d1 & d2 & d3 & d4 & d5 & d6 & D1 & D2 & D3 & D4 & D5 & D6 & Etext & _).
  apply andb_true_iff in Hx as [Hch _]. rewrite forallb_forall in Hch.
  unfold lrcLineText. rewrite Etext.
  unfold str, chars. cbn [string_of_list_ascii append list_ascii_of_string].
  repeat (constructor; [first [now apply digit_notBreak
                              | split; intros E; discriminate]|]).
  apply Forall_forall. intros c Hc. apply lyric_notBreak. now apply Hch.
Qed.

Lemma chars_body (lines : list TimedLine.t) :
  chars (String.concat ""
           (map (fun line => lrcLineText line ++ Generate.nl)%string lines))
  = joined (map (fun line => chars (lrcLineText line)) lines).
Proof.
  induction lines as [|line lines IH]; [reflexivity|].
  unfold joined in *. cbn [map List.concat].
  rewrite <- IH. clear IH.
  destruct lines as [|line' lines].
  - cbn [map String.concat]. rewrite chars_app.
    change (chars Generate.nl) with [Lrc.LF]. change (chars "") with (@nil ascii).
    now rewrite app_nil_r.
  - cbn [map String.concat]. rewrite chars_app. cbn [append].
    rewrite chars_app. reflexivity.
Qed.

Section WithIds.
Variable randomId : Ids.supply.

Lemma lines_read_back (lines : list TimedLine.t) :
  Forall exportableLine lines ->
  forall st,
    lastIndex st = 0%nat ->
    exists ls n,
      fold_left (processLine randomId) (map lrcLineText lines) st
        = mkSt (Lrc.lines st ++ ls) (Lrc.metadata st) 0 n /\
      Forall2 readBack lines ls.
Proof.
  induction 1 as [|line lines Hline _ IH]; intros st Hli.
  - exists [], (nextId st). split; [|constructor].
    destruct st as [ls m li n]. cbn in *. subst li. now rewrite app_nil_r.
  - destruct Hline as (Ht & Hge & Hlt & Hx).
    destruct (lrcLine_read_back randomId st line Hli Ht Hge Hlt Hx)
      as (l & n & E & Hraw & Hvoice & Hq).
    cbn [map fold_left]. rewrite E.
    destruct (IH (mkSt (Lrc.lines st ++ [l]) (Lrc.metadata st) 0 n) eq_refl)
      as (ls & n' & E' & Hls).
    exists (l :: ls), n'. rewrite E'. cbn [Lrc.lines Lrc.metadata].
    rewrite <- app_assoc. split; [reflexivity|].
    constructor; [|exact Hls]. repeat split; assumption.
Qed.

(** A document whose metadata writes no tag line and whose lines are
    exportable comes back from [generateLRC] and [parseLRC] line by line:
    the parser sorts and completes a list with one line for each line of
    the document, in their order, each read back as described. *)
Theorem generateLRC_read_back (doc : LyricsDocument.t) :
  lrcHeader (LyricsDocument.metadata doc) = EmptyString ->
  Forall exportableLine (LyricsDocument.lines doc) ->
  exists ls,
    Forall2 readBack (LyricsDocument.lines doc) ls /\
    LyricsDocument.lines (parseLRC randomId (generateLRC doc))
      = inferEndTimes (JsArray.sort byStartTime ls).
Proof.
  intros Hhead Hlines.
  destruct (lines_read_back (LyricsDocument.lines doc) Hlines
              (mkSt [] initialMetadata 0 0) eq_refl)
    as (ls & n & E & Hls).
  exists ls. split; [exact Hls|].
  unfold parseLRC. cbn [LyricsDocument.lines]. do 2 f_equal.
  unfold scan, generateLRC. rewrite Hhead. cbn [append].
  set (body := String.concat "" _).
  rewrite <- (str_chars body). unfold body. rewrite chars_body.
  rewrite split_texts.
  - rewrite map_map.
    rewrite (map_ext _ lrcLineText) by (intros a; apply str_chars).
    rewrite fold_left_app, E. reflexivity.
  - apply Forall_map. eapply Forall_impl; [|exact Hlines].
    intros line. apply lrcLineText_no_break.
Qed.

End WithIds.

(** The document of two lines. *)
Lemma generateLRC_read_back_witness :
  exists ls,
    Forall2 readBack (LyricsDocument.lines sampleDoc) ls /\
    LyricsDocument.lines (parseLRC sampleIds (generateLRC sampleDoc))
      = inferEndTimes (JsArray.sort byStartTime ls).
Proof.
  assert (H : Forall exportableLine (LyricsDocument.lines sampleDoc)).
  { repeat constructor; vm_compute; reflexivity. }
  exact (generateLRC_read_back sampleIds sampleDoc eq_refl H).
Defined.

End ExportDocument.

(** ** The shift keeps the order of the lines *)

Module ShiftOrder.
Import Binary64 Semantics Shapes.
Import JsNumber JsString JsConv Codec Shift.
Import FloatFacts Props RoundFacts RoundTrip ShiftProps.

(** *** Rounding is monotone *)

Lemma rounds_grid (r : number) (N : Z) : rounds r N 1 -> onGrid (key r).
Proof.
  intros (Hn & Hf & _). apply (denotes_onGrid r). repeat split; assumption.
Qed.

Lemma rounds_mono (r1 r2 : number) (N1 N2 : Z) :
  rounds r1 N1 1 -> rounds r2 N2 1 -> N1 < N2 -> key r1 <= key r2.
Proof.
  intros R1 R2 Hlt.
  pose proof (rounds_grid _ _ R1) as G1. pose proof (rounds_grid _ _ R2) as G2.
  destruct R1 as (_ & _ & g1 & k1 & Hg1 & Hk1 & E1 & Herr1 & Hgrid1).
  destruct R2 as (_ & _ & g2 & k2 & Hg2 & Hk2 & E2 & Herr2 & Hgrid2).
  rewrite !Z.mul_1_r, !Z.mul_1_l in *.
  destruct (Z.le_gt_cases (key r1) (key r2)) as [|Hgt]; [assumption|exfalso].
  assert (P1 : 0 < 2 ^ g1) by (apply Z.pow_pos_nonneg; lia).
  assert (P2 : 0 < 2 ^ g2) by (apply Z.pow_pos_nonneg; lia).
  rewrite <- E1 in Herr1. rewrite <- E2 in Herr2.
  assert (Hd : 2 * (key r1 - key r2) <= 2 ^ g1 + 2 ^ g2 - 2) by lia.
  assert (S1 : 2 ^ (g1 + 52) = 2 ^ 52 * 2 ^ g1)
    by (rewrite Z.pow_add_r by lia; ring).
  assert (S2 : 2 ^ (g2 + 52) = 2 ^ 52 * 2 ^ g2)
    by (rewrite Z.pow_add_r by lia; ring).
  destruct (Z.le_gt_cases g1 g2) as [Hle|Hgt12].
  - assert (Hp : 2 ^ g1 <= 2 ^ g2) by (apply Z.pow_le_mono_r; lia).
    destruct Hgrid2 as [->|Hbig].
    + change (2 ^ 0) with 1 in *. lia.
    + assert (Hk : 2 ^ 52 <= k2).
      { assert (H : 2 ^ 53 * 2 ^ g2 <= (2 * k2 + 1) * 2 ^ g2).
        { change (2 ^ 53) with (2 * 2 ^ 52). lia. }
        apply Z.mul_le_mono_pos_r in H; [|assumption].
        change (2 ^ 53) with (2 * 2 ^ 52) in H. lia. }
      assert (Hr2 : 2 ^ (g2 + 52) <= key r2).
      { rewrite S2, E2. apply Z.mul_le_mono_nonneg_r; lia. }
      destruct (G1 g2 Hg2 ltac:(lia)) as [j Hj].
      assert (Hjk : k2 < j).
      { apply (Z.mul_lt_mono_pos_r (2 ^ g2)); [assumption|]. lia. }
      assert (Hstep : (k2 + 1) * 2 ^ g2 <= j * 2 ^ g2)
        by (apply Z.mul_le_mono_nonneg_r; lia).
      lia.
  - assert (Hp : 2 ^ g2 <= 2 ^ g1) by (apply Z.pow_le_mono_r; lia).
    destruct Hgrid1 as [->|Hbig]; [lia|].
    assert (Hr2 : 2 ^ (g1 + 52) <= key r2).
    { destruct (Z.le_gt_cases (2 ^ (g1 + 52)) (key r2)) as [|Hsmall];
        [assumption|exfalso].
      assert (SB : 2 ^ (g1 + 52) = 2 ^ (g1 + 52 - g2) * 2 ^ g2)
        by (rewrite <- Z.pow_add_r by lia; f_equal; lia).
      assert (Hk : k2 < 2 ^ (g1 + 52 - g2)).
      { apply (Z.mul_lt_mono_pos_r (2 ^ g2)); [assumption|]. lia. }
      assert (Hstep : (k2 + 1) * 2 ^ g2 <= 2 ^ (g1 + 52 - g2) * 2 ^ g2)
        by (apply Z.mul_le_mono_nonneg_r; lia).
      lia. }
    destruct (G2 g1 Hg1 Hr2) as [j Hj].
    assert (Hjk : j < k1).
    { apply (Z.mul_lt_mono_pos_r (2 ^ g1)); [assumption|]. lia. }
    assert (Hstep : (j + 1) * 2 ^ g1 <= k1 * 2 ^ g1)
      by (apply Z.mul_le_mono_nonneg_r; lia).
    lia.
Qed.

Lemma key_inj (x y : number) :
  nonNegative x -> nonNegative y ->
  isFinite x = true -> isFinite y = true -> key x = key y -> x = y.
Proof.
  intros Hx Hy Fx Fy E.
  pose proof (SFcompare_key x y (nonNegative_isTime _ Hx)
                (nonNegative_isTime _ Hy)) as C.
  rewrite E, Z.compare_refl in C.
  destruct Hx as [| |mx ex _ _], Hy as [| |my ey _ _]; try discriminate.
  - reflexivity.
  - cbn [SFcompare] in C.
    destruct (ex ?= ey) eqn:Ee; try discriminate.
    apply Z.compare_eq in Ee. injection C as C.
    apply Pos.compare_eq in C. now subst.
Qed.

(** *** The value of a shifted time *)

Lemma max_nonNegative (r : number) : nonNegative r -> max (ofZ 0) r = r.
Proof. intros [| |m e _ _]; reflexivity. Qed.

Lemma max_negative (r : number) : rounded true r -> max (ofZ 0) r = ofZ 0.
Proof. intros [| |m e _ _]; reflexivity. Qed.

Lemma shift_value (t o : number) :
  nonNegative t -> isFinite t = true -> wf o -> isFinite o = true ->
  key t + key o < 2 ^ 2097 ->
  (key t + key o < 0 /\ shiftTime o t = ofZ 0) \/
  (0 <= key t + key o /\ rounds (shiftTime o t) (key t + key o) 1).
Proof.
  intros Ht Ft Wo Fo Hb. unfold shiftTime.
  destruct Ht as [| |mx ex Hcx Hbx]; [|discriminate|];
    destruct o as [so|so| |so my ey]; try discriminate.
  - right. split; [cbn [key]; lia|].
    destruct so; apply rounds_zero; lia.
  - pose proof Wo as Wo'. apply wf_finite in Wo'. destruct Wo' as [Hcy Hby].
    pose proof (key_finite_pos my ey Hcy Hby) as Kp.
    destruct so.
    + left. split; [cbn [key cond_Zopp] in *; lia|reflexivity].
    + right. split; [cbn [key cond_Zopp] in *; lia|].
      change (max (ofZ 0) (add (S754_zero false) (S754_finite false my ey)))
        with (S754_finite false my ey).
      cbn [key]. rewrite Z.add_0_l. apply (rounds_self my ey Wo).
  - right.
    assert (Wt : wf (S754_finite false mx ex)) by (apply wf_finite; auto).
    pose proof (key_finite_pos mx ex Hcx Hbx) as Kp.
    split; [cbn [key cond_Zopp] in *; lia|].
    replace (max (ofZ 0) (add (S754_finite false mx ex) (S754_zero so)))
      with (S754_finite false mx ex) by (destruct so; reflexivity).
    cbn [key]. rewrite Z.add_0_r. apply (rounds_self mx ex Wt).
  - pose proof Wo as Wo'. apply wf_finite in Wo'. destruct Wo' as [Hcy Hby].
    pose proof (canonical_facts mx ex Hcx) as (Hex & _).
    pose proof (canonical_facts my ey Hcy) as (Hey & _).
    set (ez := Z.min ex ey).
    pose proof (aligned_key false mx ex ez ltac:(subst ez; lia)
                  ltac:(subst ez; lia)) as Kx.
    pose proof (aligned_key so my ey ez ltac:(subst ez; lia)
                  ltac:(subst ez; lia)) as Ky.
    assert (HW : 0 < 2 ^ (ez + 1074))
      by (apply Z.pow_pos_nonneg; subst ez; lia).
    unfold add. cbn [SFadd]. fold ez.
    set (z := cond_Zopp false (Zpos (fst (shl_align mx ex ez)))
              + cond_Zopp so (Zpos (fst (shl_align my ey ez)))) in *.
    assert (HN : key (S754_finite false mx ex) + key (S754_finite so my ey)
                 = z * 2 ^ (ez + 1074)).
    { rewrite <- Kx, <- Ky. unfold z. ring. }
    rewrite HN in *.
    destruct z as [|p|p] eqn:Ez.
    + right. split; [lia|]. cbn [binary_normalize]. rewrite Z.mul_0_l.
      change (max (ofZ 0) (S754_zero false)) with (S754_zero false).
      apply rounds_zero. lia.
    + right. split; [lia|].
      pose proof (binary_normalize_rounds (Zpos p) ez ltac:(lia)
                    ltac:(subst ez; lia) Hb) as R.
      rewrite max_nonNegative; [exact R|]. now destruct R.
    + left. split; [lia|]. cbn [binary_normalize].
      apply max_negative. apply binary_round_rounded.
Qed.

(** *** Times in range *)

Lemma zero_le (r : number) : nonNegative r -> le (ofZ 0) r = true.
Proof. intros [| |m e _ _]; reflexivity. Qed.

Lemma in_range (t : number) :
  withinRange t ->
  exists t', nonNegative t' /\ isFinite t' = true /\ key t' = key t /\
             key t < 2 ^ 32 * 2 ^ 1074 /\
             forall o, isFinite o = true -> shiftTime o t = shiftTime o t'.
Proof.
  intros ([Hwf Hnan] & Hge & Hlt).
  destruct t as [s|s| |s m e]; try discriminate.
  - exists (S754_zero false).
    assert (0 < 2 ^ 1074) by (apply Z.pow_pos_nonneg; lia).
    repeat split; try constructor; try (cbn [key]; lia).
    intros o Fo. destruct o as [so|so| |so my ey]; try discriminate;
      destruct s, so; reflexivity.
  - destruct s; discriminate.
  - destruct s; [discriminate|].
    exists (S754_finite false m e).
    pose proof Hwf as Hw. apply wf_finite in Hw. destruct Hw as [Hc Hb].
    assert (Hx : denotes (S754_finite false m e) (key (S754_finite false m e))).
    { split; [constructor; assumption|]. split; reflexivity. }
    repeat split; try (constructor; assumption).
    rewrite lt_key in Hlt;
      [|eapply denotes_isTime; eassumption
       |eapply denotes_isTime; apply ofZ_denotes; lia].
    destruct (ofZ_denotes 4294967296 ltac:(lia)) as (_ & _ & E).
    rewrite E in Hlt. apply Z.ltb_lt in Hlt.
    change (2 ^ 32) with 4294967296. exact Hlt.
Qed.

Lemma offset_bound (o : number) :
  offsetInRange o ->
  wf o /\ isFinite o = true /\ key o < 2 ^ 32 * 2 ^ 1074.
Proof.
  intros (Ht & Hf & Hlt). split; [apply Ht|]. split; [exact Hf|].
  rewrite lt_key in Hlt;
    [|exact Ht|eapply denotes_isTime; apply ofZ_denotes; lia].
  destruct (ofZ_denotes 4294967296 ltac:(lia)) as (_ & _ & E).
  rewrite E in Hlt. apply Z.ltb_lt in Hlt.
  change (2 ^ 32) with 4294967296. exact Hlt.
Qed.

Lemma shiftTime_mono (o t1 t2 : number) :
  offsetInRange o -> withinRange t1 -> withinRange t2 ->
  le t1 t2 = true ->
  le (shiftTime o t1) (shiftTime o t2) = true.
Proof.
  intros Ho H1 H2 Hle.
  destruct (offset_bound o Ho) as (Wo & Fo & Ko).
  assert (Hk : key t1 <= key t2).
  { rewrite (le_key _ _ (proj1 H1) (proj1 H2)) in Hle. now apply Z.leb_le. }
  destruct (in_range t1 H1) as (x1 & N1 & F1 & K1 & B1 & S1).
  destruct (in_range t2 H2) as (x2 & N2 & F2 & K2 & B2 & S2).
  rewrite (S1 o Fo), (S2 o Fo). rewrite <- K1, <- K2 in *.
  assert (Hlim : 2 ^ 32 * 2 ^ 1074 + 2 ^ 32 * 2 ^ 1074 <= 2 ^ 2097).
  { replace (2 ^ 32 * 2 ^ 1074 + 2 ^ 32 * 2 ^ 1074) with (2 ^ 1107)
      by (rewrite <- Z.pow_add_r by lia; change (32 + 1074) with 1106;
          change 1107 with (1106 + 1); rewrite (Z.pow_add_r 2 1106 1) by lia;
          lia).
    apply Z.pow_le_mono_r; lia. }
  destruct (shift_value x1 o N1 F1 Wo Fo ltac:(lia)) as [[L1 ->]|[P1 R1]],
           (shift_value x2 o N2 F2 Wo Fo ltac:(lia)) as [[L2 ->]|[P2 R2]].
  - reflexivity.
  - apply zero_le. now destruct R2.
  - lia.
  - assert (T1 : isTime (shiftTime o x1))
      by (apply nonNegative_isTime; now destruct R1).
    assert (T2 : isTime (shiftTime o x2))
      by (apply nonNegative_isTime; now destruct R2).
    rewrite (le_key _ _ T1 T2). apply Z.leb_le.
    destruct (Z.eq_dec (key x1) (key x2)) as [E|Hne].
    + rewrite (key_inj x1 x2 N1 N2 F1 F2 E). lia.
    + apply (rounds_mono _ _ _ _ R1 R2). lia.
Qed.

(** For an offset of either sign and lines whose start times are in
    range, the shift keeps the lines in ascending order of start time. *)
Theorem shiftTimestamps_keeps_order (doc : LyricsDocument.t) (o : number) :
  offsetInRange o ->
  Forall (fun l => withinRange (TimedLine.startTime l))
         (LyricsDocument.lines doc) ->
  ascending (LyricsDocument.lines doc) ->
  ascending (LyricsDocument.lines (shiftTimestamps doc o)).
Proof.
  intros Ho. unfold shiftTimestamps, ascending. cbn [LyricsDocument.lines].
  induction (LyricsDocument.lines doc) as [|l ls IH]; intros Hr Hs;
    cbn [map]; [constructor|].
  inversion Hr as [|? ? Hl Hls]; subst.
  cbn [map] in Hs. inversion Hs as [|? ? Hs' Hall]; subst.
  constructor; [now apply IH|].
  rewrite Forall_forall in *. intros t Ht.
  rewrite map_map in Ht. apply in_map_iff in Ht. destruct Ht as (l' & <- & Hin).
  cbn [shiftLine TimedLine.startTime].
  apply shiftTime_mono; [assumption|assumption|now apply Hls|].
  apply Hall. now apply in_map.
Qed.

Lemma inRange_spec (t : number) : inRange t = true -> withinRange t.
Proof.
  unfold inRange, withinRange, isTime, wf. intros H.
  apply andb_true_iff in H as [H Hlt]. apply andb_true_iff in H as [H Hge].
  apply andb_true_iff in H as [Hwf Hnan]. apply negb_true_iff in Hnan.
  auto.
Qed.

(** The two lines, at 1 and at 3 seconds, shifted by two seconds back. *)
Lemma shiftTimestamps_keeps_order_witness :
  ascending (LyricsDocument.lines (shiftTimestamps twoLineDoc (ofZ (-2)))).
Proof.
  assert (Ho : offsetInRange (ofZ (-2))).
  { split; [split; vm_compute; reflexivity|].
    split; vm_compute; reflexivity. }
  assert (Hb : forallb (fun l => inRange (TimedLine.startTime l))
                 (LyricsDocument.lines twoLineDoc) = true)
    by (vm_compute; reflexivity).
  assert (Hr : Forall (fun l => withinRange (TimedLine.startTime l))
                 (LyricsDocument.lines twoLineDoc)).
  { apply Forall_forall. intros l Hl. apply inRange_spec.
    exact (proj1 (forallb_forall _ _) Hb l Hl). }
  assert (Ha : ascending (LyricsDocument.lines twoLineDoc))
    by (unfold ascending; vm_compute; repeat constructor).
  exact (shiftTimestamps_keeps_order twoLineDoc (ofZ (-2)) Ho Hr Ha).
Defined.

End ShiftOrder.
